(* ===== verification/_CoqProject ===== *)
-Q . S2P
Prelude.v
Words.v
Floats.v
Sha.v
Io.v
GoStrings.v
FileSys.v
Encryption.v
Store.v
StoreSpec.v
Event.v
Middleware.v
PeerScore.v
SeenMessages.v
Json.v
Protocol.v
BlobStore.v
FileServer.v
Transfer.v
Connect.v
Delivery.v
Gossip.v
Discovery.v
Lifecycle.v
Observability.v
NodeSetup.v
Config.v
Operations.v
Daemon.v
CommandLine.v
EndToEnd.v
ServerSteps.v
