(* ===== verification/Prelude.v ===== *)
(** * p2p-storage: a verification development

    The program (a Go module) keeps files in a content-addressed, encrypted
    store, exchanges them with peers over libp2p streams, and finds them by
    flooding GET requests through the network.  The development is a shallow
    embedding of its code: pure functions as functions, state as records that
    are passed along, errors as [result] and [option], panics as [None],
    goroutines and networks as step relations.  Section [Bounds and fuel] below
    says where a model is bounded and why that is enough.

    ** Files, in dependency order

    - [Prelude]: bytes, Go slices, errors, results, time, tactics, list lemmas.
    - [Words]: machine words, big-endian encodings, wrap-around.
    - [Floats]: binary64, the operations of Go's [float64], with error bounds.
    - [Sha]: SHA-1 and SHA-256 as the standard library computes them, and hex.
    - [Io]: io.Reader and io.Writer as classes with laws, streams that deliver
      scripted pieces, io.Copy, io.ReadFull, io.LimitReader.
    - [GoStrings]: the functions of strings and path/filepath that are used.
    - [FileSys]: a file tree with path resolution and the os calls on it.
    - [Encryption] (internal/store/encryption.go): [encryptingWriter] and
      [decryptingReader] as instances of writer and reader; AES-GCM is the class
      [AEAD], crypto/rand the class [Entropy].
    - [Store] (internal/store/store.go): the store's operations on the file tree,
      the path of a key, the key file.
    - [StoreSpec]: the store refines a finite map.
    - [Event] (internal/event): the bus, its operations and its goroutines.
    - [Middleware] (internal/middleware, internal/core): rate limiter and limiter.
    - [PeerScore] (internal/network/peerscore.go): decaying scores of peers.
    - [SeenMessages] (internal/fileserver/seenmsgs.go, peerselector.go).
    - [Json]: encoding/json's printer and parser for the values that are used.
    - [Protocol] (internal/protocol): messages, payloads, request and reply.
    - [BlobStore]: the store as the server sees it, an interface with laws, which
      [Store] satisfies.
    - [FileServer] (internal/fileserver/fileserver.go, get.go): the state of the
      server, its peers, waiters, session, and the handlers of messages.
    - [Transfer] (transfer.go): the transfer streams, both ends.
    - [Connect] (fileserver.go): the loops that wait for connections.
    - [Delivery] (fileserver.go, get.go): storing to peers and to the network,
      delivering to a requester; two servers connected to each other.
    - [Gossip] (get.go): the network of servers as a step relation.
    - [Discovery] (internal/discovery, internal/network): bootstrap peers, the DHT
      search, mDNS, the manager, dialling what is announced.
    - [Lifecycle] (fileserver.go, internal/network/notifier.go): the connections,
      the bus, the loops of [Start] and the goroutines of [OnPeerConnect] as one
      transition system.
    - [Observability] (internal/observability): log lines and counters.
    - [NodeSetup] (internal/node): the identity and the options of the node.
    - [Config] (internal/config): YAML, defaults, overrides, conversions.
    - [Operations] (pkg/operations): starting a server, storing, sending, getting.
    - [Daemon] (pkg/operations/daemon.go, receive.go): the loops that pass events to
      a callback, over the runs of the bus.
    - [CommandLine] (cmd/node/main.go): the commands, from the configuration to the
      exit status, on a file system.
    - [EndToEnd]: a GET request from the requester to a holder and back.
    - [ServerSteps]: every operation that reaches a server, in any order, and the
      consumers of the events it publishes.

    ** How the parts interact

    A [FileServer] works on any [BlobStore]; the theorems on transfers, requests
    and operations are proved against [BlobStoreLaws] (a finite map from slots to
    contents), and [BlobStore.cas_BlobStoreLaws] proves the laws for the
    content-addressed store, from [StoreSpec].  Transfers read any [Reader] and
    write to any [Writer]; the laws of the encrypting writer and the decrypting
    reader are proved in [Encryption].  Requests reach a server through
    [Protocol.handleStream] and its reply comes back through [Protocol.Send];
    [Delivery.store_to_peer_end_to_end] composes both with a transfer between two
    servers.  [Lifecycle] joins the server to the bus and the connections, [Daemon]
    the loops to the bus, [ServerSteps] all operations of a server to one another,
    and [CommandLine] runs the operations over the store on the file system, in
    one process after another.  libp2p is the classes [Host] (streams to peers), [Node] (addresses,
    connectedness, which may change with time) and [Dialer].

    ** What the theorems show

    - Data at rest: what is written through the encryption is read back, the
      reader delivers exactly what a specification of the format allows, and the
      store is a finite map, failed writes included.
    - Data in motion: messages and files survive being cut into pieces in any
      way; a file stored to a peer is the peer's file once the peer has handled
      the bytes the sender wrote; a [get] that reaches a holder ends with exactly
      the holder's bytes in its output file; deliveries use direct connections
      only.
    - The server: whatever reaches it, in any order, it does not panic and stays
      consistent, and every event it publishes has the type its consumers assert;
      a waiter gets one result; the peers registered are the ones connected; what
      is accepted, forwarded and refused.
    - The commands: what one process stores a later one finds; the loop of [get] is
      the library's [WaitForGet]; the loops of the daemon and of the receive
      session pass on every event once and in order.
    - Scores: no score overflows or becomes NaN; the best peers are the best, by
      the scores at their turns while the clock runs on.
    - The network: floods end, requests travel unchanged.
    - Limits: the rate limiter admits exactly the limit in every window, a
      message id is accepted once within its window (unless empty ids come in),
      retries and waits are bounded.
    - Concurrency: the bus never sends on a closed channel.
    - Set-up: what the command line asks for is what runs, a node keeps its
      identity, every service is started once.
    - Errors of the program, each proved on the model: a partial file served
      as complete, a transfer that needs no negotiation, a delivery that hangs, a
      subscriber that deadlocks the bus, a daemon stopped by a short message id,
      [store] failing when a peer is connected, a path through a file that makes
      the commands panic, a peer that stays registered after it has gone, a daemon
      without a callback that blocks every publisher, settings without effect.

    ** Bounds and fuel

    - Copying loops run on the number of bytes and pieces left in the reader
      ([rd_size]); the laws of readers make that enough, so that [io_Copy_ok] and
      [io_ReadFull_ok] state the result without a fuel hypothesis; [ErrFuel] is
      never returned.
    - The JSON parser runs on the length of its input; [parse_print] needs no
      other bound than Go's nesting depth.
    - Waiting loops ([Connect], [Operations.WaitForPeers]) run with the number of
      ticks as fuel; [circuit_connect_bounded] says how many are enough, and
      [delivery_never_returns] that no number is.
    - [retry_loop] runs on the attempts that are left, as the code does.
    - Integers are unbounded except where the width matters: lengths and sizes on
      the wire, TTLs, counters, durations and their differences.

    ** What is not modelled

    - libp2p, its DHT and mDNS services, the YAML parser and AES-GCM, which are
      not part of the repository: they are classes and arguments.
    - Permissions, symbolic links, concurrent changes and full disks of the file
      system.
    - Deadlines inside a stream: a stream that times out is one that ends with
      [ErrDeadline].
    - Interleavings of the server's handlers: each runs as one step, as under its
      locks; the bus, the network and [OnPeerConnect] are the exceptions.  In the
      handlers a publication goes through; that [Publish] waits for a full
      subscriber is the subject of [Event], [Lifecycle] and [Daemon].
    - The parsing of arguments and flags (cobra), progress bars (mpb), the addresses
      and hints the commands print, and the text of an error that is printed. *)
From stdpp Require Export base tactics list list_numbers gmap strings fin_maps.
From stdpp Require Export numbers option.
From Stdlib Require Export Strings.Byte.
From stdpp Require Export list.
Export list_basics.list list_relations.list list_monad.list list_misc.list list_numbers.list.

#[global] Open Scope Z_scope.

(** ** Bytes and Go's [len]

    A Go [string] is an immutable byte sequence: it is modelled by Rocq's
    [string] (whose characters are eight bits wide); a [[]byte] is a
    [list byte].  Go's [int] and [int64] values are integers of [Z]; where the
    width matters the wrap-around is written out (file [Words.v]). *)
Abbreviation bytes := (list byte).

#[export] Instance byte_eq_dec : EqDecision byte := Byte.byte_eq_dec.

Definition zlen {A} (l : list A) : Z := Z.of_nat (length l).

Definition bytes_of_string : string -> bytes := String.list_byte_of_string.
Definition string_of_bytes : bytes -> string := String.string_of_list_byte.

(** Go's [s[i:j]]; [None] is the run-time panic of an out-of-range slice
    expression (for strings, and for slices whose capacity is their length). *)
Definition go_slice {A} (l : list A) (i j : Z) : option (list A) :=
  if decide (0 <= i /\ i <= j /\ j <= zlen l)
  then Some (take (Z.to_nat (j - i)) (drop (Z.to_nat i) l))
  else None.

(** ** Errors

    The sentinel errors the code compares with [==] or [os.IsNotExist], the
    errors of the operating system, and [fmt.Errorf] messages with the error
    they wrap.  [Wrap msg e] is never [==] to [e], as in Go. *)
Inductive goerr :=
| EOF                    (* io.EOF *)
| ErrUnexpectedEOF       (* io.ErrUnexpectedEOF *)
| ErrShortWrite          (* io.ErrShortWrite *)
| ErrNotExist            (* fs.ErrNotExist, ENOENT *)
| ErrNotDir              (* ENOTDIR *)
| ErrIsDir               (* EISDIR *)
| ErrNotEmpty            (* ENOTEMPTY *)
| ErrInvalid             (* EINVAL *)
| ErrBusy                (* EBUSY *)
| ErrDeadline            (* context.DeadlineExceeded, a stream deadline *)
| ErrCanceled            (* context.Canceled *)
| ErrRelayedConnection
| ErrSessionRejected
| ErrFileAlreadyExists
| ErrFuel                (* a loop of the model ran out of fuel; never returned *)
| Errorf (msg : string)
| Wrap (msg : string) (e : goerr).

#[export] Instance goerr_eq_dec : EqDecision goerr.
Proof. solve_decision. Defined.

(** [os.IsNotExist] does not look through [fmt.Errorf]'s wrapping. *)
Definition os_IsNotExist (e : option goerr) : bool :=
  match e with Some ErrNotExist => true | _ => false end.

(** ** Results: Go's [(value, error)] pairs *)
Inductive result (A : Type) :=
| Ok (a : A)
| Err (e : goerr).
Arguments Ok {A} _.
Arguments Err {A} _.

#[export] Instance result_eq_dec `{EqDecision A} : EqDecision (result A).
Proof. solve_decision. Defined.

#[export] Instance result_ret : MRet result := fun _ a => Ok a.
#[export] Instance result_bind : MBind result := fun _ _ f m =>
  match m with Ok a => f a | Err e => Err e end.
#[export] Instance result_fmap : FMap result := fun _ _ f m =>
  match m with Ok a => Ok (f a) | Err e => Err e end.

(** [fmt.Errorf("msg: %w", err)] on the error path. *)
Definition wrap_err {A} (msg : string) (m : result A) : result A :=
  match m with Ok a => Ok a | Err e => Err (Wrap msg e) end.

Declare Scope go_scope.
Delimit Scope go_scope with go.
Notation "m 'orwrap' msg" := (wrap_err msg m) (at level 55) : go_scope.
#[global] Open Scope go_scope.

(** ** Time

    [time.Time] is a point of a monotonic clock in nanoseconds, a
    [time.Duration] an [int64] of nanoseconds. *)
Abbreviation time := Z.
Abbreviation duration := Z.

Definition min_int64 : Z := - 2 ^ 63.
Definition max_int64 : Z := 2 ^ 63 - 1.

(** [t.Sub(u)] saturates at the ends of [int64]. *)
Definition time_sub (t u : time) : duration :=
  Z.max min_int64 (Z.min max_int64 (t - u)).

Definition Nanosecond : duration := 1.
Definition Millisecond : duration := 1000000.
Definition Second : duration := 1000 * Millisecond.
Definition Minute : duration := 60 * Second.

(** ** Automation *)
Create HintDb go.
Create Rewrite HintDb go.

(** Split the goal on the innermost [match] or [decide] and clean up. *)
Ltac split_match := repeat (case_match; simplify_eq/=).
Ltac split_decide := repeat (case_decide; simplify_eq/=).

(** Turn boolean tests of hypotheses and goal into propositions. *)
Ltac breflect :=
  repeat match goal with
  | H : (_ && _) = true |- _ => apply andb_prop in H; destruct H
  | H : (_ || _) = false |- _ => apply orb_false_iff in H; destruct H
  | H : negb _ = true |- _ => apply negb_true_iff in H
  | H : negb _ = false |- _ => apply negb_false_iff in H
  | H : (_ <? _) = true |- _ => apply Z.ltb_lt in H
  | H : (_ <? _) = false |- _ => apply Z.ltb_ge in H
  | H : (_ <=? _) = true |- _ => apply Z.leb_le in H
  | H : (_ <=? _) = false |- _ => apply Z.leb_gt in H
  | H : (_ =? _) = true |- _ => apply Z.eqb_eq in H
  | H : (_ =? _) = false |- _ => apply Z.eqb_neq in H
  | H : bool_decide _ = true |- _ => apply bool_decide_eq_true in H
  | H : bool_decide _ = false |- _ => apply bool_decide_eq_false in H
  end.

(** Arithmetic over list lengths. *)
Ltac len :=
  unfold zlen in *; repeat progress (rewrite ?length_app, ?length_take,
    ?length_drop, ?length_nil, ?length_cons, ?length_map, ?length_replicate in *);
  simpl length in *; lia.

(** Arithmetic with division and remainder by constants. *)
Ltac divlia := Z.to_euclidean_division_equations; lia.

(** ** Generic lemmas *)
Lemma zlen_nil {A} : zlen (@nil A) = 0.
Proof. done. Qed.
Lemma zlen_cons {A} (x : A) l : zlen (x :: l) = 1 + zlen l.
Proof. len. Qed.
Lemma zlen_app {A} (l k : list A) : zlen (l ++ k) = zlen l + zlen k.
Proof. len. Qed.
Lemma zlen_nonneg {A} (l : list A) : 0 <= zlen l.
Proof. len. Qed.
Lemma zlen_zero {A} (l : list A) : zlen l = 0 <-> l = [].
Proof. destruct l; simpl; split; intros; [done|done|len|done]. Qed.
Lemma zlen_take {A} n (l : list A) : 0 <= n <= zlen l -> zlen (take (Z.to_nat n) l) = n.
Proof. intros. len. Qed.

#[export] Hint Rewrite @zlen_nil @zlen_cons @zlen_app : go.
#[export] Hint Resolve zlen_nonneg : go.

Lemma string_of_bytes_of_string s : string_of_bytes (bytes_of_string s) = s.
Proof. apply String.string_of_list_byte_of_string. Qed.
Lemma bytes_of_string_of_bytes b : bytes_of_string (string_of_bytes b) = b.
Proof. apply String.list_byte_of_string_of_list_byte. Qed.
#[export] Hint Rewrite string_of_bytes_of_string bytes_of_string_of_bytes : go.

#[export] Instance bytes_of_string_inj : Inj (=) (=) bytes_of_string.
Proof.
  intros s t H. by rewrite <-(string_of_bytes_of_string s), H, string_of_bytes_of_string.
Qed.

Lemma go_slice_some {A} (l : list A) i j :
  0 <= i -> i <= j -> j <= zlen l ->
  go_slice l i j = Some (take (Z.to_nat (j - i)) (drop (Z.to_nat i) l)).
Proof. intros. unfold go_slice. by rewrite decide_True. Qed.

Lemma time_sub_exact t u :
  min_int64 <= t - u <= max_int64 -> time_sub t u = t - u.
Proof. unfold time_sub. lia. Qed.

Lemma time_sub_pos t u : 0 <= t - u -> 0 <= time_sub t u.
Proof. unfold time_sub, min_int64, max_int64. lia. Qed.

Lemma time_sub_lt t u d :
  d <= max_int64 -> min_int64 < d -> time_sub t u < d <-> t - u < d.
Proof. unfold time_sub, min_int64, max_int64. lia. Qed.

Lemma result_bind_ok {A B} (m : result A) (f : A -> result B) b :
  m ≫= f = Ok b <-> exists a, m = Ok a /\ f a = Ok b.
Proof. destruct m; simpl; naive_solver. Qed.

Lemma take_drop_length {A} n (l : list A) :
  take n l ++ drop (length (take n l)) l = l.
Proof.
  rewrite length_take. destruct (Nat.min_spec n (length l)) as [[? ->]|[? ->]].
  - apply take_drop.
  - by rewrite take_ge, drop_all, app_nil_r by lia.
Qed.
