(* ===== verification/Words.v ===== *)
(** Machine words: unsigned and signed wrap-around at a given width, the
    big-endian encodings of [encoding/binary], and [encoding/hex]. *)
From S2P Require Import Prelude.

(** ** Wrap-around *)
Definition wrap_u (w z : Z) : Z := z mod 2 ^ w.
Definition wrap_s (w z : Z) : Z := (z + 2 ^ (w - 1)) mod 2 ^ w - 2 ^ (w - 1).

Definition byte_of_Z (z : Z) : byte :=
  match Byte.of_N (Z.to_N (wrap_u 8 z)) with Some b => b | None => x00 end.
Definition Z_of_byte (b : byte) : Z := Z.of_N (Byte.to_N b).

(** ** [binary.BigEndian]

    [be_put n z] is the [n] bytes written by [PutUint16], [PutUint32] and
    [PutUint64] for [n] = 2, 4, 8 (the high bits of [z] are cut off, as by the
    conversion to the unsigned type); [be_get] reads them back. *)
Fixpoint be_put (n : nat) (z : Z) : bytes :=
  match n with
  | O => []
  | S n => byte_of_Z (Z.shiftr z (8 * Z.of_nat n)) :: be_put n z
  end.

Definition be_get (b : bytes) : Z :=
  foldl (fun acc x => acc * 256 + Z_of_byte x) 0 b.

(** ** [hex.EncodeToString] *)
Definition hex_digit (n : Z) : byte :=
  byte_of_Z (if n <? 10 then 48 + n else 87 + n).

Fixpoint hex_encode (b : bytes) : bytes :=
  match b with
  | [] => []
  | x :: b => hex_digit (Z_of_byte x / 16) :: hex_digit (Z_of_byte x mod 16) :: hex_encode b
  end.

(** The characters [hex_encode] produces. *)
Definition is_hex (c : byte) : bool :=
  let z := Z_of_byte c in
  ((48 <=? z) && (z <=? 57)) || ((97 <=? z) && (z <=? 102)).

(** ** Lemmas *)
Lemma Z_of_byte_range b : 0 <= Z_of_byte b < 256.
Proof. pose proof (Byte.to_N_bounded b). unfold Z_of_byte. lia. Qed.

Lemma wrap_u_range w z : 0 <= w -> 0 <= wrap_u w z < 2 ^ w.
Proof. intros. apply Z.mod_pos_bound. by apply Z.pow_pos_nonneg. Qed.

Lemma wrap_u_small w z : 0 <= z < 2 ^ w -> wrap_u w z = z.
Proof. apply Z.mod_small. Qed.

Lemma wrap_s_small w z : - 2 ^ (w - 1) <= z < 2 ^ (w - 1) -> 0 < w -> wrap_s w z = z.
Proof.
  intros Hz Hw. unfold wrap_s.
  assert (2 ^ w = 2 * 2 ^ (w - 1)) by (rewrite <-Z.pow_succ_r by lia; f_equal; lia).
  rewrite Z.mod_small; lia.
Qed.

Lemma Z_of_byte_of_Z z : Z_of_byte (byte_of_Z z) = z mod 256.
Proof.
  unfold byte_of_Z, Z_of_byte. pose proof (wrap_u_range 8 z ltac:(lia)) as Hr.
  change (2 ^ 8) with 256 in Hr.
  destruct (Byte.of_N _) as [b|] eqn:Hb.
  - apply Byte.to_of_N in Hb. rewrite Hb, Z2N.id by lia. done.
  - apply Byte.of_N_None_iff in Hb. lia.
Qed.

Lemma Z_of_byte_inj : Inj (=) (=) Z_of_byte.
Proof.
  intros a b H. unfold Z_of_byte in H. apply N2Z.inj in H.
  pose proof (Byte.of_to_N a). pose proof (Byte.of_to_N b). congruence.
Qed.
#[export] Existing Instance Z_of_byte_inj.

Lemma byte_of_Z_of_byte b : byte_of_Z (Z_of_byte b) = b.
Proof.
  apply Z_of_byte_inj. rewrite Z_of_byte_of_Z.
  apply Z.mod_small, Z_of_byte_range.
Qed.

Lemma length_be_put n z : length (be_put n z) = n.
Proof. induction n; simpl; auto. Qed.

Lemma foldl_be_shift b acc :
  foldl (fun acc x => acc * 256 + Z_of_byte x) acc b = acc * 256 ^ zlen b + be_get b.
Proof.
  revert acc. induction b as [|x b IH]; intros acc.
  { rewrite zlen_nil. unfold be_get. simpl. lia. }
  unfold be_get. cbn [foldl]. rewrite IH, (IH (0 * 256 + _)), zlen_cons, Z.pow_add_r by len.
  lia.
Qed.

Lemma be_get_cons x b : be_get (x :: b) = Z_of_byte x * 256 ^ zlen b + be_get b.
Proof. unfold be_get at 1. cbn [foldl]. by rewrite foldl_be_shift. Qed.

Lemma be_get_range b : 0 <= be_get b < 256 ^ zlen b.
Proof.
  induction b as [|x b IH]; [done|].
  rewrite be_get_cons, zlen_cons, Z.pow_add_r by len.
  pose proof (Z_of_byte_range x). nia.
Qed.

(** Reading back what was written gives the value modulo the width. *)
Lemma be_get_put n z : be_get (be_put n z) = wrap_u (8 * Z.of_nat n) z.
Proof.
  unfold wrap_u. revert z. induction n as [|n IH]; intros z.
  { simpl. by rewrite Z.mod_1_r. }
  cbn [be_put]. rewrite be_get_cons, IH, Z_of_byte_of_Z.
  unfold zlen. rewrite length_be_put, Z.shiftr_div_pow2 by lia.
  replace (256 ^ Z.of_nat n) with (2 ^ (8 * Z.of_nat n))
    by (rewrite Z.pow_mul_r by lia; done).
  replace (8 * Z.of_nat (S n)) with (8 * Z.of_nat n + 8) by lia.
  rewrite Z.pow_add_r by lia. change (2 ^ 8) with 256.
  assert (0 < 2 ^ (8 * Z.of_nat n)) by (apply Z.pow_pos_nonneg; lia).
  rewrite Z.rem_mul_r by lia. lia.
Qed.

Lemma be_get_put_small n z : 0 <= z < 2 ^ (8 * Z.of_nat n) -> be_get (be_put n z) = z.
Proof. intros. by rewrite be_get_put, wrap_u_small. Qed.

Lemma zlen_be_put n z : zlen (be_put n z) = Z.of_nat n.
Proof. unfold zlen. by rewrite length_be_put. Qed.

#[export] Hint Rewrite length_be_put zlen_be_put : go.

Lemma length_hex_encode b : length (hex_encode b) = (2 * length b)%nat.
Proof. induction b; simpl; lia. Qed.

Lemma hex_digit_is_hex n : 0 <= n < 16 -> is_hex (hex_digit n) = true.
Proof.
  intros Hn. unfold is_hex, hex_digit. rewrite Z_of_byte_of_Z.
  case_match; breflect; rewrite Z.mod_small by lia; lia.
Qed.

Lemma hex_encode_is_hex b : Forall (fun c => is_hex c = true) (hex_encode b).
Proof.
  induction b as [|x b IH]; simpl; [constructor|].
  pose proof (Z_of_byte_range x).
  repeat apply Forall_cons_2; auto; apply hex_digit_is_hex; divlia.
Qed.

Lemma hex_digit_inj m n : 0 <= m < 16 -> 0 <= n < 16 -> hex_digit m = hex_digit n -> m = n.
Proof.
  intros Hm Hn H. apply (f_equal Z_of_byte) in H. revert H.
  unfold hex_digit. rewrite !Z_of_byte_of_Z.
  repeat case_match; breflect; rewrite !Z.mod_small by lia; lia.
Qed.

#[export] Instance hex_encode_inj : Inj (=) (=) hex_encode.
Proof.
  intros a. induction a as [|x a IH]; intros [|y b] H; try done.
  injection H as H1 H2 H3.
  pose proof (Z_of_byte_range x). pose proof (Z_of_byte_range y).
  apply hex_digit_inj in H1; [|divlia..]. apply hex_digit_inj in H2; [|divlia..].
  f_equal; [apply Z_of_byte_inj; divlia | by apply IH].
Qed.

Arguments be_put : simpl never.
Arguments be_get : simpl never.
