(* ===== verification/Floats.v ===== *)
(** Floating point: Go's [float64] as IEEE 754 binary64 ([SpecFloat] with 53 bits
    of precision), the operations the program uses, and bounds on their results.

    The value of a finite float is measured in units of [2^-2148], fine enough
    for the exact products of two floats; [fmag] is its magnitude.  The rounded
    result of an operation stays below every float its exact result stays below
    ([round_bound]). *)
From S2P Require Import Prelude.
From Stdlib Require Import SpecFloat.

Abbreviation float64 := spec_float.

Definition f_add : float64 -> float64 -> float64 := SFadd 53 1024.
Definition f_sub : float64 -> float64 -> float64 := SFsub 53 1024.
Definition f_mul : float64 -> float64 -> float64 := SFmul 53 1024.
Definition f_div : float64 -> float64 -> float64 := SFdiv 53 1024.

(** [float64(z)], and a constant [p / q]. *)
Definition f_of_Z (z : Z) : float64 := binary_normalize 53 1024 z 0 false.
Definition f_const (p q : Z) : float64 := f_div (f_of_Z p) (f_of_Z q).

Definition f_zero : float64 := S754_zero false.
Definition f_one : float64 := f_of_Z 1.
Definition f_gtb (x y : float64) : bool := SFltb y x.

(** [int64(x)]: towards zero; out of range it is what amd64 computes. *)
Definition f_trunc (x : float64) : Z :=
  match x with
  | S754_zero _ => 0
  | S754_finite s m e =>
      let z := cond_Zopp s (if 0 <=? e then Zpos m * 2 ^ e else Zpos m / 2 ^ (- e)) in
      if (min_int64 <=? z) && (z <=? max_int64) then z else min_int64
  | _ => min_int64
  end.

(** ** Values *)
Definition unit_exp : Z := 2148.

Definition fmag (x : float64) : Z :=
  match x with S754_finite _ m e => Zpos m * 2 ^ (e + unit_exp) | _ => 0 end.
Definition fsign (x : float64) : bool :=
  match x with S754_zero s | S754_infinity s | S754_finite s _ _ => s | S754_nan => false end.
Definition fval (x : float64) : Z := cond_Zopp (fsign x) (fmag x).

(** Finite, in the canonical form. *)
Definition is_fin (x : float64) : bool :=
  match x with
  | S754_zero _ => true
  | S754_finite _ m e => SpecFloat.bounded 53 1024 m e
  | _ => false
  end.

Abbreviation fexp64 := (fexp 53 1024).

Lemma fexp64_eq e : fexp64 e = Z.max (e - 53) (-1074).
Proof. reflexivity. Qed.

Lemma digits2_pos_log m : Zpos (digits2_pos m) = Z.log2 (Zpos m) + 1.
Proof.
  induction m as [m IH|m IH|]; cbn [digits2_pos]; [..|done]; rewrite Pos2Z.inj_succ, IH.
  - rewrite Pos2Z.inj_xI, Z.log2_succ_double by done. lia.
  - rewrite Pos2Z.inj_xO, Z.log2_double by done. lia.
Qed.

Lemma Zdigits2_spec m : 0 < m -> 2 ^ (Zdigits2 m - 1) <= m < 2 ^ Zdigits2 m /\ 0 < Zdigits2 m.
Proof.
  intros Hm. destruct m as [|m|]; try lia. cbn [Zdigits2]. rewrite digits2_pos_log.
  pose proof (Z.log2_spec (Zpos m) Hm) as Hl. pose proof (Z.log2_nonneg (Zpos m)).
  replace (Z.log2 _ + 1 - 1) with (Z.log2 (Zpos m)) by lia. rewrite <-Z.add_1_r in Hl. lia.
Qed.

Lemma Zdigits2_le m d : 0 <= m -> 0 <= d -> m < 2 ^ d -> Zdigits2 m <= d.
Proof.
  intros H0 Hd Hm. destruct (Z.eq_dec m 0) as [->|]; [done|].
  destruct (Zdigits2_spec m) as [[Hl _] Hp]; [lia|].
  destruct (Z.le_gt_cases (Zdigits2 m) d); [done|].
  pose proof (Z.pow_le_mono_r 2 d (Zdigits2 m - 1)). lia.
Qed.

Lemma Zdigits2_ge m d : 0 <= d -> 2 ^ (d - 1) <= m -> 0 < m -> d <= Zdigits2 m.
Proof.
  intros Hd Hm H0. destruct (Zdigits2_spec m H0) as [[_ Hu] Hp].
  destruct (Z.le_gt_cases d (Zdigits2 m)); [done|].
  pose proof (Z.pow_le_mono_r 2 (Zdigits2 m) (d - 1)). lia.
Qed.

(** ** Shifting right *)
Lemma iter_pos_ind {A} (f : A -> A) (I : Z -> A -> Prop) p k x :
  (forall k x, I k x -> 0 <= k -> I (k + 1) (f x)) -> 0 <= k -> I k x -> I (k + Zpos p) (iter_pos f p x).
Proof.
  intros Hf. revert k x. induction p as [p IH|p IH|]; intros k x Hk Hx; cbn [iter_pos].
  - replace (k + Zpos p~1) with ((k + 1) + Zpos p + Zpos p) by lia.
    apply IH; [lia|]. apply IH; [lia|]. by apply Hf.
  - replace (k + Zpos p~0) with (k + Zpos p + Zpos p) by lia. apply IH; [lia|]. by apply IH.
  - by apply Hf.
Qed.

Definition exact_record (r : shr_record) : bool := negb (shr_r r || shr_s r).

(** What is left of [m0] (and of a remainder unless [ex0]) after [k] shifts. *)
Definition shifted (m0 : Z) (ex0 : bool) (k : Z) (r : shr_record) : Prop :=
  shr_m r = m0 / 2 ^ k /\ (ex0 = true -> m0 mod 2 ^ k = 0 -> exact_record r = true).

Lemma div_pow2_succ m k : 0 <= k -> m / 2 ^ (k + 1) = m / 2 ^ k / 2.
Proof. intros. by rewrite Z.pow_add_r, Z.div_div by lia. Qed.

Lemma mod_pow2_succ m k :
  0 <= k -> m mod 2 ^ (k + 1) = 0 -> m mod 2 ^ k = 0 /\ (m / 2 ^ k) mod 2 = 0.
Proof.
  intros ?. rewrite Z.pow_add_r, Z.rem_mul_r by lia. change (2 ^ 1) with 2.
  assert (0 <= m mod 2 ^ k) by (apply Z.mod_pos_bound; lia).
  assert (0 <= (m / 2 ^ k) mod 2) by (apply Z.mod_pos_bound; lia).
  assert (0 < 2 ^ k) by lia. nia.
Qed.

Lemma shr_1_shifted m0 ex0 k r :
  0 <= m0 -> 0 <= k -> shifted m0 ex0 k r -> shifted m0 ex0 (k + 1) (shr_1 r).
Proof.
  intros H0 Hk [Hm He].
  assert (0 <= m0 / 2 ^ k) as Hd by (apply Z.div_pos; lia).
  assert (shr_m (shr_1 r) = m0 / 2 ^ k / 2
    /\ (exact_record r = true -> (m0 / 2 ^ k) mod 2 = 0 -> exact_record (shr_1 r) = true)) as [Hm1 He1].
  { rewrite <-Hm. rewrite <-Hm in Hd. clear Hm He H0 Hk. destruct r as [q r t]. cbn [shr_m] in Hd.
    destruct q as [|[p|p|]|p]; [| | | |lia]; cbn [shr_1 shr_m]; unfold exact_record; cbn [shr_r shr_s orb].
    all: split; [divlia|destruct r, t; cbn [orb negb]; intros; (done || divlia)]. }
  split; [by rewrite Hm1, div_pow2_succ|]. intros Hx [H1 H2]%mod_pow2_succ; [|done]. auto.
Qed.

Definition is_exact (l : location) : bool := match l with loc_Exact => true | _ => false end.

Lemma shr_shifted m l e n :
  0 <= m -> 0 <= n ->
  exists r, shr (shr_record_of_loc m l) e n = (r, e + n) /\ shifted m (is_exact l) n r.
Proof.
  intros Hm Hn.
  assert (shifted m (is_exact l) 0 (shr_record_of_loc m l)) as H0.
  { by destruct l as [|[]]; (split; [by rewrite Z.div_1_r|]). }
  destruct n as [|p|]; cbn [shr]; [rewrite Z.add_0_r; eauto| |done].
  eexists. split; [done|]. change (Zpos p) with (0 + Zpos p). apply iter_pos_ind; [|done|done].
  intros k x Hx Hk. by apply shr_1_shifted.
Qed.

(** Rounding goes up by one at most, and only if something was cut off. *)
Lemma round_shifted m ex k r :
  shifted m ex k r ->
  exists q, round_nearest_even (shr_m r) (loc_of_shr_record r) = q
    /\ (q = m / 2 ^ k \/ q = m / 2 ^ k + 1 /\ ~ (ex = true /\ m mod 2 ^ k = 0)).
Proof.
  intros [Hm He]. eexists. split; [done|]. rewrite <-Hm.
  destruct r as [q [] []]; cbn in *; try case_match; try (by left); right; (split; [done|]);
    intros [H1 H2]; by specialize (He H1 H2).
Qed.

(** ** The bound on rounding *)
Definition ulp_up (l : location) : Z := if is_exact l then 0 else 1.

Lemma pow2_scale e e' : - unit_exp <= e -> e <= e' -> 2 ^ (e' + unit_exp) = 2 ^ (e' - e) * 2 ^ (e + unit_exp).
Proof. intros. rewrite <-Z.pow_add_r by lia. f_equal. lia. Qed.

Lemma pow2_pos n : 0 <= n -> 0 < 2 ^ n.
Proof. lia. Qed.

Lemma is_fin_finite s m e :
  is_fin (S754_finite s m e) = true <->
  fexp64 (Zdigits2 (Zpos m) + e) = e /\ e <= 971.
Proof.
  cbn [is_fin]. unfold SpecFloat.bounded, canonical_mantissa. change (1024 - 53) with 971.
  rewrite andb_true_iff, Z.eqb_eq, Z.leb_le. done.
Qed.

(** Canonical floats have at most 53 digits and no exponent below -1074. *)
Lemma canonical_digits m e :
  fexp64 (Zdigits2 (Zpos m) + e) = e -> -1074 <= e /\ Zpos m < 2 ^ 53 /\ Zdigits2 (Zpos m) <= 53.
Proof.
  rewrite fexp64_eq. intros He. destruct (Zdigits2_spec (Zpos m)) as [[_ Hu] Hp]; [done|].
  split; [lia|]. assert (Zdigits2 (Zpos m) <= 53) as Hd by lia. split; [|done].
  eapply Z.lt_le_trans; [exact Hu|]. apply Z.pow_le_mono_r; lia.
Qed.

(** A number below a canonical float is rounded to a grid that is not coarser. *)
Lemma grid_le m e l mM eM :
  0 <= m -> - unit_exp <= e -> fexp64 (Zdigits2 (Zpos mM) + eM) = eM ->
  0 < m + ulp_up l -> (m + ulp_up l) * 2 ^ (e + unit_exp) <= Zpos mM * 2 ^ (eM + unit_exp) ->
  fexp64 (Zdigits2 m + e) <= eM.
Proof.
  intros Hm He Hc Hpos Hle. pose proof (canonical_digits _ _ Hc) as (HeM & _ & _).
  destruct (Zdigits2_spec (Zpos mM)) as [[_ HuM] HpM]; [done|].
  assert (Zdigits2 m + e <= Zdigits2 (Zpos mM) + eM); [|rewrite <-Hc, !fexp64_eq in *; lia].
  assert (exists d, 0 <= d /\ Zdigits2 m <= d + 1 /\ 2 ^ d <= m + ulp_up l) as (d & Hd & Hdm & Hdu).
  { assert (0 <= ulp_up l) by (unfold ulp_up; case_match; lia).
    destruct (Z.eq_dec m 0) as [->|]; [exists 0; cbn [Zdigits2]; lia|].
    destruct (Zdigits2_spec m) as [[Hl _] Hp]; [lia|]. exists (Zdigits2 m - 1). lia. }
  assert (2 ^ (d + (e + unit_exp)) < 2 ^ (Zdigits2 (Zpos mM) + (eM + unit_exp))) as Hlt.
  { assert (0 < 2 ^ (e + unit_exp)) by (apply pow2_pos; lia).
    assert (0 < 2 ^ (eM + unit_exp)) by (apply pow2_pos; unfold unit_exp; lia).
    rewrite (Z.pow_add_r 2 d), (Z.pow_add_r 2 (Zdigits2 (Zpos mM))) by (unfold unit_exp in *; lia).
    eapply Z.le_lt_trans; [apply Z.mul_le_mono_nonneg_r; [lia|exact Hdu]|].
    eapply Z.le_lt_trans; [exact Hle|]. by apply Z.mul_lt_mono_pos_r. }
  apply Z.pow_lt_mono_r_iff in Hlt; unfold unit_exp in *; lia.
Qed.

Lemma rounded_le m l k q N :
  0 <= k -> (q = m / 2 ^ k \/ q = m / 2 ^ k + 1 /\ ~ (is_exact l = true /\ m mod 2 ^ k = 0)) ->
  m + ulp_up l <= N * 2 ^ k -> q <= N.
Proof.
  intros Hk Hq Hle. unfold ulp_up in Hle. pose proof (pow2_pos k Hk) as Hp.
  destruct Hq as [->|[-> Hn]].
  - apply Z.div_le_upper_bound; [done|]. destruct (is_exact l); lia.
  - assert (m / 2 ^ k < N); [|lia]. apply Z.div_lt_upper_bound; [done|].
    destruct (is_exact l); [|lia]. assert (m <> N * 2 ^ k); [|lia].
    intros ->. apply Hn. split; [done|]. apply Z.mod_mul. lia.
Qed.

(** The second normalisation: a mantissa of [2 ^ 53] is halved. *)
Lemma renormalize q e :
  0 <= q <= 2 ^ 53 -> -1074 <= e -> (e = -1074 \/ 2 ^ 52 <= q \/ q = 0) ->
  exists m' e', (let '(r, e'') := shr_fexp 53 1024 q e loc_Exact in (shr_m r, e'')) = (m', e')
    /\ m' * 2 ^ (e' + unit_exp) = q * 2 ^ (e + unit_exp) /\ 0 <= m'
    /\ (0 < m' -> fexp64 (Zdigits2 m' + e') = e') /\ (e' = e \/ e' = e + 1 /\ q = 2 ^ 53).
Proof.
  intros Hq He Hn. unfold shr_fexp.
  destruct (Z.eq_dec q (2 ^ 53)) as [->|Hne].
  - change (Zdigits2 (2 ^ 53)) with 54. rewrite fexp64_eq.
    replace (Z.max (54 + e - 53) (-1074) - e) with 1 by lia. cbn [shr shr_record_of_loc iter_pos].
    exists (2 ^ 52), (e + 1). split; [done|].
    replace (e + 1 + unit_exp) with (1 + (e + unit_exp)) by lia.
    rewrite (Z.pow_add_r 2 1) by (unfold unit_exp; lia). split; [lia|]. split; [done|].
    change (Zdigits2 (2 ^ 52)) with 53. rewrite fexp64_eq. split; [lia|]. by right.
  - assert (Zdigits2 q <= 53) as Hd by (apply Zdigits2_le; lia).
    assert (fexp64 (Zdigits2 q + e) <= e) as Hf by (rewrite fexp64_eq; lia).
    exists q, e. split; [|split; [done|split; [lia|split; [|by left]]]].
    + destruct (fexp64 (Zdigits2 q + e) - e) eqn:E; [done|lia|done].
    + intros Hp. rewrite fexp64_eq in *. destruct Hn as [->|[Hn| ->]]; [lia| |lia].
      assert (53 <= Zdigits2 q); [|lia]. apply Zdigits2_ge; [lia|done|lia].
Qed.

(** The first rounding of [m * 2 ^ e] to the grid of its magnitude. *)
Lemma first_round m e l :
  0 <= m -> - unit_exp <= e -> e <= fexp64 (Zdigits2 m + e) ->
  exists r q, shr_fexp 53 1024 m e l = (r, fexp64 (Zdigits2 m + e))
    /\ round_nearest_even (shr_m r) (loc_of_shr_record r) = q
    /\ let k := fexp64 (Zdigits2 m + e) - e in
       (q = m / 2 ^ k \/ q = m / 2 ^ k + 1 /\ ~ (is_exact l = true /\ m mod 2 ^ k = 0))
       /\ 0 <= q <= 2 ^ 53
       /\ (fexp64 (Zdigits2 m + e) = -1074 \/ 2 ^ 52 <= q \/ q = 0).
Proof.
  intros Hm He Hal. unfold shr_fexp. set (e' := fexp64 (Zdigits2 m + e)) in *.
  destruct (shr_shifted m l e (e' - e)) as (r & -> & Hr); [lia..|].
  replace (e + (e' - e)) with e' by lia. destruct (round_shifted _ _ _ _ Hr) as (q & Hq & Hc).
  exists r, q. split; [done|]. split; [done|]. split; [done|].
  pose proof (pow2_pos (e' - e) ltac:(lia)) as Hp.
  assert (0 <= m / 2 ^ (e' - e)) as H0 by (apply Z.div_pos; lia).
  assert (e' = Z.max (Zdigits2 m + e - 53) (-1074)) as Ee' by apply fexp64_eq.
  destruct (Z.eq_dec m 0) as [->|Hne].
  { assert (e' = -1074) by (cbn [Zdigits2] in *; unfold unit_exp in *; lia).
    rewrite Z.div_0_l in * by lia. lia. }
  destruct (Zdigits2_spec m) as [[Hl Hu] Hpos]; [lia|].
  assert (m / 2 ^ (e' - e) < 2 ^ 53) as Hub.
  { apply Z.div_lt_upper_bound; [done|]. eapply Z.lt_le_trans; [exact Hu|].
    rewrite <-Z.pow_add_r by lia. apply Z.pow_le_mono_r; lia. }
  split; [lia|]. destruct (Z.eq_dec e' (-1074)); [by left|]. right. left.
  assert (2 ^ 52 <= m / 2 ^ (e' - e)); [|lia]. apply Z.div_le_lower_bound; [done|].
  rewrite <-Z.pow_add_r by lia. eapply Z.le_trans; [|exact Hl]. apply Z.pow_le_mono_r; lia.
Qed.

(** A rounded result is finite, with the sign given, and below every float that
    its exact value (of magnitude [m], or more than [m], times [2 ^ e]) is
    below. *)
Lemma round_bound s m e l M :
  0 <= m -> - unit_exp <= e -> e <= fexp64 (Zdigits2 m + e) ->
  is_fin M = true -> (m + ulp_up l) * 2 ^ (e + unit_exp) <= fmag M ->
  let r := binary_round_aux 53 1024 s m e l in
  is_fin r = true /\ fsign r = s /\ fmag r <= fmag M.
Proof.
  intros Hm He Hal HM Hle r. subst r. unfold binary_round_aux.
  destruct (first_round m e l Hm He Hal) as (r & q & -> & -> & Hc & Hq & Hn).
  set (e' := fexp64 (Zdigits2 m + e)) in *.
  assert (-1074 <= e') as He' by (unfold e'; rewrite fexp64_eq; lia).
  pose proof (pow2_pos (e + unit_exp) ltac:(lia)) as Hpe.
  assert (0 <= ulp_up l) as Hul by (unfold ulp_up; case_match; lia).
  assert (q * 2 ^ (e' + unit_exp) <= fmag M /\ (0 < q -> exists sM mM eM, M = S754_finite sM mM eM
    /\ fexp64 (Zdigits2 (Zpos mM) + eM) = eM /\ eM <= 971 /\ e' <= eM)) as [HqM Hfin].
  { destruct (Z.eq_dec (m + ulp_up l) 0) as [Hz|Hnz].
    - assert (m = 0 /\ ulp_up l = 0) as [-> Hu] by lia. assert (q = 0) as ->.
      { unfold ulp_up in Hu. destruct (is_exact l); [|done].
        rewrite Z.div_0_l, Z.mod_0_l in Hc by (assert (0 < 2 ^ (e' - e)); [apply pow2_pos|]; lia). tauto. }
      split; [|lia]. destruct M; cbn [fmag]; lia.
    - destruct M as [sM| | |sM mM eM]; try done; [cbn [fmag] in Hle; nia|].
      apply is_fin_finite in HM as [HcM H971]. cbn [fmag] in *.
      assert (e' <= eM) as HeM by (eapply grid_le; [done|done|done| |exact Hle]; lia).
      split; [|eauto 10]. rewrite (pow2_scale e' eM) by (unfold unit_exp; lia).
      rewrite (pow2_scale e eM) in Hle by lia.
      replace (eM - e) with ((eM - e') + (e' - e)) in Hle by lia.
      rewrite (Z.pow_add_r 2 (eM - e')) in Hle by lia.
      assert (q <= Zpos mM * 2 ^ (eM - e')).
      { eapply rounded_le; [|exact Hc|]; [lia|]. nia. }
      pose proof (pow2_pos (e' + unit_exp) ltac:(unfold unit_exp; lia)). nia. }
  destruct (renormalize q e' Hq He' Hn) as (m' & e'' & Hs & Hv & Hm' & Hcan & Hee).
  destruct (shr_fexp 53 1024 q e' loc_Exact) as [r'' e3]. injection Hs as -> ->.
  destruct m' as [|m'|m']; [|..|lia].
  { split; [done|]. split; [done|]. cbn [fmag].
    assert (0 <= q * 2 ^ (e' + unit_exp)) by (apply Z.mul_nonneg_nonneg; lia). lia. }
  assert (0 < q) as Hqp.
  { pose proof (pow2_pos (e' + unit_exp) ltac:(unfold unit_exp; lia)).
    pose proof (pow2_pos (e'' + unit_exp) ltac:(unfold unit_exp in *; lia)). nia. }
  destruct (Hfin Hqp) as (sM & mM & eM & -> & HcM & H971 & HeM).
  assert (e'' <= 971) as H9.
  { destruct Hee as [->|[-> ->]]; [lia|]. assert (e' <> eM); [|lia]. intros ->.
    cbn [fmag] in HqM. pose proof (canonical_digits _ _ HcM) as (_ & Hb & _).
    pose proof (pow2_pos (eM + unit_exp) ltac:(unfold unit_exp; lia)). nia. }
  change (1024 - 53) with 971. rewrite (proj2 (Z.leb_le _ _) H9).
  split; [apply is_fin_finite; split; [by apply Hcan|done]|]. split; [done|].
  cbn [fmag] in *. by rewrite Hv.
Qed.

(** ** The operations *)
Lemma fmag_nonneg x : 0 <= fmag x.
Proof. destruct x; cbn [fmag]; lia. Qed.

Lemma iter_xO m d : Zpos (Pos.iter xO m d) = Zpos m * 2 ^ Zpos d.
Proof.
  induction d as [|d IH] using Pos.peano_ind; [cbn; lia|].
  rewrite Pos.iter_succ, Pos2Z.inj_xO, IH, Pos2Z.inj_succ, Z.pow_succ_r by lia. lia.
Qed.

Lemma Zdigits2_shift m d : 0 < m -> 0 <= d -> Zdigits2 (m * 2 ^ d) = Zdigits2 m + d.
Proof.
  intros Hm Hd. assert (0 < m * 2 ^ d) as Hp by (apply Z.mul_pos_pos; lia).
  destruct m as [|m|]; try lia. destruct (Zpos m * 2 ^ d) as [|p|] eqn:E; try lia.
  cbn [Zdigits2]. rewrite !digits2_pos_log, <-E, Z.log2_mul_pow2 by lia. lia.
Qed.

Lemma shl_align_spec m e e' :
  exists mz ez, shl_align m e e' = (mz, ez) /\ ez = Z.min e e' /\ Zpos mz = Zpos m * 2 ^ (e - ez).
Proof.
  unfold shl_align. destruct (e' - e) as [|d|d] eqn:E.
  - exists m, e. split; [done|]. split; [lia|]. rewrite Z.sub_diag. lia.
  - exists m, e. split; [done|]. split; [lia|]. rewrite Z.sub_diag. lia.
  - exists (Pos.iter xO m d), e'. split; [done|]. split; [lia|]. rewrite iter_xO. f_equal. f_equal. lia.
Qed.

Lemma scale_align m e ez :
  - unit_exp <= ez -> ez <= e -> m * 2 ^ (e - ez) * 2 ^ (ez + unit_exp) = m * 2 ^ (e + unit_exp).
Proof. intros. rewrite (pow2_scale ez e) by lia. lia. Qed.

Lemma binary_round_bound s m e M :
  - unit_exp <= e -> is_fin M = true -> Zpos m * 2 ^ (e + unit_exp) <= fmag M ->
  let r := binary_round 53 1024 s m e in is_fin r = true /\ fsign r = s /\ fmag r <= fmag M.
Proof.
  intros He HM Hle. unfold binary_round.
  destruct (shl_align_spec m e (fexp64 (Zpos (digits2_pos m) + e))) as (mz & ez & -> & Hez & Hmz).
  assert (- unit_exp <= ez) by (rewrite fexp64_eq in Hez; unfold unit_exp in *; lia).
  apply round_bound; [lia|done| |done|].
  - rewrite Hmz, Zdigits2_shift by lia. replace (_ + (e - ez) + ez) with (Zpos (digits2_pos m) + e) by (cbn; lia).
    lia.
  - cbn [ulp_up is_exact]. rewrite Z.add_0_r, Hmz, scale_align by lia. done.
Qed.

Lemma normalize_bound z e sz M :
  - unit_exp <= e -> is_fin M = true -> Z.abs z * 2 ^ (e + unit_exp) <= fmag M ->
  let r := binary_normalize 53 1024 z e sz in
  is_fin r = true /\ fmag r <= fmag M /\ fsign r = match z with Z0 => sz | Zpos _ => false | Zneg _ => true end.
Proof.
  intros He HM Hle. pose proof (fmag_nonneg M). unfold binary_normalize. destruct z as [|m|m]; [by cbn|..];
    destruct (binary_round_bound (match Zpos m with Zneg _ => true | _ => false end) m e M He HM Hle)
      as (? & ? & ?); destruct (binary_round_bound true m e M He HM Hle) as (? & ? & ?); done.
Qed.

Lemma f_of_Z_bound z M :
  is_fin M = true -> Z.abs z * 2 ^ unit_exp <= fmag M ->
  is_fin (f_of_Z z) = true /\ fmag (f_of_Z z) <= fmag M /\ fsign (f_of_Z z) = (z <? 0).
Proof.
  intros HM Hle. destruct (normalize_bound z 0 false M) as (H1 & H2 & H3); [done..|].
  split; [done|]. split; [done|]. unfold f_of_Z. rewrite H3. by destruct z.
Qed.

Lemma is_fin_range s m e : is_fin (S754_finite s m e) = true -> -1074 <= e <= 971.
Proof. intros [Hc He]%is_fin_finite. by apply canonical_digits in Hc as [? _]. Qed.

Lemma fval_finite s m e : fval (S754_finite s m e) = cond_Zopp s (Zpos m) * 2 ^ (e + unit_exp).
Proof. unfold fval. cbn [fsign fmag]. destruct s; cbn [cond_Zopp]; lia. Qed.

Lemma abs_fval x : Z.abs (fval x) = fmag x.
Proof. unfold fval. pose proof (fmag_nonneg x). destruct (fsign x); cbn [cond_Zopp]; lia. Qed.

Lemma f_add_bound x y M :
  is_fin x = true -> is_fin y = true -> is_fin M = true -> Z.abs (fval x + fval y) <= fmag M ->
  is_fin (f_add x y) = true /\ fmag (f_add x y) <= fmag M
  /\ (fsign x = false -> fsign y = false -> fsign (f_add x y) = false).
Proof.
  intros Hx Hy HM Hle. pose proof (fmag_nonneg M) as HM0.
  destruct x as [sx| | |sx mx ex], y as [sy| | |sy my ey]; try discriminate; unfold f_add; cbn [SFadd].
  - destruct sx, sy; cbn [is_fin fmag fsign]; auto.
  - split; [done|]. split; [|by cbn]. change (fval (S754_zero sx)) with (cond_Zopp sx 0) in Hle.
    rewrite <-abs_fval. destruct sx; done.
  - split; [done|]. split; [|by cbn]. rewrite <-abs_fval.
    replace (fval (S754_zero sy)) with 0 in Hle by (by destruct sy). by rewrite Z.add_0_r in Hle.
  - apply is_fin_range in Hx, Hy. rewrite !fval_finite in Hle.
    destruct (shl_align_spec mx ex (Z.min ex ey)) as (m1 & e1 & -> & He1 & Hm1).
    destruct (shl_align_spec my ey (Z.min ex ey)) as (m2 & e2 & -> & He2 & Hm2). cbn [fst].
    assert (e1 = Z.min ex ey /\ e2 = Z.min ex ey) as [-> ->] by lia.
    destruct (normalize_bound (cond_Zopp sx (Zpos m1) + cond_Zopp sy (Zpos m2)) (Z.min ex ey) false M)
      as (H1 & H2 & H3).
    + unfold unit_exp. lia.
    + done.
    + rewrite <-(scale_align (cond_Zopp sx (Zpos mx)) ex (Z.min ex ey)) in Hle by (unfold unit_exp; lia).
      rewrite <-(scale_align (cond_Zopp sy (Zpos my)) ey (Z.min ex ey)) in Hle by (unfold unit_exp; lia).
      rewrite <-(Z.abs_eq (2 ^ (Z.min ex ey + unit_exp))) by lia. rewrite <-Z.abs_mul.
      assert (forall s m n, cond_Zopp s m * n = cond_Zopp s (m * n)) as Hc by (intros []; cbn; lia).
      rewrite Hm1, Hm2, <-!Hc. by rewrite Z.mul_add_distr_r.
    + split; [done|]. split; [done|]. cbn [fsign]. intros -> ->. rewrite H3. cbn [cond_Zopp]. by destruct m1.
Qed.

Lemma fval_opp x : fval (SFopp x) = - fval x.
Proof. unfold fval. destruct x as [[]|[]| |[]]; cbn; lia. Qed.

Lemma f_sub_opp x y : f_sub x y = f_add x (SFopp y).
Proof.
  unfold f_sub, f_add. destruct x as [sx|sx| |sx mx ex], y as [sy|sy| |sy my ey]; try done;
    cbn [SFadd SFsub SFopp]; by destruct sx, sy.
Qed.

Lemma f_sub_bound x y M :
  is_fin x = true -> is_fin y = true -> is_fin M = true -> Z.abs (fval x - fval y) <= fmag M ->
  is_fin (f_sub x y) = true /\ fmag (f_sub x y) <= fmag M.
Proof.
  intros Hx Hy HM Hle. rewrite f_sub_opp. destruct (f_add_bound x (SFopp y) M) as (? & ? & _); try done.
  - by destruct y.
  - by rewrite fval_opp.
Qed.

Lemma f_mul_bound x y M :
  is_fin x = true -> is_fin y = true -> is_fin M = true -> fmag x * fmag y <= fmag M * 2 ^ unit_exp ->
  is_fin (f_mul x y) = true /\ fmag (f_mul x y) <= fmag M /\ fsign (f_mul x y) = xorb (fsign x) (fsign y).
Proof.
  intros Hx Hy HM Hle. pose proof (fmag_nonneg M) as HM0.
  destruct x as [sx| | |sx mx ex], y as [sy| | |sy my ey]; try discriminate; try (split; done).
  pose proof (is_fin_range _ _ _ Hx). pose proof (is_fin_range _ _ _ Hy).
  apply is_fin_finite in Hx as [Hcx _], Hy as [Hcy _]. unfold f_mul. cbn [SFmul fsign].
  pose proof (Zdigits2_spec (Zpos mx) ltac:(done)) as [[Hlx _] Hpx].
  pose proof (Zdigits2_spec (Zpos my) ltac:(done)) as [[Hly _] Hpy].
  assert (Zdigits2 (Zpos mx) + Zdigits2 (Zpos my) - 1 <= Zdigits2 (Zpos (mx * my))) as Hd.
  { apply Zdigits2_ge; [lia| |done]. rewrite Pos2Z.inj_mul.
    replace (_ - 1 - 1) with ((Zdigits2 (Zpos mx) - 1) + (Zdigits2 (Zpos my) - 1)) by lia.
    rewrite Z.pow_add_r by lia. apply Z.mul_le_mono_nonneg; lia. }
  rewrite fexp64_eq in Hcx, Hcy.
  destruct (round_bound (xorb sx sy) (Zpos (mx * my)) (ex + ey) loc_Exact M) as (H1 & H2 & H3);
    [lia|unfold unit_exp; lia|rewrite fexp64_eq; lia|done| |tauto].
  cbn [ulp_up is_exact fmag] in *. rewrite Z.add_0_r, Pos2Z.inj_mul.
  apply (Z.mul_le_mono_pos_r _ _ (2 ^ unit_exp)); [done|]. etransitivity; [|exact Hle].
  apply Z.eq_le_incl. replace (ex + ey + unit_exp) with ((ex + unit_exp) + (ey + unit_exp) - unit_exp) by lia.
  assert (2 ^ (ex + unit_exp + (ey + unit_exp) - unit_exp) * 2 ^ unit_exp
    = 2 ^ (ex + unit_exp) * 2 ^ (ey + unit_exp)) as Hpow.
  { rewrite <-!Z.pow_add_r by (unfold unit_exp; lia). f_equal. lia. }
  rewrite <-Z.mul_assoc, Hpow. lia.
Qed.

(** Dividing by a number of at least one does not increase the magnitude. *)
Lemma f_div_bound x y :
  is_fin x = true -> is_fin y = true -> 2 ^ unit_exp <= fmag y ->
  is_fin (f_div x y) = true /\ fsign (f_div x y) = xorb (fsign x) (fsign y) /\ fmag (f_div x y) <= fmag x.
Proof.
  intros Hx Hy H1. destruct y as [sy| | |sy my ey]; try done.
  destruct x as [sx| | |sx mx ex]; try discriminate; [split; done|].
  pose proof (is_fin_range _ _ _ Hx). pose proof (is_fin_range _ _ _ Hy). pose proof Hx as Hfx.
  apply is_fin_finite in Hx as [Hcx _], Hy as [Hcy _]. unfold f_div. cbn [SFdiv fsign]. unfold SFdiv_core_binary.
  set (e' := Z.min _ _). set (m' := match ex - ey - e' with Z0 => _ | _ => _ end).
  pose proof (Z_div_mod m' (Zpos my) ltac:(done)) as Hdm.
  destruct (Z.div_eucl m' (Zpos my)) as [q r] eqn:Eqr. destruct Hdm as [Hm' Hr].
  pose proof (Zdigits2_spec (Zpos mx) ltac:(done)) as [[Hlx Hux] Hpx].
  pose proof (Zdigits2_spec (Zpos my) ltac:(done)) as [[Hly Huy] Hpy].
  rewrite fexp64_eq in Hcx, Hcy.
  assert (1 <= Zdigits2 (Zpos my) + ey) as Hyd.
  { cbn [fmag] in H1. assert (2 ^ unit_exp < 2 ^ (Zdigits2 (Zpos my) + (ey + unit_exp))) as Hlt.
    { eapply Z.le_lt_trans; [exact H1|]. rewrite (Z.pow_add_r 2 (Zdigits2 (Zpos my))) by (unfold unit_exp; lia).
      apply Z.mul_lt_mono_pos_r; [apply pow2_pos; unfold unit_exp; lia|done]. }
    apply Z.pow_lt_mono_r_iff in Hlt; unfold unit_exp in *; lia. }
  assert (e' = Z.min (Z.max (Zdigits2 (Zpos mx) + ex - (Zdigits2 (Zpos my) + ey) - 53) (-1074)) (ex - ey)) as He'
    by (unfold e'; by rewrite fexp64_eq).
  clearbody e'. assert (m' = Zpos mx * 2 ^ (ex - ey - e')) as Em'.
  { subst m'. destruct (ex - ey - e') eqn:E; [cbn; lia| |lia]. by rewrite Z.shiftl_mul_pow2. }
  clearbody m'. assert (0 <= q) as Hq0 by nia.
  assert (q * Zpos my + (if r =? 0 then 0 else 1) <= m') as Hqm by (destruct (Z.eqb_spec r 0); lia).
  assert (Zdigits2 (Zpos mx) + (ex - ey - e') - Zdigits2 (Zpos my) <= Zdigits2 q) as Hdq.
  { assert (q + 1 <= 2 ^ Zdigits2 q /\ 0 <= Zdigits2 q) as [Hq1 Hq2].
    { destruct (Z.eq_dec q 0) as [->|]; [done|]. pose proof (Zdigits2_spec q). lia. }
    assert (2 ^ (Zdigits2 (Zpos mx) - 1 + (ex - ey - e')) < 2 ^ (Zdigits2 q + Zdigits2 (Zpos my))) as Hlt.
    { rewrite !Z.pow_add_r by lia. apply (Z.le_lt_trans _ m').
      - rewrite Em'. apply Z.mul_le_mono_nonneg_r; lia.
      - apply (Z.lt_le_trans _ ((q + 1) * Zpos my)); [lia|]. apply Z.mul_le_mono_nonneg; lia. }
    apply Z.pow_lt_mono_r_iff in Hlt; lia. }
  apply round_bound; [done|unfold unit_exp; lia|rewrite fexp64_eq; lia|done|].
  assert (e' <= ex) as Hex by lia. cbn [fmag] in *.
  rewrite <-(scale_align (Zpos mx) ex e') by (unfold unit_exp; lia).
  apply Z.mul_le_mono_nonneg_r; [lia|].
  assert (q + ulp_up (new_location (Zpos my) r) = q + (if r =? 0 then 0 else 1)) as ->.
  { unfold new_location, new_location_even, new_location_odd, ulp_up. by destruct (Z.even _), (r =? 0). }
  assert (0 < 2 ^ (ey + unit_exp)) as Hpy2 by (apply pow2_pos; unfold unit_exp; lia).
  assert (m' * 2 ^ (ey + unit_exp) = Zpos mx * 2 ^ (ex - e') * 2 ^ unit_exp) as Hscale.
  { rewrite Em', <-!Z.mul_assoc. f_equal. rewrite <-!Z.pow_add_r by (unfold unit_exp; lia). f_equal. lia. }
  assert (m' <= Zpos mx * 2 ^ (ex - e') * Zpos my) as Hmy.
  { apply (Z.mul_le_mono_pos_r _ _ (2 ^ (ey + unit_exp))); [done|].
    rewrite Hscale, <-(Z.mul_assoc _ (Zpos my)). apply Z.mul_le_mono_nonneg_l; lia. }
  destruct (Z.eqb_spec r 0); nia.
Qed.

(** [2 ^ n]. *)
Definition f_pow2 (n : Z) : float64 := S754_finite false (2 ^ 52) (n - 52).

Lemma f_pow2_ok n : -1022 <= n <= 1023 -> is_fin (f_pow2 n) = true /\ fmag (f_pow2 n) = 2 ^ (n + unit_exp).
Proof.
  intros Hn. split.
  - apply is_fin_finite. change (Zdigits2 (Zpos (2 ^ 52))) with 53. rewrite fexp64_eq. lia.
  - cbn [fmag f_pow2]. change (Zpos (2 ^ 52)) with (2 ^ 52). rewrite <-Z.pow_add_r by (unfold unit_exp; lia).
    f_equal. lia.
Qed.

(** ** The order *)
Definition is_nan (x : float64) : bool := match x with S754_nan => true | _ => false end.

(** Floats that are numbers are ordered as triples of integers. *)
Definition rank (x : float64) : Z * Z * Z :=
  match x with
  | S754_infinity s => (cond_Zopp s 2, 0, 0)
  | S754_finite s m e => (cond_Zopp s 1, cond_Zopp s e, cond_Zopp s (Zpos m))
  | _ => (0, 0, 0)
  end.

Definition rank_lt (a b : Z * Z * Z) : Prop :=
  let '(a1, a2, a3) := a in let '(b1, b2, b3) := b in
  a1 < b1 \/ a1 = b1 /\ (a2 < b2 \/ a2 = b2 /\ a3 < b3).

Lemma SFltb_rank x y :
  is_nan x = false -> is_nan y = false -> SFltb x y = true <-> rank_lt (rank x) (rank y).
Proof.
  intros Hx Hy. unfold SFltb.
  destruct x as [[]|[]| |[] mx ex], y as [[]|[]| |[] my ey]; try discriminate; cbn;
    try (split; [done|lia]); try (split; [lia|done]);
    change (Pos.compare_cont Eq mx my) with (Pos.compare mx my);
    destruct (Z.compare_spec ex ey), (Pos.compare_spec mx my); cbn; split; done || lia.
Qed.

Lemma rank_lt_irrefl a : ~ rank_lt a a.
Proof. destruct a as [[??]?]. cbn. lia. Qed.

Lemma rank_lt_trans a b c : rank_lt a b -> rank_lt b c -> rank_lt a c.
Proof. destruct a as [[??]?], b as [[??]?], c as [[??]?]. cbn. lia. Qed.

Lemma rank_lt_total a b c : rank_lt a c -> rank_lt a b \/ rank_lt b c.
Proof. destruct a as [[??]?], b as [[??]?], c as [[??]?]. cbn. lia. Qed.

Lemma is_fin_not_nan x : is_fin x = true -> is_nan x = false.
Proof. by destruct x. Qed.
