(* ===== verification/Sha.v ===== *)
(** The hash functions of [crypto/sha1] and [crypto/sha256], executable: the
    storage path of a key is a SHA-1 digest, the key of a file the SHA-256
    digest of its content (src/internal/store/store.go). *)
From S2P Require Import Prelude Words.

(** ** 32-bit words *)
Definition w32 (z : Z) : Z := wrap_u 32 z.
Definition add32 (x y : Z) : Z := w32 (x + y).
Definition not32 (x : Z) : Z := Z.lxor x (2 ^ 32 - 1).
Definition rotl (n x : Z) : Z := Z.lor (w32 (Z.shiftl x n)) (Z.shiftr x (32 - n)).
Definition rotr (n x : Z) : Z := rotl (32 - n) x.

Definition choose (x y z : Z) : Z := Z.lxor (Z.land x y) (Z.land (not32 x) z).
Definition parity (x y z : Z) : Z := Z.lxor (Z.lxor x y) z.
Definition majority (x y z : Z) : Z :=
  Z.lxor (Z.lxor (Z.land x y) (Z.land x z)) (Z.land y z).

(** ** Padding and blocks *)
Fixpoint chop_fuel {A} (fuel n : nat) (l : list A) : list (list A) :=
  match fuel, l with
  | S fuel, _ :: _ => take n l :: chop_fuel fuel n (drop n l)
  | _, _ => []
  end.
Definition chop {A} (n : nat) (l : list A) : list (list A) := chop_fuel (length l) n l.

Definition sha_pad (msg : bytes) : bytes :=
  msg ++ [x80] ++ replicate (Z.to_nat ((55 - zlen msg) mod 64)) x00
      ++ be_put 8 (8 * zlen msg).

Definition sha_blocks (msg : bytes) : list (list Z) :=
  map (fun blk => map be_get (chop 4 blk)) (chop 64 (sha_pad msg)).

(** Extend a schedule of sixteen words to [16 + n]; [win] holds the sixteen
    latest words, the newest first. *)
Fixpoint schedule (next : list Z -> Z) (n : nat) (win : list Z) : list Z :=
  match n with
  | O => rev win
  | S n => schedule next n (next win :: win)
  end.

Definition nthz (i : nat) (l : list Z) : Z := nth i l 0.

(** ** SHA-1 *)
Definition sha1_next (win : list Z) : Z :=
  rotl 1 (Z.lxor (Z.lxor (nthz 2 win) (nthz 7 win)) (Z.lxor (nthz 13 win) (nthz 15 win))).

Definition sha1_fk (t : nat) : (Z -> Z -> Z -> Z) * Z :=
  if (t <? 20)%nat then (choose, 1518500249)
  else if (t <? 40)%nat then (parity, 1859775393)
  else if (t <? 60)%nat then (majority, 2400959708)
  else (parity, 3395469782).

Definition sha1_round (st : list Z) (tw : nat * Z) : list Z :=
  match st with
  | [a; b; c; d; e] =>
      let '(f, k) := sha1_fk tw.1 in
      let tmp := add32 (add32 (add32 (rotl 5 a) (f b c d)) (add32 e k)) tw.2 in
      [tmp; a; rotl 30 b; c; d]
  | _ => st
  end.

Definition numbered (l : list Z) : list (nat * Z) := zip (seq 0 (length l)) l.

Definition sha1_block (h : list Z) (blk : list Z) : list Z :=
  zip_with add32 h
    (foldl sha1_round h (numbered (schedule sha1_next 64 (rev blk)))).

Definition sha1_init : list Z :=
  [1732584193; 4023233417; 2562383102; 271733878; 3285377520].

Definition sha1_Sum (msg : bytes) : bytes :=
  foldl sha1_block sha1_init (sha_blocks msg) ≫= be_put 4.

(** ** SHA-256

    The round constants are the first 32 bits of the fractional parts of the
    cube roots of the first 64 primes, the initial state those of the square
    roots of the first eight: they are computed here. *)
Definition primes : list Z :=
  [2; 3; 5; 7; 11; 13; 17; 19; 23; 29; 31; 37; 41; 43; 47; 53; 59; 61; 67; 71; 73; 79;
   83; 89; 97; 101; 103; 107; 109; 113; 127; 131; 137; 139; 149; 151; 157; 163; 167; 173;
   179; 181; 191; 193; 197; 199; 211; 223; 227; 229; 233; 239; 241; 251; 257; 263; 269;
   271; 277; 281; 283; 293; 307; 311].

(** The largest [r < 2 ^ bits] with [r ^ k <= n]. *)
Fixpoint root (k : Z) (bits : nat) (n r : Z) : Z :=
  match bits with
  | O => r
  | S i => let r' := r + 2 ^ Z.of_nat i in root k i n (if r' ^ k <=? n then r' else r)
  end.

Definition sha256_k : list Z :=
  Eval vm_compute in map (fun p => w32 (root 3 36 (p * 2 ^ 96) 0)) primes.
Definition sha256_init : list Z :=
  Eval vm_compute in map (fun p => w32 (root 2 37 (p * 2 ^ 64) 0)) (take 8 primes).

Definition big_sigma0 (x : Z) : Z := parity (rotr 2 x) (rotr 13 x) (rotr 22 x).
Definition big_sigma1 (x : Z) : Z := parity (rotr 6 x) (rotr 11 x) (rotr 25 x).
Definition small_sigma0 (x : Z) : Z := parity (rotr 7 x) (rotr 18 x) (Z.shiftr x 3).
Definition small_sigma1 (x : Z) : Z := parity (rotr 17 x) (rotr 19 x) (Z.shiftr x 10).

Definition sha256_next (win : list Z) : Z :=
  add32 (add32 (small_sigma1 (nthz 1 win)) (nthz 6 win))
        (add32 (small_sigma0 (nthz 14 win)) (nthz 15 win)).

Definition sha256_round (st : list Z) (kw : Z * Z) : list Z :=
  match st with
  | [a; b; c; d; e; f; g; h] =>
      let t1 := add32 (add32 h (big_sigma1 e)) (add32 (choose e f g) (add32 kw.1 kw.2)) in
      let t2 := add32 (big_sigma0 a) (majority a b c) in
      [add32 t1 t2; a; b; c; add32 d t1; e; f; g]
  | _ => st
  end.

Definition sha256_block (h : list Z) (blk : list Z) : list Z :=
  zip_with add32 h
    (foldl sha256_round h (zip sha256_k (schedule sha256_next 48 (rev blk)))).

Definition sha256_Sum (msg : bytes) : bytes :=
  foldl sha256_block sha256_init (sha_blocks msg) ≫= be_put 4.

Definition hex_digest (d : bytes) : string := string_of_bytes (hex_encode d).

(** ** Known digests *)
Example sha1_of_test_key :
  hex_digest (sha1_Sum (bytes_of_string "yo its a dummy string"))
  = "90555eb6014736bedad917345c0193cd1f638ad6".
Proof. vm_compute. reflexivity. Qed.

Example sha256_of_abc :
  hex_digest (sha256_Sum (bytes_of_string "abc"))
  = "ba7816bf8f01cfea414140de5dae2223b00361a396177a9cb410ff61f20015ad".
Proof. vm_compute. reflexivity. Qed.

(** ** Digest lengths *)
Lemma foldl_invariant {A B} (P : A -> Prop) (f : A -> B -> A) l a :
  P a -> (forall a b, P a -> P (f a b)) -> P (foldl f a l).
Proof. revert a. induction l; simpl; auto. Qed.

Lemma length_bind_be_put n (ws : list Z) : length (ws ≫= be_put n) = (length ws * n)%nat.
Proof.
  induction ws as [|w ws IH]; [done|].
  change ((w :: ws) ≫= be_put n) with (be_put n w ++ (ws ≫= be_put n)).
  rewrite length_app, length_be_put, IH. done.
Qed.

Lemma length_sha1_round st tw : length (sha1_round st tw) = length st.
Proof. unfold sha1_round. repeat case_match; done. Qed.

Lemma length_sha256_round st kw : length (sha256_round st kw) = length st.
Proof. unfold sha256_round. repeat case_match; done. Qed.

Lemma length_digest (block : list Z -> list Z -> list Z) init bs :
  (forall h b, length (block h b) = length h) ->
  length (foldl block init bs ≫= be_put 4) = (length init * 4)%nat.
Proof.
  intros Hb. rewrite length_bind_be_put. f_equal.
  apply (foldl_invariant (fun h => length h = length init)); [done|].
  intros h b Hh. by rewrite Hb.
Qed.

Lemma length_sha1_Sum msg : length (sha1_Sum msg) = 20%nat.
Proof.
  apply length_digest. intros h b. unfold sha1_block. rewrite length_zip_with.
  rewrite (foldl_invariant (fun st => length st = length h)); [lia|done|].
  intros st x Hst. by rewrite length_sha1_round.
Qed.

Lemma length_sha256_Sum msg : length (sha256_Sum msg) = 32%nat.
Proof.
  apply length_digest. intros h b. unfold sha256_block. rewrite length_zip_with.
  rewrite (foldl_invariant (fun st => length st = length h)); [lia|done|].
  intros st x Hst. by rewrite length_sha256_round.
Qed.
