(* ===== verification/Io.v ===== *)
(** The part of package [io] the program uses: the [Reader] and [Writer]
    interfaces as type classes, [io.Copy], [io.ReadFull], [io.LimitReader].
    A client is proved against the laws of the interface; each reader and
    writer of the program is an instance that discharges them. *)
From S2P Require Import Prelude.

(** ** Interfaces

    [rd_read r n] is [r.Read(p)] with [len(p) = n]: the new state, the bytes
    read and the error.  [rd_size] bounds the reads that remain, it is the
    fuel of the loops below. *)
Class Reader (R : Type) := {
  rd_read : R -> Z -> R * bytes * option goerr;
  rd_size : R -> nat;
}.

(** [wr_write w p] is [w.Write(p)]. *)
Class Writer (W : Type) := {
  wr_write : W -> bytes -> W * Z * option goerr;
}.

(** What a reader promises: it delivers [rd_bytes], in pieces, then fails with
    [rd_end] ([EOF] at a regular end). *)
Class ReaderLaws (R : Type) `{Reader R} := {
  rd_bytes : R -> bytes;
  rd_end : R -> goerr;
  rd_law r n r' d e : 0 < n -> rd_read r n = (r', d, e) ->
    match e with
    | None => rd_bytes r = d ++ rd_bytes r' /\ rd_end r' = rd_end r /\ zlen d <= n
              /\ (rd_size r' + length d < rd_size r)%nat
    | Some e => d = [] /\ rd_bytes r = [] /\ e = rd_end r
    end;
}.

(** A writer that takes everything it is given: [rel w b] says that [b] has
    been written to [w]. *)
Definition reliable {W} `{Writer W} (rel : W -> bytes -> Prop) : Prop :=
  forall w b d w' n e, rel w b -> wr_write w d = (w', n, e) ->
    n = zlen d /\ e = None /\ rel w' (b ++ d).

(** ** [io.Copy] *)
Definition copy_buf : Z := 32768.

Definition errInvalidWrite : goerr := Errorf "invalid write result".

(** One write of the copy loop: the writer, the bytes counted, the error. *)
Definition copy_write {W} `{Writer W} (dst : W) (buf : bytes) : W * Z * option goerr :=
  if 0 <? zlen buf then
    let '(dst, nw, ew) := wr_write dst buf in
    if (nw <? 0) || (zlen buf <? nw)
    then (dst, 0, Some (from_option id errInvalidWrite ew))
    else match ew with
         | Some e => (dst, nw, Some e)
         | None => (dst, nw, if nw =? zlen buf then None else Some ErrShortWrite)
         end
  else (dst, 0, None).

Fixpoint copy_loop {R W} `{Reader R} `{Writer W} (fuel : nat) (dst : W) (src : R)
    (written : Z) : W * R * Z * option goerr :=
  match fuel with
  | O => (dst, src, written, Some ErrFuel)
  | S fuel =>
      let '(src, buf, er) := rd_read src copy_buf in
      let '(dst, nw, ew) := copy_write dst buf in
      match ew, er with
      | Some e, _ => (dst, src, written + nw, Some e)
      | None, Some EOF => (dst, src, written + nw, None)
      | None, Some e => (dst, src, written + nw, Some e)
      | None, None => copy_loop fuel dst src (written + nw)
      end
  end.

Definition io_Copy {R W} `{Reader R} `{Writer W} (dst : W) (src : R) :
    W * R * Z * option goerr :=
  copy_loop (S (rd_size src)) dst src 0.

(** ** [io.ReadFull] *)
Fixpoint readfull_loop {R} `{Reader R} (fuel : nat) (src : R) (n : Z) (acc : bytes) :
    R * bytes * option goerr :=
  if n <=? zlen acc then (src, acc, None) else
  match fuel with
  | O => (src, acc, Some ErrFuel)
  | S fuel =>
      let '(src, d, e) := rd_read src (n - zlen acc) in
      let acc := acc ++ d in
      match e with
      | None => readfull_loop fuel src n acc
      | Some e =>
          if n <=? zlen acc then (src, acc, None)
          else if (0 <? zlen acc) && bool_decide (e = EOF)
          then (src, acc, Some ErrUnexpectedEOF)
          else (src, acc, Some e)
      end
  end.

Definition io_ReadFull {R} `{Reader R} (src : R) (n : Z) : R * bytes * option goerr :=
  readfull_loop (S (rd_size src)) src n [].

(** ** A scripted reader

    A network stream or an open file: it delivers its [pieces] one after the
    other (a piece longer than the buffer over several reads) and then fails
    with [fin].  How the bytes are cut into pieces is arbitrary. *)
Record stream := Stream { pieces : list bytes; fin : goerr }.

Definition stream_read (s : stream) (n : Z) : stream * bytes * option goerr :=
  match pieces s with
  | [] => (s, [], Some (fin s))
  | p :: ps =>
      if zlen p <=? n then (Stream ps (fin s), p, None)
      else (Stream (drop (Z.to_nat n) p :: ps) (fin s), take (Z.to_nat n) p, None)
  end.

Definition stream_size (s : stream) : nat :=
  foldr (fun p k => 1 + 2 * length p + k)%nat 0%nat (pieces s).

#[export] Instance stream_Reader : Reader stream :=
  {| rd_read := stream_read; rd_size := stream_size |}.

(** ** [io.LimitReader] *)
Record limited (R : Type) := Limited { lr_src : R; lr_n : Z }.
Arguments Limited {R} _ _.
Arguments lr_src {R} _.
Arguments lr_n {R} _.

Definition limited_read {R} `{Reader R} (l : limited R) (n : Z) :
    limited R * bytes * option goerr :=
  if lr_n l <=? 0 then (l, [], Some EOF) else
  let '(r, d, e) := rd_read (lr_src l) (if lr_n l <? n then lr_n l else n) in
  (Limited r (lr_n l - zlen d), d, e).

#[export] Instance limited_Reader {R} `{Reader R} : Reader (limited R) :=
  {| rd_read := limited_read; rd_size l := rd_size (lr_src l) |}.

(** ** A byte buffer as a writer ([bytes.Buffer]) *)
#[export] Instance buffer_Writer : Writer bytes :=
  {| wr_write w p := (w ++ p, zlen p, None) |}.

(** ** Sequences of reads: from [r] to [r'], delivering [b] *)
Inductive reads {R} `{Reader R} : R -> bytes -> R -> Prop :=
| reads_nil r : reads r [] r
| reads_cons r n r1 d e b r2 :
    0 < n -> rd_read r n = (r1, d, e) -> reads r1 b r2 -> reads r (d ++ b) r2.

(** ** The laws *)
Lemma buffer_reliable : reliable (fun w b : bytes => w = b).
Proof. intros w b d w' n e -> [= <- <- <-]. done. Qed.

#[export] Program Instance stream_Laws : ReaderLaws stream :=
  {| rd_bytes s := concat (pieces s); rd_end := fin |}.
Next Obligation.
  intros [[|p ps] f] n r' d e Hn; cbn; intros Heq; [by simplify_eq|].
  unfold stream_read, stream_size in *. simpl in *.
  case_match; breflect; simplify_eq/=; [split_and!; done || len|].
  rewrite app_assoc, take_drop. split_and!; done || len.
Qed.

#[export] Program Instance limited_Laws {R} `{ReaderLaws R} : ReaderLaws (limited R) :=
  {| rd_bytes l := take (Z.to_nat (lr_n l)) (rd_bytes (lr_src l));
     rd_end l := if lr_n l <=? zlen (rd_bytes (lr_src l)) then EOF else rd_end (lr_src l) |}.
Next Obligation.
  intros R HR HL [r k] n r' d e Hn. cbn. unfold limited_read. cbn.
  destruct (Z.leb_spec k 0) as [Hk|Hk].
  { intros [= <- <- <-]. pose proof (zlen_nonneg (rd_bytes r)).
    replace (Z.to_nat k) with 0%nat by lia.
    destruct (Z.leb_spec k (zlen (rd_bytes r))); [done|lia]. }
  set (m := if k <? n then k else n).
  assert (0 < m <= n /\ m <= k) as Hm by (subst m; destruct (Z.ltb_spec k n); lia).
  destruct (rd_read r m) as [[r1 d1] e1] eqn:Hrd. intros [= <- <- <-].
  pose proof (rd_law r m _ _ _ (proj1 (proj1 Hm)) Hrd) as Hlaw. clearbody m. cbn.
  destruct e1 as [e1|].
  - destruct Hlaw as (-> & Hnil & ->). rewrite Hnil, take_nil. split_and!; [done..|].
    rewrite zlen_nil. destruct (Z.leb_spec k 0); [lia|done].
  - destruct Hlaw as (Hb & He & Hd & Hs). rewrite Hb, He, zlen_app.
    rewrite take_app, (take_ge d1) by len.
    replace (Z.to_nat k - length d1)%nat with (Z.to_nat (k - zlen d1)) by len.
    split_and!; [done| |lia|done].
    destruct (Z.leb_spec (k - zlen d1) (zlen (rd_bytes r1))),
      (Z.leb_spec k (zlen d1 + zlen (rd_bytes r1))); lia || done.
Qed.

(** [io.Copy] of a lawful reader into a reliable writer terminates, writes
    everything the reader delivers, returns the number of bytes written, and
    reports the reader's error unless it is [EOF]. *)
Lemma copy_write_ok {W} `{Writer W} (rel : W -> bytes -> Prop) w b d :
  reliable rel -> rel w b ->
  exists w', copy_write w d = (w', zlen d, None) /\ rel w' (b ++ d).
Proof.
  intros Hrel Hw. unfold copy_write. destruct (Z.ltb_spec 0 (zlen d)) as [Hd|Hd].
  - destruct (wr_write w d) as [[w' n] e] eqn:Hwr.
    destruct (Hrel _ _ _ _ _ _ Hw Hwr) as (-> & -> & Hw').
    exists w'. rewrite Z.ltb_irrefl, Z.eqb_refl.
    destruct (Z.ltb_spec (zlen d) 0); [lia|]. done.
  - assert (d = []) as -> by (apply zlen_zero; pose proof (zlen_nonneg d); lia).
    exists w. by rewrite app_nil_r.
Qed.

Definition copy_err (e : goerr) : option goerr := if decide (e = EOF) then None else Some e.

Lemma copy_loop_ok {R W} `{ReaderLaws R} `{Writer W} (rel : W -> bytes -> Prop)
    fuel w r k b :
  reliable rel -> rel w b -> (rd_size r < fuel)%nat ->
  exists w' r', copy_loop fuel w r k = (w', r', k + zlen (rd_bytes r), copy_err (rd_end r))
                /\ rel w' (b ++ rd_bytes r) /\ reads r (rd_bytes r) r'.
Proof.
  intros Hrel. revert w r k b. induction fuel as [|fuel IH]; intros w r k b Hw Hf; [lia|].
  cbn [copy_loop]. destruct (rd_read r copy_buf) as [[r1 d] e] eqn:Hrd.
  pose proof (rd_law r copy_buf _ _ _ eq_refl Hrd) as Hlaw.
  destruct (copy_write_ok rel w b d Hrel Hw) as (w1 & -> & Hw1).
  destruct e as [e|].
  - destruct Hlaw as (-> & -> & ->). exists w1, r1. rewrite zlen_nil, app_nil_r in *.
    split; [|split; [done|]]; [unfold copy_err; by destruct (rd_end r)|].
    eapply (reads_cons r copy_buf r1 [] _ []); [done|exact Hrd|apply reads_nil].
  - destruct Hlaw as (Hb & He & _ & Hs).
    destruct (IH w1 r1 (k + zlen d) _ Hw1) as (w' & r' & -> & Hw' & Hrr); [lia|].
    exists w', r'. rewrite Hb, He, zlen_app. rewrite <-app_assoc in Hw'.
    split; [by rewrite Z.add_assoc|]. split; [done|].
    by eapply (reads_cons r copy_buf r1); [|exact Hrd|].
Qed.

Lemma io_Copy_ok {R W} `{ReaderLaws R} `{Writer W} (rel : W -> bytes -> Prop) w r b :
  reliable rel -> rel w b ->
  exists w' r', io_Copy w r = (w', r', zlen (rd_bytes r), copy_err (rd_end r))
                /\ rel w' (b ++ rd_bytes r) /\ reads r (rd_bytes r) r'.
Proof. intros. unfold io_Copy. apply (copy_loop_ok rel _ w r 0 b); auto with lia. Qed.

(** [io.ReadFull] reads exactly [n] bytes; when fewer are left it fails, with
    [EOF] only if there was none at all. *)
Definition readfull_err (got : bytes) (e : goerr) : goerr :=
  if (0 <? zlen got) && bool_decide (e = EOF) then ErrUnexpectedEOF else e.

Lemma readfull_loop_ok {R} `{ReaderLaws R} fuel r n acc :
  (rd_size r < fuel)%nat ->
  if n <=? zlen acc + zlen (rd_bytes r) then
    exists r' d, readfull_loop fuel r n acc = (r', acc ++ d, None)
      /\ d = take (Z.to_nat (n - zlen acc)) (rd_bytes r)
      /\ rd_bytes r' = drop (Z.to_nat (n - zlen acc)) (rd_bytes r)
      /\ rd_end r' = rd_end r /\ (rd_size r' + length d <= rd_size r)%nat
  else exists r', readfull_loop fuel r n acc
                  = (r', acc ++ rd_bytes r, Some (readfull_err (acc ++ rd_bytes r) (rd_end r))).
Proof.
  revert r acc. induction fuel as [|fuel IH]; intros r acc Hf; [lia|]. cbn [readfull_loop].
  pose proof (zlen_nonneg (rd_bytes r)) as Hpos.
  destruct (Z.leb_spec n (zlen acc)) as [Hn|Hn].
  { destruct (Z.leb_spec n (zlen acc + zlen (rd_bytes r))); [|lia].
    exists r, []. replace (Z.to_nat (n - zlen acc)) with 0%nat by lia.
    rewrite app_nil_r, take_0, drop_0. split_and!; done || simpl; lia. }
  destruct (rd_read r (n - zlen acc)) as [[r1 d] e] eqn:Hrd.
  pose proof (rd_law r (n - zlen acc) r1 d e ltac:(lia) Hrd) as Hlaw.
  destruct e as [e|].
  - destruct Hlaw as (-> & -> & ->). rewrite app_nil_r, zlen_nil, Z.add_0_r.
    destruct (Z.leb_spec n (zlen acc)); [lia|]. exists r1.
    unfold readfull_err. by case_match.
  - destruct Hlaw as (Hb & He & Hd & Hs). rewrite Hb, zlen_app, Z.add_assoc, <-zlen_app.
    specialize (IH r1 (acc ++ d) ltac:(lia)). rewrite zlen_app in IH |- *.
    replace (n - (zlen acc + zlen d)) with (n - zlen acc - zlen d) in IH by lia.
    destruct (n <=? zlen acc + zlen d + zlen (rd_bytes r1)).
    + destruct IH as (r' & d' & -> & -> & Hr' & He' & Hs'). exists r'. eexists.
      rewrite <-app_assoc. split; [done|].
      rewrite take_app, drop_app, (take_ge d), (drop_ge d), <-He, He' by len.
      replace (Z.to_nat (n - zlen acc) - length d)%nat
        with (Z.to_nat (n - zlen acc - zlen d)) by len.
      split_and!; [done|done|done|]. rewrite length_app. lia.
    + destruct IH as (r' & ->). exists r'. by rewrite <-!app_assoc, He.
Qed.

Lemma io_ReadFull_ok {R} `{ReaderLaws R} r n :
  0 <= n ->
  if n <=? zlen (rd_bytes r) then
    exists r', io_ReadFull r n = (r', take (Z.to_nat n) (rd_bytes r), None)
      /\ rd_bytes r' = drop (Z.to_nat n) (rd_bytes r)
      /\ rd_end r' = rd_end r /\ (rd_size r' + Z.to_nat n <= rd_size r)%nat
  else exists r', io_ReadFull r n
                  = (r', rd_bytes r, Some (readfull_err (rd_bytes r) (rd_end r))).
Proof.
  intros Hn. unfold io_ReadFull.
  pose proof (readfull_loop_ok (S (rd_size r)) r n [] ltac:(lia)) as Hl.
  rewrite zlen_nil, Z.add_0_l, Z.sub_0_r in Hl.
  destruct (Z.leb_spec n (zlen (rd_bytes r))); [|done].
  destruct Hl as (r' & d & -> & -> & Hr' & He & Hs). exists r'.
  rewrite length_take in Hs. split_and!; try done. len.
Qed.
