(* ===== verification/GoStrings.v ===== *)
(** The functions of packages [strings] and [path/filepath] the program uses:
    [strings.Split], [Join], [Contains], [ToLower], [TrimSpace];
    [filepath.Clean], [Join], [Dir], for slash-separated paths. *)
From S2P Require Import Prelude Words.
From Stdlib Require Import Ascii.

#[global] Arguments String.append !_ _ / : simpl nomatch.

Definition slash : ascii := "/"%char.

(** ** [strings.Split(s, sep)] for a one-character separator *)
Fixpoint split_char (c : ascii) (s : string) : list string :=
  match s with
  | EmptyString => [""]
  | String a s =>
      if decide (a = c) then "" :: split_char c s
      else match split_char c s with
           | h :: t => String a h :: t
           | [] => [String a ""]
           end
  end.

(** [strings.Join]. *)
Definition strings_Join (l : list string) (sep : string) : string := String.concat sep l.

(** [strings.Contains]. *)
Fixpoint strings_Contains (s sub : string) : bool :=
  String.prefix sub s ||
  match s with EmptyString => false | String _ s => strings_Contains s sub end.

(** [strings.Split(s, sep)[0]] for a non-empty separator: what comes before its
    first occurrence. *)
Fixpoint split_head (s sep : string) : string :=
  if String.prefix sep s then "" else
  match s with EmptyString => "" | String a s => String a (split_head s sep) end.

(** ** ASCII case and space, enough for the configuration words *)
Definition ascii_lower (c : ascii) : ascii :=
  let n := N_of_ascii c in
  if (65 <=? n)%N && (n <=? 90)%N then ascii_of_N (n + 32) else c.

Definition is_space (c : ascii) : bool :=
  bool_decide (N_of_ascii c ∈ [9; 10; 11; 12; 13; 32]%N).

Definition strings_ToLower (s : string) : string :=
  String.string_of_list_ascii (map ascii_lower (String.list_ascii_of_string s)).

Fixpoint trim_left (l : list ascii) : list ascii :=
  match l with
  | c :: l' => if is_space c then trim_left l' else l
  | [] => []
  end.

Definition strings_TrimSpace (s : string) : string :=
  String.string_of_list_ascii
    (rev (trim_left (rev (trim_left (String.list_ascii_of_string s))))).

(** ** [path/filepath] *)
Definition is_rooted (p : string) : bool :=
  match p with String a _ => bool_decide (a = slash) | _ => false end.

(** The components of the cleaned path, the last one first. *)
Fixpoint clean_comps (rooted : bool) (acc comps : list string) : list string :=
  match comps with
  | [] => acc
  | c :: cs =>
      if decide (c = "" \/ c = ".") then clean_comps rooted acc cs
      else if decide (c = "..") then
        match acc with
        | a :: acc' =>
            if decide (a = "..") then clean_comps rooted (".." :: acc) cs
            else clean_comps rooted acc' cs
        | [] => clean_comps rooted (if rooted then [] else [".."]) cs
        end
      else clean_comps rooted (c :: acc) cs
  end.

Definition filepath_Clean (p : string) : string :=
  let rooted := is_rooted p in
  match rev (clean_comps rooted [] (split_char slash p)) with
  | [] => if rooted then "/" else "."
  | cs => (if rooted then "/" else "") +:+ strings_Join cs "/"
  end.

(** [filepath.Join] of two elements; empty ones are ignored. *)
Definition filepath_Join (a b : string) : string :=
  if decide (a = "") then if decide (b = "") then "" else filepath_Clean b
  else if decide (b = "") then filepath_Clean a
  else filepath_Clean (a +:+ "/" +:+ b).

(** [filepath.Dir]: all but the last element, cleaned. *)
Definition filepath_Dir (p : string) : string :=
  let comps := split_char slash p in
  filepath_Clean (strings_Join (take (length comps - 1) comps) "/" +:+
                  (if (2 <=? length comps)%nat then "/" else "")).

(** ** Lemmas *)
Lemma split_char_nonnil c s : split_char c s <> [].
Proof. destruct s; simpl; repeat case_match; done. Qed.

Lemma append_nil_r s : s +:+ "" = s.
Proof. induction s; simpl; congruence. Qed.

Lemma append_assoc s t u : (s +:+ t) +:+ u = s +:+ t +:+ u.
Proof. induction s; simpl; congruence. Qed.

(** Splitting at a separator splits the text around it. *)
Lemma split_char_app c s t :
  split_char c (s +:+ String c t) = split_char c s ++ split_char c t.
Proof.
  induction s as [|a s IH]; simpl.
  - by rewrite decide_True.
  - rewrite IH. case_decide; [done|].
    pose proof (split_char_nonnil c s). by destruct (split_char c s).
Qed.

(** Splitting is undone by joining. *)
Lemma join_split c s : strings_Join (split_char c s) (String c "") = s.
Proof.
  unfold strings_Join. induction s as [|a s IH]; simpl; [done|].
  pose proof (split_char_nonnil c s) as Hs.
  case_decide; subst.
  - destruct (split_char c s) eqn:E; [done|]. simpl in *. by rewrite IH.
  - destruct (split_char c s) as [|h [|h' t]] eqn:E; [done|..]; simpl in *; congruence.
Qed.

(** A text without the separator is one component. *)
Definition free_of (c : ascii) (s : string) : Prop :=
  c ∉ String.list_ascii_of_string s.

Lemma split_char_free c s : free_of c s -> split_char c s = [s].
Proof.
  unfold free_of. induction s as [|a s IH]; simpl; [done|].
  intros [Hne Hin]%not_elem_of_cons. rewrite decide_False by done. by rewrite IH.
Qed.

Lemma split_join c l :
  l <> [] -> Forall (free_of c) l -> split_char c (strings_Join l (String c "")) = l.
Proof.
  unfold strings_Join. induction l as [|x l IH]; [done|]. intros _ Hl. inv Hl.
  destruct l as [|y l]; [by apply split_char_free|].
  change (String.concat (String c "") (x :: y :: l))
    with (x +:+ String c (String.concat (String c "") (y :: l))).
  rewrite split_char_app, split_char_free by done.
  by rewrite IH.
Qed.

(** ** Strings as lists of characters *)
Abbreviation chars := String.list_ascii_of_string.

Lemma chars_inj s t : chars s = chars t -> s = t.
Proof.
  intros H. rewrite <-(String.string_of_list_ascii_of_string s), H.
  apply String.string_of_list_ascii_of_string.
Qed.

Lemma length_chars s : length (chars s) = String.length s.
Proof. induction s; simpl; congruence. Qed.

Lemma chars_app s t : chars (s +:+ t) = chars s ++ chars t.
Proof. induction s; simpl; congruence. Qed.

Lemma chars_substring n m s : chars (String.substring n m s) = take m (drop n (chars s)).
Proof.
  revert n m. induction s as [|a s IH]; intros [|n] [|m]; simpl; try done.
  by rewrite IH, drop_0.
Qed.

Lemma chars_string_of_bytes b : chars (string_of_bytes b) = map ascii_of_byte b.
Proof. unfold string_of_bytes. induction b; simpl; [done|]. by f_equal. Qed.

Lemma split_char_chars c s : Forall (free_of c) (split_char c s).
Proof.
  induction s as [|a s IH]; simpl; [by repeat constructor; apply not_elem_of_nil|].
  case_decide; [by constructor; [apply not_elem_of_nil|]|].
  destruct (split_char c s) as [|h t]; inv IH; repeat constructor; try done;
    unfold free_of in *; simpl; rewrite not_elem_of_cons; split; done || apply not_elem_of_nil.
Qed.
