(* ===== verification/FileSys.v ===== *)
(** The file system as package [os] shows it to the program: a tree of
    directories and regular files, with a working directory.

    Permissions, symbolic and hard links, and the sizes and names a file
    system refuses are not modelled.  A path is resolved component by
    component, as the system does: every component that is gone through must
    be an existing directory. *)
From S2P Require Import Prelude Words GoStrings Io.

Inductive node :=
| NFile (content : bytes)
| NDir.

#[export] Instance node_eq_dec : EqDecision node.
Proof. solve_decision. Defined.

(** A resolved path: its components, the innermost first; [[]] is "/". *)
Abbreviation rpath := (list string).

Record fs := FS { tree : gmap rpath node; cwd : rpath }.

Definition set_tree (f : fs) (t : gmap rpath node) : fs := FS t (cwd f).

(** The root always exists. *)
Definition get (t : gmap rpath node) (p : rpath) : option node :=
  match p with [] => Some NDir | _ => t !! p end.

(** One component further from the directory [cur]. *)
Definition descend (cur : rpath) (c : string) : rpath :=
  if decide (c = "" \/ c = ".") then cur
  else if decide (c = "..") then tl cur
  else c :: cur.

(** Resolution: the path reached, which need not exist itself. *)
Fixpoint walk (t : gmap rpath node) (cur : rpath) (comps : list string) : result rpath :=
  match comps with
  | [] => Ok cur
  | c :: cs =>
      match get t cur with
      | None => Err ErrNotExist
      | Some (NFile _) => Err ErrNotDir
      | Some NDir => walk t (descend cur c) cs
      end
  end.

Definition start_dir (f : fs) (path : string) : rpath := if is_rooted path then [] else cwd f.

Definition resolve (f : fs) (path : string) : result rpath :=
  if decide (path = "") then Err ErrNotExist
  else walk (tree f) (start_dir f path) (split_char slash path).

(** ** Operations of package [os] *)
Definition os_Stat (f : fs) (path : string) : result (rpath * node) :=
  resolve f path ≫= fun p =>
  match get (tree f) p with Some n => Ok (p, n) | None => Err ErrNotExist end.

Definition os_ReadFile (f : fs) (path : string) : result bytes :=
  os_Stat f path ≫= fun '(_, n) =>
  match n with NFile c => Ok c | NDir => Err ErrIsDir end.

(** [MkdirAll]: every missing directory on the way is created. *)
Fixpoint mkdirs (t : gmap rpath node) (cur : rpath) (comps : list string) :
    gmap rpath node * option goerr :=
  match comps with
  | [] => (t, None)
  | c :: cs =>
      let p := descend cur c in
      match get t p with
      | Some NDir => mkdirs t p cs
      | Some (NFile _) => (t, Some ErrNotDir)
      | None => mkdirs (<[p := NDir]> t) p cs
      end
  end.

Definition os_MkdirAll (f : fs) (path : string) : fs * option goerr :=
  if decide (path = "") then (f, Some ErrNotExist)
  else let '(t, e) := mkdirs (tree f) (start_dir f path) (split_char slash path) in
       (set_tree f t, e).

(** [Create]: a new empty file, or an existing one truncated. *)
Definition os_Create (f : fs) (path : string) : fs * result rpath :=
  match resolve f path with
  | Err e => (f, Err e)
  | Ok p =>
      match get (tree f) p with
      | Some NDir => (f, Err ErrIsDir)
      | _ => (set_tree f (<[p := NFile []]> (tree f)), Ok p)
      end
  end.

(** An open file: its own offset; a write goes to the offset, a hole is filled
    with zeros.  Writing to a file that has been unlinked changes nothing. *)
Record file := File { f_fs : fs; f_path : rpath; f_off : nat }.

Definition splice (c : bytes) (off : nat) (d : bytes) : bytes :=
  take off c ++ replicate (off - length c) x00 ++ d ++ drop (off + length d) c.

Definition file_Write (h : file) (d : bytes) : file * Z * option goerr :=
  let t := tree (f_fs h) in
  let t' := match t !! f_path h with
            | Some (NFile c) => <[f_path h := NFile (splice c (f_off h) d)]> t
            | _ => t
            end in
  (File (set_tree (f_fs h) t') (f_path h) (f_off h + length d), zlen d, None).

#[export] Instance file_Writer : Writer file := {| wr_write := file_Write |}.

(** An open file as a reader: its content at the time of [Open]. *)
Definition file_stream (c : bytes) : stream :=
  Stream (match c with [] => [] | _ => [c] end) EOF.

Definition children (t : gmap rpath node) (p : rpath) : list string :=
  omap (fun '(q, _) => match q with
                       | c :: q' => if decide (q' = p) then Some c else None
                       | [] => None
                       end) (map_to_list t).

Definition os_ReadDir (f : fs) (path : string) : result (list string) :=
  os_Stat f path ≫= fun '(p, n) =>
  match n with NFile _ => Err ErrNotDir | NDir => Ok (children (tree f) p) end.

(** The last component, trailing slashes apart. *)
Definition last_comp (path : string) : option string :=
  hd_error (filter (fun c => c <> "") (rev (split_char slash path))).

(** It decides what [rmdir] says to "." and "..". *)
Definition os_Remove (f : fs) (path : string) : fs * option goerr :=
  match os_Stat f path with
  | Err e => (f, Some e)
  | Ok (p, NFile _) => (set_tree f (delete p (tree f)), None)
  | Ok (p, NDir) =>
      if decide (last_comp path = Some ".") then (f, Some ErrInvalid)
      else if decide (last_comp path = Some "..") then (f, Some ErrNotEmpty)
      else if decide (p = []) then (f, Some ErrBusy)
      else if decide (children (tree f) p = [])
      then (set_tree f (delete p (tree f)), None)
      else (f, Some ErrNotEmpty)
  end.

(** [RemoveAll]: the whole subtree; no error when there is nothing. *)
Definition os_RemoveAll (f : fs) (path : string) : fs * option goerr :=
  if decide (path = "") then (f, None)
  else if decide (last_comp path = Some ".") then (f, Some ErrInvalid)
  else match os_Stat f path with
       | Err ErrNotExist => (f, None)
       | Err e => (f, Some e)
       | Ok (p, _) => (set_tree f (filter (fun qn => ¬ suffix p qn.1) (tree f)), None)
       end.

Definition os_WriteFile (f : fs) (path : string) (d : bytes) : fs * option goerr :=
  match os_Create f path with
  | (f, Err e) => (f, Some e)
  | (f, Ok p) => (set_tree f (<[p := NFile d]> (tree f)), None)
  end.

(** ** Lemmas: resolution *)
Lemma walk_app t cur xs ys : walk t cur (xs ++ ys) = walk t cur xs ≫= fun p => walk t p ys.
Proof.
  revert cur. induction xs as [|x xs IH]; intros cur; [done|]. cbn [walk app].
  destruct (get t cur) as [[|]|]; done.
Qed.

(** Every directory of [t] is one of [t']. *)
Definition dirs_kept (t t' : gmap rpath node) : Prop :=
  forall p, get t p = Some NDir -> get t' p = Some NDir.

#[export] Instance dirs_kept_preorder : PreOrder dirs_kept.
Proof. split; unfold dirs_kept; naive_solver. Qed.

Lemma walk_mono t t' cur cs p : dirs_kept t t' -> walk t cur cs = Ok p -> walk t' cur cs = Ok p.
Proof.
  intros Hk. revert cur. induction cs as [|c cs IH]; intros cur; [done|]. cbn [walk].
  destruct (get t cur) as [[|]|] eqn:E; try done. rewrite (Hk _ E). apply IH.
Qed.

Lemma resolve_mono f t path p :
  dirs_kept (tree f) t -> resolve f path = Ok p -> resolve (set_tree f t) path = Ok p.
Proof. unfold resolve. case_decide; [done|]. apply walk_mono. Qed.

Lemma get_insert_ne t p q n : p <> q -> get (<[p := n]> t) q = get t q.
Proof. intros. destruct q; [done|]. simpl. by rewrite lookup_insert_ne. Qed.

Lemma get_insert_eq t p n : p <> [] -> get (<[p := n]> t) p = Some n.
Proof. intros. destruct p; [done|]. apply lookup_insert_eq. Qed.

Lemma not_root_of_file t p : get t p <> Some NDir -> p <> [].
Proof. by intros Hp ->. Qed.

Lemma dirs_kept_insert t p n : get t p <> Some NDir -> dirs_kept t (<[p := n]> t).
Proof.
  intros Hp q Hq. rewrite get_insert_ne; [done|]. by intros ->.
Qed.

Lemma dirs_kept_mkdir t p : dirs_kept t (<[p := NDir]> t).
Proof.
  intros q Hq. destruct (decide (p = q)) as [->|]; [|by rewrite get_insert_ne].
  destruct q; [done|]. apply get_insert_eq. done.
Qed.

(** [mkdirs] only turns absent paths into directories, and the directory asked
    for is there afterwards. *)
Definition adds_dirs (t t' : gmap rpath node) : Prop :=
  forall p, t' !! p = t !! p \/ (t !! p = None /\ t' !! p = Some NDir).

#[export] Instance adds_dirs_preorder : PreOrder adds_dirs.
Proof.
  split; [by left|]. intros t t' t'' H H' p.
  destruct (H p) as [E|[E1 E2]], (H' p) as [E'|[E1' E2']]; rewrite ?E, ?E' in *; naive_solver.
Qed.

Lemma adds_dirs_kept t t' : adds_dirs t t' -> dirs_kept t t'.
Proof. intros H [|c p]; [done|]. simpl. destruct (H (c :: p)) as [->|[]]; naive_solver. Qed.

Lemma adds_dirs_file t t' p c : adds_dirs t t' -> t !! p = Some (NFile c) -> t' !! p = Some (NFile c).
Proof. intros H Hp. destruct (H p) as [->|[]]; congruence. Qed.

Lemma mkdirs_adds t cur cs : adds_dirs t (mkdirs t cur cs).1.
Proof.
  revert t cur. induction cs as [|c cs IH]; intros t cur; [done|]. cbn [mkdirs].
  destruct (get t (descend cur c)) as [[|]|] eqn:E; [done|by apply IH|].
  transitivity (<[descend cur c := NDir]> t); [|apply IH].
  intros p. destruct (decide (descend cur c = p)) as [<-|Hne].
  - right. rewrite lookup_insert_eq. split; [|done]. by destruct (descend cur c).
  - left. by rewrite lookup_insert_ne.
Qed.

Lemma mkdirs_walk t cur cs t' :
  get t cur = Some NDir -> mkdirs t cur cs = (t', None) ->
  exists p, walk t' cur cs = Ok p /\ get t' p = Some NDir.
Proof.
  revert t cur. induction cs as [|c cs IH]; intros t cur Hcur; cbn [mkdirs walk].
  { intros [= <-]. eauto. }
  destruct (get t (descend cur c)) as [[|]|] eqn:E; [done|..]; intros Hm.
  - pose proof (mkdirs_adds t (descend cur c) cs) as Ha. rewrite Hm in Ha. simpl in Ha.
    rewrite (adds_dirs_kept _ _ Ha _ Hcur). by apply (IH _ _ E).
  - pose proof (mkdirs_adds (<[descend cur c := NDir]> t) (descend cur c) cs) as Ha.
    rewrite Hm in Ha. simpl in Ha.
    rewrite (adds_dirs_kept _ _ Ha cur) by (by apply dirs_kept_mkdir).
    apply (IH _ _ (get_insert_eq _ _ _ (not_root_of_file _ _ ltac:(by rewrite E))) Hm).
Qed.

(** ** Lemmas: writing through a handle *)
Definition file_rel (f : fs) (p : rpath) (h : file) (b : bytes) : Prop :=
  h = File (set_tree f (<[p := NFile b]> (tree f))) p (length b).

Lemma file_reliable f p : reliable (file_rel f p).
Proof.
  intros h b d h' n e ->. cbn. unfold file_Write. cbn. rewrite lookup_insert_eq.
  intros [= <- <- <-]. unfold file_rel. split_and!; [done..|].
  rewrite length_app, insert_insert_eq. do 3 f_equal. unfold splice.
  by rewrite take_ge, drop_ge, Nat.sub_diag, app_nil_r by lia.
Qed.

Lemma os_Create_ok f path f1 p :
  os_Create f path = (f1, Ok p) ->
  f1 = set_tree f (<[p := NFile []]> (tree f)) /\ resolve f path = Ok p
  /\ get (tree f) p <> Some NDir.
Proof.
  unfold os_Create. destruct (resolve f path) as [q|]; [|done].
  destruct (get (tree f) q) as [[|]|] eqn:E; intros; simplify_eq; split_and!; congruence.
Qed.

(** What has been written at the path created is what a later lookup finds. *)
Lemma os_Stat_written f path p b :
  resolve f path = Ok p -> get (tree f) p <> Some NDir ->
  os_Stat (set_tree f (<[p := NFile b]> (tree f))) path = Ok (p, NFile b).
Proof.
  intros Hr Hp. unfold os_Stat. rewrite (resolve_mono f _ path p); [|by apply dirs_kept_insert|done].
  simpl. rewrite get_insert_eq; [done|]. by eapply not_root_of_file.
Qed.

(** ** Well-formed trees

    Every entry hangs below a directory, under a name that is a proper one. *)
Definition plain (c : string) : Prop := c <> "" /\ c <> "." /\ c <> "..".

Definition wf (t : gmap rpath node) : Prop :=
  t !! [] = None /\
  forall c p, is_Some (t !! (c :: p)) -> get t p = Some NDir /\ plain c.

Lemma descend_plain cur c : plain c -> descend cur c = c :: cur.
Proof. intros (H1 & H2 & H3). unfold descend. by rewrite !decide_False by naive_solver. Qed.

Lemma wf_empty : wf ∅.
Proof. split; [done|]. intros c p [n Hn]. by rewrite lookup_empty in Hn. Qed.

Lemma wf_get_cons t c p : wf t -> is_Some (get t (c :: p)) -> get t p = Some NDir.
Proof. intros [_ Ht] Hp. by apply (Ht c p). Qed.

Lemma wf_insert t c p n :
  wf t -> get t p = Some NDir -> plain c -> (n <> NDir -> get t (c :: p) <> Some NDir) ->
  wf (<[c :: p := n]> t).
Proof.
  intros [Hr Ht] Hp Hc Hn. split; [by rewrite lookup_insert_ne|].
  intros c' p' Hs. destruct (decide (c :: p = c' :: p')) as [[= -> ->]|Hne].
  - rewrite get_insert_ne; [done|]. intros Heq%(f_equal length). simpl in Heq. lia.
  - rewrite lookup_insert_ne in Hs by done. destruct (Ht _ _ Hs) as [Hd Hpl].
    split; [|done]. destruct (decide (c :: p = p')) as [<-|]; [|by rewrite get_insert_ne].
    rewrite get_insert_eq by done. destruct (decide (n = NDir)) as [->|Hnd]; [done|].
    by destruct (Hn Hnd).
Qed.

Lemma children_spec t p c : c ∈ children t p <-> is_Some (t !! (c :: p)).
Proof.
  unfold children. rewrite list_elem_of_omap. split.
  - intros ([q n] & Hin%elem_of_map_to_list & Hq).
    destruct q as [|c' q]; [done|]. case_decide; simplify_eq. eauto.
  - intros [n Hn]. exists (c :: p, n). rewrite elem_of_map_to_list, decide_True; done.
Qed.

Lemma wf_delete t p :
  wf t -> (forall c, t !! (c :: p) = None) -> wf (delete p t).
Proof.
  intros [Hr Ht] Hp. split; [by apply lookup_delete_None; auto|].
  intros c q Hs. rewrite lookup_delete_is_Some in Hs. destruct Hs as [Hne Hs].
  destruct (Ht _ _ Hs) as [Hd Hc]. split; [|done]. destruct q as [|c' q]; [done|].
  simpl in *. rewrite lookup_delete_ne; [done|]. intros ->.
  rewrite Hp in Hs. by destruct Hs.
Qed.

(** What a path that resolves names is a directory, or an entry (perhaps an
    absent one) of a directory. *)
Lemma walk_parent t cur cs p :
  wf t -> get t cur = Some NDir -> walk t cur cs = Ok p ->
  get t p = Some NDir \/ exists c q, p = c :: q /\ plain c /\ get t q = Some NDir.
Proof.
  intros Ht. revert cur. assert (forall cur c, get t cur = Some NDir ->
    get t (descend cur c) = Some NDir \/ (plain c /\ descend cur c = c :: cur)) as Hd.
  { intros cur c Hcur. unfold descend, plain.
    destruct (decide (c = "" \/ c = ".")); [by left|].
    destruct (decide (c = "..")); [|naive_solver].
    left. destruct cur as [|a cur]; [done|]. apply (wf_get_cons t a cur Ht). by rewrite Hcur. }
  induction cs as [|c cs IH]; intros cur Hcur; cbn [walk]; [intros [= <-]; by left|].
  rewrite Hcur. destruct (Hd cur c Hcur) as [Hn|[Hc Heq]]; [by apply IH|].
  rewrite Heq. destruct cs as [|c' cs]; [intros [= <-]; right; eauto|].
  intros Hw. destruct (get t (c :: cur)) as [[|]|] eqn:E.
  - cbn [walk] in Hw. by rewrite E in Hw.
  - by apply (IH (c :: cur)).
  - cbn [walk] in Hw. by rewrite E in Hw.
Qed.

Lemma mkdirs_wf t cur cs : wf t -> get t cur = Some NDir -> wf (mkdirs t cur cs).1.
Proof.
  revert t cur. induction cs as [|c cs IH]; intros t cur Ht Hcur; [done|]. cbn [mkdirs].
  destruct (get t (descend cur c)) as [[|]|] eqn:E; [done|by apply IH|].
  assert (plain c) as Hc.
  { unfold plain. split_and!; intros ->; unfold descend in E; simpl in E; [congruence..|].
    destruct cur as [|a cur]; [done|]. simpl in E.
    by rewrite (wf_get_cons t a cur Ht) in E by (by rewrite Hcur). }
  rewrite (descend_plain _ _ Hc) in *. apply IH; [|by apply get_insert_eq].
  by apply wf_insert.
Qed.

(** Where a path leads, if it leads anywhere. *)
Definition target (cur : rpath) (cs : list string) : rpath := foldl descend cur cs.

Lemma walk_target t cur cs p : walk t cur cs = Ok p -> p = target cur cs.
Proof.
  revert cur. induction cs as [|c cs IH]; intros cur; cbn [walk]; [by intros [= <-]|].
  destruct (get t cur) as [[|]|]; try done. apply IH.
Qed.

Lemma target_app cur xs ys : target cur (xs ++ ys) = target (target cur xs) ys.
Proof. apply foldl_app. Qed.

(** Paths without ".." only lead down. *)
Definition no_dotdot (cs : list string) : Prop := Forall (fun c => c <> "..") cs.

Lemma descend_no_dotdot cur c :
  c <> ".." -> descend cur c = cur \/ (plain c /\ descend cur c = c :: cur).
Proof. intros. unfold descend, plain. repeat case_decide; naive_solver. Qed.

Lemma target_down cur cs : no_dotdot cs -> exists ds, target cur cs = ds ++ cur.
Proof.
  intros Hcs. revert cur. induction Hcs as [|c cs Hc _ IH]; intros cur; [by exists []|].
  unfold target in *. cbn [foldl]. destruct (IH (descend cur c)) as [ds ->].
  destruct (descend_no_dotdot cur c Hc) as [->|[_ ->]]; [by exists ds|].
  exists (ds ++ [c]). by rewrite <-app_assoc.
Qed.

Lemma target_length cur xs ys :
  no_dotdot ys -> (length (target cur xs) <= length (target cur (xs ++ ys)))%nat.
Proof.
  intros Hys. rewrite target_app. destruct (target_down (target cur xs) ys Hys) as [ds ->].
  rewrite length_app. lia.
Qed.

Lemma target_plain cur cs : Forall plain cs -> target cur cs = rev cs ++ cur.
Proof.
  intros Hcs. revert cur. induction Hcs as [|c cs Hc _ IH]; intros cur; [done|].
  unfold target in *. cbn [foldl rev]. by rewrite IH, descend_plain, <-app_assoc.
Qed.

Lemma plain_no_dotdot cs : Forall plain cs -> no_dotdot cs.
Proof. intros H. eapply Forall_impl; [exact H|]. by intros c (_ & _ & ?). Qed.

Lemma wf_ancestor t ds p : wf t -> ds <> [] -> is_Some (get t (ds ++ p)) -> get t p = Some NDir.
Proof.
  intros Ht. induction ds as [|d ds IH]; [done|]. intros _ Hp.
  apply (wf_get_cons t d (ds ++ p) Ht) in Hp. destruct ds as [|d' ds]; [done|].
  apply IH; [done|]. by rewrite Hp.
Qed.

(** In a well-formed tree the way to a directory, and to any existing entry,
    can be walked. *)
Lemma walk_dir t cur cs :
  wf t -> no_dotdot cs -> get t cur = Some NDir -> get t (target cur cs) = Some NDir ->
  walk t cur cs = Ok (target cur cs).
Proof.
  intros Ht Hcs. revert cur. induction Hcs as [|c cs Hc Hcs IH]; intros cur Hcur Hs; [done|].
  cbn [walk]. rewrite Hcur. change (target cur (c :: cs)) with (target (descend cur c) cs) in *.
  apply IH; [|done]. destruct (target_down (descend cur c) cs Hcs) as [[|d ds] Hds];
    rewrite Hds in Hs; [done|]. apply (wf_ancestor t (d :: ds)); [done..|by rewrite Hs].
Qed.

Lemma walk_entry t cur cs c :
  wf t -> no_dotdot cs -> get t cur = Some NDir -> plain c ->
  is_Some (get t (c :: target cur cs)) -> walk t cur (cs ++ [c]) = Ok (c :: target cur cs).
Proof.
  intros Ht Hcs Hcur Hc Hs%(wf_get_cons _ _ _ Ht). rewrite walk_app, walk_dir by done.
  cbn. by rewrite Hs, descend_plain.
Qed.

(** [ENOTDIR] means a file on the way. *)
Lemma walk_notdir t cur cs :
  walk t cur cs = Err ErrNotDir ->
  exists xs ys b, cs = xs ++ ys /\ ys <> [] /\ get t (target cur xs) = Some (NFile b).
Proof.
  revert cur. induction cs as [|c cs IH]; intros cur; [done|]. cbn [walk].
  destruct (get t cur) as [[b|]|] eqn:E; [|intros H|done].
  - intros _. exists [], (c :: cs), b. done.
  - destruct (IH _ H) as (xs & ys & b & -> & Hys & Hb). by exists (c :: xs), ys, b.
Qed.

Lemma walk_file_on_way t cur xs ys b :
  wf t -> no_dotdot xs -> get t cur = Some NDir -> ys <> [] ->
  get t (target cur xs) = Some (NFile b) -> walk t cur (xs ++ ys) = Err ErrNotDir.
Proof.
  intros Ht Hxs. revert cur. induction Hxs as [|x xs Hx Hxs IH]; intros cur Hcur Hys Hb.
  { cbn in Hb. congruence. }
  cbn [walk app]. rewrite Hcur. change (target cur (x :: xs)) with (target (descend cur x) xs) in Hb.
  destruct (target_down (descend cur x) xs Hxs) as [[|d ds] Hds].
  - rewrite Hds in Hb. simpl in Hb. destruct ys as [|y ys]; [done|]. clear IH Hds.
    destruct xs as [|x' xs]; cbn [walk app]; by rewrite Hb.
  - apply IH; [|done..]. rewrite Hds in Hb. apply (wf_ancestor t (d :: ds)); [done..|by rewrite Hb].
Qed.

Lemma walk_errors t cur cs e : walk t cur cs = Err e -> e = ErrNotExist \/ e = ErrNotDir.
Proof.
  revert cur. induction cs as [|c cs IH]; intros cur; cbn [walk]; [done|].
  destruct (get t cur) as [[|]|]; [|apply IH|]; naive_solver.
Qed.

(** [mkdirs] creates nothing off its way. *)
Lemma mkdirs_frame t cur cs p :
  (mkdirs t cur cs).1 !! p <> t !! p -> exists xs ys, cs = xs ++ ys /\ p = target cur xs.
Proof.
  revert t cur. induction cs as [|c cs IH]; intros t cur; [done|]. cbn [mkdirs].
  destruct (get t (descend cur c)) as [[|]|]; [done|intros H|intros H].
  - destruct (IH _ _ H) as (xs & ys & -> & ->). by exists (c :: xs), ys.
  - destruct (decide (p = descend cur c)) as [->|Hne]; [by exists [c], cs|].
    rewrite <-(lookup_insert_ne t (descend cur c) p NDir) in H by done.
    destruct (IH _ _ H) as (xs & ys & -> & ->). by exists (c :: xs), ys.
Qed.

(** It fails only when a file is in the way. *)
Lemma mkdirs_fails t cur cs t' e :
  get t cur = Some NDir -> mkdirs t cur cs = (t', Some e) ->
  exists xs ys b, cs = xs ++ ys /\ get t (target cur xs) = Some (NFile b).
Proof.
  revert t cur. induction cs as [|c cs IH]; intros t cur Hcur; [done|]. cbn [mkdirs].
  destruct (get t (descend cur c)) as [[b|]|] eqn:E; intros H.
  - by exists [c], cs, b.
  - destruct (IH _ _ E H) as (xs & ys & b & -> & Hb). by exists (c :: xs), ys, b.
  - apply IH in H as (xs & ys & b & -> & Hb);
      [|apply get_insert_eq; by eapply not_root_of_file; rewrite E].
    exists (c :: xs), ys, b. split; [done|]. change (target cur (c :: xs)) with
      (target (descend cur c) xs). destruct (decide (descend cur c = target (descend cur c) xs))
      as [Heq|Hne]; [|by rewrite get_insert_ne in Hb].
    rewrite <-Heq in Hb. rewrite get_insert_eq in Hb; [done|]. by eapply not_root_of_file; rewrite E.
Qed.

(** ** What stays readable *)
Definition files_kept (f f' : fs) : Prop :=
  forall path d, os_ReadFile f path = Ok d -> os_ReadFile f' path = Ok d.

#[export] Instance files_kept_preorder : PreOrder files_kept.
Proof. split; unfold files_kept; naive_solver. Qed.

Lemma os_ReadFile_Stat f path d : os_ReadFile f path = Ok d <-> exists p, os_Stat f path = Ok (p, NFile d).
Proof.
  unfold os_ReadFile. destruct (os_Stat f path) as [[p [c|]]|]; cbn; split;
    try (intros [? ?]; by simplify_eq); try done; intros; simplify_eq; eauto.
Qed.

Lemma files_kept_dirs f f' :
  cwd f' = cwd f -> dirs_kept (tree f) (tree f') ->
  (forall p b, tree f !! p = Some (NFile b) -> tree f' !! p = Some (NFile b)) -> files_kept f f'.
Proof.
  intros Hc Hd Hf path d. rewrite !os_ReadFile_Stat. intros [p Hp]. exists p. revert Hp.
  unfold os_Stat. destruct (resolve f path) as [q|] eqn:Hr; [|done]. cbn [mbind result_bind].
  assert (resolve f' path = Ok q) as ->.
  { destruct f' as [t' c']. cbn in Hc. subst c'. by apply (resolve_mono f). }
  cbn [mbind result_bind]. destruct q as [|c q]; [done|]. cbn [get].
  destruct (tree f !! (c :: q)) as [n|] eqn:E; [|done]. intros [= <- ->]. by rewrite (Hf _ _ E).
Qed.

Lemma os_Stat_found f path p d : os_Stat f path = Ok (p, NFile d) -> os_ReadFile f path = Ok d.
Proof. intros Hp. apply os_ReadFile_Stat. eauto. Qed.

(** Writing a file that was not there. *)
Lemma os_WriteFile_new f path d f1 e0 :
  os_Stat f path = Err e0 -> os_WriteFile f path d = (f1, None) -> files_kept f f1.
Proof.
  intros Hst. unfold os_WriteFile. destruct (os_Create f path) as [f0 [p|]] eqn:Hc; [|done].
  intros [= <-]. apply os_Create_ok in Hc as (-> & Hr & Hp). unfold os_Stat in Hst. rewrite Hr in Hst. cbn in Hst.
  apply files_kept_dirs; [done|cbn; rewrite insert_insert_eq; by apply dirs_kept_insert|].
  cbn. intros q b Hq. rewrite insert_insert_eq, lookup_insert_ne; [done|]. intros ->.
  destruct q; cbn in Hst; [done|]. by rewrite Hq in Hst.
Qed.

Lemma os_MkdirAll_kept f path : files_kept f (os_MkdirAll f path).1.
Proof.
  unfold os_MkdirAll. case_decide; [done|].
  pose proof (mkdirs_adds (tree f) (start_dir f path) (split_char slash path)) as Ha. destruct (mkdirs _ _ _) as [t e].
  apply files_kept_dirs; [done|by apply adds_dirs_kept|]. intros p b. by apply adds_dirs_file.
Qed.
