(* ===== verification/Encryption.v ===== *)
(** Streaming encryption at rest (src/internal/store/encryption.go): the
    [encryptingWriter] that cuts its input into 64 KB chunks and frames each
    sealed chunk with its length, and the [decryptingReader] that undoes it.

    AES-GCM ([crypto/aes], [crypto/cipher]) is the class [AEAD], the system's
    random source the class [Entropy]; [AEADLaws] and [EntropyLaws] state what
    their documentation promises.  The writer is an instance of [Writer] over
    any destination, the reader one of [Reader] over any source, and both are
    refined to a specification on whole byte strings: [frames] and
    [unframe]. *)
From S2P Require Import Prelude Words Io.

(** ** [cipher.AEAD] with a 12-byte nonce and a 16-byte tag *)
Class AEAD := {
  gcm_Seal : bytes -> bytes -> bytes -> bytes;           (* key, nonce, plaintext *)
  gcm_Open : bytes -> bytes -> bytes -> option bytes;    (* key, nonce, ciphertext *)
}.

Definition NonceSize : Z := 12.
Definition Overhead : Z := 16.

Class AEADLaws `{AEAD} : Prop := {
  gcm_Open_Seal k n p : zlen n = NonceSize -> gcm_Open k n (gcm_Seal k n p) = Some p;
  gcm_Seal_length k n p : zlen (gcm_Seal k n p) = zlen p + Overhead;
  gcm_Open_length k n c p : gcm_Open k n c = Some p -> zlen p + Overhead = zlen c;
}.

(** ** [crypto/rand]: the [i]-th request, for [n] bytes *)
Class Entropy := { rand_Read : nat -> Z -> bytes }.
Class EntropyLaws `{Entropy} : Prop := {
  rand_Read_length i n : 0 <= n -> zlen (rand_Read i n) = n;
}.

(** [aes.NewCipher] accepts 16, 24 and 32 byte keys. *)
Definition aes_NewCipher (key : bytes) : result unit :=
  if decide (zlen key = 16 \/ zlen key = 24 \/ zlen key = 32) then Ok tt
  else Err (Errorf "crypto/aes: invalid key size").

Definition chunkSize : Z := 64 * 1024.

(** ** [encryptingWriter] *)
Record encryptingWriter (W : Type) := EncryptingWriter {
  ew_dst : W;
  ew_key : bytes;         (* the AEAD [gcm] made from it *)
  ew_buf : bytes;
  ew_closed : bool;
  ew_rand : nat;          (* the next request to [crypto/rand] *)
}.
Arguments EncryptingWriter {W}.
Arguments ew_dst {W}.
Arguments ew_key {W}.
Arguments ew_buf {W}.
Arguments ew_closed {W}.
Arguments ew_rand {W}.

Definition newEncryptingWriter {W} (key : bytes) (dst : W) (rnd : nat) :
    result (encryptingWriter W) :=
  aes_NewCipher key orwrap "failed to create cipher" ≫= fun _ =>
  Ok (EncryptingWriter dst key [] false rnd).

Section writer.
Context `{AEAD, Entropy} {W : Type} `{Writer W}.
Implicit Type w : encryptingWriter W.

(** [writeChunk]: the length on four bytes, then nonce and ciphertext. *)
Definition writeChunk w (chunk : bytes) : encryptingWriter W * option goerr :=
  let nonce := rand_Read (ew_rand w) NonceSize in
  let ciphertext := nonce ++ gcm_Seal (ew_key w) nonce chunk in
  let lenBuf := be_put 4 (wrap_u 32 (zlen ciphertext)) in
  let upd dst := EncryptingWriter dst (ew_key w) (ew_buf w) (ew_closed w) (S (ew_rand w)) in
  let '(dst, _, e1) := wr_write (ew_dst w) lenBuf in
  match e1 with
  | Some e => (upd dst, Some e)
  | None => let '(dst, _, e2) := wr_write dst ciphertext in (upd dst, e2)
  end.

Definition set_buf w (b : bytes) : encryptingWriter W :=
  EncryptingWriter (ew_dst w) (ew_key w) b (ew_closed w) (ew_rand w).
Definition set_closed w : encryptingWriter W :=
  EncryptingWriter (ew_dst w) (ew_key w) (ew_buf w) true (ew_rand w).

(** [for len(w.buf) >= chunkSize { ... }] *)
Fixpoint write_chunks (fuel : nat) w : encryptingWriter W * option goerr :=
  if chunkSize <=? zlen (ew_buf w) then
    match fuel with
    | O => (w, Some ErrFuel)
    | S fuel =>
        let '(w, e) := writeChunk w (take (Z.to_nat chunkSize) (ew_buf w)) in
        match e with
        | Some e => (w, Some e)
        | None => write_chunks fuel (set_buf w (drop (Z.to_nat chunkSize) (ew_buf w)))
        end
    end
  else (w, None).

Definition ew_Write w (p : bytes) : encryptingWriter W * Z * option goerr :=
  if ew_closed w then (w, 0, Some (Errorf "writer is closed")) else
  let w := set_buf w (ew_buf w ++ p) in
  let '(w, e) := write_chunks (length (ew_buf w)) w in
  match e with
  | Some e => (w, 0, Some e)
  | None => (w, zlen p, None)
  end.

Definition ew_Close w : encryptingWriter W * option goerr :=
  if ew_closed w then (w, None) else
  let w := set_closed w in
  if 0 <? zlen (ew_buf w) then writeChunk w (ew_buf w) else (w, None).

#[export] Instance ew_Writer : Writer (encryptingWriter W) := {| wr_write := ew_Write |}.
End writer.

(** ** [decryptingReader] *)
Record decryptingReader (R : Type) := DecryptingReader {
  dr_src : R;
  dr_key : bytes;
  dr_buf : bytes;
  dr_readPos : nat;
  dr_exhausted : bool;
}.
Arguments DecryptingReader {R}.
Arguments dr_src {R}.
Arguments dr_key {R}.
Arguments dr_buf {R}.
Arguments dr_readPos {R}.
Arguments dr_exhausted {R}.

Definition newDecryptingReader {R} (key : bytes) (src : R) : result (decryptingReader R) :=
  aes_NewCipher key orwrap "failed to create cipher" ≫= fun _ =>
  Ok (DecryptingReader src key [] 0%nat false).

(** The bound of [readNextChunk]; no 32-bit overflow here. *)
Definition max_chunk : Z := wrap_u 32 (chunkSize + NonceSize + Overhead + 1024).

Definition err_too_large (n : Z) : goerr := Errorf "chunk too large".
Definition err_too_short : goerr := Errorf "ciphertext too short".
Definition err_open : goerr :=
  Wrap "failed to decrypt chunk" (Errorf "cipher: message authentication failed").

Section reader.
Context `{AEAD} {R : Type} `{Reader R}.
Implicit Type r : decryptingReader R.

Definition set_src r (src : R) : decryptingReader R :=
  DecryptingReader src (dr_key r) (dr_buf r) (dr_readPos r) (dr_exhausted r).

Definition readNextChunk r : decryptingReader R * option goerr :=
  let '(src, lenBuf, e) := io_ReadFull (dr_src r) 4 in
  let r := set_src r src in
  match e with Some e => (r, Some e) | None =>
  let chunkLen := be_get lenBuf in
  if max_chunk <? chunkLen then (r, Some (err_too_large chunkLen)) else
  let '(src, ciphertext, e) := io_ReadFull (dr_src r) chunkLen in
  let r := set_src r src in
  match e with Some e => (r, Some e) | None =>
  if zlen ciphertext <? NonceSize then (r, Some err_too_short) else
  let nonce := take (Z.to_nat NonceSize) ciphertext in
  let ciphertext := drop (Z.to_nat NonceSize) ciphertext in
  match gcm_Open (dr_key r) nonce ciphertext with
  | None => (r, Some err_open)
  | Some plaintext =>
      (DecryptingReader (dr_src r) (dr_key r) plaintext 0%nat (dr_exhausted r), None)
  end end end.

(** [n = copy(p, r.buf[r.readPos:]); r.readPos += n] with [len(p) = n]. *)
Definition dr_copy r (n : Z) : decryptingReader R * bytes :=
  let d := take (Z.to_nat n) (drop (dr_readPos r) (dr_buf r)) in
  (DecryptingReader (dr_src r) (dr_key r) (dr_buf r) (dr_readPos r + length d)
     (dr_exhausted r), d).

Definition dr_Read r (n : Z) : decryptingReader R * bytes * option goerr :=
  if (dr_readPos r <? length (dr_buf r))%nat then let '(r, d) := dr_copy r n in (r, d, None)
  else if dr_exhausted r then (r, [], Some EOF)
  else let '(r, e) := readNextChunk r in
  match e with
  | Some e =>
      let r := if decide (e = EOF)
               then DecryptingReader (dr_src r) (dr_key r) (dr_buf r) (dr_readPos r) true
               else r in
      (r, [], Some e)
  | None => let '(r, d) := dr_copy r n in (r, d, None)
  end.

#[export] Instance dr_Reader : Reader (decryptingReader R) :=
  {| rd_read := dr_Read;
     rd_size r := (2 * length (drop (dr_readPos r) (dr_buf r))
                   + 2 * rd_size (dr_src r))%nat |}.
End reader.

(** ** Specification on whole byte strings *)
Section spec.
Context `{AEAD, Entropy}.

Definition frame (key : bytes) (rnd : nat) (chunk : bytes) : bytes :=
  let nonce := rand_Read rnd NonceSize in
  let ciphertext := nonce ++ gcm_Seal key nonce chunk in
  be_put 4 (zlen ciphertext) ++ ciphertext.

(** The frames of successive chunks, each with a fresh nonce. *)
Fixpoint frames (key : bytes) (rnd : nat) (chunks : list bytes) : bytes :=
  match chunks with
  | [] => []
  | c :: cs => frame key rnd c ++ frames key (S rnd) cs
  end.

(** What reading a framed file yields: the chunks that decrypt, in order, and
    the error that ends the reading; [fin] is the error of the source behind
    its last byte. *)
Fixpoint unframe_fuel (fuel : nat) (key b : bytes) (fin : goerr) : list bytes * goerr :=
  match fuel with
  | O => ([], fin)
  | S fuel =>
      if zlen b <? 4 then ([], readfull_err b fin) else
      let n := be_get (take 4 b) in
      let rest := drop 4 b in
      if max_chunk <? n then ([], err_too_large n) else
      if zlen rest <? n then ([], readfull_err rest fin) else
      let c := take (Z.to_nat n) rest in
      if zlen c <? NonceSize then ([], err_too_short) else
      match gcm_Open key (take (Z.to_nat NonceSize) c) (drop (Z.to_nat NonceSize) c) with
      | None => ([], err_open)
      | Some p => let '(ps, e) := unframe_fuel fuel key (drop (Z.to_nat n) rest) fin in
                  (p :: ps, e)
      end
  end.

(** A frame takes at least four bytes, so the length of the input is fuel
    enough (see [unframe_step]). *)
Definition unframe (key b : bytes) (fin : goerr) : list bytes * goerr :=
  unframe_fuel (S (length b)) key b fin.
End spec.

Arguments frame : simpl never.
Arguments unframe : simpl never.
Arguments chunkSize : simpl never.

(** ** The writer refines [frames] *)
Section writer_refinement.
Context `{AEADLaws, EntropyLaws} {W : Type} `{Writer W} (rel : W -> bytes -> Prop).
Hypothesis rel_ok : reliable rel.

Lemma frames_app key rnd cs ds :
  frames key rnd (cs ++ ds) = frames key rnd cs ++ frames key (rnd + length cs) ds.
Proof.
  revert rnd. induction cs as [|c cs IH]; intros rnd; cbn [frames app length].
  { by rewrite Nat.add_0_r. }
  rewrite IH, <-app_assoc. do 3 f_equal. lia.
Qed.

Lemma writeChunk_ok (w : encryptingWriter W) b chunk :
  rel (ew_dst w) b -> zlen chunk <= chunkSize ->
  exists dst, writeChunk w chunk
    = (EncryptingWriter dst (ew_key w) (ew_buf w) (ew_closed w) (S (ew_rand w)), None)
    /\ rel dst (b ++ frame (ew_key w) (ew_rand w) chunk).
Proof.
  intros Hw Hc. unfold writeChunk, frame.
  set (nonce := rand_Read (ew_rand w) NonceSize).
  set (ct := nonce ++ gcm_Seal (ew_key w) nonce chunk).
  assert (zlen ct = zlen chunk + 28) as Hct.
  { subst ct nonce. rewrite zlen_app, gcm_Seal_length.
    rewrite rand_Read_length; unfold NonceSize, Overhead; lia. }
  pose proof (zlen_nonneg chunk). unfold chunkSize in Hc.
  rewrite wrap_u_small by lia.
  destruct (wr_write (ew_dst w) _) as [[d1 n1] e1] eqn:E1.
  destruct (rel_ok _ _ _ _ _ _ Hw E1) as (_ & -> & Hw1).
  destruct (wr_write d1 ct) as [[d2 n2] e2] eqn:E2.
  destruct (rel_ok _ _ _ _ _ _ Hw1 E2) as (_ & -> & Hw2).
  exists d2. split; [done|]. by rewrite app_assoc.
Qed.

(** The bytes [b] accepted so far are the full chunks written to the
    destination followed by the buffer, which holds less than a chunk. *)
Definition ew_chunks (base key : bytes) (rnd : nat) (w : encryptingWriter W)
    (cs : list bytes) : Prop :=
  ew_closed w = false /\ ew_key w = key /\ ew_rand w = (rnd + length cs)%nat
  /\ Forall (fun c => zlen c = chunkSize) cs /\ rel (ew_dst w) (base ++ frames key rnd cs).

Definition ew_rel (base key : bytes) (rnd : nat) (w : encryptingWriter W) (b : bytes) : Prop :=
  exists cs, ew_chunks base key rnd w cs /\ b = concat cs ++ ew_buf w
             /\ zlen (ew_buf w) < chunkSize.

Lemma write_chunks_ok base key rnd fuel w cs :
  ew_chunks base key rnd w cs -> (length (ew_buf w) <= fuel)%nat ->
  exists w', write_chunks fuel w = (w', None)
             /\ ew_rel base key rnd w' (concat cs ++ ew_buf w).
Proof.
  revert w cs. induction fuel as [|fuel IH]; intros w cs Hw Hf; cbn [write_chunks];
    destruct (Z.leb_spec chunkSize (zlen (ew_buf w))) as [Hl|Hl].
  - unfold chunkSize in Hl. len.
  - exists w. split; [done|]. by exists cs.
  - destruct Hw as (Hcl & <- & Hr & Hcs & Hrel).
    set (c := take (Z.to_nat chunkSize) (ew_buf w)).
    assert (zlen c = chunkSize) as Hc by (apply zlen_take; done).
    destruct (writeChunk_ok w _ c Hrel) as (dst & -> & Hdst); [lia|].
    edestruct (IH (set_buf (EncryptingWriter dst (ew_key w) (ew_buf w) (ew_closed w)
      (S (ew_rand w))) (drop (Z.to_nat chunkSize) (ew_buf w))) (cs ++ [c])) as (w' & Hw' & Hrel').
    + repeat split; simpl; [done|rewrite length_app; simpl; lia| |].
      * apply Forall_app. by repeat constructor.
      * rewrite frames_app, <-Hr. simpl. by rewrite app_nil_r, app_assoc.
    + simpl. rewrite length_drop. unfold chunkSize in *. len.
    + exists w'. split; [done|]. revert Hrel'. cbn [ew_buf set_buf].
      rewrite concat_app. cbn [concat]. subst c.
      by rewrite app_nil_r, <-app_assoc, take_drop.
  - exists w. split; [done|]. by exists cs.
Qed.

Lemma ew_reliable base key rnd : reliable (ew_rel base key rnd).
Proof.
  intros w b d w' n e (cs & Hw & -> & Hb). cbn. unfold ew_Write.
  destruct Hw as (Hcl & Hw). rewrite Hcl.
  destruct (write_chunks_ok base key rnd (length (ew_buf w ++ d)) (set_buf w (ew_buf w ++ d)) cs)
    as (w1 & Hw1 & Hrel); [by split|done|].
  cbn in Hw1 |- *. rewrite Hw1. intros [= <- <- <-]. by rewrite <-app_assoc.
Qed.

(** [Close] flushes what is left in the buffer; an empty buffer adds nothing. *)
Definition last_chunk (b : bytes) : list bytes := match b with [] => [] | _ => [b] end.

Lemma ew_Close_shape base key rnd w b :
  ew_rel base key rnd w b ->
  exists w' full lst, ew_Close w = (w', None) /\ ew_closed w' = true
    /\ b = concat full ++ lst /\ Forall (fun c => zlen c = chunkSize) full
    /\ zlen lst < chunkSize /\ rel (ew_dst w') (base ++ frames key rnd (full ++ last_chunk lst)).
Proof.
  intros (cs & (Hcl & <- & Hr & Hcs & Hrel) & -> & Hb). unfold ew_Close. rewrite Hcl.
  cbn. destruct (Z.ltb_spec 0 (zlen (ew_buf w))) as [Hl|Hl].
  - destruct (writeChunk_ok (set_closed w) _ (ew_buf w) Hrel) as (dst & -> & Hdst); [lia|].
    eexists _, cs, (ew_buf w). split_and!; [done..|]. cbn [ew_dst].
    destruct (ew_buf w) as [|x l] eqn:Hbuf; [done|]. cbn [last_chunk].
    rewrite frames_app, <-Hr, app_assoc. cbn [frames]. by rewrite app_nil_r.
  - exists (set_closed w), cs, []. pose proof (zlen_nonneg (ew_buf w)).
    assert (ew_buf w = []) as -> by (apply zlen_zero; lia).
    cbn [last_chunk]. by rewrite !app_nil_r.
Qed.

Lemma ew_Close_ok base key rnd w b :
  ew_rel base key rnd w b ->
  exists w' cs, ew_Close w = (w', None) /\ ew_closed w' = true
    /\ concat cs = b /\ Forall (fun c => 0 < zlen c <= chunkSize) cs
    /\ rel (ew_dst w') (base ++ frames key rnd cs).
Proof.
  intros (w' & full & lst & Hc & Hcl & -> & Hfull & Hlst & Hrel)%ew_Close_shape.
  exists w', (full ++ last_chunk lst). split_and!; [done|done| | |done].
  - rewrite concat_app. f_equal. destruct lst; [done|]. apply app_nil_r.
  - apply Forall_app. split.
    + eapply Forall_impl; [exact Hfull|]. intros c ->. unfold chunkSize. lia.
    + destruct lst; constructor; [|constructor]. split; [len|lia].
Qed.

(** Successive writes. *)
Fixpoint ew_WriteAll (w : encryptingWriter W) (ps : list bytes) :
    encryptingWriter W * option goerr :=
  match ps with
  | [] => (w, None)
  | p :: ps => let '(w, _, e) := ew_Write w p in
               match e with Some e => (w, Some e) | None => ew_WriteAll w ps end
  end.

Lemma ew_WriteAll_ok base key rnd w b ps :
  ew_rel base key rnd w b ->
  exists w', ew_WriteAll w ps = (w', None) /\ ew_rel base key rnd w' (b ++ concat ps).
Proof.
  revert w b. induction ps as [|p ps IH]; intros w b Hw; cbn [ew_WriteAll concat].
  { exists w. by rewrite app_nil_r. }
  destruct (ew_Write w p) as [[w1 n] e] eqn:Hp.
  destruct (ew_reliable _ _ _ _ _ _ _ _ _ Hw Hp) as (_ & -> & Hw1).
  destruct (IH _ _ Hw1) as (w' & -> & Hw'). exists w'. by rewrite app_assoc.
Qed.
End writer_refinement.

(** ** [unframe], one frame at a time *)
Section unframe_lemmas.
Context `{AEAD}.

Lemma unframe_fuel_enough f1 f2 key b fin :
  (length b < f1)%nat -> (length b < f2)%nat ->
  unframe_fuel f1 key b fin = unframe_fuel f2 key b fin.
Proof.
  revert f2 b. induction f1 as [|f1 IH]; intros [|f2] b H1 H2; try lia.
  cbn [unframe_fuel]. destruct (Z.ltb_spec (zlen b) 4); [done|].
  repeat case_match; try done;
    rewrite (IH f2) in * by (rewrite !length_drop; len); congruence.
Qed.

Lemma unframe_unfold key b fin :
  unframe key b fin =
    if zlen b <? 4 then ([], readfull_err b fin) else
    let n := be_get (take 4 b) in
    let rest := drop 4 b in
    if max_chunk <? n then ([], err_too_large n) else
    if zlen rest <? n then ([], readfull_err rest fin) else
    let c := take (Z.to_nat n) rest in
    if zlen c <? NonceSize then ([], err_too_short) else
    match gcm_Open key (take (Z.to_nat NonceSize) c) (drop (Z.to_nat NonceSize) c) with
    | None => ([], err_open)
    | Some p => let '(ps, e) := unframe key (drop (Z.to_nat n) rest) fin in (p :: ps, e)
    end.
Proof.
  unfold unframe at 1. cbn [unframe_fuel].
  destruct (Z.ltb_spec (zlen b) 4); [done|]. cbn zeta.
  rewrite (unframe_fuel_enough (length b) (S (length (drop (Z.to_nat (be_get (take 4 b)))
    (drop 4 b))))) by (rewrite ?length_drop; len).
  done.
Qed.

(** The end of the input at a frame boundary, and a first complete frame. *)
Lemma unframe_nil key fin : unframe key [] fin = ([], fin).
Proof. done. Qed.

Context `{!AEADLaws, Entropy, !EntropyLaws}.

Lemma unframe_frame key rnd c b fin :
  zlen c <= chunkSize ->
  unframe key (frame key rnd c ++ b) fin
  = let '(ps, e) := unframe key b fin in (c :: ps, e).
Proof.
  intros Hc. unfold frame. set (nonce := rand_Read rnd NonceSize).
  set (ct := nonce ++ gcm_Seal key nonce c). pose proof (zlen_nonneg c) as Hc0.
  assert (zlen nonce = NonceSize) as Hnonce by (apply rand_Read_length; done).
  assert (zlen ct = zlen c + 28) as Hct.
  { subst ct. rewrite zlen_app, gcm_Seal_length, Hnonce. unfold NonceSize, Overhead. lia. }
  unfold chunkSize in Hc.
  assert (length (be_put 4 (zlen ct)) = 4%nat) as H4 by apply length_be_put.
  rewrite unframe_unfold, <-app_assoc, take_app_length', drop_app_length', be_get_put_small
    by (done || simpl; lia).
  cbn zeta. rewrite !zlen_app, zlen_be_put.
  pose proof (zlen_nonneg b).
  destruct (Z.ltb_spec (Z.of_nat 4 + (zlen ct + zlen b)) 4); [lia|].
  destruct (Z.ltb_spec max_chunk (zlen ct)) as [Hm|_].
  { exfalso. revert Hm. change max_chunk with 66588. lia. }
  destruct (Z.ltb_spec (zlen ct + zlen b) (zlen ct)); [lia|].
  rewrite take_app_length', drop_app_length' by len.
  destruct (Z.ltb_spec (zlen ct) NonceSize) as [Hn|_]; [unfold NonceSize in Hn; lia|].
  subst ct. rewrite take_app_length', drop_app_length' by len.
  by rewrite gcm_Open_Seal.
Qed.

(** Everything framed is read back, whatever follows. *)
Lemma unframe_frames key rnd cs b fin :
  Forall (fun c => zlen c <= chunkSize) cs ->
  unframe key (frames key rnd cs ++ b) fin
  = let '(ps, e) := unframe key b fin in (cs ++ ps, e).
Proof.
  revert rnd. induction cs as [|c cs IH]; intros rnd Hcs; cbn [frames app].
  { by destruct (unframe key b fin). }
  inv Hcs. rewrite <-app_assoc, unframe_frame, IH by done.
  by destruct (unframe key b fin).
Qed.
End unframe_lemmas.

(** ** The reader refines [unframe] *)
Section reader_refinement.
Context `{AEADLaws} {R : Type} `{ReaderLaws R}.
Implicit Type r : decryptingReader R.

Definition dr_rest r : list bytes * goerr :=
  if dr_exhausted r then ([], EOF)
  else unframe (dr_key r) (rd_bytes (dr_src r)) (rd_end (dr_src r)).

(** [readNextChunk] takes the first chunk off [unframe], or fails with the
    error that ends it. *)
Lemma readNextChunk_ok r :
  match unframe (dr_key r) (rd_bytes (dr_src r)) (rd_end (dr_src r)) with
  | ([], e) => exists r', readNextChunk r = (r', Some e)
  | (p :: ps, e) => exists src,
      readNextChunk r = (DecryptingReader src (dr_key r) p 0 (dr_exhausted r), None)
      /\ unframe (dr_key r) (rd_bytes src) (rd_end src) = (ps, e)
      /\ (rd_size src + length p < rd_size (dr_src r))%nat
  end.
Proof.
  rewrite unframe_unfold. unfold readNextChunk. cbn zeta.
  pose proof (io_ReadFull_ok (dr_src r) 4 ltac:(lia)) as Hlen.
  rewrite Z.leb_antisym in Hlen. destruct (zlen _ <? 4) eqn:E4; simpl in Hlen.
  { destruct Hlen as (src & ->). by eexists. }
  destruct Hlen as (src & -> & Hb & He & Hs). change (Z.to_nat 4) with 4%nat in *.
  cbn [set_src dr_src dr_key]. set (n := be_get (take 4 (rd_bytes (dr_src r)))).
  destruct (max_chunk <? n); [by eexists|].
  pose proof (be_get_range (take 4 (rd_bytes (dr_src r)))) as [Hn0 _]. fold n in Hn0.
  pose proof (io_ReadFull_ok src n Hn0) as Hct. rewrite Hb, He in Hct.
  rewrite Z.leb_antisym in Hct. destruct (zlen (drop 4 _) <? n) eqn:En; simpl in Hct.
  { destruct Hct as (src2 & ->). by eexists. }
  destruct Hct as (src2 & -> & Hb2 & He2 & Hs2). breflect.
  destruct (zlen (take _ _) <? NonceSize) eqn:Ec; [by eexists|].
  destruct (gcm_Open _ _ _) as [p|] eqn:Ho; [|by eexists].
  apply gcm_Open_length in Ho. unfold Overhead in Ho.
  destruct (unframe _ _ _) as [ps e] eqn:Hu. exists src2.
  split; [done|]. split; [by rewrite Hb2, He2|]. revert Ho. len.
Qed.

#[export] Program Instance dr_Laws : ReaderLaws (decryptingReader R) :=
  {| rd_bytes r := drop (dr_readPos r) (dr_buf r) ++ concat (fst (dr_rest r));
     rd_end r := snd (dr_rest r) |}.
Next Obligation.
  intros r n r' d e Hn. cbn. unfold dr_Read, dr_copy, dr_rest.
  destruct (Nat.ltb_spec (dr_readPos r) (length (dr_buf r))) as [Hp|Hp].
  { intros [= <- <- <-]. cbn. rewrite app_assoc, <-drop_drop.
    set (l := drop (dr_readPos r) (dr_buf r)).
    assert (0 < length l)%nat by (subst l; rewrite length_drop; lia).
    rewrite take_drop_length. split_and!; [done|done|len|]. len. }
  rewrite (drop_ge (dr_buf r)) by lia. cbn [app].
  destruct (dr_exhausted r) eqn:Hex; [by intros [= <- <- <-]|].
  pose proof (readNextChunk_ok r) as Hnext.
  destruct (unframe _ _ _) as [[|p ps] e0] eqn:Hu.
  { destruct Hnext as (r1 & ->). case_decide; intros [= <- <- <-]; done. }
  destruct Hnext as (src & -> & Hu' & Hs). intros [= <- <- <-]. cbn. rewrite Hex, Hu'.
  cbn. rewrite drop_0, app_assoc, take_drop_length. split_and!; [done|done|len|]. len.
Qed.
End reader_refinement.

(** ** Lengths *)
Section lengths.
Context `{AEADLaws, EntropyLaws}.

Lemma zlen_frame key rnd c : zlen (frame key rnd c) = zlen c + 32.
Proof.
  unfold frame. rewrite !zlen_app, zlen_be_put, gcm_Seal_length.
  rewrite rand_Read_length; unfold NonceSize, Overhead; lia.
Qed.

Lemma zlen_frames key rnd cs : zlen (frames key rnd cs) = zlen (concat cs) + 32 * zlen cs.
Proof.
  revert rnd. induction cs as [|c cs IH]; intros rnd; [done|]. cbn [frames concat].
  rewrite !zlen_app, zlen_frame, IH, zlen_cons. lia.
Qed.

Lemma zlen_concat_full (full : list bytes) :
  Forall (fun c => zlen c = chunkSize) full -> zlen (concat full) = chunkSize * zlen full.
Proof.
  induction 1 as [|c cs Hc _ IH]; cbn [concat]; [done|].
  rewrite zlen_app, zlen_cons, Hc, IH. lia.
Qed.

(** A frame cut short: only its absence, or the absence of all that follows
    its length, looks like a regular end. *)
Lemma unframe_cut key rnd c k :
  zlen c <= chunkSize -> (k < length (frame key rnd c))%nat ->
  unframe key (take k (frame key rnd c)) EOF
  = ([], if decide (k = 0 \/ k = 4)%nat then EOF else ErrUnexpectedEOF).
Proof.
  intros Hc Hk. pose proof (zlen_frame key rnd c) as Hlen. revert Hlen Hk.
  unfold frame. set (ct := rand_Read _ _ ++ _). rewrite zlen_app, zlen_be_put.
  assert (length (be_put 4 (zlen ct)) = 4%nat) as H4 by apply length_be_put.
  pose proof (zlen_nonneg c). intros Hlen Hk. rewrite length_app, H4 in Hk.
  rewrite take_app, H4, unframe_unfold. unfold chunkSize in Hc.
  destruct (Z.ltb_spec (zlen (take k (be_put 4 (zlen ct)) ++ take (k - 4) ct)) 4) as [Hs|Hs].
  - f_equal. assert (k < 4)%nat as Hk4 by len. destruct (decide (k = 0)%nat) as [->|Hk0].
    { by rewrite decide_True by auto. }
    rewrite decide_False by lia. unfold readfull_err.
    destruct (Z.ltb_spec 0 (zlen (take k (be_put 4 (zlen ct)) ++ take (k - 4) ct)));
      [done|]. len.
  - assert (4 <= k)%nat by len. rewrite (take_ge (be_put _ _)) by lia.
    rewrite take_app_length', drop_app_length', be_get_put_small by (done || simpl; lia).
    cbn zeta. destruct (Z.ltb_spec max_chunk (zlen ct)) as [Hm|_].
    { exfalso. revert Hm. change max_chunk with 66588. lia. }
    destruct (Z.ltb_spec (zlen (take (k - 4) ct)) (zlen ct)) as [_|Hl]; [|len].
    f_equal. unfold readfull_err.
    destruct (Z.ltb_spec 0 (zlen (take (k - 4) ct))), (decide (k = 0 \/ k = 4)%nat);
      try done; len.
Qed.
End lengths.

(** ** A concrete cipher and entropy source

    They satisfy the laws, so the theorems below are not vacuous: the
    ciphertext is the plaintext with the nonce, padded to 16 bytes, as its tag. *)
Module Toy.
Definition toy_tag (nonce : bytes) : bytes := take 16 (nonce ++ replicate 16 x00).

Definition toy_Seal (k n p : bytes) : bytes := p ++ toy_tag n.

Definition toy_Open (k n c : bytes) : option bytes :=
  if decide (16 <= length c /\ drop (length c - 16) c = toy_tag n)%nat
  then Some (take (length c - 16) c) else None.

#[export] Instance toy_AEAD : AEAD := {| gcm_Seal := toy_Seal; gcm_Open := toy_Open |}.

Lemma length_toy_tag n : length (toy_tag n) = 16%nat.
Proof. unfold toy_tag. len. Qed.

#[export] Instance toy_AEADLaws : AEADLaws.
Proof.
  split; cbn; unfold toy_Seal, toy_Open.
  - intros k n p _. rewrite length_app, length_toy_tag.
    replace (length p + 16 - 16)%nat with (length p) by lia.
    rewrite drop_app_length, take_app_length. rewrite decide_True; [done|split; [lia|done]].
  - intros k n p. rewrite zlen_app. unfold zlen at 2. rewrite length_toy_tag.
    unfold Overhead. lia.
  - intros k n c p. case_decide as Hd; [|done]. intros [= <-].
    unfold Overhead. len.
Qed.

#[export] Instance toy_Entropy : Entropy := {| rand_Read i n := replicate (Z.to_nat n) x5a |}.
#[export] Instance toy_EntropyLaws : EntropyLaws.
Proof. split. intros i n Hn. cbn. unfold zlen. rewrite length_replicate. lia. Qed.

Definition toy_key : bytes := replicate 32 x01.
End Toy.

(** ** Properties *)
Section properties.
Context `{AEADLaws, EntropyLaws}.

(** [C4] Round trip and size of encryption at rest: whatever pieces [ps] are
    written to a new [encryptingWriter], and however the source [r] cuts the
    resulting bytes into reads, the [decryptingReader] yields the pieces'
    concatenation without an error; and the file is longer than the plaintext
    by exactly 32 bytes for each started 64 KB chunk. *)
Theorem decrypt_encrypted key rnd (ps : list bytes) (Hkey : aes_NewCipher key = Ok tt) :
  exists w w1 w2,
    newEncryptingWriter key ([] : bytes) rnd = Ok w /\ ew_WriteAll w ps = (w1, None)
    /\ ew_Close w1 = (w2, None)
    /\ zlen (ew_dst w2) = zlen (concat ps)
         + 32 * ((zlen (concat ps) + chunkSize - 1) / chunkSize)
    /\ forall R (HR : Reader R) (HL : ReaderLaws R) (r : R), rd_bytes r = ew_dst w2 -> rd_end r = EOF ->
       exists d r', newDecryptingReader key r = Ok d
         /\ io_Copy ([] : bytes) d = (concat ps, r', zlen (concat ps), None).
Proof.
  unfold newEncryptingWriter. rewrite Hkey. cbn [mbind result_bind wrap_err].
  destruct (ew_WriteAll_ok (fun w b : bytes => w = b) buffer_reliable [] key rnd
    (EncryptingWriter ([] : bytes) key [] false rnd) [] ps) as (w1 & Hw1 & Hrel).
  { exists []. split; [|done]. split_and!; [done|done|simpl; lia|constructor|done]. }
  destruct (ew_Close_shape _ buffer_reliable _ _ _ _ _ Hrel)
    as (w2 & full & lst & Hw2 & _ & Hps & Hfull & Hlst & Hdst).
  rewrite !app_nil_l in *. eexists _, w1, w2. split; [done|]. split; [done|]. split; [done|].
  pose proof (zlen_nonneg lst) as Hlst0.
  assert (concat (full ++ last_chunk lst) = concat ps) as Hcat.
  { rewrite Hps, concat_app. f_equal. destruct lst; [done|]. apply app_nil_r. }
  split.
  - rewrite Hdst, zlen_frames, Hcat. do 2 f_equal.
    rewrite Hps, !zlen_app, zlen_concat_full by done. clear Hps Hdst Hcat.
    generalize (zlen full). intros n.
    destruct lst as [|b lst]; cbn [last_chunk].
    + rewrite (@zlen_nil bytes), (@zlen_nil byte). change chunkSize with 65536 in *. divlia.
    + change (zlen [b :: lst]) with 1. rewrite (zlen_cons b lst) in *.
      pose proof (zlen_nonneg lst).
      change chunkSize with 65536 in *. divlia.
  - intros R HR HL r Hb He. unfold newDecryptingReader. rewrite Hkey.
    cbn [mbind result_bind wrap_err]. eexists.
    destruct (io_Copy_ok _ ([] : bytes) (DecryptingReader r key [] 0 false) []
      buffer_reliable eq_refl) as (b & r' & -> & -> & _).
    exists r'. split; [done|]. cbn. unfold dr_rest. cbn.
    rewrite Hb, He, Hdst, <-(app_nil_r (frames _ _ _)), unframe_frames.
    + rewrite unframe_nil. cbn. by rewrite app_nil_r, Hcat.
    + apply Forall_app. split.
      * eapply Forall_impl; [exact Hfull|]. by intros c ->.
      * destruct lst; repeat constructor. lia.
Qed.

(** [C14] The decrypting reader, over any source, delivers the chunks that the
    specification [unframe] finds in the source's bytes, in order, and then
    reports the error that ended the search (nothing for a regular end): no
    byte of a chunk that fails its authentication is ever delivered. *)
Theorem decryptingReader_refines_unframe {R} `{ReaderLaws R} (r : R) key
    (Hkey : aes_NewCipher key = Ok tt) :
  let '(cs, e) := unframe key (rd_bytes r) (rd_end r) in
  exists d r', newDecryptingReader key r = Ok d
    /\ io_Copy ([] : bytes) d = (concat cs, r', zlen (concat cs), copy_err e).
Proof.
  unfold newDecryptingReader. rewrite Hkey. cbn [mbind result_bind wrap_err].
  destruct (io_Copy_ok _ ([] : bytes) (DecryptingReader r key [] 0 false) []
    buffer_reliable eq_refl) as (b & r' & Hc & Hb & _).
  destruct (unframe _ _ _) as [cs e] eqn:Hu. eexists _, r'. split; [done|].
  rewrite Hc, Hb. cbn. unfold dr_rest. cbn. by rewrite Hu.
Qed.

(** [C29] A file cut short is noticed unless it was cut at the end of a chunk,
    or right behind the length of one: there the reader reports a regular end
    of file, with the chunks before the cut.  (The writer marks the end of
    the data with nothing at all.) *)
Theorem truncated_file {R} `{ReaderLaws R} (r : R) key rnd cs c k
    (Hkey : aes_NewCipher key = Ok tt)
    (Hcs : Forall (fun c => zlen c <= chunkSize) cs) (Hc : zlen c <= chunkSize)
    (Hk : (k < length (frame key (rnd + length cs) c))%nat)
    (Hr : rd_bytes r = frames key rnd cs ++ take k (frame key (rnd + length cs) c))
    (Hend : rd_end r = EOF) :
  exists d r', newDecryptingReader key r = Ok d
    /\ io_Copy ([] : bytes) d
       = (concat cs, r', zlen (concat cs),
          if decide (k = 0 \/ k = 4)%nat then None else Some ErrUnexpectedEOF).
Proof.
  unfold newDecryptingReader. rewrite Hkey. cbn [mbind result_bind wrap_err].
  destruct (io_Copy_ok _ ([] : bytes) (DecryptingReader r key [] 0 false) []
    buffer_reliable eq_refl) as (b & r' & Hcp & Hb & _).
  eexists _, r'. split; [done|]. rewrite Hcp, Hb. cbn. unfold dr_rest. cbn.
  rewrite Hr, Hend, unframe_frames, unframe_cut by done. cbn.
  rewrite app_nil_r. unfold copy_err. by destruct (decide (k = 0 \/ k = 4)%nat).
Qed.
End properties.

(** ** Witnesses *)
Import Toy.

Lemma decrypt_encrypted_witness :
  aes_NewCipher toy_key = Ok tt /\
  exists w w1 w2,
    newEncryptingWriter toy_key ([] : bytes) 7 = Ok w
    /\ ew_WriteAll w [[x61]; []; [x62; x63]] = (w1, None)
    /\ ew_Close w1 = (w2, None) /\ zlen (ew_dst w2) = 35.
Proof.
  split; [done|].
  destruct (decrypt_encrypted toy_key 7 [[x61]; []; [x62; x63]] eq_refl)
    as (w & w1 & w2 & H1 & H2 & H3 & H4 & _).
  exists w, w1, w2. split; [done|]. split; [done|]. split; [done|]. rewrite H4. done.
Defined.

Lemma decryptingReader_refines_unframe_witness :
  let r := Stream [take 3 (frame toy_key 0 [x61]); drop 3 (frame toy_key 0 [x61])] EOF in
  exists d r', newDecryptingReader toy_key r = Ok d
    /\ io_Copy ([] : bytes) d = ([x61], r', 1, None).
Proof.
  exact (decryptingReader_refines_unframe
    (Stream [take 3 (frame toy_key 0 [x61]); drop 3 (frame toy_key 0 [x61])] EOF) toy_key eq_refl).
Defined.

Lemma truncated_file_witness :
  let r := Stream [frame toy_key 0 [x61]; take 4 (frame toy_key 1 [x62])] EOF in
  exists d r', newDecryptingReader toy_key r = Ok d
    /\ io_Copy ([] : bytes) d = ([x61], r', 1, None).
Proof.
  refine (truncated_file (Stream [frame toy_key 0 [x61]; take 4 (frame toy_key 1 [x62])] EOF)
    toy_key 0 [[x61]] [x62] 4 eq_refl _ _ _ _ eq_refl).
  - repeat constructor. done.
  - done.
  - apply Nat.ltb_lt. vm_compute. reflexivity.
  - vm_compute. reflexivity.
Defined.
