(* ===== verification/Store.v ===== *)
(** The content-addressed store (src/internal/store/store.go, and the key file
    of src/internal/store/encryption.go): one file per key below a root
    directory, encrypted at rest if the store has an encryption key.

    The functions thread a [world]: the file system and the position in the
    entropy stream. *)
From S2P Require Import Prelude Words Sha Io GoStrings FileSys Encryption.
From Stdlib Require Import Ascii.

Record world := World { w_fs : fs; w_rand : nat }.
Definition set_fs (w : world) (f : fs) : world := World f (w_rand w).
Definition set_rand (w : world) (n : nat) : world := World (w_fs w) n.

(** ** Keys and paths *)
Record PathKey := { Path : string; Filename : string }.

Definition GetFilePath (p : PathKey) : string := Path p +:+ "/" +:+ Filename p.

(** [io.Copy(h, f); hex.EncodeToString(h.Sum(nil))]; the hash takes every
    write. *)
Definition GenerateKeyFromReader {R} `{Reader R} (r : R) : result string :=
  let '(h, _, _, err) := io_Copy ([] : bytes) r in
  match err with
  | Some e => Err (Wrap "failed to hash content" e)
  | None => Ok (hex_digest (sha256_Sum h))
  end.

Definition GenerateFileKey (f : fs) (filePath : string) : result string :=
  match os_Stat f filePath with
  | Err e => Err (Wrap "failed to open file" e)
  | Ok (_, NDir) => Err (Wrap "failed to hash file" ErrIsDir)
  | Ok (_, NFile c) =>
      let '(h, _, _, err) := io_Copy ([] : bytes) (file_stream c) in
      match err with
      | Some e => Err (Wrap "failed to hash file" e)
      | None => Ok (hex_digest (sha256_Sum h))
      end
  end.

(** [paths[i] = hashStr[from:to]] for [i < sliceLen]. *)
Definition CASPathTransformFunc (key : string) : PathKey :=
  let hashStr := hex_digest (sha1_Sum (bytes_of_string key)) in
  let blockSize := 5%nat in
  let sliceLen := Nat.div (String.length hashStr) blockSize in
  let paths := map (fun i => String.substring (i * blockSize) blockSize hashStr)
                   (seq 0 sliceLen) in
  {| Path := strings_Join paths "/"; Filename := hashStr |}.

Definition DefaultPathTranformFunc (key : string) : PathKey :=
  {| Path := key; Filename := key |}.

(** ** Configuration and construction *)
Record EncryptionConfig := { Enabled : bool; KeyPath : string }.

Record StoreOpts := {
  Root : string;
  PathTransformFunc : option (string -> PathKey);   (* nil is None *)
  Encryption : EncryptionConfig;
}.

Record Store := {
  s_Root : string;
  s_PathTransformFunc : string -> PathKey;
  encryptionKey : option bytes;                     (* nil if encryption is disabled *)
}.

Section store.
Context `{AEAD, Entropy}.
Implicit Type (w : world) (s : Store).

Definition generateEncryptionKey w : world * result bytes :=
  (set_rand w (S (w_rand w)), Ok (rand_Read (w_rand w) 32)).

Definition loadOrCreateEncryptionKey w (keyPath : string) : world * result bytes :=
  match os_ReadFile (w_fs w) keyPath with
  | Ok data =>
      (w, if zlen data =? 32 then Ok data
          else Err (Errorf "invalid key file: expected 32 bytes"))
  | Err _ =>
      let '(w, key) := generateEncryptionKey w in
      match key with Err e => (w, Err e) | Ok key =>
      let dir := filepath_Dir keyPath in
      let '(f, e) := os_MkdirAll (w_fs w) dir in
      let w := set_fs w f in
      match e with Some e => (w, Err (Wrap "failed to create key directory" e)) | None =>
      let '(f, e) := os_WriteFile (w_fs w) keyPath key in
      let w := set_fs w f in
      match e with Some e => (w, Err (Wrap "failed to save encryption key" e)) | None =>
      (w, Ok key)
      end end end
  end.

Definition NewStore w (opts : StoreOpts) : world * result Store :=
  let transform := from_option id DefaultPathTranformFunc (PathTransformFunc opts) in
  if Enabled (Encryption opts) then
    let keyPath := if decide (KeyPath (Encryption opts) = "")
                   then filepath_Join (Root opts) ".encryption_key"
                   else KeyPath (Encryption opts) in
    let '(w, key) := loadOrCreateEncryptionKey w keyPath in
    match key with
    | Err e => (w, Err (Wrap "encryption enabled but failed to initialize" e))
    | Ok key => (w, Ok (Build_Store (Root opts) transform (Some key)))
    end
  else (w, Ok (Build_Store (Root opts) transform None)).

Definition IsEncryptionEnabled s : bool :=
  match encryptionKey s with Some _ => true | None => false end.

Definition getAbsolutePath s (path : string) : string := s_Root s +:+ "/" +:+ path.

Definition file_path s (key : string) : string :=
  getAbsolutePath s (GetFilePath (s_PathTransformFunc s key)).
Definition dir_path s (key : string) : string :=
  getAbsolutePath s (Path (s_PathTransformFunc s key)).

Definition Clear w s : world * option goerr :=
  let '(f, e) := os_RemoveAll (w_fs w) (s_Root s) in (set_fs w f, e).

(** [Has]: anything but "does not exist" counts. *)
Definition result_err {A} (r : result A) : option goerr :=
  match r with Ok _ => None | Err e => Some e end.

Definition Has w s (key : string) : bool :=
  negb (os_IsNotExist (result_err (os_Stat (w_fs w) (file_path s key)))).

(** The upward loop of [Delete]: [n] leading elements of [subFolders]. *)
Fixpoint delete_up (f : fs) (subFolders : list string) (n : nat) : fs * option goerr :=
  match n with
  | O => (f, None)
  | S i =>
      let subPath := strings_Join (take (S i) subFolders) "/" in
      let dirEntries := match os_ReadDir f subPath with Ok l => l | Err _ => [] end in
      if decide (dirEntries = []) then
        let '(f, err) := os_Remove f subPath in
        match err with Some e => (f, Some e) | None => delete_up f subFolders i end
      else (f, None)
  end.

Definition Delete w s (key : string) : world * option goerr :=
  let '(f, err) := os_Remove (w_fs w) (file_path s key) in
  match err with
  | Some e => (set_fs w f, Some e)
  | None =>
      let subFolders := split_char slash (dir_path s key) in
      let '(f, err) := delete_up f subFolders (length subFolders) in
      (set_fs w f, err)
  end.

(** [readStream]: the file opened for reading, with its size.  A directory
    opens, and fails when it is read. *)
Definition dir_size : Z := 4096.

Definition readStream w s (key : string) : result (stream * Z) :=
  os_Stat (w_fs w) (file_path s key) ≫= fun '(_, n) =>
  match n with
  | NFile c => Ok (file_stream c, zlen c)
  | NDir => Ok (Stream [] ErrIsDir, dir_size)
  end.

Definition Read w s (key : string) : result (bytes * Z) :=
  if Has w s key then
    readStream w s key ≫= fun '(f, size) =>
    match encryptionKey s with
    | Some ekey =>
        (newDecryptingReader ekey f orwrap "failed to create decrypting reader") ≫= fun dec =>
        let '(buf, _, n, err) := io_Copy ([] : bytes) dec in
        match err with
        | Some e => Err (Wrap "failed to decrypt file" e)
        | None => Ok (buf, n)
        end
    | None =>
        let '(buf, _, _, err) := io_Copy ([] : bytes) f in
        match err with Some e => Err e | None => Ok (buf, size) end
    end
  else Err (Errorf "file not found").

Definition ReadRaw w s (key : string) : result (bytes * Z) :=
  if Has w s key then
    readStream w s key ≫= fun '(f, size) =>
    let '(buf, _, _, err) := io_Copy ([] : bytes) f in
    match err with Some e => Err e | None => Ok (buf, size) end
  else Err (Errorf "file not found").

(** [MkdirAll] and [Create], as both write functions start. *)
Definition create_for w s (key : string) : world * result file :=
  let '(f, e) := os_MkdirAll (w_fs w) (dir_path s key) in
  let w := set_fs w f in
  match e with Some e => (w, Err e) | None =>
  let '(f, h) := os_Create (w_fs w) (file_path s key) in
  let w := set_fs w f in
  match h with Err e => (w, Err e) | Ok p => (w, Ok (File (w_fs w) p 0)) end
  end.

Definition writeStream {R} `{Reader R} w s (key : string) (r : R) : world * R * result Z :=
  let '(w, h) := create_for w s key in
  match h with Err e => (w, r, Err e) | Ok h =>
  let '(h, r, n, err) := io_Copy h r in
  let w := set_fs w (f_fs h) in
  match err with Some e => (w, r, Err e) | None => (w, r, Ok n) end
  end.

Definition writeStreamEncrypted {R} `{Reader R} w s (ekey : bytes) (key : string) (r : R) :
    world * R * result Z :=
  let '(w, h) := create_for w s key in
  match h with Err e => (w, r, Err e) | Ok h =>
  match newEncryptingWriter ekey h (w_rand w) with
  | Err e => (w, r, Err (Wrap "failed to create encrypting writer" e))
  | Ok encWriter =>
      let '(encWriter, r, n, err) := io_Copy encWriter r in
      let upd (ew : encryptingWriter file) := World (f_fs (ew_dst ew)) (ew_rand ew) in
      match err with
      | Some e => (upd encWriter, r, Err (Wrap "failed to write encrypted data" e))
      | None =>
          let '(encWriter, err) := ew_Close encWriter in
          match err with
          | Some e => (upd encWriter, r, Err (Wrap "failed to finalize encryption" e))
          | None => (upd encWriter, r, Ok n)
          end
      end
  end end.

Definition Write {R} `{Reader R} w s (key : string) (r : R) : world * R * result Z :=
  match encryptionKey s with
  | Some ekey => writeStreamEncrypted w s ekey key r
  | None => writeStream w s key r
  end.

Definition WriteRaw {R} `{Reader R} w s (key : string) (r : R) : world * R * result Z :=
  writeStream w s key r.
End store.

Example cas_of_test_key :
  CASPathTransformFunc "yo its a dummy string"
  = {| Path := "90555/eb601/4736b/edad9/17345/c0193/cd1f6/38ad6";
       Filename := "90555eb6014736bedad917345c0193cd1f638ad6" |}.
Proof. vm_compute. reflexivity. Qed.

(** ** What a write leaves behind *)
Definition content_at (f : fs) (path : string) (c : bytes) : Prop :=
  exists p, os_Stat f path = Ok (p, NFile c).

Section write_lemmas.
Context `{AEADLaws, EntropyLaws} {R : Type} `{ReaderLaws R}.
Implicit Type (w : world) (s : Store) (r : R).

(** A successful [create_for]: [f] is what [MkdirAll] left, and the handle is
    that of the empty file at [p]. *)
Definition created w s key (w1 : world) (h : file) (f : fs) (p : rpath) : Prop :=
  os_MkdirAll (w_fs w) (dir_path s key) = (f, None) /\ cwd f = cwd (w_fs w) /\
  w_rand w1 = w_rand w /\ w_fs w1 = f_fs h /\ file_rel f p h [] /\
  resolve f (file_path s key) = Ok p /\ get (tree f) p <> Some NDir.

Lemma os_MkdirAll_adds f path :
  adds_dirs (tree f) (tree (os_MkdirAll f path).1) /\ cwd (os_MkdirAll f path).1 = cwd f.
Proof.
  unfold os_MkdirAll. case_decide; [done|].
  generalize (mkdirs_adds (tree f) (start_dir f path) (split_char slash path)).
  by destruct (mkdirs _ _ _).
Qed.

Lemma create_for_ok w s key w1 h :
  create_for w s key = (w1, Ok h) -> exists f p, created w s key w1 h f p.
Proof.
  unfold create_for. destruct (os_MkdirAll_adds (w_fs w) (dir_path s key)) as [_ Hd].
  destruct (os_MkdirAll _ _) as [f [e|]] eqn:Hm; [done|]. simpl in *.
  destruct (os_Create f (file_path s key)) as [f2 [p|e]] eqn:Hc; [|done].
  intros [= <- <-]. apply os_Create_ok in Hc as (-> & Hr & Hp).
  exists f, p. unfold created, file_rel. naive_solver.
Qed.

Lemma writeStream_spec w s key r w1 h f p :
  create_for w s key = (w1, Ok h) -> created w s key w1 h f p ->
  exists r', writeStream w s key r =
    (World (set_tree f (<[p := NFile (rd_bytes r)]> (tree f))) (w_rand w), r',
     match copy_err (rd_end r) with Some e => Err e | None => Ok (zlen (rd_bytes r)) end)
    /\ reads r (rd_bytes r) r'.
Proof.
  intros Hc (_ & _ & Hrand & _ & Hrel & _). unfold writeStream. rewrite Hc.
  destruct (io_Copy_ok (file_rel f p) h r [] (file_reliable f p) Hrel)
    as (h' & r' & -> & Hh' & Hrr).
  exists r'. split; [|done]. rewrite Hh', app_nil_l. unfold set_fs. simpl. rewrite Hrand.
  by destruct (copy_err (rd_end r)).
Qed.

(** The encrypted file consists of frames of the data. *)
Lemma writeStreamEncrypted_spec w s ekey key r w1 h f p :
  create_for w s key = (w1, Ok h) -> created w s key w1 h f p ->
  aes_NewCipher ekey = Ok tt -> rd_end r = EOF ->
  exists r' cs n, writeStreamEncrypted w s ekey key r =
    (World (set_tree f (<[p := NFile (frames ekey (w_rand w) cs)]> (tree f))) n, r',
     Ok (zlen (rd_bytes r)))
    /\ concat cs = rd_bytes r /\ Forall (fun c => 0 < zlen c <= chunkSize) cs
    /\ reads r (rd_bytes r) r'.
Proof.
  intros Hc (_ & _ & Hrand & _ & Hrel & _) Hkey Hend.
  unfold writeStreamEncrypted, newEncryptingWriter. rewrite Hc, Hkey. simpl. rewrite Hrand.
  destruct (io_Copy_ok (ew_rel (file_rel f p) [] ekey (w_rand w))
    (EncryptingWriter h ekey [] false (w_rand w)) r []) as (ew & r' & -> & Hew & Hrr).
  { apply ew_reliable, file_reliable. }
  { exists []. split; [|split; done].
    split_and!; [done|done|simpl; lia|constructor|done]. }
  rewrite Hend. change (copy_err EOF) with (@None goerr).
  destruct (ew_Close_ok _ (file_reliable f p) _ _ _ _ _ Hew)
    as (ew' & cs & -> & _ & Hcs & Hlen & Hdst).
  exists r', cs, (ew_rand ew'). rewrite Hdst. split_and!; done.
Qed.

(** When the source fails, the full chunks written so far stay. *)
Lemma writeStreamEncrypted_err w s ekey key r w1 h f p :
  create_for w s key = (w1, Ok h) -> created w s key w1 h f p ->
  aes_NewCipher ekey = Ok tt -> rd_end r <> EOF ->
  exists r' cs tail n, writeStreamEncrypted w s ekey key r =
    (World (set_tree f (<[p := NFile (frames ekey (w_rand w) cs)]> (tree f))) n, r',
     Err (Wrap "failed to write encrypted data" (rd_end r)))
    /\ rd_bytes r = concat cs ++ tail
    /\ Forall (fun c => zlen c = chunkSize) cs /\ zlen tail < chunkSize
    /\ reads r (rd_bytes r) r'.
Proof.
  intros Hc (_ & _ & Hrand & _ & Hrel & _) Hkey Hend.
  unfold writeStreamEncrypted, newEncryptingWriter. rewrite Hc, Hkey. simpl. rewrite Hrand.
  destruct (io_Copy_ok (ew_rel (file_rel f p) [] ekey (w_rand w))
    (EncryptingWriter h ekey [] false (w_rand w)) r []) as (ew & r' & -> & Hew & Hrr).
  { apply ew_reliable, file_reliable. }
  { exists []. split; [|split; done].
    split_and!; [done|done|simpl; lia|constructor|done]. }
  unfold copy_err. rewrite decide_False by done.
  destruct Hew as (cs & (_ & _ & _ & Hcs & Hdst) & Hb & Hlen).
  exists r', cs, (ew_buf ew), (ew_rand ew). rewrite Hdst. split_and!; done.
Qed.
End write_lemmas.

Lemma os_Stat_file_content f path p c : os_Stat f path = Ok (p, NFile c) -> content_at f path c.
Proof. by exists p. Qed.

Section read_lemmas.
Context `{AEADLaws, EntropyLaws}.
Implicit Type (w : world) (s : Store).

Lemma Has_content w s key c : content_at (w_fs w) (file_path s key) c -> Has w s key = true.
Proof. intros [p Hp]. unfold Has. by rewrite Hp. Qed.

Lemma rd_bytes_file_stream c : rd_bytes (file_stream c) = c.
Proof. destruct c; [done|]. simpl. by rewrite app_nil_r. Qed.

Lemma readStream_content w s key c :
  content_at (w_fs w) (file_path s key) c ->
  readStream w s key = Ok (file_stream c, zlen c).
Proof. intros [p Hp]. unfold readStream. by rewrite Hp. Qed.

Lemma ReadRaw_content w s key c :
  content_at (w_fs w) (file_path s key) c -> ReadRaw w s key = Ok (c, zlen c).
Proof.
  intros Hc. unfold ReadRaw. rewrite (Has_content _ _ _ _ Hc), (readStream_content _ _ _ _ Hc).
  simpl. destruct (io_Copy_ok _ ([] : bytes) (file_stream c) [] buffer_reliable eq_refl)
    as (b & r' & -> & -> & _).
  by rewrite rd_bytes_file_stream.
Qed.

Lemma Read_plain_content w s key c :
  encryptionKey s = None ->
  content_at (w_fs w) (file_path s key) c -> Read w s key = Ok (c, zlen c).
Proof.
  intros Hk Hc. rewrite <-(ReadRaw_content w s key c Hc). unfold Read, ReadRaw. by rewrite Hk.
Qed.

(** Decryption is [unframe] of the file. *)
Lemma Read_encrypted_content w s key ekey c :
  encryptionKey s = Some ekey -> aes_NewCipher ekey = Ok tt ->
  content_at (w_fs w) (file_path s key) c ->
  Read w s key = let '(cs, e) := unframe ekey c EOF in
                 if decide (e = EOF) then Ok (concat cs, zlen (concat cs))
                 else Err (Wrap "failed to decrypt file" e).
Proof.
  intros Hk Hkey Hc. unfold Read, newDecryptingReader.
  rewrite (Has_content _ _ _ _ Hc), (readStream_content _ _ _ _ Hc), Hk, Hkey. simpl.
  destruct (io_Copy_ok _ ([] : bytes) (DecryptingReader (file_stream c) ekey [] 0 false) []
    buffer_reliable eq_refl) as (b & r' & -> & -> & _).
  cbn [rd_bytes rd_end dr_Laws]. unfold dr_rest. cbn [dr_exhausted dr_key dr_src dr_buf dr_readPos].
  rewrite rd_bytes_file_stream. change (rd_end (file_stream c)) with EOF.
  destruct (unframe ekey c EOF) as [cs e]. unfold copy_err. simpl.
  by destruct (decide (e = EOF)).
Qed.
End read_lemmas.

(** ** Content-addressed paths *)

(** A name of [n] hexadecimal digits. *)
Definition hexname (n : nat) (s : string) : Prop :=
  String.length s = n /\ Forall (fun a => is_hex (Ascii.byte_of_ascii a) = true) (chars s).

Lemma hexname_free n s : hexname n s -> free_of slash s.
Proof. intros [_ Hs] Hin. rewrite Forall_forall in Hs. by apply Hs in Hin. Qed.

Lemma hexname_plain n s : hexname (S n) s -> plain s.
Proof.
  intros [Hlen Hs]. unfold plain. split_and!; intros ->; [done|..];
    rewrite Forall_forall in Hs; by specialize (Hs "."%char ltac:(by left)).
Qed.

Lemma hexname_substring n k i s :
  hexname n s -> (i + k <= n)%nat -> hexname k (String.substring i k s).
Proof.
  unfold hexname. rewrite <-!length_chars, chars_substring. intros [Hlen Hs] Hi. split.
  - rewrite length_take, length_drop. lia.
  - by apply Forall_take, Forall_drop.
Qed.

Lemma hex_digest_hexname d : hexname (2 * length d) (hex_digest d).
Proof.
  unfold hexname, hex_digest. rewrite <-length_chars, chars_string_of_bytes, length_map.
  split; [apply length_hex_encode|]. apply Forall_fmap, (Forall_impl _ _ _ (hex_encode_is_hex d)).
  intros x. unfold compose. by rewrite Ascii.byte_of_ascii_of_byte.
Qed.

Definition cas_hash (key : string) : string := Filename (CASPathTransformFunc key).
Definition cas_blocks (key : string) : list string :=
  map (fun i => String.substring (i * 5) 5 (cas_hash key)) (seq 0 8).

Lemma cas_hash_hexname key : hexname 40 (cas_hash key).
Proof.
  pose proof (hex_digest_hexname (sha1_Sum (bytes_of_string key))) as Hh.
  by rewrite length_sha1_Sum in Hh.
Qed.

Lemma cas_blocks_hexname key : Forall (hexname 5) (cas_blocks key).
Proof.
  apply Forall_fmap, Forall_forall. intros i Hi%elem_of_seq.
  apply (hexname_substring 40); [apply cas_hash_hexname|lia].
Qed.

Lemma cas_path key : Path (CASPathTransformFunc key) = strings_Join (cas_blocks key) "/".
Proof.
  unfold CASPathTransformFunc. cbn [Path]. unfold cas_blocks.
  change (hex_digest (sha1_Sum (bytes_of_string key))) with (cas_hash key).
  by rewrite (proj1 (cas_hash_hexname key)).
Qed.

Lemma split_cas_dir key : split_char slash (Path (CASPathTransformFunc key)) = cas_blocks key.
Proof.
  rewrite cas_path. apply split_join; [done|].
  eapply Forall_impl; [apply cas_blocks_hexname|]. apply hexname_free.
Qed.

Lemma split_cas_file key :
  split_char slash (GetFilePath (CASPathTransformFunc key)) = cas_blocks key ++ [cas_hash key].
Proof.
  unfold GetFilePath. change ("/" +:+ ?s) with (String slash s).
  rewrite split_char_app, split_cas_dir. f_equal.
  apply split_char_free, (hexname_free 40), cas_hash_hexname.
Qed.

Lemma cas_comps_plain key : Forall plain (cas_blocks key ++ [cas_hash key]).
Proof.
  apply Forall_app. split.
  - eapply Forall_impl; [apply cas_blocks_hexname|]. intros s. apply hexname_plain.
  - repeat constructor; apply (hexname_plain 39), cas_hash_hexname.
Qed.

Lemma cas_hash_inj key key' :
  cas_hash key = cas_hash key' ->
  sha1_Sum (bytes_of_string key) = sha1_Sum (bytes_of_string key').
Proof.
  unfold cas_hash. simpl. intros H%(f_equal bytes_of_string).
  unfold hex_digest in H. rewrite !bytes_of_string_of_bytes in H. by apply (inj hex_encode).
Qed.

(** [C30] The path of a key: eight directories of five and a file of forty
    hexadecimal digits, so no component is empty, "." or ".." and nothing leads
    out of the root; two keys share a path only if they share their SHA-1. *)
Theorem cas_path_shape key :
  let p := CASPathTransformFunc key in
  exists dirs, split_char slash (GetFilePath p) = dirs ++ [Filename p]
    /\ length dirs = 8%nat /\ Forall (hexname 5) dirs /\ hexname 40 (Filename p)
    /\ Forall plain (dirs ++ [Filename p])
    /\ forall key', GetFilePath (CASPathTransformFunc key') = GetFilePath p ->
         sha1_Sum (bytes_of_string key') = sha1_Sum (bytes_of_string key).
Proof.
  cbn zeta. exists (cas_blocks key). split; [apply split_cas_file|].
  split; [by unfold cas_blocks; rewrite length_map, length_seq|].
  split; [apply cas_blocks_hexname|]. split; [apply cas_hash_hexname|].
  split; [apply cas_comps_plain|]. intros key' Hp. apply cas_hash_inj.
  apply (f_equal (split_char slash)) in Hp. rewrite !split_cas_file in Hp.
  by apply app_inj_tail in Hp as [_ ?].
Qed.

(** ** The key file *)
Section key_file.
Context `{AEAD, EntropyLaws}.

Lemma os_WriteFile_read f path d f1 :
  os_WriteFile f path d = (f1, None) -> os_ReadFile f1 path = Ok d.
Proof.
  unfold os_WriteFile. destruct (os_Create f path) as [f0 [p|]] eqn:Hc; [|done].
  intros [= <-]. apply os_Create_ok in Hc as (-> & Hr & Hp). unfold os_ReadFile.
  cbn [tree set_tree]. rewrite insert_insert_eq.
  change (set_tree (set_tree f ?a) ?b) with (set_tree f b).
  by rewrite (os_Stat_written f path p d).
Qed.

Lemma loadOrCreate_ok w path w1 k :
  loadOrCreateEncryptionKey w path = (w1, Ok k) ->
  zlen k = 32 /\ os_ReadFile (w_fs w1) path = Ok k.
Proof.
  unfold loadOrCreateEncryptionKey, generateEncryptionKey.
  destruct (os_ReadFile (w_fs w) path) as [data|] eqn:Hr.
  - destruct (Z.eqb_spec (zlen data) 32); intros [= <- <-]. done.
  - destruct (os_MkdirAll _ _) as [f1 [e1|]]; [done|].
    destruct (os_WriteFile _ _ _) as [f2 [e2|]] eqn:Hw; [done|]. intros [= <- <-].
    split; [by apply rand_Read_length|]. by apply os_WriteFile_read in Hw.
Qed.

Lemma loadOrCreate_again w path k :
  zlen k = 32 -> os_ReadFile (w_fs w) path = Ok k ->
  loadOrCreateEncryptionKey w path = (w, Ok k).
Proof. intros Hk Hr. unfold loadOrCreateEncryptionKey. by rewrite Hr, Hk. Qed.

(** Reopening a store keeps its key: when [NewStore] succeeds, with the
    key file there or created, a later [NewStore] with the same options on
    the same file system returns the same store and changes nothing; an
    encrypted store has a key that AES accepts; a key file whose length is
    not 32 makes [NewStore] fail and stays as it is. *)
Theorem NewStore_stable w opts (Henc : Enabled (Store.Encryption opts) = true) :
  let path := if decide (KeyPath (Store.Encryption opts) = "")
              then filepath_Join (Root opts) ".encryption_key"
              else KeyPath (Store.Encryption opts) in
  match NewStore w opts with
  | (w1, Ok s) => NewStore w1 opts = (w1, Ok s)
      /\ exists k, encryptionKey s = Some k /\ aes_NewCipher k = Ok tt
                   /\ os_ReadFile (w_fs w1) path = Ok k
  | (w1, Err _) => forall d, os_ReadFile (w_fs w) path = Ok d -> zlen d <> 32 /\ w1 = w
  end.
Proof.
  cbn zeta. unfold NewStore. rewrite Henc. set (path := if decide _ then _ else _).
  destruct (loadOrCreateEncryptionKey w path) as [w1 [k|e]] eqn:Hk.
  - apply loadOrCreate_ok in Hk as [Hlen Hr]. rewrite loadOrCreate_again with (k := k) by done.
    split; [done|]. exists k. split; [done|]. split; [|done].
    unfold aes_NewCipher. rewrite decide_True; auto.
  - intros d Hr. revert Hk. unfold loadOrCreateEncryptionKey. rewrite Hr.
    destruct (Z.eqb_spec (zlen d) 32); intros Hk; by simplify_eq.
Qed.
End key_file.

(** ** Witnesses *)
Import Toy.

Lemma NewStore_stable_witness :
  let opts := Build_StoreOpts "./storage" None
                (Build_EncryptionConfig true "") in
  exists w1 s, NewStore (World (FS ∅ []) 0) opts = (w1, Ok s) /\ NewStore w1 opts = (w1, Ok s).
Proof.
  cbn zeta.
  pose proof (NewStore_stable (World (FS ∅ []) 0)
    (Build_StoreOpts "./storage" None (Build_EncryptionConfig true ""))
    eq_refl) as Hn. cbn zeta in Hn. revert Hn.
  destruct (NewStore (World (FS ∅ []) 0) _) as [w1 [s|e]] eqn:Hs.
  - intros [Hn _]. exists w1, s. split; [reflexivity|exact Hn].
  - exfalso. revert Hs. vm_compute. discriminate.
Defined.
