(* ===== verification/StoreSpec.v ===== *)
(** What the content-addressed store promises, and that it does: a store is a
    finite map from digests to contents; [Write] inserts, [Delete] deletes,
    [Has] and [Read] look up.  [refines] relates the map to the file system. *)
From S2P Require Import Prelude Words Sha Io GoStrings FileSys Encryption Store.
From Stdlib Require Import Ascii.

Section refinement.
Context `{AEADLaws, EntropyLaws} (s : Store).
Implicit Type (w : world) (f : fs) (key : string).

(** A store as [StartServer] sets it up: hashed paths, a root without "..",
    and a key AES accepts (or none). *)
Record cas_store : Prop := {
  cas_transform : s_PathTransformFunc s = CASPathTransformFunc;
  cas_root : no_dotdot (split_char slash (s_Root s));
  cas_key : forall k, encryptionKey s = Some k -> aes_NewCipher k = Ok tt;
}.

Definition start f : rpath := start_dir f (s_Root s +:+ "/").
Definition root_comps : list string := split_char slash (s_Root s).
Definition rootp f : rpath := target (start f) root_comps.

(** The path of the file of [key]. *)
Definition entry f key : rpath := cas_hash key :: target (rootp f) (cas_blocks key).

(** The tree is well-formed and the directory the root path starts from exists. *)
Definition sane f : Prop := wf (tree f) /\ get (tree f) (start f) = Some NDir.

(** A regular file is in the way of the directory of [key]. *)
Definition blocked f key : Prop :=
  exists xs ys b, root_comps ++ cas_blocks key = xs ++ ys
                  /\ get (tree f) (target (start f) xs) = Some (NFile b).

Definition refines (m : gmap string bytes) w : Prop :=
  sane (w_fs w) /\
  forall key, Has w s key = bool_decide (is_Some (m !! cas_hash key))
    /\ forall d, m !! cas_hash key = Some d -> Read w s key = Ok (d, zlen d).

Hypothesis Hs : cas_store.

(** ** Paths *)
Lemma is_rooted_app a t : is_rooted (a +:+ String slash t) = is_rooted (a +:+ "/").
Proof. by destruct a. Qed.

Lemma file_path_cas key :
  file_path s key = s_Root s +:+ String slash (GetFilePath (CASPathTransformFunc key)).
Proof. unfold file_path, getAbsolutePath. by rewrite (cas_transform Hs). Qed.

Lemma dir_path_cas key :
  dir_path s key = s_Root s +:+ String slash (Path (CASPathTransformFunc key)).
Proof. unfold dir_path, getAbsolutePath. by rewrite (cas_transform Hs). Qed.

Lemma app_slash_nonempty a t : a +:+ String slash t <> "".
Proof. by destruct a. Qed.

Lemma resolve_file_path f key :
  resolve f (file_path s key)
  = walk (tree f) (start f) ((root_comps ++ cas_blocks key) ++ [cas_hash key]).
Proof.
  rewrite file_path_cas. unfold resolve. rewrite decide_False by apply app_slash_nonempty.
  rewrite split_char_app, split_cas_file, app_assoc. unfold start, start_dir.
  by rewrite is_rooted_app.
Qed.

Lemma mkdir_dir_path f key :
  os_MkdirAll f (dir_path s key)
  = let '(t, e) := mkdirs (tree f) (start f) (root_comps ++ cas_blocks key) in (set_tree f t, e).
Proof.
  rewrite dir_path_cas. unfold os_MkdirAll. rewrite decide_False by apply app_slash_nonempty.
  rewrite split_char_app, split_cas_dir. unfold start, start_dir. by rewrite is_rooted_app.
Qed.

Lemma dir_comps_no_dotdot key : no_dotdot (root_comps ++ cas_blocks key).
Proof.
  apply Forall_app. split; [apply (cas_root Hs)|]. apply plain_no_dotdot.
  by pose proof (cas_comps_plain key) as [? _]%Forall_app.
Qed.

Lemma hash_plain key : plain (cas_hash key).
Proof. apply (hexname_plain 39), cas_hash_hexname. Qed.

Lemma entry_target f key :
  entry f key = cas_hash key :: target (start f) (root_comps ++ cas_blocks key).
Proof. unfold entry, rootp. by rewrite target_app. Qed.

(** The entries of all keys lie at the same depth, below everything on the
    way to them. *)
Lemma blocks_plain key : Forall plain (cas_blocks key).
Proof. by pose proof (cas_comps_plain key) as [? _]%Forall_app. Qed.

Lemma entry_length f key : length (entry f key) = (9 + length (rootp f))%nat.
Proof.
  unfold entry. rewrite target_plain by apply blocks_plain.
  rewrite length_cons, length_app, length_rev. unfold cas_blocks.
  by rewrite length_map, length_seq.
Qed.

Lemma way_below f key xs ys key' :
  root_comps ++ cas_blocks key = xs ++ ys -> target (start f) xs <> entry f key'.
Proof.
  intros Hxy Heq%(f_equal length). pose proof (dir_comps_no_dotdot key) as Hn.
  pose proof (entry_length f key) as Hl. rewrite entry_target in Hl. simpl in Hl.
  rewrite Hxy in Hn, Hl. apply Forall_app in Hn as [_ Hys].
  pose proof (target_length (start f) xs ys Hys). rewrite entry_length in Heq. lia.
Qed.

Lemma entry_ne f key key' : cas_hash key <> cas_hash key' -> entry f key <> entry f key'.
Proof. unfold entry. congruence. Qed.

(** ** What the tree says about [Has] and [Read] *)
Lemma walk_to_entry f key q :
  walk (tree f) (start f) ((root_comps ++ cas_blocks key) ++ [cas_hash key]) = Ok q ->
  q = entry f key.
Proof.
  intros Hw%walk_target. rewrite target_app in Hw. rewrite entry_target, Hw.
  apply descend_plain, hash_plain.
Qed.

Lemma walk_present f key :
  sane f -> is_Some (tree f !! entry f key) ->
  walk (tree f) (start f) ((root_comps ++ cas_blocks key) ++ [cas_hash key])
  = Ok (entry f key).
Proof.
  intros [Hwf Hst] Hp. rewrite entry_target in *.
  by apply walk_entry; [|apply dir_comps_no_dotdot| |apply hash_plain|].
Qed.

Lemma walk_blocked f key :
  sane f -> blocked f key <->
  walk (tree f) (start f) ((root_comps ++ cas_blocks key) ++ [cas_hash key]) = Err ErrNotDir.
Proof.
  intros [Hwf Hst]. split.
  - intros (xs & ys & b & Hxy & Hb). pose proof (dir_comps_no_dotdot key) as Hn.
    rewrite Hxy in Hn |- *. apply Forall_app in Hn as [Hxs _]. rewrite <-app_assoc.
    eapply walk_file_on_way; [done..|by destruct ys|done].
  - intros (xs & ys & b & Hxy & Hys & Hb)%walk_notdir.
    destruct (exists_last Hys) as (ys' & y & ->). rewrite app_assoc in Hxy.
    apply app_inj_tail in Hxy as [Hxy _]. by exists xs, ys', b.
Qed.

Lemma get_entry f key : get (tree f) (entry f key) = tree f !! entry f key.
Proof. done. Qed.

Lemma os_Stat_entry f key :
  sane f ->
  os_Stat f (file_path s key) =
    match tree f !! entry f key with
    | Some n => Ok (entry f key, n)
    | None => os_Stat f (file_path s key)
    end.
Proof.
  intros Hf. destruct (tree f !! entry f key) as [n|] eqn:E; [|done].
  unfold os_Stat. rewrite resolve_file_path, walk_present by (done || by rewrite E).
  cbn [mbind result_bind]. by rewrite get_entry, E.
Qed.

Lemma content_at_entry f key c :
  sane f -> content_at f (file_path s key) c <-> tree f !! entry f key = Some (NFile c).
Proof.
  intros Hf. unfold content_at. split.
  - intros [p Hp]. unfold os_Stat in Hp. rewrite resolve_file_path in Hp.
    destruct (walk _ _ _) as [q|] eqn:Hw; [|done]. apply walk_to_entry in Hw. subst q.
    cbn [mbind result_bind] in Hp. rewrite get_entry in Hp. case_match; by simplify_eq.
  - intros Hc. rewrite os_Stat_entry, Hc by done. eauto.
Qed.

Lemma Has_false w key :
  sane (w_fs w) ->
  Has w s key = false <-> tree (w_fs w) !! entry (w_fs w) key = None /\ ~ blocked (w_fs w) key.
Proof.
  intros Hf. rewrite walk_blocked by done. unfold Has. split.
  - intros Hh. rewrite os_Stat_entry in Hh by done.
    destruct (tree (w_fs w) !! _); [done|]. split; [done|]. intros Hw.
    unfold os_Stat in Hh. rewrite resolve_file_path, Hw in Hh. done.
  - intros [Hn Hb]. unfold os_Stat. rewrite resolve_file_path.
    destruct (walk _ _ _) as [q|e] eqn:Hw; cbn [mbind result_bind].
    + apply walk_to_entry in Hw. subst q. by rewrite get_entry, Hn.
    + by destruct (walk_errors _ _ _ _ Hw) as [->| ->].
Qed.

Lemma Read_depends w w' key c :
  content_at (w_fs w) (file_path s key) c -> content_at (w_fs w') (file_path s key) c ->
  Read w' s key = Read w s key.
Proof.
  intros Hc Hc'. destruct (encryptionKey s) as [k|] eqn:Hk.
  - pose proof (cas_key Hs k Hk) as Hkk.
    by rewrite !(Read_encrypted_content _ s key k c Hk Hkk).
  - by rewrite !(Read_plain_content _ s key c Hk).
Qed.

Lemma Read_ok_content w key d n :
  sane (w_fs w) -> Read w s key = Ok (d, n) ->
  exists c, tree (w_fs w) !! entry (w_fs w) key = Some (NFile c).
Proof.
  intros Hf. unfold Read, readStream. destruct (Has w s key) eqn:Hh; [|done].
  destruct (os_Stat _ _) as [[p [c|]]|] eqn:Hst; [|intros Hr; exfalso|done].
  { intros _. exists c. apply content_at_entry; [done|]. by exists p. }
  revert Hr. cbn. destruct (encryptionKey s) as [k|] eqn:Hk; [|done].
  unfold newDecryptingReader. rewrite (cas_key Hs k Hk). done.
Qed.

(** ** Everything but the entry of one key *)
Definition agree key f f' : Prop :=
  cwd f' = cwd f /\ sane f' /\
  (forall q b, q <> entry f key ->
     tree f' !! q = Some (NFile b) <-> tree f !! q = Some (NFile b)) /\
  (forall key', entry f key' <> entry f key ->
     tree f' !! entry f key' = None <-> tree f !! entry f key' = None).

Lemma start_cwd f f' : cwd f' = cwd f -> start f' = start f.
Proof. unfold start, start_dir. by intros ->. Qed.

Lemma entry_cwd f f' key : cwd f' = cwd f -> entry f' key = entry f key.
Proof. intros Hc. unfold entry, rootp. by rewrite (start_cwd f f' Hc). Qed.

(** No entry is on the way to another one, so the way is as free as before. *)
Lemma agree_blocked key f f' key' : agree key f f' -> blocked f' key' <-> blocked f key'.
Proof.
  intros (Hc & _ & Hfile & _). unfold blocked. rewrite (start_cwd f f' Hc).
  split; intros (xs & ys & b & Hxy & Hb); exists xs, ys, b; (split; [done|]);
    pose proof (way_below f key' xs ys key Hxy) as Hne;
    destruct (target (start f) xs) as [|c q]; try done; simpl in *; by apply Hfile.
Qed.

Lemma agree_others m w w' key key' :
  refines m w -> agree key (w_fs w) (w_fs w') -> cas_hash key' <> cas_hash key ->
  Has w' s key' = Has w s key' /\
  forall d n, Read w s key' = Ok (d, n) -> Read w' s key' = Ok (d, n).
Proof.
  intros [Hw _] Hag Hne%(entry_ne (w_fs w)). pose proof Hag as (Hc & Hw' & Hfile & Hnone).
  assert (Has w' s key' = false <-> Has w s key' = false) as Hhas.
  { rewrite !Has_false, (agree_blocked _ _ _ _ Hag), (entry_cwd _ _ _ Hc) by done.
    by rewrite (Hnone key' Hne). }
  split; [destruct (Has w' s key'), (Has w s key'); intuition congruence|].
  intros d n Hr. destruct (Read_ok_content _ _ _ _ Hw Hr) as [c Hcon].
  rewrite <-Hr. apply (Read_depends w w' key' c); apply content_at_entry; try done.
  rewrite (entry_cwd _ _ _ Hc). by apply Hfile.
Qed.

Lemma same_hash_path key key' :
  cas_hash key = cas_hash key' -> file_path s key = file_path s key'.
Proof.
  intros Hh. rewrite !file_path_cas. do 2 f_equal. unfold GetFilePath.
  rewrite !cas_path. unfold cas_blocks. fold (cas_hash key) (cas_hash key'). by rewrite Hh.
Qed.

Lemma same_hash_Has w key key' : cas_hash key = cas_hash key' -> Has w s key = Has w s key'.
Proof. intros Hh. unfold Has. by rewrite (same_hash_path _ _ Hh). Qed.

Lemma same_hash_Read w key key' : cas_hash key = cas_hash key' -> Read w s key = Read w s key'.
Proof.
  intros Hh. unfold Read, readStream. by rewrite (same_hash_Has _ _ _ Hh), (same_hash_path _ _ Hh).
Qed.

Lemma refines_insert m w w' key d :
  refines m w -> agree key (w_fs w) (w_fs w') ->
  Has w' s key = true -> Read w' s key = Ok (d, zlen d) ->
  refines (<[cas_hash key := d]> m) w'.
Proof.
  intros Hm Hag Hh Hr. split; [by apply Hag|]. intros key'.
  destruct (decide (cas_hash key = cas_hash key')) as [Heq|Hne].
  - rewrite <-(same_hash_Has _ _ _ Heq), <-(same_hash_Read _ _ _ Heq), Hh, Hr, Heq.
    rewrite lookup_insert_eq. split; [done|]. by intros ? [= <-].
  - rewrite lookup_insert_ne by done.
    destruct (agree_others _ _ _ _ key' Hm Hag) as [-> HR]; [congruence|].
    destruct Hm as [_ Hm]. destruct (Hm key') as [Hk HkR]. auto.
Qed.

Lemma refines_delete m w w' key :
  refines m w -> agree key (w_fs w) (w_fs w') -> Has w' s key = false ->
  refines (delete (cas_hash key) m) w'.
Proof.
  intros Hm Hag Hh. split; [by apply Hag|]. intros key'.
  destruct (decide (cas_hash key = cas_hash key')) as [Heq|Hne].
  - rewrite <-(same_hash_Has _ _ _ Heq), Hh, Heq, lookup_delete_eq. done.
  - rewrite lookup_delete_ne by done.
    destruct (agree_others _ _ _ _ key' Hm Hag) as [-> HR]; [congruence|].
    destruct Hm as [_ Hm]. destruct (Hm key') as [Hk HkR]. auto.
Qed.

(** ** Writing *)
Lemma mkdir_agree key f f1 e :
  sane f -> os_MkdirAll f (dir_path s key) = (f1, e) ->
  cwd f1 = cwd f /\ sane f1 /\ adds_dirs (tree f) (tree f1)
  /\ forall key', tree f1 !! entry f key' = tree f !! entry f key'.
Proof.
  intros [Hwf Hst]. rewrite mkdir_dir_path.
  pose proof (mkdirs_adds (tree f) (start f) (root_comps ++ cas_blocks key)) as Ha.
  pose proof (mkdirs_wf (tree f) (start f) (root_comps ++ cas_blocks key) Hwf Hst) as Hwf1.
  pose proof (mkdirs_frame (tree f) (start f) (root_comps ++ cas_blocks key)) as Hfr.
  destruct (mkdirs _ _ _) as [t1 e1]. intros [= <- <-]. simpl in *.
  split_and!; [done| |done|].
  - split; [done|]. by apply (adds_dirs_kept _ _ Ha).
  - intros key'. destruct (decide (t1 !! entry f key' = tree f !! entry f key')); [done|].
    destruct (Hfr _ n) as (xs & ys & Hxy & Heq). by destruct (way_below f key xs ys key' Hxy).
Qed.

(** After [create_for] the file may hold anything, the rest is unchanged. *)
Lemma write_agree w key w1 h f p b n :
  sane (w_fs w) -> created w s key w1 h f p ->
  let w' := World (set_tree f (<[p := NFile b]> (tree f))) n in
  p = entry (w_fs w) key /\ agree key (w_fs w) (w_fs w')
  /\ content_at (w_fs w') (file_path s key) b.
Proof.
  intros Hw (Hm & Hc & _ & _ & _ & Hr & Hp). cbn.
  destruct (mkdir_agree key _ _ _ Hw Hm) as (_ & Hf & Ha & Hent).
  assert (p = entry (w_fs w) key) as ->.
  { rewrite resolve_file_path in Hr. rewrite <-(entry_cwd _ f key) by done.
    by apply walk_to_entry in Hr. }
  set (f' := set_tree f _). assert (sane f') as Hf'.
  { destruct Hf as [Hwf Hst]. rewrite (start_cwd _ _ Hc) in Hst.
    rewrite mkdir_dir_path in Hm. destruct (mkdirs _ _ _) as [t1 e1] eqn:Hmk.
    injection Hm as <- ->. apply mkdirs_walk in Hmk as (q & Hq & Hd); [|apply Hw].
    apply walk_target in Hq. subst q. unfold f'. rewrite entry_target in *. split.
    - apply wf_insert; [exact Hwf|exact Hd|apply hash_plain|done].
    - apply (dirs_kept_insert _ _ _ Hp). by rewrite (start_cwd (w_fs w) (set_tree _ _)). }
  split; [done|]. split.
  - split; [done|]. split; [done|]. split.
    + intros q c Hq. simpl. rewrite lookup_insert_ne by done.
      split; [|apply (adds_dirs_file _ _ _ _ Ha)].
      destruct (Ha q) as [->|[_ ->]]; [done|]. by intros [=].
    + intros key' Hne. simpl. rewrite lookup_insert_ne by done. by rewrite Hent.
  - apply content_at_entry; [done|]. rewrite (entry_cwd (w_fs w) f') by done.
    apply lookup_insert_eq.
Qed.

(** Directories that are there stay. *)
Lemma write_dirs w key w1 h f p b :
  sane (w_fs w) -> created w s key w1 h f p ->
  dirs_kept (tree (w_fs w)) (<[p := NFile b]> (tree f)).
Proof.
  intros Hw (Hm & _ & _ & _ & _ & _ & Hp). destruct (mkdir_agree key _ _ _ Hw Hm) as (_ & _ & Ha & _).
  etrans; [by apply adds_dirs_kept|]. by apply dirs_kept_insert.
Qed.

Lemma refines_free m w key : refines m w -> ~ blocked (w_fs w) key.
Proof.
  intros [Hw Hm]. destruct (Hm key) as [Hh Hr].
  destruct (m !! cas_hash key) as [d|] eqn:E; simpl in Hh; [|by apply Has_false].
  destruct (Read_ok_content _ _ _ _ Hw (Hr d eq_refl)) as [c Hc].
  intros Hb%walk_blocked; [|done]. by rewrite walk_present in Hb by (done || by rewrite Hc).
Qed.

Lemma refines_no_dir m w key : refines m w -> tree (w_fs w) !! entry (w_fs w) key <> Some NDir.
Proof.
  intros [Hw Hm]. destruct (Hm key) as [Hh Hr].
  destruct (m !! cas_hash key) as [d|] eqn:E; simpl in Hh.
  - destruct (Read_ok_content _ _ _ _ Hw (Hr d eq_refl)) as [c ->]. done.
  - apply Has_false in Hh as [-> _]; done.
Qed.

(** In a store that refines a map, creating a file always works. *)
Lemma create_for_total m w key :
  refines m w -> exists w1 h f p,
    create_for w s key = (w1, Ok h) /\ created w s key w1 h f p.
Proof.
  intros Hm. pose proof Hm as [Hw _].
  assert (exists w1 h, create_for w s key = (w1, Ok h)) as (w1 & h & Hc).
  { unfold create_for. destruct (os_MkdirAll (w_fs w) (dir_path s key)) as [f e] eqn:Hmk.
    destruct (mkdir_agree key _ _ _ Hw Hmk) as (Hcwd & Hf & _ & Hent).
    rewrite mkdir_dir_path in Hmk. destruct (mkdirs _ _ _) as [t1 e1] eqn:Hmd.
    injection Hmk as <- <-. destruct e1 as [e1|].
    { apply mkdirs_fails in Hmd as (xs & ys & b & Hxy & Hb); [|apply Hw].
      destruct (refines_free _ _ key Hm). by exists xs, ys, b. }
    apply mkdirs_walk in Hmd as (q & Hq & Hd); [|apply Hw].
    pose proof (walk_target _ _ _ _ Hq) as ->. cbn [w_fs set_fs]. unfold os_Create.
    rewrite resolve_file_path, walk_app, (start_cwd _ _ Hcwd). cbn [tree set_tree].
    rewrite Hq. cbn [mbind result_bind walk].
    rewrite Hd, descend_plain, <-entry_target by apply hash_plain.
    change (get t1 (entry (w_fs w) key)) with (tree (set_tree (w_fs w) t1) !! entry (w_fs w) key).
    pose proof (refines_no_dir m w key Hm) as Hnd. rewrite Hent.
    destruct (tree (w_fs w) !! _) as [[|]|]; [eauto|done|eauto]. }
  destruct (create_for_ok _ _ _ _ _ Hc) as (f & p & Hcr). by exists w1, h, f, p.
Qed.

Lemma frames_plaintext k rnd cs :
  Forall (fun c => zlen c <= chunkSize) cs -> unframe k (frames k rnd cs) EOF = (cs, EOF).
Proof.
  intros Hcs. rewrite <-(app_nil_r (frames k rnd cs)), unframe_frames by done.
  by rewrite unframe_nil, app_nil_r.
Qed.

Lemma Forall_le_chunk (P : bytes -> Prop) cs :
  (forall c, P c -> zlen c <= chunkSize) -> Forall P cs -> Forall (fun c => zlen c <= chunkSize) cs.
Proof. intros HP Hcs. eapply Forall_impl; [exact Hcs|done]. Qed.

(** A write from a source that ends regularly inserts. *)
Lemma Write_refines m w key {R} `{ReaderLaws R} (r : R) :
  refines m w -> rd_end r = EOF -> exists w' r',
    Write w s key r = (w', r', Ok (zlen (rd_bytes r)))
    /\ refines (<[cas_hash key := rd_bytes r]> m) w' /\ reads r (rd_bytes r) r'
    /\ agree key (w_fs w) (w_fs w') /\ dirs_kept (tree (w_fs w)) (tree (w_fs w')).
Proof.
  intros Hm Hend. destruct (create_for_total m w key Hm) as (w1 & h & f & p & Hc & Hcr).
  unfold Write. destruct (encryptionKey s) as [k|] eqn:Hk.
  - pose proof (cas_key Hs k Hk) as Hkk.
    destruct (writeStreamEncrypted_spec w s k key r w1 h f p Hc Hcr Hkk Hend)
      as (r' & cs & n & -> & Hcs & Hlen & Hrr).
    eexists _, r'. split; [done|].
    edestruct (write_agree w key w1 h f p) as (_ & Hag & Hcon); [apply Hm|done|].
    split; [|split; [done|split; [exact Hag|apply (write_dirs w key w1 h f p); [apply Hm|done]]]].
    apply (refines_insert m w); [done|exact Hag|by eapply Has_content|].
    rewrite (Read_encrypted_content _ s key k _ Hk Hkk Hcon), frames_plaintext.
    + by rewrite decide_True, Hcs by done.
    + eapply Forall_le_chunk; [|exact Hlen]. by intros c [_ ?].
  - destruct (writeStream_spec w s key r w1 h f p Hc Hcr) as (r' & -> & Hrr). rewrite Hend.
    eexists _, r'. split; [done|].
    edestruct (write_agree w key w1 h f p) as (_ & Hag & Hcon); [apply Hm|done|].
    split; [|split; [done|split; [exact Hag|apply (write_dirs w key w1 h f p); [apply Hm|done]]]].
    apply (refines_insert m w); [done|exact Hag|by eapply Has_content|].
    by apply Read_plain_content.
Qed.

(** What a write from a source that fails has stored of the data [b]: all of
    it, or the full chunks. *)
Definition kept (b : bytes) : bytes :=
  match encryptionKey s with
  | Some _ => take (Z.to_nat (chunkSize * (zlen b / chunkSize))) b
  | None => b
  end.

Lemma kept_chunks (full : list bytes) (tail : bytes) :
  Forall (fun c => zlen c = chunkSize) full -> zlen tail < chunkSize ->
  take (Z.to_nat (chunkSize * (zlen (concat full ++ tail) / chunkSize))) (concat full ++ tail)
  = concat full.
Proof.
  intros Hfull%zlen_concat_full Htail. rewrite zlen_app, Hfull.
  replace ((chunkSize * zlen full + zlen tail) / chunkSize) with (zlen full).
  - rewrite <-Hfull. apply take_app_length'. len.
  - pose proof (zlen_nonneg tail). change chunkSize with 65536 in *. divlia.
Qed.

(** A write from a source that fails keeps the full chunks, or everything
    received so far, under the name of the key. *)
Lemma Write_fails m w key {R} `{ReaderLaws R} (r : R) :
  refines m w -> rd_end r <> EOF -> exists w' r' e,
    Write w s key r = (w', r', Err e) /\ refines (<[cas_hash key := kept (rd_bytes r)]> m) w'
    /\ reads r (rd_bytes r) r'.
Proof.
  intros Hm Hend. destruct (create_for_total m w key Hm) as (w1 & h & f & p & Hc & Hcr).
  unfold Write, kept. destruct (encryptionKey s) as [k|] eqn:Hk.
  - pose proof (cas_key Hs k Hk) as Hkk.
    destruct (writeStreamEncrypted_err w s k key r w1 h f p Hc Hcr Hkk Hend)
      as (r' & cs & tail & n & -> & Hb & Hcs & Htail & Hrr).
    eexists _, r', _. split; [done|]. split; [|done]. rewrite Hb, kept_chunks by done.
    edestruct (write_agree w key w1 h f p) as (_ & Hag & Hcon); [apply Hm|done|].
    apply (refines_insert m w); [done|exact Hag|by eapply Has_content|].
    rewrite (Read_encrypted_content _ s key k _ Hk Hkk Hcon), frames_plaintext.
    + by rewrite decide_True by done.
    + eapply Forall_le_chunk; [|exact Hcs]. by intros c ->.
  - destruct (writeStream_spec w s key r w1 h f p Hc Hcr) as (r' & -> & Hrr).
    unfold copy_err. rewrite decide_False by done. eexists _, r', _. split; [done|]. split; [|done].
    edestruct (write_agree w key w1 h f p) as (_ & Hag & Hcon); [apply Hm|done|].
    apply (refines_insert m w); [done|exact Hag|by eapply Has_content|].
    by apply Read_plain_content.
Qed.

(** A write under a new key leaves every file readable that was. *)
Lemma Write_files_kept m w w' key :
  refines m w -> m !! cas_hash key = None ->
  agree key (w_fs w) (w_fs w') -> dirs_kept (tree (w_fs w)) (tree (w_fs w')) ->
  files_kept (w_fs w) (w_fs w').
Proof.
  intros [Hw Hm] Hk (Hc & _ & Hfile & _) Hd. apply files_kept_dirs; [done..|]. intros p b Hp. apply Hfile; [|done].
  intros ->. destruct (Hm key) as [Hh _]. rewrite Hk in Hh.
  apply (Has_false w key Hw) in Hh as [Hn _]. congruence.
Qed.

(** ** Deleting *)
Lemma split_dir_path key : split_char slash (dir_path s key) = root_comps ++ cas_blocks key.
Proof. by rewrite dir_path_cas, split_char_app, split_cas_dir. Qed.

Lemma is_rooted_split p :
  is_rooted p = match split_char slash p with "" :: _ :: _ => true | _ => false end.
Proof.
  destruct p as [|a p]; [done|]. simpl. pose proof (split_char_nonnil slash p).
  case_decide; [by case_bool_decide; destruct (split_char slash p)|].
  rewrite bool_decide_false by done. by destruct (split_char slash p) as [|[]].
Qed.

Lemma root_comps_nonnil : root_comps <> [].
Proof. apply split_char_nonnil. Qed.

Lemma start_split f key xs ys :
  root_comps ++ cas_blocks key = xs ++ ys -> strings_Join xs "/" <> "" ->
  split_char slash (strings_Join xs "/") = xs /\ start_dir f (strings_Join xs "/") = start f.
Proof.
  intros Hxy Hne. assert (split_char slash (strings_Join xs "/") = xs) as Hsp.
  { apply split_join; [by intros ->|].
    pose proof (split_char_chars slash (dir_path s key)) as Hf.
    rewrite split_dir_path, Hxy in Hf. by apply Forall_app in Hf as [? _]. }
  split; [exact Hsp|]. unfold start, start_dir.
  rewrite <-(is_rooted_app _ (Path (CASPathTransformFunc key))), <-dir_path_cas.
  rewrite !is_rooted_split, Hsp, split_dir_path, Hxy. destruct xs as [|x xs]; [done|].
  destruct x; [|done]. destruct xs; [done|]. done.
Qed.

(** Only a path of "." and "" leads nowhere. *)
Lemma target_still cur xs :
  no_dotdot xs -> target cur xs = cur -> Forall (fun c => c = "" \/ c = ".") xs.
Proof.
  intros Hn. revert cur. induction Hn as [|c xs Hc Hn IH]; intros cur Ht; [done|].
  change (target cur (c :: xs)) with (target (descend cur c) xs) in Ht.
  destruct (descend_no_dotdot cur c Hc) as [Hd|[_ Hd]]; rewrite Hd in Ht.
  - constructor; [|by apply (IH cur)]. unfold descend in Hd.
    repeat case_decide; try done. by apply (f_equal length), Nat.neq_succ_diag_l in Hd.
  - destruct (target_down (c :: cur) xs Hn) as [ds Hds]. rewrite Hds in Ht.
    apply (f_equal length) in Ht. rewrite length_app in Ht. simpl in Ht. lia.
Qed.

Lemma elem_of_rev {A} (x : A) l : x ∈ rev l <-> x ∈ l.
Proof. by rewrite !list_elem_of_In, <-in_rev. Qed.

(** A path of the deletion loop names nothing, or a directory on the way to
    the entry, which is not the start when it can be removed. *)
Lemma start_stays f key xs ys :
  root_comps ++ cas_blocks key = xs ++ ys -> strings_Join xs "/" <> "" ->
  target (start f) xs = start f -> start f <> [] ->
  last_comp (strings_Join xs "/") = Some ".".
Proof.
  intros Hxy Hne Ht Hst. destruct (start_split f key xs ys Hxy Hne) as [Hsp Hsd].
  pose proof (dir_comps_no_dotdot key) as Hn. rewrite Hxy in Hn.
  apply Forall_app in Hn as [Hn _]. apply (target_still _ _ Hn) in Ht.
  unfold last_comp. rewrite Hsp.
  destruct (filter _ (rev xs)) as [|c cs] eqn:Hf; cbn [hd_error].
  - exfalso. revert Hne Hst. rewrite <-Hsd. unfold start_dir. rewrite is_rooted_split, Hsp.
    assert (Forall (fun c => c = "") xs) as Hall.
    { apply Forall_forall. intros c Hc. destruct (decide (c = "")); [done|].
      exfalso. apply (not_elem_of_nil c). rewrite <-Hf. apply list_elem_of_filter.
      split; [done|]. by apply elem_of_rev. }
    destruct xs as [|x [|y xs]]; [done|..]; apply Forall_cons in Hall as [-> Hall]; done.
  - assert (c ∈ filter (fun c => c <> "") (rev xs)) as Hc by (rewrite Hf; left).
    apply list_elem_of_filter in Hc as [Hc Hin]. rewrite elem_of_rev in Hin.
    rewrite Forall_forall in Ht. destruct (Ht c Hin); congruence.
Qed.

(** Nothing but empty directories off every entry goes. *)
Definition prunes f f' : Prop :=
  cwd f' = cwd f /\ sane f'
  /\ (forall q b, tree f' !! q = Some (NFile b) <-> tree f !! q = Some (NFile b))
  /\ (forall key, tree f' !! entry f key = tree f !! entry f key).

Lemma prunes_refl f : sane f -> prunes f f.
Proof. intros Hf. by split; [|split]. Qed.

Lemma prunes_trans f f1 f2 : prunes f f1 -> prunes f1 f2 -> prunes f f2.
Proof.
  intros (Hc & _ & Hf & He) (Hc' & Hs' & Hf' & He'). split; [congruence|].
  split; [done|]. split; [intros; by rewrite Hf', Hf|].
  intros key. by rewrite <-He, <-(entry_cwd f f1 key Hc).
Qed.

Lemma prunes_blocked f f' key : prunes f f' -> blocked f' key <-> blocked f key.
Proof.
  intros (Hc & _ & Hf & _). unfold blocked. rewrite (start_cwd _ _ Hc).
  split; intros (xs & ys & b & Hxy & Hb); exists xs, ys, b; (split; [done|]);
    destruct (target (start f) xs); try done; by apply Hf.
Qed.

Lemma remove_dir_prunes f key xs ys f' e :
  sane f -> ~ blocked f key -> root_comps ++ cas_blocks key = xs ++ ys ->
  os_Remove f (strings_Join xs "/") = (f', e) -> prunes f f'.
Proof.
  intros Hf Hb Hxy. unfold os_Remove, os_Stat, resolve.
  case_decide as Hne; [intros [= <- _]; by apply prunes_refl|].
  destruct (start_split f key xs ys Hxy Hne) as [-> ->].
  destruct (walk _ _ _) as [p|] eqn:Hw; cbn [mbind result_bind];
    [|intros [= <- _]; by apply prunes_refl].
  apply walk_target in Hw. subst p. set (p := target (start f) xs).
  destruct (get (tree f) p) as [[b|]|] eqn:Hp;
    [by destruct Hb; exists xs, ys, b| |intros [= <- _]; by apply prunes_refl].
  repeat case_decide; intros [= <- _]; try by apply prunes_refl.
  assert (tree f !! p = Some NDir) as Hp' by (by destruct p).
  destruct Hf as [Hwf Hst]. split; [done|]. split; [|split].
  - split.
    + apply wf_delete; [done|]. intros c. apply eq_None_not_Some. rewrite <-children_spec.
      replace (children (tree f) p) with (@nil string) by done. apply not_elem_of_nil.
    + rewrite (start_cwd f) by done. destruct (start f) as [|c q] eqn:Hs'; [done|].
      simpl. rewrite lookup_delete_ne; [done|]. intros Heq.
      enough (last_comp (strings_Join xs "/") = Some ".") by done.
      apply (start_stays f key xs ys Hxy Hne); rewrite Hs'; done.
  - intros q b. simpl. destruct (decide (p = q)) as [<-|].
    + rewrite lookup_delete_eq, Hp'. done.
    + by rewrite lookup_delete_ne.
  - intros key'. simpl. apply lookup_delete_ne. by apply (way_below f key xs ys key').
Qed.

Lemma delete_up_prunes f key n f' e :
  sane f -> ~ blocked f key -> (n <= length (root_comps ++ cas_blocks key))%nat ->
  delete_up f (root_comps ++ cas_blocks key) n = (f', e) -> prunes f f'.
Proof.
  revert f. induction n as [|i IH]; intros f Hf Hb Hn; cbn [delete_up].
  { intros [= <- _]. by apply prunes_refl. }
  case_decide; [|intros [= <- _]; by apply prunes_refl].
  destruct (os_Remove _ _) as [f1 [e1|]] eqn:Hr.
  - intros [= <- _]. eapply remove_dir_prunes, Hr; [done..|symmetry; apply take_drop].
  - assert (prunes f f1) as Hp.
    { eapply remove_dir_prunes, Hr; [done..|symmetry; apply take_drop]. }
    intros Hd. apply (prunes_trans _ _ _ Hp), IH; [apply Hp| |lia|done].
    by rewrite (prunes_blocked _ _ _ Hp).
Qed.

(** Deleting the file of a key, whatever becomes of its directories. *)
Lemma Delete_agree m w key w' e :
  refines m w -> is_Some (m !! cas_hash key) -> Delete w s key = (w', e) ->
  agree key (w_fs w) (w_fs w') /\ Has w' s key = false.
Proof.
  intros Hm [d Hd]. pose proof Hm as [Hw Hr]. destruct (Hr key) as [_ Hrd].
  destruct (Read_ok_content _ _ _ _ Hw (Hrd d Hd)) as [c Hc]. unfold Delete, os_Remove.
  rewrite os_Stat_entry, Hc, split_dir_path by done.
  set (f1 := set_tree (w_fs w) _). destruct Hw as [Hwf Hst].
  assert (sane f1) as Hf1.
  { split.
    - apply wf_delete; [done|]. intros c'. apply eq_None_not_Some. intros Hs'.
      apply (wf_get_cons _ c' (entry (w_fs w) key) Hwf) in Hs'. by rewrite get_entry, Hc in Hs'.
    - rewrite (start_cwd (w_fs w)) by done. destruct (start (w_fs w)) as [|x q] eqn:Hs'; [done|].
      simpl. rewrite lookup_delete_ne; [done|]. intros Heq. rewrite Heq in Hc.
      simpl in Hst. congruence. }
  destruct (delete_up f1 _ _) as [f2 e2] eqn:Hdel. intros [= <- <-]. cbn [w_fs set_fs].
  assert (~ blocked f1 key) as Hb.
  { intros (xs & ys & b & Hxy & Hb). apply (refines_free _ _ key Hm). exists xs, ys, b.
    split; [done|]. revert Hb. rewrite (start_cwd (w_fs w) f1) by done.
    destruct (target (start (w_fs w)) xs) as [|x q]; [done|]. simpl.
    by intros [_ ?]%lookup_delete_Some. }
  destruct (delete_up_prunes f1 key _ _ _ Hf1 Hb ltac:(reflexivity) Hdel) as (Hcw & Hf2 & Hfile & Hent).
  assert (agree key (w_fs w) f2) as Hag.
  { split; [done|]. split; [done|]. split.
    - intros q b Hq. rewrite Hfile. simpl. by rewrite lookup_delete_ne.
    - intros key' Hne. rewrite <-(entry_cwd (w_fs w) f1 key'), Hent by done. simpl.
      by rewrite (entry_cwd (w_fs w) f1), lookup_delete_ne. }
  split; [done|]. apply Has_false; [done|]. cbn [w_fs set_fs].
  rewrite (agree_blocked _ _ _ _ Hag). split; [|by eapply refines_free].
  rewrite (entry_cwd f1 f2) by done. rewrite Hent. simpl.
  by rewrite (entry_cwd (w_fs w) f1), lookup_delete_eq.
Qed.

Lemma Delete_absent m w key :
  refines m w -> m !! cas_hash key = None -> Delete w s key = (w, Some ErrNotExist).
Proof.
  intros [Hw Hr] Hn. destruct (Hr key) as [Hh _]. rewrite Hn in Hh. simpl in Hh.
  unfold Has in Hh. unfold Delete, os_Remove.
  destruct (os_Stat _ _) as [|[]]; simpl in *; try done. by destruct w.
Qed.

(** ** Sequences of operations *)
Inductive store_op :=
| WriteOp (key : string) (r : stream)
| DeleteOp (key : string).

Definition run_op w (o : store_op) : world :=
  match o with
  | WriteOp key r => (Write w s key r).1.1
  | DeleteOp key => (Delete w s key).1
  end.

Definition abs_op (m : gmap string bytes) (o : store_op) : gmap string bytes :=
  match o with
  | WriteOp key r =>
      <[cas_hash key := if decide (rd_end r = EOF) then rd_bytes r else kept (rd_bytes r)]> m
  | DeleteOp key => delete (cas_hash key) m
  end.

Lemma run_op_refines m w o : refines m w -> refines (abs_op m o) (run_op w o).
Proof.
  intros Hm. destruct o as [key r|key]; cbn [run_op abs_op].
  - destruct (decide (rd_end r = EOF)) as [He|He].
    + by destruct (Write_refines m w key r Hm He) as (w' & r' & -> & Hw' & _).
    + by destruct (Write_fails m w key r Hm He) as (w' & r' & e & -> & Hw' & _).
  - destruct (m !! cas_hash key) as [d|] eqn:Hk.
    + destruct (Delete w s key) as [w' e] eqn:Hd.
      destruct (Delete_agree m w key w' e Hm (mk_is_Some _ _ Hk) Hd).
      by apply (refines_delete m w).
    + rewrite (Delete_absent m w key Hm Hk), delete_id; done.
Qed.

Lemma run_ops_refines m w ops : refines m w -> refines (foldl abs_op m ops) (foldl run_op w ops).
Proof. revert m w. induction ops as [|o ops IH]; eauto using run_op_refines. Qed.

(** An empty file system refines the empty map. *)
Lemma refines_empty n : refines ∅ (World (FS ∅ []) n).
Proof.
  assert (sane (FS ∅ [])) as Hf.
  { split; [apply wf_empty|]. unfold start, start_dir. by case_match. }
  split; [done|]. intros key. rewrite lookup_empty. split; [|done].
  apply Has_false; [done|]. split; [done|]. intros (xs & ys & b & _ & Hb).
  by destruct (target _ xs).
Qed.
End refinement.

(** ** Properties *)
Section properties.
Context `{AEADLaws, EntropyLaws}.

(** [C3] A store is a finite map: run any sequence of writes (from sources
    that end regularly or fail, cut into reads in any way) and deletes on a
    store in an empty file system.  Afterwards [Has] tells exactly which keys
    the map holds, and [Read] returns the bytes it holds for them, decrypted,
    with their number. *)
Theorem store_is_a_map s ops n (Hs : cas_store s) :
  let w := foldl (run_op s) (World (FS ∅ []) n) ops in
  let m := foldl (abs_op s) ∅ ops in
  forall key,
    Has w s key = bool_decide (is_Some (m !! cas_hash key))
    /\ forall d, m !! cas_hash key = Some d -> Read w s key = Ok (d, zlen d).
Proof. apply (run_ops_refines s Hs ∅ _ ops (refines_empty s Hs n)). Qed.

(** [Write] of a source that ends regularly succeeds, returns the number
    of plaintext bytes, and a [Read] of the key then returns exactly those
    bytes, encryption or not; every other key is as before. *)
Theorem write_read s m w key {R} `{ReaderLaws R} (r : R)
    (Hs : cas_store s) (Hm : refines s m w) (Hr : rd_end r = EOF) :
  exists w' r', Write w s key r = (w', r', Ok (zlen (rd_bytes r)))
    /\ Read w' s key = Ok (rd_bytes r, zlen (rd_bytes r))
    /\ refines s (<[cas_hash key := rd_bytes r]> m) w'.
Proof.
  destruct (Write_refines s Hs m w key r Hm Hr) as (w' & r' & HW & Hm' & _).
  exists w', r'. split; [done|]. split; [|done].
  apply Hm'. apply lookup_insert_eq.
Qed.

(** A [Write] whose source fails returns an error, but leaves what it has
    stored so far as the content of the key: [Has] is true from then on and
    [Read] returns the fragment without an error. *)
Theorem failed_write_kept s m w key {R} `{ReaderLaws R} (r : R)
    (Hs : cas_store s) (Hm : refines s m w) (Hr : rd_end r <> EOF) :
  exists w' r' e, Write w s key r = (w', r', Err e)
    /\ Has w' s key = true
    /\ Read w' s key = Ok (kept s (rd_bytes r), zlen (kept s (rd_bytes r))).
Proof.
  destruct (Write_fails s Hs m w key r Hm Hr) as (w' & r' & e & HW & Hm' & _).
  exists w', r', e. split; [done|]. destruct Hm' as [_ Hm']. specialize (Hm' key).
  rewrite lookup_insert_eq in Hm'. destruct Hm' as [-> HR]. auto.
Qed.

(** [Delete] of a key that is there removes it, whether or not the
    removal of the directories it leaves empty ends in an error; of a key
    that is not there, it returns "does not exist" and changes nothing.  In
    both cases every other key is as before. *)
Theorem delete_removes s m w key (Hs : cas_store s) (Hm : refines s m w) :
  let '(w', e) := Delete w s key in
  refines s (delete (cas_hash key) m) w' /\ Has w' s key = false
  /\ (m !! cas_hash key = None -> w' = w /\ e = Some ErrNotExist).
Proof.
  destruct (Delete w s key) as [w' e] eqn:Hd.
  destruct (m !! cas_hash key) as [d|] eqn:Hk.
  - destruct (Delete_agree s Hs m w key w' e Hm (mk_is_Some _ _ Hk) Hd).
    split; [by apply (refines_delete s Hs m w)|]. done.
  - rewrite (Delete_absent s m w key Hm Hk) in Hd. injection Hd as <- <-.
    rewrite delete_id by done. split; [done|]. split; [|done].
    destruct Hm as [_ Hm]. rewrite (proj1 (Hm key)), Hk. done.
Qed.
End properties.

(** ** Witnesses *)
Import Toy.

Definition toy_store : Store := Build_Store "./storage" CASPathTransformFunc (Some toy_key).

Lemma toy_store_ok : cas_store toy_store.
Proof.
  split; [done| |by intros k [= <-]]. apply Forall_forall.
  change (s_Root toy_store) with "./storage". vm_compute split_char.
  intros x Hx. repeat (apply elem_of_cons in Hx as [->|Hx]; [done|]). by apply elem_of_nil in Hx.
Defined.

Lemma store_is_a_map_witness :
  let ops := [WriteOp "a" (Stream [[x61]; [x62]] EOF); WriteOp "b" (Stream [[x63]] EOF);
              DeleteOp "b"] in
  let w := foldl (run_op toy_store) (World (FS ∅ []) 0) ops in
  Has w toy_store "a" = true /\ Has w toy_store "b" = false
  /\ Read w toy_store "a" = Ok ([x61; x62], 2).
Proof.
  cbn zeta.
  pose proof (store_is_a_map toy_store
    [WriteOp "a" (Stream [[x61]; [x62]] EOF); WriteOp "b" (Stream [[x63]] EOF); DeleteOp "b"]
    0 toy_store_ok) as Hw.
  split; [|split].
  - rewrite (proj1 (Hw "a")). vm_compute. reflexivity.
  - rewrite (proj1 (Hw "b")). vm_compute. reflexivity.
  - apply (proj2 (Hw "a")). vm_compute. reflexivity.
Defined.

Lemma write_read_witness :
  exists w' r',
    Write (World (FS ∅ []) 0) toy_store "a" (Stream [[x61]; [x62]] EOF) = (w', r', Ok 2)
    /\ Read w' toy_store "a" = Ok ([x61; x62], 2).
Proof.
  edestruct (write_read toy_store ∅ (World (FS ∅ []) 0) "a" (Stream [[x61]; [x62]] EOF))
    as (w' & r' & HW & HR & _); [exact toy_store_ok|apply refines_empty, toy_store_ok|done|].
  exists w', r'. split; [exact HW|exact HR].
Defined.

Lemma failed_write_kept_witness :
  exists w' r' e,
    Write (World (FS ∅ []) 0) toy_store "a" (Stream [[x61]] ErrUnexpectedEOF) = (w', r', Err e)
    /\ Has w' toy_store "a" = true /\ Read w' toy_store "a" = Ok ([], 0).
Proof.
  edestruct (failed_write_kept toy_store ∅ (World (FS ∅ []) 0) "a"
    (Stream [[x61]] ErrUnexpectedEOF)) as (w' & r' & e & HW & HH & HR);
    [exact toy_store_ok|apply refines_empty, toy_store_ok|done|].
  exists w', r', e. split; [exact HW|]. split; [exact HH|]. rewrite HR. vm_compute. reflexivity.
Defined.

Lemma delete_removes_witness :
  Delete (World (FS ∅ []) 0) toy_store "a" = (World (FS ∅ []) 0, Some ErrNotExist).
Proof.
  pose proof (delete_removes toy_store ∅ _ "a" toy_store_ok (refines_empty toy_store toy_store_ok 0)) as Hd.
  destruct (Delete _ _ _) as [w' e]. destruct Hd as (_ & _ & Hd).
  destruct (Hd eq_refl) as [-> ->]. reflexivity.
Defined.
