(* ===== verification/Event.v ===== *)
(** The event bus (src/internal/event/event.go): subscribers by event type,
    each with a channel of capacity ten; [Publish] sends under the read lock,
    [Subscribe] and [Unsubscribe] change the table under the write lock.

    The operations are functions on the bus; the goroutines that call them are
    a labelled step relation, in which a send to a full channel blocks with the
    read lock held. *)
From S2P Require Import Prelude.

Abbreviation EventType := string.

Definition PeerDiscovered : EventType := "peer:discovered".
Definition PeerConnected : EventType := "peer:connected".
Definition PeerDisconnected : EventType := "peer:disconnected".
Definition StoragePeerRegistered : EventType := "peer:storage:registered".
Definition StoragePeerUnregistered : EventType := "peer:storage:unregistered".
Definition FileTransferComplete : EventType := "file:transfer:complete".
Definition FileReceiveStarted : EventType := "file:receive:started".
Definition FileReceiveProgress : EventType := "file:receive:progress".
Definition FileReceiveComplete : EventType := "file:receive:complete".
Definition FileReceiveFailed : EventType := "file:receive:failed".
Definition GetReceived : EventType := "get:received".
Definition GetDelivering : EventType := "get:delivering".
Definition GetDelivered : EventType := "get:delivered".

(** [peer.AddrInfo]: a peer and the addresses it can be reached at, as text. *)
Record AddrInfo := { ai_ID : string; ai_Addrs : list string }.

#[export] Instance AddrInfo_eq_dec : EqDecision AddrInfo.
Proof. solve_decision. Defined.

(** The [Data any] of an event: one of the structs the program publishes;
    a connection is a string that identifies it. *)
Inductive EventData :=
| NoData
| PeerEvent (id conn : string)
| StoragePeerEvent (id : string)
| PeerDiscoveredEvent (info : AddrInfo)
| ReceiveStartedData (key : string) (size : Z) (peerID : string)
| ReceiveProgressData (key : string) (bytesReceived totalBytes : Z)
| ReceiveCompleteData (key : string) (size : Z)
| ReceiveFailedData (key : string) (err : goerr)
| GetReceivedData (msgID key : string) (ttl : Z)
| GetDeliveringData (msgID key requesterID : string)
| GetDeliveredData (msgID key : string).

Record Event := { Type_ : EventType; RequestID : string; Data : EventData }.

(** The types under which each struct is published. *)
Definition data_types (d : EventData) : list EventType :=
  match d with
  | NoData => []
  | PeerEvent _ _ => [PeerConnected; PeerDisconnected]
  | StoragePeerEvent _ => [StoragePeerRegistered; StoragePeerUnregistered]
  | PeerDiscoveredEvent _ => [PeerDiscovered]
  | ReceiveStartedData _ _ _ => [FileReceiveStarted]
  | ReceiveProgressData _ _ _ => [FileReceiveProgress]
  | ReceiveCompleteData _ _ => [FileReceiveComplete]
  | ReceiveFailedData _ _ => [FileReceiveFailed]
  | GetReceivedData _ _ _ => [GetReceived]
  | GetDeliveringData _ _ _ => [GetDelivering]
  | GetDeliveredData _ _ => [GetDelivered]
  end.

(** The type assertions of the consumers, [evt.Data.(T)], hold for such events. *)
Definition well_typed (e : Event) : Prop := Type_ e ∈ data_types (Data e).

#[export] Instance well_typed_dec e : Decision (well_typed e) := list_elem_of_dec _ _.

(** ** The bus *)
Definition chan_cap : nat := 10.

Record Chan := { buf : list Event; closed : bool }.
Abbreviation chan := nat.

Record Bus := {
  subscribers : gmap EventType (list chan);
  channels : gmap chan Chan;      (* the channels made so far *)
  next_chan : chan;
}.

Definition NewBus : Bus := {| subscribers := ∅; channels := ∅; next_chan := 0 |}.

Definition subs (b : Bus) (ty : EventType) : list chan := default [] (subscribers b !! ty).

Definition set_channel (b : Bus) (ch : chan) (c : Chan) : Bus :=
  {| subscribers := subscribers b; channels := <[ch := c]> (channels b);
     next_chan := next_chan b |}.

Definition Subscribe (b : Bus) (ty : EventType) : Bus * chan :=
  let ch := next_chan b in
  ({| subscribers := <[ty := subs b ty ++ [ch]]> (subscribers b);
      channels := <[ch := {| buf := []; closed := false |}]> (channels b);
      next_chan := S ch |}, ch).

(** [append(subs[:i], subs[i+1:]...)] for the first [i] that holds [ch]. *)
Fixpoint remove_first (ch : chan) (l : list chan) : list chan :=
  match l with
  | [] => []
  | c :: l => if decide (c = ch) then l else c :: remove_first ch l
  end.

Definition close_chan (b : Bus) (ch : chan) : Bus :=
  match channels b !! ch with
  | Some c => set_channel b ch {| buf := buf c; closed := true |}
  | None => b
  end.

Definition Unsubscribe (b : Bus) (ty : EventType) (ch : chan) : Bus :=
  if decide (ch ∈ subs b ty) then
    close_chan {| subscribers := <[ty := remove_first ch (subs b ty)]> (subscribers b);
                  channels := channels b; next_chan := next_chan b |} ch
  else b.

(** [ch <- evt]: done, blocked, or a panic. *)
Inductive sent := Sent (b : Bus) | Blocked | Panic.

Definition send (b : Bus) (evt : Event) (ch : chan) : sent :=
  match channels b !! ch with
  | None => Panic
  | Some c =>
      if closed c then Panic
      else if decide (length (buf c) < chan_cap)%nat
      then Sent (set_channel b ch {| buf := buf c ++ [evt]; closed := false |})
      else Blocked
  end.

(** [Publish] on its own: [Blocked] when a subscriber has no room. *)
Fixpoint send_all (b : Bus) (evt : Event) (chs : list chan) : sent :=
  match chs with
  | [] => Sent b
  | ch :: chs => match send b evt ch with Sent b => send_all b evt chs | r => r end
  end.

Definition Publish (b : Bus) (evt : Event) : sent := send_all b evt (subs b (Type_ evt)).

(** [<-ch] by the subscriber. *)
Definition receive (b : Bus) (ch : chan) : option (Event * Bus) :=
  match channels b !! ch with
  | Some {| buf := e :: es; closed := cl |} => Some (e, set_channel b ch {| buf := es; closed := cl |})
  | _ => None
  end.

(** ** Goroutines *)
Inductive thread :=
| Idle
| AtPublish (evt : Event)                       (* before [RLock] *)
| Publishing (evt : Event) (todo : list chan)   (* inside, the read lock held *)
| AtSubscribe (ty : EventType)                  (* before [Lock] *)
| AtUnsubscribe (ty : EventType) (ch : chan).

Definition publishing (th : thread) : bool :=
  match th with Publishing _ _ => true | _ => false end.

Record config := { bus : Bus; threads : gmap nat thread }.

(** The write lock can be taken: nobody holds the read lock.  (A writer's
    critical section contains no blocking operation and is one step.) *)
Definition no_reader (c : config) : Prop :=
  forall t th, threads c !! t = Some th -> publishing th = false.

(** What a step does to the channels: a send, a receipt, or nothing. *)
Inductive label := Tau | Snd (ch : chan) (e : Event) | Recv (ch : chan) (e : Event) | Crash.

Definition upd (c : config) (b : Bus) (t : nat) (th : thread) : config :=
  {| bus := b; threads := <[t := th]> (threads c) |}.

Inductive step : config -> label -> config -> Prop :=
| step_call c t th : threads c !! t = Some Idle -> publishing th = false ->
    step c Tau (upd c (bus c) t th)
| step_rlock c t evt : threads c !! t = Some (AtPublish evt) ->
    step c Tau (upd c (bus c) t (Publishing evt (subs (bus c) (Type_ evt))))
| step_send c t evt ch todo b : threads c !! t = Some (Publishing evt (ch :: todo)) ->
    send (bus c) evt ch = Sent b -> step c (Snd ch evt) (upd c b t (Publishing evt todo))
| step_crash c t evt ch todo : threads c !! t = Some (Publishing evt (ch :: todo)) ->
    send (bus c) evt ch = Panic -> step c Crash c
| step_runlock c t evt : threads c !! t = Some (Publishing evt []) ->
    step c Tau (upd c (bus c) t Idle)
| step_subscribe c t ty : threads c !! t = Some (AtSubscribe ty) -> no_reader c ->
    step c Tau (upd c (Subscribe (bus c) ty).1 t Idle)
| step_unsubscribe c t ty ch : threads c !! t = Some (AtUnsubscribe ty ch) -> no_reader c ->
    step c Tau (upd c (Unsubscribe (bus c) ty ch) t Idle)
| step_receive c ch e b : receive (bus c) ch = Some (e, b) ->
    step c (Recv ch e) {| bus := b; threads := threads c |}.

Inductive trace : config -> list label -> config -> Prop :=
| trace_nil c : trace c [] c
| trace_cons c l c' ls c'' : step c l c' -> trace c' ls c'' -> trace c (l :: ls) c''.

Definition initial (ths : gmap nat thread) : config := {| bus := NewBus; threads := ths |}.

(** ** Invariant of the table *)
Record bus_ok (b : Bus) : Prop := {
  ok_nodup ty : NoDup (subs b ty);
  ok_disjoint ty ty' ch : ch ∈ subs b ty -> ch ∈ subs b ty' -> ty = ty';
  ok_open ty ch : ch ∈ subs b ty -> exists l, channels b !! ch = Some {| buf := l; closed := false |};
  ok_cap ch c : channels b !! ch = Some c -> (length (buf c) <= chan_cap)%nat;
  ok_fresh ch : (next_chan b <= ch)%nat -> channels b !! ch = None;
}.

Lemma subs_insert b ty l chs n ty' :
  subs {| subscribers := <[ty := l]> (subscribers b); channels := chs; next_chan := n |} ty'
  = if decide (ty = ty') then l else subs b ty'.
Proof. unfold subs. simpl. by case_decide; subst; [rewrite lookup_insert_eq|rewrite lookup_insert_ne]. Qed.

Lemma NewBus_ok : bus_ok NewBus.
Proof.
  split; unfold subs, NewBus; simpl; intros; rewrite ?lookup_empty in *; simpl in *;
    try constructor; try set_solver; done.
Qed.

Lemma subs_lt b ty ch : bus_ok b -> ch ∈ subs b ty -> (ch < next_chan b)%nat.
Proof.
  intros Hb Hin. destruct (decide (next_chan b <= ch)%nat) as [Hle|]; [|lia].
  apply (ok_fresh b Hb) in Hle. apply (ok_open b Hb) in Hin as [l Hl]. congruence.
Qed.

Lemma Subscribe_ok b ty : bus_ok b -> bus_ok (Subscribe b ty).1.
Proof.
  intros Hb. pose proof (fun ty ch => subs_lt b ty ch Hb) as Hlt. split; cbn [Subscribe fst].
  - intros ty'. rewrite subs_insert. case_decide; [|apply Hb]. apply NoDup_app.
    split; [apply Hb|]. split; [|apply NoDup_singleton].
    intros x Hx%Hlt Hx'%list_elem_of_singleton. lia.
  - intros t1 t2 ch. rewrite !subs_insert. pose proof (ok_disjoint b Hb) as Hd.
    repeat case_decide; subst; rewrite ?elem_of_app, ?list_elem_of_singleton; try done.
    + intros [H1| ->] H2; [by eapply Hd|]. apply Hlt in H2. lia.
    + intros H1 [H2| ->]; [by eapply Hd|]. apply Hlt in H1. lia.
    + intros H1 H2. by apply (Hd _ _ ch).
  - intros ty' ch. rewrite subs_insert. cbn [channels]. intros Hin.
    destruct (decide (ch = next_chan b)) as [->|Hne]; [rewrite lookup_insert_eq; eauto|].
    rewrite lookup_insert_ne by done. apply (ok_open b Hb ty').
    case_decide; subst; [|done]. apply elem_of_app in Hin as [|Hin%list_elem_of_singleton]; done.
  - intros ch c. cbn [channels]. intros [[<- <-]|[_ Hc]]%lookup_insert_Some; [simpl; lia|].
    by apply (ok_cap b Hb) in Hc.
  - intros ch. cbn [channels next_chan]. intros Hle. rewrite lookup_insert_ne by lia.
    apply (ok_fresh b Hb). lia.
Qed.

Lemma elem_remove_first x ch l : NoDup l -> x ∈ remove_first ch l <-> x ∈ l /\ x <> ch.
Proof.
  induction 1 as [|y l Hy Hl IH]; cbn [remove_first]; [set_solver|].
  case_decide; subst; rewrite ?elem_of_cons, ?IH; naive_solver.
Qed.

Lemma NoDup_remove_first ch l : NoDup l -> NoDup (remove_first ch l).
Proof.
  induction 1 as [|y l Hy Hl IH]; cbn [remove_first]; [constructor|].
  case_decide; [done|]. constructor; [|done]. rewrite elem_remove_first by done. tauto.
Qed.

Lemma Unsubscribe_ok b ty ch : bus_ok b -> bus_ok (Unsubscribe b ty ch).
Proof.
  intros Hb. unfold Unsubscribe. case_decide as Hin; [|done].
  destruct (ok_open b Hb _ _ Hin) as [l Hl]. unfold close_chan. cbn [channels]. rewrite Hl.
  assert (forall ty', subs (set_channel {| subscribers := <[ty := remove_first ch (subs b ty)]>
    (subscribers b); channels := channels b; next_chan := next_chan b |} ch
    {| buf := l; closed := true |}) ty'
    = if decide (ty = ty') then remove_first ch (subs b ty) else subs b ty') as Hs.
  { intros ty'. apply subs_insert. }
  pose proof (ok_nodup b Hb) as Hnd. split.
  - intros ty'. rewrite Hs. case_decide; [by apply NoDup_remove_first|done].
  - intros t1 t2 x. rewrite !Hs. pose proof (ok_disjoint b Hb) as Hd.
    repeat case_decide; subst; rewrite ?elem_remove_first by done; naive_solver.
  - intros ty' x. rewrite Hs. cbn. intros Hx.
    assert (x ∈ subs b ty' /\ x <> ch) as [Hx' Hne].
    { case_decide; subst; [by apply elem_remove_first in Hx|]. split; [done|]. intros ->.
      by pose proof (ok_disjoint b Hb _ _ _ Hx Hin). }
    rewrite lookup_insert_ne by done. by apply (ok_open b Hb ty').
  - intros x c. cbn. intros [[<- <-]|[_ Hc]]%lookup_insert_Some; [|by apply (ok_cap b Hb) in Hc].
    by apply (ok_cap b Hb) in Hl.
  - intros x. cbn. intros Hle. apply (ok_fresh b Hb) in Hle. rewrite lookup_insert_ne; congruence.
Qed.

Lemma set_channel_ok b ch c c' :
  bus_ok b -> channels b !! ch = Some c -> closed c' = closed c ->
  (length (buf c') <= chan_cap)%nat -> bus_ok (set_channel b ch c').
Proof.
  intros Hb Hc Hcl Hlen. split; try apply Hb.
  - intros ty x Hx. cbn. change (subs _ ty) with (subs b ty) in Hx.
    destruct (ok_open b Hb _ _ Hx) as [l Hl].
    destruct (decide (ch = x)) as [<-|]; [|rewrite lookup_insert_ne; eauto].
    rewrite lookup_insert_eq. exists (buf c'). rewrite Hl in Hc. injection Hc as <-.
    destruct c'; simpl in *; congruence.
  - intros x d. cbn. intros [[<- <-]|[_ Hd]]%lookup_insert_Some; [done|].
    by apply (ok_cap b Hb) in Hd.
  - intros x. cbn. intros Hle. apply (ok_fresh b Hb) in Hle. rewrite lookup_insert_ne; congruence.
Qed.

Lemma send_ok b evt ch b' :
  bus_ok b -> send b evt ch = Sent b' -> bus_ok b' /\ forall ty, subs b' ty = subs b ty.
Proof.
  intros Hb. unfold send. destruct (channels b !! ch) as [c|] eqn:Hc; [|done].
  destruct (closed c) eqn:Hcl; [done|]. case_decide; [|done]. intros [= <-].
  split; [|done]. eapply set_channel_ok; [done|done|done|]. simpl. rewrite length_app. simpl. lia.
Qed.

Lemma receive_ok b ch e b' :
  bus_ok b -> receive b ch = Some (e, b') -> bus_ok b' /\ forall ty, subs b' ty = subs b ty.
Proof.
  intros Hb. unfold receive. destruct (channels b !! ch) as [[[|e' es] cl]|] eqn:Hc; try done.
  intros [= <- <-]. split; [|done]. eapply set_channel_ok; [done|done|done|].
  apply (ok_cap b Hb) in Hc. simpl in *. lia.
Qed.

(** ** Publishing on its own *)
Definition delivered (evt : Event) (c : Chan) : Chan :=
  {| buf := buf c ++ [evt]; closed := closed c |}.

Lemma send_all_spec b evt chs :
  NoDup chs -> (forall ch, ch ∈ chs -> exists l, channels b !! ch = Some {| buf := l; closed := false |}) ->
  (forall ch c, channels b !! ch = Some c -> (length (buf c) <= chan_cap)%nat) ->
  match send_all b evt chs with
  | Sent b' => subscribers b' = subscribers b /\ forall ch, channels b' !! ch =
      if decide (ch ∈ chs) then delivered evt <$> channels b !! ch else channels b !! ch
  | Blocked => exists ch c, ch ∈ chs /\ channels b !! ch = Some c /\ length (buf c) = chan_cap
  | Panic => False
  end.
Proof.
  intros Hnd. revert b. induction Hnd as [|ch chs Hch Hnd IH]; intros b Hop Hcap; cbn [send_all].
  { split; [done|]. intros ch. by rewrite decide_False by apply not_elem_of_nil. }
  destruct (Hop ch ltac:(left)) as [l Hl]. unfold send. rewrite Hl. cbn [closed buf].
  case_decide as Hlen.
  - set (b1 := set_channel _ _ _). specialize (IH b1).
    assert (forall x, x ∈ chs -> channels b1 !! x = channels b !! x) as Hother.
    { intros x Hx. cbn. rewrite lookup_insert_ne; [done|]. by intros ->. }
    destruct (send_all b1 evt chs) as [b'| |].
    + destruct IH as [-> Hb'].
      * intros x Hx. rewrite (Hother x Hx). apply Hop. by right.
      * intros x c. cbn. intros [[<- <-]|[_ Hc]]%lookup_insert_Some; [|by apply Hcap in Hc].
        simpl. rewrite length_app. simpl. lia.
      * split; [done|]. intros x. rewrite Hb'. cbn [channels b1 set_channel].
        destruct (decide (x = ch)) as [->|Hne].
        { by rewrite decide_False, decide_True, Hl, lookup_insert_eq by (done || by left). }
        rewrite lookup_insert_ne by done.
        destruct (decide (x ∈ chs)); [rewrite decide_True by (by right)|rewrite decide_False]; try done.
        by rewrite elem_of_cons; intros [].
    + destruct IH as (x & c & Hx & Hc & Hlc).
      * intros x Hx. rewrite (Hother x Hx). apply Hop. by right.
      * intros x c. cbn. intros [[<- <-]|[_ Hc]]%lookup_insert_Some; [|by apply Hcap in Hc].
        simpl. rewrite length_app. simpl. lia.
      * exists x, c. rewrite <-(Hother x Hx). split; [by right|done].
    + apply IH.
      * intros x Hx. rewrite (Hother x Hx). apply Hop. by right.
      * intros x c. cbn. intros [[<- <-]|[_ Hc]]%lookup_insert_Some; [|by apply Hcap in Hc].
        simpl. rewrite length_app. simpl. lia.
  - exists ch, {| buf := l; closed := false |}. split; [left|]. split; [done|].
    apply Hcap in Hl. simpl in *. lia.
Qed.

(** What waits in a channel. *)
Definition chan_buf (b : Bus) (ch : chan) : list Event :=
  match channels b !! ch with Some c => buf c | None => [] end.

Lemma send_all_ok b evt chs b' :
  bus_ok b -> send_all b evt chs = Sent b' -> bus_ok b' /\ forall ty, subs b' ty = subs b ty.
Proof.
  revert b. induction chs as [|ch chs IH]; intros b Hb; cbn [send_all]; [by intros [= <-]|].
  destruct (send b evt ch) as [b1| |] eqn:Hs; [|done..].
  destruct (send_ok _ _ _ _ Hb Hs) as [Hb1 Hs1]. intros [Hb' Hs']%IH; [|done].
  split; [done|]. intros ty. by rewrite Hs'.
Qed.

(** A publication that goes through, seen at the channels. *)
Lemma Publish_bufs b evt b' :
  bus_ok b -> Publish b evt = Sent b' ->
  bus_ok b' /\ (forall ty, subs b' ty = subs b ty)
  /\ forall ch, chan_buf b' ch = chan_buf b ch ++ (if decide (ch ∈ subs b (Type_ evt)) then [evt] else []).
Proof.
  intros Hb Hp. destruct (send_all_ok _ _ _ _ Hb Hp) as [Hb' Hs']. split; [done|]. split; [done|].
  pose proof (send_all_spec b evt (subs b (Type_ evt)) (ok_nodup b Hb _) (ok_open b Hb _) (ok_cap b Hb)) as Hsp.
  unfold Publish in Hp. rewrite Hp in Hsp. destruct Hsp as [_ Hsp]. intros ch. unfold chan_buf. rewrite Hsp.
  destruct (decide (ch ∈ subs b (Type_ evt))) as [Hin|]; [|by rewrite app_nil_r].
  destruct (ok_open b Hb _ _ Hin) as [l Hl]. by rewrite Hl.
Qed.

Lemma receive_bufs b ch e b' :
  receive b ch = Some (e, b') ->
  chan_buf b ch = e :: chan_buf b' ch /\ forall x, x <> ch -> chan_buf b' x = chan_buf b x.
Proof.
  unfold receive, chan_buf. destruct (channels b !! ch) as [[[|e' es] cl]|] eqn:Hc; try done.
  intros [= <- <-]. cbn. rewrite lookup_insert_eq. split; [done|].
  intros x Hx. by rewrite lookup_insert_ne.
Qed.

Lemma receive_none b ch : receive b ch = None <-> chan_buf b ch = [].
Proof. unfold receive, chan_buf. destruct (channels b !! ch) as [[[|e es] cl]|]; done. Qed.

(** ** Invariant of the goroutines

    A publisher still has to serve subscribers of its event's type only: the
    table cannot change while it holds the read lock. *)
Definition config_ok (c : config) : Prop :=
  bus_ok (bus c) /\
  forall t evt todo, threads c !! t = Some (Publishing evt todo) ->
    forall ch, ch ∈ todo -> ch ∈ subs (bus c) (Type_ evt).

(** The thread [t] moves, the table of subscribers stays. *)
Lemma upd_ok c b t th :
  config_ok c -> bus_ok b -> (forall ty, subs b ty = subs (bus c) ty) ->
  (forall evt todo ch, th = Publishing evt todo -> ch ∈ todo -> ch ∈ subs (bus c) (Type_ evt)) ->
  config_ok (upd c b t th).
Proof.
  intros [_ Hp] Hb Hs Hth. split; [done|]. intros u evt todo. cbn.
  intros [[<- ->]|[_ Hu]]%lookup_insert_Some ch Hch; rewrite Hs; eauto.
Qed.

(** The table changes, while nobody publishes. *)
Lemma upd_table_ok c b t :
  bus_ok b -> no_reader c -> config_ok (upd c b t Idle).
Proof.
  intros Hb Hn. split; [done|]. intros u evt todo. cbn.
  intros [[_ ?]|[_ Hu]]%lookup_insert_Some; [done|]. by apply Hn in Hu.
Qed.

Lemma step_ok c l c' : config_ok c -> step c l c' -> config_ok c' /\ l <> Crash.
Proof.
  intros Hc Hst. pose proof Hc as [Hb Hp]. destruct Hst as [c t th Ht Hth|c t evt Ht|c t evt ch todo b Ht Hs
    |c t evt ch todo Ht Hs|c t evt Ht|c t ty Ht Hn|c t ty ch Ht Hn|c ch e b Hr].
  - split; [|done]. apply upd_ok; try done. by intros evt todo ch ->.
  - split; [|done]. apply upd_ok; try done. by intros e todo ch [= -> ->].
  - split; [|done]. destruct (send_ok _ _ _ _ Hb Hs). apply upd_ok; try done.
    intros e td x [= -> ->] Hx. apply (Hp t e (ch :: td) Ht). by right.
  - exfalso. destruct (ok_open _ Hb (Type_ evt) ch) as [l Hl].
    { apply (Hp t evt (ch :: todo) Ht). left. }
    unfold send in Hs. rewrite Hl in Hs. simpl in Hs. by case_decide.
  - split; [|done]. by apply upd_ok.
  - split; [|done]. apply upd_table_ok; [|done]. by apply Subscribe_ok.
  - split; [|done]. apply upd_table_ok; [|done]. by apply Unsubscribe_ok.
  - split; [|done]. destruct (receive_ok _ _ _ _ Hb Hr) as [Hb' Hs].
    split; [done|]. cbn. intros t evt todo Ht x Hx. rewrite Hs. by apply (Hp t evt todo).
Qed.

Lemma trace_ok c ls c' : config_ok c -> trace c ls c' -> config_ok c' /\ Crash ∉ ls.
Proof.
  intros Hc Ht. induction Ht as [c|c l c1 ls c' Hst Ht IH]; [split; [done|apply not_elem_of_nil]|].
  destruct (step_ok _ _ _ Hc Hst) as [Hc1 Hl]. destruct (IH Hc1) as [Hc' Hls].
  split; [done|]. rewrite not_elem_of_cons. auto.
Qed.

Lemma initial_ok ths : (forall t th, ths !! t = Some th -> th = Idle) -> config_ok (initial ths).
Proof. intros Hi. split; [apply NewBus_ok|]. intros t evt todo Ht%Hi. done. Qed.

(** ** What goes through a channel *)
Definition sent_on (ch : chan) (ls : list label) : list Event :=
  omap (fun l => match l with Snd x e => if decide (x = ch) then Some e else None | _ => None end) ls.
Definition received_on (ch : chan) (ls : list label) : list Event :=
  omap (fun l => match l with Recv x e => if decide (x = ch) then Some e else None | _ => None end) ls.

Lemma send_bufs b evt ch b' :
  send b evt ch = Sent b' ->
  chan_buf b' ch = chan_buf b ch ++ [evt] /\ forall x, x <> ch -> chan_buf b' x = chan_buf b x.
Proof.
  unfold send, chan_buf. destruct (channels b !! ch) as [c|] eqn:Hc; [|done].
  destruct (closed c); [done|]. case_decide; [|done]. intros [= <-]. cbn. rewrite lookup_insert_eq.
  split; [done|]. intros x Hx. by rewrite lookup_insert_ne.
Qed.

(** One step: what is sent comes in at the end, what is received goes out at the
    front; subscribing and unsubscribing move nothing. *)
Lemma step_bufs c l c' ch :
  config_ok c -> step c l c' ->
  chan_buf (bus c) ch ++ sent_on ch [l] = received_on ch [l] ++ chan_buf (bus c') ch.
Proof.
  intros [Hb _] Hst. destruct Hst as [c t th Ht Hth|c t evt Ht|c t evt x todo b Ht Hs
    |c t evt x todo Ht Hs|c t evt Ht|c t ty Ht Hn|c t ty x Ht Hn|c x e b Hr];
    cbn [sent_on received_on omap list_omap app]; rewrite ?app_nil_r; try done.
  - destruct (send_bufs _ _ _ _ Hs) as [Hx Hoth]. cbn [bus upd].
    destruct (decide (x = ch)) as [->|Hne]; [by rewrite Hx|]. by rewrite app_nil_r, Hoth.
  - cbn [bus upd]. unfold chan_buf. cbn. destruct (decide (ch = next_chan (bus c))) as [->|Hne].
    + by rewrite lookup_insert_eq, (ok_fresh _ Hb).
    + by rewrite lookup_insert_ne.
  - cbn [bus upd]. unfold Unsubscribe, close_chan, chan_buf. case_decide; [|done]. cbn [channels].
    destruct (channels (bus c) !! x) as [cx|] eqn:Hx; [|done]. cbn.
    destruct (decide (ch = x)) as [->|]; [by rewrite lookup_insert_eq, Hx|by rewrite lookup_insert_ne].
  - destruct (receive_bufs _ _ _ _ Hr) as [Hx Hoth]. cbn [bus].
    destruct (decide (x = ch)) as [->|]; [by rewrite Hx|]. cbn. by rewrite Hoth.
Qed.

Lemma trace_bufs c ls c' ch :
  config_ok c -> trace c ls c' ->
  chan_buf (bus c) ch ++ sent_on ch ls = received_on ch ls ++ chan_buf (bus c') ch.
Proof.
  intros Hc Ht. induction Ht as [c|c l c1 ls c' Hst Ht IH]; [by rewrite app_nil_r|].
  pose proof (step_bufs _ _ _ ch Hc Hst) as Hs. destruct (step_ok _ _ _ Hc Hst) as [Hc1 _].
  change (l :: ls) with ([l] ++ ls). unfold sent_on, received_on in *. rewrite !omap_app.
  rewrite app_assoc, Hs, <-!app_assoc. f_equal. by apply IH.
Qed.

(** The channel of a subscription carries events of its type only. *)
Lemma step_types c l c' ch ty :
  config_ok c -> (ch < next_chan (bus c))%nat -> (forall ty', ch ∈ subs (bus c) ty' -> ty' = ty) -> step c l c' ->
  Forall (fun e => Type_ e = ty) (sent_on ch [l]) /\ (ch < next_chan (bus c'))%nat
  /\ forall ty', ch ∈ subs (bus c') ty' -> ty' = ty.
Proof.
  intros [Hb Hp] Hlt Hty Hst. destruct Hst as [c t th Ht Hth|c t evt Ht|c t evt x todo b Ht Hs
    |c t evt x todo Ht Hs|c t evt Ht|c t ty0 Ht Hn|c t ty0 x Ht Hn|c x e b Hr];
    try (split; [constructor|split; done]).
  - destruct (send_ok _ _ _ _ Hb Hs) as [_ Hsub]. split; [|split].
    + cbn. case_decide as Hx; [subst x|constructor]. constructor; [|constructor].
      apply Hty. apply (Hp t evt (ch :: todo) Ht). left.
    + unfold send in Hs. destruct (channels _ !! x) as [cx|]; [|done]. destruct (closed cx); [done|].
      case_decide; [|done]. by injection Hs as <-.
    + intros ty'. cbn. rewrite Hsub. apply Hty.
  - split; [constructor|]. split; [cbn; lia|]. intros ty'. cbn [bus upd Subscribe fst]. rewrite subs_insert.
    case_decide; [subst|apply Hty]. intros [?|Hin%list_elem_of_singleton]%elem_of_app; [by apply Hty|lia].
  - split; [constructor|]. cbn [bus upd]. unfold Unsubscribe. case_decide as Hin; [|done].
    unfold close_chan. cbn [channels]. assert (forall ty', ch ∈ subs
      {| subscribers := <[ty0 := remove_first x (subs (bus c) ty0)]> (subscribers (bus c));
         channels := channels (bus c); next_chan := next_chan (bus c) |} ty' -> ty' = ty) as Hsub.
    { intros ty'. rewrite subs_insert. case_decide; [subst|apply Hty].
      rewrite elem_remove_first by apply (ok_nodup _ Hb). intros [? _]. by apply Hty. }
    by destruct (channels (bus c) !! x).
  - destruct (receive_ok _ _ _ _ Hb Hr) as [_ Hsub]. split; [constructor|]. split.
    + unfold receive in Hr. destruct (channels _ !! x) as [[[|? ?] ?]|]; try done. by injection Hr as _ <-.
    + intros ty'. cbn. rewrite Hsub. apply Hty.
Qed.

Lemma trace_types c ls c' ch ty :
  config_ok c -> (ch < next_chan (bus c))%nat -> (forall ty', ch ∈ subs (bus c) ty' -> ty' = ty) ->
  trace c ls c' -> Forall (fun e => Type_ e = ty) (sent_on ch ls).
Proof.
  intros Hc Hlt Hty Ht. induction Ht as [c|c l c1 ls c' Hst Ht IH]; [constructor|].
  destruct (step_types _ _ _ _ _ Hc Hlt Hty Hst) as (Hs & Hlt1 & Hty1).
  destruct (step_ok _ _ _ Hc Hst) as [Hc1 _]. change (l :: ls) with ([l] ++ ls).
  unfold sent_on in *. rewrite omap_app. apply Forall_app. split; [done|by apply IH].
Qed.

(** A publisher that waits for room in the full channel [ch]. *)
Definition stuck (c : config) (t : nat) (ch : chan) : Prop :=
  exists evt todo d, threads c !! t = Some (Publishing evt (ch :: todo))
    /\ channels (bus c) !! ch = Some {| buf := d; closed := false |} /\ length d = chan_cap.

Definition wants_table (th : thread) : bool :=
  match th with AtSubscribe _ | AtUnsubscribe _ _ => true | _ => false end.

Lemma stuck_reader c t ch : stuck c t ch -> ~ no_reader c.
Proof. intros (evt & todo & d & Ht & _) Hn. by apply Hn in Ht. Qed.

(** Another thread moves, not one that waits for the write lock. *)
Lemma stuck_upd c b t u th0 th ch :
  stuck c t ch -> threads c !! u = Some th0 -> wants_table th0 = false ->
  u <> t -> channels b !! ch = channels (bus c) !! ch ->
  stuck (upd c b u th) t ch /\ forall v thv, threads c !! v = Some thv -> wants_table thv = true ->
                                threads (upd c b u th) !! v = Some thv.
Proof.
  intros (evt & todo & d & Ht & Hch & Hd) Hu Hw Hne Hb. split.
  - exists evt, todo, d. cbn. by rewrite lookup_insert_ne, Hb.
  - intros v thv Hv Hwv. cbn. rewrite lookup_insert_ne; [done|]. intros ->. congruence.
Qed.

Lemma stuck_step c l c' t ch :
  stuck c t ch -> step c l c' -> (forall e, l <> Recv ch e) ->
  stuck c' t ch /\ forall u th, threads c !! u = Some th -> wants_table th = true ->
                   threads c' !! u = Some th.
Proof.
  intros Hs Hst Hl. pose proof (stuck_reader _ _ _ Hs) as Hnr.
  pose proof Hs as (evt & todo & d & Ht & Hch & Hd).
  destruct Hst as [c u th Hu Hth|c u e Hu|c u e x td b Hu Hse|c u e x td Hu Hse|c u e Hu|c u ty Hu Hn
    |c u ty x Hu Hn|c x e b Hr]; try by destruct (Hnr Hn).
  - eapply stuck_upd; [done..|congruence|done].
  - eapply stuck_upd; [done..|congruence|done].
  - unfold send in Hse. destruct (channels (bus c) !! x) as [cx|] eqn:Hx; [|done].
    destruct (closed cx); [done|]. case_decide as Hlen; [|done]. injection Hse as <-.
    assert (x <> ch) as Hxc by (intros ->; rewrite Hch in Hx; injection Hx as <-; simpl in Hlen; lia).
    eapply stuck_upd; [done..|congruence|]. cbn. by rewrite lookup_insert_ne.
  - by split.
  - eapply stuck_upd; [done..|congruence|done].
  - assert (x <> ch) as Hxc by (intros ->; by apply (Hl e)). unfold receive in Hr.
    destruct (channels (bus c) !! x) as [[[|e' es] cl]|]; try done. injection Hr as <- <-.
    split; [|done]. exists evt, todo, d. cbn. by rewrite lookup_insert_ne.
Qed.

Lemma stuck_trace c ls c' t ch :
  stuck c t ch -> trace c ls c' -> (forall e, Recv ch e ∉ ls) ->
  stuck c' t ch /\ forall u th, threads c !! u = Some th -> wants_table th = true ->
                   threads c' !! u = Some th.
Proof.
  intros Hs Ht. induction Ht as [c|c l c1 ls c' Hst Ht IH]; [done|].
  intros Hno. assert (forall e, l <> Recv ch e) as Hl by (intros e ->; apply (Hno e); left).
  assert (forall e, Recv ch e ∉ ls) as Hls by (intros e He; apply (Hno e); by right).
  destruct (stuck_step _ _ _ _ _ Hs Hst) as [Hs1 Hw]; [done|].
  destruct (IH Hs1 Hls) as [Hs' Hw']. eauto.
Qed.

(** ** Properties *)

(** [Publish], on a bus in the state any run produces, delivers the event
    to every subscriber of its type, at the end of its queue and exactly once,
    and to nobody else; it blocks exactly when one of them has ten events
    waiting; it never panics. *)
Theorem publish_delivers b evt (Hb : bus_ok b) :
  match Publish b evt with
  | Sent b' => subscribers b' = subscribers b /\ forall ch, channels b' !! ch =
      if decide (ch ∈ subs b (Type_ evt)) then delivered evt <$> channels b !! ch
      else channels b !! ch
  | Blocked => exists ch c, ch ∈ subs b (Type_ evt) /\ channels b !! ch = Some c
                            /\ length (buf c) = chan_cap
  | Panic => False
  end.
Proof. apply send_all_spec; apply Hb. Qed.

(** [C23] In every interleaving of goroutines that subscribe, unsubscribe,
    publish and receive, no send ever hits a closed channel, and the table
    stays well-formed: every subscribed channel is open, belongs to one
    subscription, and holds at most ten events. *)
Theorem bus_safe ths ls c (Hidle : forall t th, ths !! t = Some th -> th = Idle)
    (Htr : trace (initial ths) ls c) :
  bus_ok (bus c) /\ Crash ∉ ls.
Proof.
  destruct (trace_ok _ _ _ (initial_ok _ Hidle) Htr) as [[Hb _] Hls]. by split.
Qed.

(** [C31] [Publish] keeps the read lock while it waits for room.  So once a
    publisher waits for the subscriber of a full channel, every [Subscribe] and
    [Unsubscribe] that waits for the write lock waits as long as nothing is
    received from that channel: a subscriber that stops reading and calls
    [Unsubscribe] for its full channel deadlocks, with the publisher. *)
Theorem unsubscribe_deadlock c ls c' t u ty ch (Hs : stuck c t ch)
    (Hu : threads c !! u = Some (AtUnsubscribe ty ch))
    (Htr : trace c ls c') (Hno : forall e, Recv ch e ∉ ls) :
  threads c' !! u = Some (AtUnsubscribe ty ch)
  /\ exists evt todo, threads c' !! t = Some (Publishing evt (ch :: todo)).
Proof.
  destruct (stuck_trace _ _ _ _ _ Hs Htr Hno) as [(evt & todo & d & Ht & _) Hw].
  split; [by apply Hw|eauto].
Qed.

(** ** Witnesses *)
Definition progress (n : Z) : Event :=
  {| Type_ := FileReceiveProgress; RequestID := "r"; Data := ReceiveProgressData "k" n 100 |}.

Definition one_sub : Bus := (Subscribe NewBus FileReceiveProgress).1.

Lemma publish_delivers_witness :
  bus_ok one_sub /\
  match Publish one_sub (progress 1) with
  | Sent b' => channels b' !! 0%nat = Some {| buf := [progress 1]; closed := false |}
  | _ => False
  end.
Proof.
  assert (bus_ok one_sub) as Hb by apply Subscribe_ok, NewBus_ok. split; [exact Hb|].
  pose proof (publish_delivers one_sub (progress 1) Hb) as Hp.
  destruct (Publish one_sub (progress 1)) as [b'| |] eqn:E.
  - destruct Hp as [_ Hp]. rewrite Hp. vm_compute. reflexivity.
  - vm_compute in E. discriminate E.
  - exact Hp.
Defined.

Lemma bus_safe_witness :
  let ths : gmap nat thread := {[ 1%nat := Idle ]} in
  bus_ok (bus (upd (initial ths) NewBus 1 (AtSubscribe PeerConnected))).
Proof.
  cbn zeta.
  refine (proj1 (bus_safe {[ 1%nat := Idle ]} [Tau] _ _ _)).
  - intros t th [_ <-]%lookup_singleton_Some. reflexivity.
  - eapply trace_cons; [apply (step_call _ 1%nat (AtSubscribe PeerConnected)); reflexivity|apply trace_nil].
Defined.

(** A receiver with ten progress events in its channel leaves, while the
    eleventh is published. *)
Definition full_bus : Bus :=
  set_channel one_sub 0 {| buf := map progress (seqZ 0 10); closed := false |}.
Definition leaving : config :=
  {| bus := full_bus;
     threads := {[ 1%nat := Publishing (progress 11) [0%nat];
                   2%nat := AtUnsubscribe FileReceiveProgress 0 ]} |}.

Lemma unsubscribe_deadlock_witness :
  threads leaving !! 2%nat = Some (AtUnsubscribe FileReceiveProgress 0%nat)
  /\ exists evt todo, threads leaving !! 1%nat = Some (Publishing evt (0%nat :: todo)).
Proof.
  apply (unsubscribe_deadlock leaving [] leaving 1 2 FileReceiveProgress 0).
  - exists (progress 11), [], (map progress (seqZ 0 10)). split; [reflexivity|]. split; reflexivity.
  - reflexivity.
  - apply trace_nil.
  - intros e. apply not_elem_of_nil.
Defined.
