(* ===== verification/Middleware.v ===== *)
(** Request middleware (src/internal/middleware, src/internal/core): the sliding
    window rate limiter and its cleanup, and the concurrency limiter.

    [time.Now()] is an argument of the operations. *)
From S2P Require Import Prelude.

Abbreviation peer_ID := string.

(** ** Handlers (core/handler.go)

    [Handle] over the state [St] it may change. *)
Definition Handler (St Msg : Type) : Type := St -> peer_ID -> Msg -> St * result Msg.

(** ** The rate limiter *)
Record RateLimiterConfig := { cfg_Limit : Z; cfg_Window : duration; cfg_TTL : duration }.

Definition DefaultRateLimiterConfig : RateLimiterConfig :=
  {| cfg_Limit := 100; cfg_Window := Second; cfg_TTL := 5 * Minute |}.

Record peerWindow := { requests : list time; lastSeen : time }.

Record RateLimiter := {
  peers : gmap peer_ID peerWindow;
  limit : Z;
  window : duration;
  ttl : duration;
  stopped : bool;             (* [stopChan] is closed *)
}.

Definition NewRateLimiter (limit : Z) (window ttl : duration) : RateLimiter :=
  {| peers := ∅; limit := limit; window := window; ttl := ttl; stopped := false |}.

Definition set_peers (rl : RateLimiter) (m : gmap peer_ID peerWindow) : RateLimiter :=
  {| peers := m; limit := limit rl; window := window rl; ttl := ttl rl; stopped := stopped rl |}.

(** [t.After(cutoff)]. *)
Definition after (cutoff t : time) : Prop := cutoff < t.
#[export] Instance after_dec cutoff t : Decision (after cutoff t) := decide (cutoff < t).

Definition allow (rl : RateLimiter) (now : time) (id : peer_ID) : RateLimiter * bool :=
  let pw := default {| requests := []; lastSeen := now |} (peers rl !! id) in
  let cutoff := now - window rl in
  let valid := filter (after cutoff) (requests pw) in
  let put reqs := set_peers rl (<[id := {| requests := reqs; lastSeen := now |}]> (peers rl)) in
  if limit rl <=? zlen valid then (put valid, false) else (put (valid ++ [now]), true).

Definition rl_Wrap {St Msg} (now : time) (next : Handler St Msg) :
    Handler (RateLimiter * St) Msg := fun '(rl, s) id msg =>
  let '(rl, ok) := allow rl now id in
  if ok then let '(s, r) := next s id msg in ((rl, s), r)
  else ((rl, s), Err (Errorf "rate limit exceeded")).

Definition expired (rl : RateLimiter) (now : time) (pw : peerWindow) : Prop :=
  ttl rl < time_sub now (lastSeen pw).
#[export] Instance expired_dec rl now pw : Decision (expired rl now pw) :=
  decide (ttl rl < time_sub now (lastSeen pw)).

Definition cleanup (rl : RateLimiter) (now : time) : RateLimiter :=
  set_peers rl (filter (fun ip => ~ expired rl now ip.2) (peers rl)).

(** [Stop]: closing a closed channel panics. *)
Definition Stop (rl : RateLimiter) : option RateLimiter :=
  if stopped rl then None
  else Some {| peers := peers rl; limit := limit rl; window := window rl; ttl := ttl rl;
               stopped := true |}.

(** The [select] of [cleanupLoop]: a tick at some time, or the closed channel,
    after which it returns. *)
Fixpoint cleanupLoop (rl : RateLimiter) (ticks : list time) : RateLimiter :=
  match ticks with
  | [] => rl
  | now :: ticks => if stopped rl then rl else cleanupLoop (cleanup rl now) ticks
  end.

(** ** The concurrency limiter: a channel of capacity [cap] as a semaphore *)
Record Limiter := { sem_cap : nat; sem_len : nat }.

(** [make(chan struct{}, n)] panics for a negative [n]. *)
Definition NewLimiter (maxConcurrent : Z) : option Limiter :=
  if maxConcurrent <? 0 then None
  else Some {| sem_cap := Z.to_nat maxConcurrent; sem_len := 0 |}.

Definition Acquire (l : Limiter) : Limiter * bool :=
  if (sem_len l <? sem_cap l)%nat
  then ({| sem_cap := sem_cap l; sem_len := S (sem_len l) |}, true) else (l, false).

(** [None]: it blocks. *)
Definition Release (l : Limiter) : option Limiter :=
  match sem_len l with
  | O => None
  | S n => Some {| sem_cap := sem_cap l; sem_len := n |}
  end.

(** ** The sliding window

    A run: calls of [allow] and cleanups; [log] collects the accepted calls. *)
Inductive rl_event := Call (now : time) (id : peer_ID) | Tick (now : time).

Definition event_time (e : rl_event) : time := match e with Call t _ => t | Tick t => t end.

Abbreviation accepted := (list (peer_ID * time)).

Definition rl_step (rl : RateLimiter) (log : accepted) (e : rl_event) : RateLimiter * accepted :=
  match e with
  | Call now id => let '(rl, ok) := allow rl now id in
                   (rl, if ok then log ++ [(id, now)] else log)
  | Tick now => (cleanup rl now, log)
  end.

Fixpoint rl_run (rl : RateLimiter) (log : accepted) (es : list rl_event) : RateLimiter * accepted :=
  match es with
  | [] => (rl, log)
  | e :: es => let '(rl, log) := rl_step rl log e in rl_run rl log es
  end.

(** The accepted calls of a peer in the window that ends at [now]. *)
Definition times (log : accepted) (id : peer_ID) : list time :=
  omap (fun '(i, t) => if decide (i = id) then Some t else None) log.
Definition recent (w : duration) (now : time) (log : accepted) (id : peer_ID) : list time :=
  filter (after (now - w)) (times log id).

(** Time does not run backwards. *)
Fixpoint monotone (from : time) (es : list rl_event) : Prop :=
  match es with
  | [] => True
  | e :: es => from <= event_time e /\ monotone (event_time e) es
  end.

Fixpoint last_time (from : time) (es : list rl_event) : time :=
  match es with [] => from | e :: es => last_time (event_time e) es end.

Definition reqs (rl : RateLimiter) (id : peer_ID) : list time :=
  match peers rl !! id with Some pw => requests pw | None => [] end.

(** What the limiter remembers of a peer is, from [now0] on, all that counts. *)
Definition rl_inv (now0 : time) (rl : RateLimiter) (log : accepted) : Prop :=
  (forall id now, now0 <= now ->
     filter (after (now - window rl)) (reqs rl id) = recent (window rl) now log id) /\
  (forall id pw, peers rl !! id = Some pw -> lastSeen pw <= now0 /\ Forall (fun t => t <= lastSeen pw) (requests pw)).

Lemma filter_after_mono c c' (l : list time) : c <= c' -> filter (after c') (filter (after c) l) = filter (after c') l.
Proof.
  intros Hc. induction l as [|t l IH]; [done|]. rewrite !filter_cons.
  unfold after in *. repeat case_decide; rewrite ?filter_cons; repeat case_decide; try lia; congruence.
Qed.

Lemma filter_after_old c (l : list time) : Forall (fun t => t <= c) l -> filter (after c) l = [].
Proof.
  induction 1 as [|t l Ht Hl IH]; [done|]. rewrite filter_cons_False; [done|].
  unfold after. lia.
Qed.

Lemma times_app log log' id : times (log ++ log') id = times log id ++ times log' id.
Proof. apply omap_app. Qed.

Lemma times_same id l : times (map (fun t => (id, t)) l) id = l.
Proof. induction l as [|t l IH]; [done|]. unfold times in *. simpl. rewrite decide_True by done. by f_equal. Qed.

Lemma times_other id id' l : id <> id' -> times (map (fun t => (id, t)) l) id' = [].
Proof. intros Hne. induction l as [|t l IH]; [done|]. unfold times in *. simpl. by rewrite decide_False. Qed.

Lemma rl_inv_later now0 now1 rl log : now0 <= now1 -> rl_inv now0 rl log -> rl_inv now1 rl log.
Proof.
  intros Hle [Hf Hl]. split; [intros; apply Hf; lia|].
  intros id pw Hpw. destruct (Hl _ _ Hpw). split; [lia|done].
Qed.

Lemma allow_config rl now id :
  window (allow rl now id).1 = window rl /\ limit (allow rl now id).1 = limit rl
  /\ ttl (allow rl now id).1 = ttl rl.
Proof. unfold allow. by case_match. Qed.

(** The answer of [allow] is that of the exact sliding window. *)
Lemma allow_exact now rl log id :
  rl_inv now rl log ->
  (allow rl now id).2 = bool_decide (zlen (recent (window rl) now log id) < limit rl).
Proof.
  intros [Hf _]. unfold allow. specialize (Hf id now ltac:(lia)). unfold reqs in Hf.
  destruct (peers rl !! id) as [pw|]; simpl; rewrite ?filter_nil in *; rewrite Hf;
    (destruct (Z.leb_spec (limit rl) (zlen (recent (window rl) now log id))); cbn [snd];
     [by rewrite bool_decide_false by lia|by rewrite bool_decide_true by lia]).
Qed.

Lemma allow_inv now rl log id :
  0 < window rl -> rl_inv now rl log ->
  rl_inv now (rl_step rl log (Call now id)).1 (rl_step rl log (Call now id)).2.
Proof.
  intros Hw Hinv. pose proof Hinv as [Hf Hl]. cbn [rl_step].
  set (old := default {| requests := []; lastSeen := now |} (peers rl !! id)).
  assert (reqs rl id = requests old) as Hold by (unfold reqs, old; by destruct (peers rl !! id)).
  assert (Forall (fun t => t <= now) (requests old)) as Hle.
  { unfold old. destruct (peers rl !! id) as [pw|] eqn:E; [|constructor].
    destruct (Hl _ _ E) as [H1 H2]. eapply Forall_impl; [exact H2|]. cbn. lia. }
  set (valid := filter (after (now - window rl)) (requests old)).
  assert (Forall (fun t => t <= now) valid) as Hv.
  { apply Forall_forall. intros t [_ Ht]%list_elem_of_filter.
    by apply (proj1 (Forall_forall _ _) Hle). }
  assert (forall add, (add = [] \/ add = [now]) ->
    rl_inv now (set_peers rl (<[id := {| requests := valid ++ add; lastSeen := now |}]> (peers rl)))
      (log ++ map (fun t => (id, t)) add)) as Hput.
  { intros add Hadd. split.
    - intros id' now' Hnow'. cbn [window set_peers]. unfold reqs, recent. cbn [peers set_peers].
      rewrite times_app, filter_app. destruct (decide (id = id')) as [<-|Hne].
      + rewrite lookup_insert_eq. cbn [requests]. rewrite filter_app. f_equal.
        * unfold valid. rewrite filter_after_mono by lia. rewrite <-Hold. by apply Hf.
        * by rewrite times_same.
      + rewrite lookup_insert_ne by done. rewrite <-(app_nil_r (filter _ _)) at 1. f_equal.
        * by apply (Hf id').
        * by rewrite times_other.
    - intros id' pw. cbn. intros [[<- <-]|[_ Hpw]]%lookup_insert_Some; [|by apply (Hl id')].
      cbn. split; [lia|]. apply Forall_app. split; [done|].
      destruct Hadd as [->| ->]; repeat constructor. lia. }
  unfold allow. fold old valid. destruct (limit rl <=? zlen valid); cbn [fst snd].
  - specialize (Hput [] ltac:(by left)). by rewrite !app_nil_r in Hput.
  - exact (Hput [now] ltac:(by right)).
Qed.

Lemma cleanup_inv now rl log :
  min_int64 <= ttl rl -> window rl <= ttl rl -> rl_inv now rl log -> rl_inv now (cleanup rl now) log.
Proof.
  intros Hmin Hw [Hf Hl]. split.
  - intros id now' Hle. cbn [window cleanup set_peers]. rewrite <-(Hf id now' Hle).
    unfold reqs, cleanup. cbn [peers set_peers].
    destruct (peers rl !! id) as [pw|] eqn:E.
    + destruct (decide (expired rl now pw)) as [He|He].
      * rewrite (proj2 (map_lookup_filter_None _ _ _)) by (right; intros x; rewrite E; naive_solver).
        destruct (Hl _ _ E) as [_ Hall]. symmetry. apply filter_after_old.
        eapply Forall_impl; [exact Hall|]. unfold expired, time_sub in *. cbn. lia.
      * by rewrite (proj2 (map_lookup_filter_Some _ _ _ pw)).
    + by rewrite (proj2 (map_lookup_filter_None _ _ _)) by auto.
  - intros id pw. cbn. intros [Hpw _]%map_lookup_filter_Some. by apply (Hl id).
Qed.

Lemma rl_step_config rl log e :
  window (rl_step rl log e).1 = window rl /\ limit (rl_step rl log e).1 = limit rl
  /\ ttl (rl_step rl log e).1 = ttl rl.
Proof.
  destruct e as [now id|now]; [|done]. cbn [rl_step].
  pose proof (allow_config rl now id). by destruct (allow rl now id).
Qed.

Definition sound_config (rl : RateLimiter) : Prop :=
  0 < window rl /\ window rl <= ttl rl /\ min_int64 <= ttl rl.

Lemma rl_step_inv from rl log e :
  sound_config rl -> rl_inv from rl log -> from <= event_time e ->
  rl_inv (event_time e) (rl_step rl log e).1 (rl_step rl log e).2.
Proof.
  intros (Hw & Ht & Hm) Hinv Hle. apply (rl_inv_later _ _ _ _ Hle) in Hinv.
  destruct e as [now id|now]; [by apply allow_inv|by apply cleanup_inv].
Qed.

Lemma rl_run_inv from rl log es :
  sound_config rl -> rl_inv from rl log -> monotone from es ->
  let '(rl', log') := rl_run rl log es in
  rl_inv (last_time from es) rl' log' /\ window rl' = window rl /\ limit rl' = limit rl.
Proof.
  revert from rl log. induction es as [|e es IH]; intros from rl log Hc Hinv Hmon; cbn [rl_run last_time].
  { done. }
  destruct Hmon as [Hle Hmon]. pose proof (rl_step_inv _ _ _ _ Hc Hinv Hle) as Hinv1.
  destruct (rl_step_config rl log e) as (Hw & Hl & Ht).
  destruct (rl_step rl log e) as [rl1 log1]. cbn [fst snd] in *.
  assert (sound_config rl1) as Hc1 by (unfold sound_config in *; rewrite Hw, Ht; done).
  specialize (IH _ _ _ Hc1 Hinv1 Hmon). destruct (rl_run rl1 log1 es) as [rl' log'].
  by rewrite <-Hw, <-Hl.
Qed.

Lemma NewRateLimiter_inv from limit window ttl : rl_inv from (NewRateLimiter limit window ttl) [].
Proof. by split. Qed.

(** ** Properties *)

(** [C19] The rate limiter is an exact sliding window.  After any sequence of
    calls and cleanups with a clock that does not run backwards, a call of a
    peer at [now] is accepted if and only if fewer than [limit] calls of that
    peer have been accepted in the window [(now - window, now]], provided the
    cleanup TTL is not shorter than the window: forgetting a peer never lets it
    exceed the limit, and other peers never count. *)
Theorem allow_exact_window lim win tl from es now id
    (Hwin : 0 < win <= tl) (Hmon : monotone from es) (Hnow : last_time from es <= now) :
  let '(rl, log) := rl_run (NewRateLimiter lim win tl) [] es in
  (allow rl now id).2 = bool_decide (zlen (recent win now log id) < lim).
Proof.
  pose proof (rl_run_inv from (NewRateLimiter lim win tl) [] es) as Hr.
  destruct (rl_run _ _ es) as [rl log]. destruct Hr as (Hinv & Hw & Hl); [|done..|].
  { unfold sound_config, min_int64. simpl. lia. }
  rewrite (allow_exact now rl log id) by (by eapply rl_inv_later). by rewrite Hw, Hl.
Qed.

(** Successive [Acquire]s and [Release]s: [None] when a [Release] blocks. *)
Inductive lim_op := OpAcquire | OpRelease.

Fixpoint lim_run (l : Limiter) (ops : list lim_op) : option (Limiter * list bool) :=
  match ops with
  | [] => Some (l, [])
  | OpAcquire :: ops => let '(l, ok) := Acquire l in
                        '(l, oks) ← lim_run l ops; Some (l, ok :: oks)
  | OpRelease :: ops => l ← Release l; lim_run l ops
  end.

(** Slots taken after [ops]. *)
Fixpoint taken (cap : nat) (n : nat) (ops : list lim_op) : nat :=
  match ops with
  | [] => n
  | OpAcquire :: ops => taken cap (Nat.min cap (S n)) ops
  | OpRelease :: ops => taken cap (pred n) ops
  end.

Lemma lim_run_taken l ops l' oks :
  (sem_len l <= sem_cap l)%nat -> lim_run l ops = Some (l', oks) ->
  sem_cap l' = sem_cap l /\ sem_len l' = taken (sem_cap l) (sem_len l) ops
  /\ (sem_len l' <= sem_cap l')%nat.
Proof.
  revert l l' oks. induction ops as [|[|] ops IH]; intros l l' oks Hl; cbn [lim_run taken].
  - by intros [= <- <-].
  - unfold Acquire. destruct (Nat.ltb_spec (sem_len l) (sem_cap l));
      destruct (lim_run _ ops) as [[l1 o1]|] eqn:E; try done; intros [= <- <-];
      apply IH in E as (Hc & Hn & Hb); simpl in *; try lia; rewrite Hn, Hc.
    + rewrite Nat.min_r by lia. rewrite Hc, Hn in Hb. auto.
    + rewrite Nat.min_l by lia. replace (sem_len l) with (sem_cap l) in * by lia.
      rewrite Hc, Hn in Hb. auto.
  - unfold Release. destruct (sem_len l) as [|n] eqn:En; [done|]. cbn [mbind option_bind].
    intros (Hc & Hn & Hb)%IH; [done|simpl; lia].
Qed.

(** The concurrency limiter never holds more than its capacity, whatever
    sequence of [Acquire] and [Release] is run, and an [Acquire] succeeds
    exactly when fewer slots than the capacity are taken. *)
Theorem limiter_bound n l ops l' oks (Hnew : NewLimiter n = Some l)
    (Hrun : lim_run l ops = Some (l', oks)) :
  Z.of_nat (sem_len l') <= n
  /\ (Acquire l').2 = bool_decide (Z.of_nat (taken (Z.to_nat n) 0 ops) < n).
Proof.
  unfold NewLimiter in Hnew. destruct (Z.ltb_spec n 0); [done|]. injection Hnew as <-.
  apply lim_run_taken in Hrun as (Hc & Hn & Hb); [|simpl; lia]. simpl in *.
  split; [lia|]. unfold Acquire. rewrite <-Hn, Hc.
  destruct (Nat.ltb_spec (sem_len l') (Z.to_nat n)); cbn [snd];
    [by rewrite bool_decide_true by lia|by rewrite bool_decide_false by lia].
Qed.

(** ** Witnesses *)
Lemma allow_exact_window_witness :
  let es := [Call 0 "p"; Call 3 "p"; Tick 4; Call 5 "q"; Call 6 "p"] in
  (allow (rl_run (NewRateLimiter 2 10 20) [] es).1 9 "p").2 = false
  /\ (allow (rl_run (NewRateLimiter 2 10 20) [] es).1 10 "p").2 = true.
Proof.
  cbn zeta. split.
  - exact (allow_exact_window 2 10 20 0 [Call 0 "p"; Call 3 "p"; Tick 4; Call 5 "q"; Call 6 "p"] 9 "p"
      ltac:(lia) ltac:(simpl; lia) ltac:(simpl; lia)).
  - exact (allow_exact_window 2 10 20 0 [Call 0 "p"; Call 3 "p"; Tick 4; Call 5 "q"; Call 6 "p"] 10 "p"
      ltac:(lia) ltac:(simpl; lia) ltac:(simpl; lia)).
Defined.

Lemma limiter_bound_witness :
  exists l l' oks, NewLimiter 2 = Some l
    /\ lim_run l [OpAcquire; OpAcquire; OpAcquire; OpRelease] = Some (l', oks)
    /\ oks = [true; true; false] /\ (Acquire l').2 = true.
Proof.
  exists {| sem_cap := 2; sem_len := 0 |}, {| sem_cap := 2; sem_len := 1 |}, [true; true; false].
  split; [reflexivity|]. split; [reflexivity|]. split; [reflexivity|].
  exact (proj2 (limiter_bound 2 {| sem_cap := 2; sem_len := 0 |}
    [OpAcquire; OpAcquire; OpAcquire; OpRelease] {| sem_cap := 2; sem_len := 1 |}
    [true; true; false] eq_refl eq_refl)).
Defined.
