(* ===== verification/PeerScore.v ===== *)
(** Peer scores (src/internal/network/peerscore.go): weights of successes and
    failures that decay with time, a moving average of latencies, and the choice
    of the best peers.

    Scores are binary64 ([Floats]).  The clock is the sequence of its readings;
    [math.Exp], whose last bits differ between architectures, and [sort.Slice],
    which leaves the order of equal elements open, are classes with their
    documented behaviour as laws.  A platform that fuses multiplication and
    addition is not modelled. *)
From stdpp Require Import sorting.
From Stdlib Require Import SpecFloat.
From S2P Require Import Prelude Middleware Floats.
#[local] Open Scope Z_scope.

(** ** The standard library *)
Class MathExp := { math_Exp : float64 -> float64 }.

(** The exponential of a number that is not positive is at most one. *)
Class MathExpLaws `{MathExp} := {
  math_Exp_ok x : is_fin x = true -> fval x <= 0 ->
    is_fin (math_Exp x) = true /\ fsign (math_Exp x) = false /\ fmag (math_Exp x) <= 2 ^ unit_exp;
}.

Class SortSlice := { sort_Slice : forall A, (A -> A -> bool) -> list A -> list A }.
Arguments sort_Slice {_ A}.

(** A permutation, sorted if [less] is a strict weak order of the elements. *)
Class SortSliceLaws `{SortSlice} := {
  sort_Slice_perm A less (l : list A) : sort_Slice less l ≡ₚ l;
  sort_Slice_sorted A less (l : list A) :
    (forall x y, x ∈ l -> y ∈ l -> less x y = true -> less y x = false) ->
    (forall x y z, x ∈ l -> y ∈ l -> z ∈ l -> less x z = true -> less x y = true \/ less y z = true) ->
    StronglySorted (fun x y => less y x = false) (sort_Slice less l);
}.

(** [d.Seconds()]. *)
Definition Seconds (d : duration) : float64 :=
  f_add (f_of_Z (Z.quot d Second)) (f_div (f_of_Z (Z.rem d Second)) (f_of_Z 1000000000)).

(** ** Scores *)
Definition decayHalfLife : duration := 5 * Minute.
Definition latencyPenaltyWeight : float64 := f_const 1 10.
Definition latencyEMAAlpha : float64 := f_const 3 10.
Definition one_minus_alpha : float64 := f_const 7 10.      (* the constant [1-latencyEMAAlpha] *)

Record Score := {
  WeightedSuccess : float64;
  WeightedFailure : float64;
  AvgLatency : duration;
  LastUpdated : time;
}.

(** The clock: its readings, and how many have been taken. *)
Record PeerScorer := { scores : gmap peer_ID Score; clock : nat -> time; ticks : nat }.

Definition NewPeerScorerWithClock (c : nat -> time) : PeerScorer :=
  {| scores := ∅; clock := c; ticks := 0 |}.

Definition Now (ps : PeerScorer) : time * PeerScorer :=
  (clock ps (ticks ps), {| scores := scores ps; clock := clock ps; ticks := S (ticks ps) |}).

Definition set_score (ps : PeerScorer) (id : peer_ID) (s : Score) : PeerScorer :=
  {| scores := <[id := s]> (scores ps); clock := clock ps; ticks := ticks ps |}.

Definition computeScore (s : Score) : float64 :=
  let score := f_sub (WeightedSuccess s) (WeightedFailure s) in
  if 0 <? AvgLatency s then f_sub score (f_mul (Seconds (AvgLatency s)) latencyPenaltyWeight) else score.

Section scorer.
Context `{MathExp}.
Implicit Type ps : PeerScorer.

Definition decayFactor (elapsed : duration) : float64 :=
  math_Exp (f_div (SFopp (Seconds elapsed)) (Seconds decayHalfLife)).

(** [applyDecay] at the time [now]. *)
Definition decayed (now : time) (s : Score) : Score :=
  let elapsed := time_sub now (LastUpdated s) in
  if elapsed <=? 0 then s
  else let factor := decayFactor elapsed in
       {| WeightedSuccess := f_mul (WeightedSuccess s) factor;
          WeightedFailure := f_mul (WeightedFailure s) factor;
          AvgLatency := AvgLatency s; LastUpdated := now |}.

Definition applyDecay ps (s : Score) : PeerScorer * Score :=
  let '(now, ps) := Now ps in (ps, decayed now s).

(** The entry of a peer, made if it is missing. *)
Definition entry_of ps (id : peer_ID) : PeerScorer * Score :=
  match scores ps !! id with
  | Some s => (ps, s)
  | None =>
      let '(now, ps) := Now ps in
      let s := {| WeightedSuccess := f_zero; WeightedFailure := f_zero; AvgLatency := 0; LastUpdated := now |} in
      (set_score ps id s, s)
  end.

Definition RecordSuccess ps (id : peer_ID) (latency : duration) : PeerScorer :=
  let '(ps, s) := entry_of ps id in
  let '(ps, s) := applyDecay ps s in
  set_score ps id
    {| WeightedSuccess := f_add (WeightedSuccess s) f_one; WeightedFailure := WeightedFailure s;
       AvgLatency :=
         if AvgLatency s =? 0 then latency
         else f_trunc (f_add (f_mul (f_of_Z (AvgLatency s)) one_minus_alpha)
                             (f_mul (f_of_Z latency) latencyEMAAlpha));
       LastUpdated := LastUpdated s |}.

Definition RecordFailure ps (id : peer_ID) : PeerScorer :=
  let '(ps, s) := entry_of ps id in
  let '(ps, s) := applyDecay ps s in
  set_score ps id
    {| WeightedSuccess := WeightedSuccess s; WeightedFailure := f_add (WeightedFailure s) f_one;
       AvgLatency := AvgLatency s; LastUpdated := LastUpdated s |}.

(** A peer's entry, decayed in place, and its score; zero for a stranger. *)
Definition GetScore ps (id : peer_ID) : PeerScorer * float64 :=
  match scores ps !! id with
  | None => (ps, f_zero)
  | Some s => let '(ps, s) := applyDecay ps s in (set_score ps id s, computeScore s)
  end.

(** The loop of [BestPeers] treats every peer as [GetScore] does. *)
Fixpoint score_list ps (peers : list peer_ID) : PeerScorer * list (peer_ID * float64) :=
  match peers with
  | [] => (ps, [])
  | p :: peers =>
      let '(ps, x) := GetScore ps p in
      let '(ps, l) := score_list ps peers in (ps, (p, x) :: l)
  end.

Definition better (a b : peer_ID * float64) : bool := f_gtb a.2 b.2.

Definition BestPeers `{SortSlice} ps (peers : list peer_ID) (n : Z) : PeerScorer * list peer_ID :=
  let '(ps, l) := score_list ps peers in
  (ps, map fst (take (Z.to_nat n) (sort_Slice better l))).
End scorer.

Definition NewPeerScorer := NewPeerScorerWithClock.

(** ** Bounds *)
Definition weight_cap : float64 := f_pow2 53.
Definition latency_cap : Z := 2 ^ 62.

Definition weight_ok (x : float64) : Prop :=
  is_fin x = true /\ fsign x = false /\ fmag x <= fmag weight_cap.

Record score_ok (s : Score) : Prop := {
  so_success : weight_ok (WeightedSuccess s);
  so_failure : weight_ok (WeightedFailure s);
  so_latency : 0 <= AvgLatency s <= latency_cap;
}.

Definition scorer_ok (ps : PeerScorer) : Prop :=
  forall id s, scores ps !! id = Some s -> score_ok s.

Lemma weight_cap_ok : is_fin weight_cap = true /\ fmag weight_cap = 2 ^ (53 + unit_exp).
Proof. by apply f_pow2_ok. Qed.

Lemma fmag_one : fmag f_one = 2 ^ unit_exp.
Proof. vm_compute. reflexivity. Qed.

(** A weight above [2 ^ 53 - 1] is [2 ^ 53], to which one cannot be added. *)
Lemma weight_top x :
  weight_ok x -> (2 ^ 53 - 1) * 2 ^ unit_exp < fmag x -> x = S754_finite false (2 ^ 52) 1.
Proof.
  intros (Hf & Hs & Hle) Hlt. rewrite (proj2 weight_cap_ok), Z.pow_add_r in Hle by (unfold unit_exp; lia).
  destruct x as [|?| |s m e]; try done. cbn in Hs. subst s.
  apply is_fin_finite in Hf as [Hc _]. pose proof (canonical_digits _ _ Hc) as (He & Hm & Hd).
  cbn [fmag] in *. assert (0 < 2 ^ unit_exp) as Hu by done.
  destruct (Z.le_gt_cases 0 e) as [H0|Hneg].
  - rewrite (Z.pow_add_r 2 e) in Hlt, Hle by (unfold unit_exp; lia).
    assert (Zpos m * 2 ^ e = 2 ^ 53) as Hv by nia.
    pose proof (Zdigits2_shift (Zpos m) e ltac:(done) H0) as Hds. rewrite Hv in Hds.
    change (Zdigits2 (2 ^ 53)) with 54 in Hds. rewrite fexp64_eq in Hc.
    assert (e = 1) as -> by lia. f_equal. lia.
  - exfalso. assert (2 ^ (e + unit_exp) * 2 <= 2 ^ unit_exp).
    { rewrite Z.mul_comm, <-Z.pow_succ_r by (unfold unit_exp; lia).
      apply Z.pow_le_mono_r; [done|]. lia. }
    nia.
Qed.

Lemma weight_incr x : weight_ok x -> weight_ok (f_add x f_one).
Proof.
  intros Hx. destruct (Z.le_gt_cases (fmag x) ((2 ^ 53 - 1) * 2 ^ unit_exp)) as [Hle|Hgt].
  - destruct Hx as (Hf & Hs & _). destruct (f_add_bound x f_one weight_cap) as (H1 & H2 & H3);
      [done|done|apply weight_cap_ok| |by repeat split; auto].
    unfold fval. rewrite Hs. change (fsign f_one) with false. cbn [cond_Zopp].
    rewrite fmag_one, (proj2 weight_cap_ok), Z.pow_add_r by (unfold unit_exp; lia).
    pose proof (fmag_nonneg x). lia.
  - rewrite (weight_top x) by (try done; lia). vm_compute. repeat split; done.
Qed.

Lemma f_pow2_fin n : -1022 <= n <= 1023 -> is_fin (f_pow2 n) = true.
Proof. intros Hn. by apply f_pow2_ok. Qed.
Lemma f_pow2_mag n : -1022 <= n <= 1023 -> fmag (f_pow2 n) = 2 ^ n * 2 ^ unit_exp \/ n < 0.
Proof.
  intros Hn. destruct (Z.le_gt_cases 0 n); [left|by right].
  rewrite (proj2 (f_pow2_ok n Hn)), Z.pow_add_r by (unfold unit_exp; lia). done.
Qed.

(** An integer of at most [n] bits as a float. *)
Lemma f_of_Z_pow2 z n :
  0 <= n <= 1023 -> Z.abs z <= 2 ^ n ->
  is_fin (f_of_Z z) = true /\ fmag (f_of_Z z) <= 2 ^ n * 2 ^ unit_exp /\ fsign (f_of_Z z) = (z <? 0).
Proof.
  intros Hn Hz. destruct (f_pow2_mag n) as [Hm|]; [lia| |lia]. rewrite <-Hm.
  apply f_of_Z_bound; [apply f_pow2_fin; lia|]. rewrite Hm. apply Z.mul_le_mono_nonneg_r; [|done]. done.
Qed.

Lemma fval_nonneg x : fsign x = false -> fval x = fmag x.
Proof. unfold fval. by intros ->. Qed.

Lemma Seconds_ok d :
  0 <= d <= 2 ^ 63 ->
  is_fin (Seconds d) = true /\ fsign (Seconds d) = false /\ fmag (Seconds d) <= 2 ^ 35 * 2 ^ unit_exp.
Proof.
  intros Hd. unfold Seconds, Second, Millisecond.
  destruct (f_of_Z_pow2 (Z.quot d (1000 * 1000000)) 34) as (F1 & M1 & S1); [lia|divlia|].
  destruct (f_of_Z_pow2 (Z.rem d (1000 * 1000000)) 30) as (F2 & M2 & S2); [lia|divlia|].
  destruct (f_div_bound (f_of_Z (Z.rem d (1000 * 1000000))) (f_of_Z 1000000000)) as (F3 & S3 & M3);
    [done|vm_compute; done|vm_compute; done|].
  rewrite (proj2 (Z.ltb_ge _ _)) in S1 by divlia. rewrite (proj2 (Z.ltb_ge _ _)) in S2 by divlia.
  rewrite S2 in S3. change (fsign (f_of_Z 1000000000)) with false in S3. cbn [xorb] in S3.
  destruct (f_pow2_mag 35) as [Hm|]; [lia| |lia]. rewrite <-Hm.
  set (u := 2 ^ unit_exp) in *. clearbody u.
  destruct (f_add_bound _ _ (f_pow2 35) F1 F3) as (F & M & Sg); [done| |by auto].
  rewrite !fval_nonneg, Hm by done.
  pose proof (fmag_nonneg (f_of_Z (Z.quot d (1000 * 1000000)))).
  pose proof (fmag_nonneg (f_div (f_of_Z (Z.rem d (1000 * 1000000))) (f_of_Z 1000000000))).
  rewrite Z.abs_eq by lia. lia.
Qed.

Section bounds.
Context `{MathExpLaws}.

Lemma decayFactor_ok d :
  0 < d <= 2 ^ 63 ->
  is_fin (decayFactor d) = true /\ fsign (decayFactor d) = false /\ fmag (decayFactor d) <= 2 ^ unit_exp.
Proof.
  intros Hd. apply math_Exp_ok; destruct (Seconds_ok d) as (F & Sg & M); try lia.
  all: destruct (f_div_bound (SFopp (Seconds d)) (Seconds decayHalfLife)) as (F' & S' & M');
    [by destruct (Seconds d)|vm_compute; done|vm_compute; done|].
  - done.
  - unfold fval. rewrite S'. change (fsign (Seconds decayHalfLife)) with false.
    assert (fsign (SFopp (Seconds d)) = true) as -> by (by destruct (Seconds d) as [[]|[]| |[]]).
    cbn [xorb cond_Zopp]. pose proof (fmag_nonneg (f_div (SFopp (Seconds d)) (Seconds decayHalfLife))). lia.
Qed.

(** Decay does not increase a weight. *)
Lemma weight_decays x d :
  0 < d <= 2 ^ 63 -> weight_ok x ->
  weight_ok (f_mul x (decayFactor d)) /\ fmag (f_mul x (decayFactor d)) <= fmag x.
Proof.
  intros Hd (F & Sg & M). destruct (decayFactor_ok d Hd) as (Ff & Sf & Mf).
  destruct (f_mul_bound x (decayFactor d) x F Ff F) as (F' & M' & S').
  - pose proof (fmag_nonneg x). apply Z.mul_le_mono_nonneg_l; lia.
  - rewrite Sg, Sf in S'. split; [|done]. split; [done|]. split; [done|]. lia.
Qed.

Lemma decayed_ok now s : score_ok s -> score_ok (decayed now s).
Proof.
  intros Hs. unfold decayed. destruct (Z.leb_spec (time_sub now (LastUpdated s)) 0); [done|].
  assert (0 < time_sub now (LastUpdated s) <= 2 ^ 63) as Hd by (unfold time_sub, min_int64, max_int64 in *; lia).
  split; cbn; [apply weight_decays; try done; apply Hs..|apply Hs].
Qed.
End bounds.

Lemma f_trunc_bound x n :
  0 <= n <= 62 -> is_fin x = true -> fsign x = false -> fmag x <= 2 ^ n * 2 ^ unit_exp ->
  0 <= f_trunc x <= 2 ^ n.
Proof.
  intros Hn Hf Hs Hm. pose proof (Z.pow_le_mono_r 2 n 62).
  destruct x as [|?| |s m e]; try done; [cbn; lia|]. cbn in Hs. subst s.
  pose proof (is_fin_range _ _ _ Hf) as He. cbn [f_trunc cond_Zopp fmag] in *.
  assert (0 <= (if 0 <=? e then Zpos m * 2 ^ e else Zpos m / 2 ^ (- e)) <= 2 ^ n) as Hz.
  { destruct (Z.leb_spec 0 e).
    - rewrite (Z.pow_add_r 2 e) in Hm by (unfold unit_exp; lia).
      split; [apply Z.mul_nonneg_nonneg; lia|]. apply (Z.mul_le_mono_pos_r _ _ (2 ^ unit_exp)); [done|lia].
    - pose proof (pow2_pos (- e) ltac:(lia)). split; [apply Z.div_pos; lia|].
      apply Z.div_le_upper_bound; [done|]. apply (Z.mul_le_mono_pos_r _ _ (2 ^ (e + unit_exp)));
        [apply pow2_pos; unfold unit_exp; lia|].
      rewrite (Z.mul_comm (2 ^ (- e))), <-Z.mul_assoc, <-Z.pow_add_r by (unfold unit_exp; lia).
      replace (- e + (e + unit_exp)) with unit_exp by lia. done. }
  unfold min_int64, max_int64. rewrite (proj2 (Z.leb_le _ _)), (proj2 (Z.leb_le _ _)) by lia. done.
Qed.

(** The moving average of two latencies stays within the bound of both. *)
Lemma average_bound a b :
  0 <= a <= latency_cap -> 0 <= b <= latency_cap ->
  0 <= f_trunc (f_add (f_mul (f_of_Z a) one_minus_alpha) (f_mul (f_of_Z b) latencyEMAAlpha)) <= latency_cap.
Proof.
  intros Ha Hb. unfold latency_cap in *.
  destruct (f_of_Z_pow2 a 62) as (Fa & Ma & Sa); [lia..|]. destruct (f_of_Z_pow2 b 62) as (Fb & Mb & Sb); [lia..|].
  rewrite (proj2 (Z.ltb_ge a 0)) in Sa by lia. rewrite (proj2 (Z.ltb_ge b 0)) in Sb by lia.
  assert (forall x c, is_fin c = true -> fsign c = false -> is_fin (f_mul (f_pow2 62) c) = true ->
    fmag (f_pow2 62) * fmag c = fmag (f_mul (f_pow2 62) c) * 2 ^ unit_exp ->
    is_fin x = true -> fmag x <= 2 ^ 62 * 2 ^ unit_exp -> fsign x = false ->
    is_fin (f_mul x c) = true /\ fmag (f_mul x c) <= fmag (f_mul (f_pow2 62) c) /\ fsign (f_mul x c) = false) as Hmul.
  { intros x c Fc Sc FM HM Fx Mx Sx. destruct (f_mul_bound x c _ Fx Fc FM) as (F & M & Sg).
    - rewrite <-HM. pose proof (fmag_nonneg c). destruct (f_pow2_mag 62) as [Hp|]; [lia| |lia].
      rewrite Hp. by apply Z.mul_le_mono_nonneg_r.
    - by rewrite Sx, Sc in Sg. }
  destruct (Hmul (f_of_Z a) one_minus_alpha) as (F1 & M1 & S1); [by vm_compute..|done|done|done|].
  destruct (Hmul (f_of_Z b) latencyEMAAlpha) as (F2 & M2 & S2); [by vm_compute..|done|done|done|].
  assert (fmag (f_mul (f_pow2 62) one_minus_alpha) + fmag (f_mul (f_pow2 62) latencyEMAAlpha)
    <= fmag (f_pow2 62)) as Hsum by (vm_compute; discriminate).
  destruct (f_add_bound _ _ (f_pow2 62) F1 F2) as (F & M & Sg); [by vm_compute| |].
  - rewrite !fval_nonneg, Z.abs_eq by (done || (rewrite ?fval_nonneg by done;
      pose proof (fmag_nonneg (f_mul (f_of_Z a) one_minus_alpha));
      pose proof (fmag_nonneg (f_mul (f_of_Z b) latencyEMAAlpha)); lia)). lia.
  - apply f_trunc_bound; [lia|done|by apply Sg|]. destruct (f_pow2_mag 62) as [Hp|]; [lia| |lia]. by rewrite <-Hp.
Qed.

(** The score of a well-formed entry is a finite number. *)
Lemma computeScore_fin s : score_ok s -> is_fin (computeScore s) = true.
Proof.
  intros [(F1 & S1 & M1) (F2 & S2 & M2) Hl]. unfold computeScore.
  assert (is_fin (f_sub (WeightedSuccess s) (WeightedFailure s)) = true
    /\ fmag (f_sub (WeightedSuccess s) (WeightedFailure s)) <= fmag weight_cap) as [F3 M3].
  { apply f_sub_bound; [done|done|apply weight_cap_ok|]. rewrite !fval_nonneg by done.
    pose proof (fmag_nonneg (WeightedSuccess s)). pose proof (fmag_nonneg (WeightedFailure s)). lia. }
  destruct (Z.ltb_spec 0 (AvgLatency s)); [|done]. unfold latency_cap in Hl.
  destruct (Seconds_ok (AvgLatency s)) as (F4 & S4 & M4); [lia|].
  destruct (f_mul_bound (Seconds (AvgLatency s)) latencyPenaltyWeight (f_pow2 35) F4) as (F5 & M5 & _);
    [by vm_compute|by vm_compute| |].
  - destruct (f_pow2_mag 35) as [Hp|]; [lia| |lia]. rewrite Hp.
    apply Z.mul_le_mono_nonneg; [apply fmag_nonneg|done|apply fmag_nonneg|vm_compute; discriminate].
  - apply (f_sub_bound _ _ (f_pow2 54)); [done|done|by vm_compute|].
    assert (fmag weight_cap + fmag (f_pow2 35) <= fmag (f_pow2 54)) by (vm_compute; discriminate).
    pose proof (abs_fval (f_sub (WeightedSuccess s) (WeightedFailure s))).
    pose proof (abs_fval (f_mul (Seconds (AvgLatency s)) latencyPenaltyWeight)). lia.
Qed.

(** ** The operations keep the bounds *)
Inductive score_op :=
| OpSuccess (id : peer_ID) (latency : duration)
| OpFailure (id : peer_ID)
| OpScore (id : peer_ID)
| OpBest (peers : list peer_ID) (n : Z).

Definition run_score_op `{MathExp, SortSlice} (ps : PeerScorer) (o : score_op) : PeerScorer :=
  match o with
  | OpSuccess id latency => RecordSuccess ps id latency
  | OpFailure id => RecordFailure ps id
  | OpScore id => (GetScore ps id).1
  | OpBest peers n => (BestPeers ps peers n).1
  end.

(** Measured latencies: not negative, and below 146 years. *)
Definition latency_measured (o : score_op) : Prop :=
  match o with OpSuccess _ l => 0 <= l <= latency_cap | _ => True end.

Lemma set_score_ok ps id s : scorer_ok ps -> score_ok s -> scorer_ok (set_score ps id s).
Proof. intros Hps Hs id' s'. cbn. intros [[_ <-]|[_ ?]]%lookup_insert_Some; [done|by eapply Hps]. Qed.

Lemma new_score_ok now :
  score_ok {| WeightedSuccess := f_zero; WeightedFailure := f_zero; AvgLatency := 0; LastUpdated := now |}.
Proof. split; cbn; [by vm_compute|by vm_compute|]. unfold latency_cap. lia. Qed.

Section invariant.
Context `{MathExpLaws, SortSlice}.

Lemma entry_ok ps id ps' s : scorer_ok ps -> entry_of ps id = (ps', s) -> scorer_ok ps' /\ score_ok s.
Proof.
  intros Hps. unfold entry_of. destruct (scores ps !! id) as [s0|] eqn:E; cbn.
  - intros [= <- <-]. split; [done|by eapply Hps].
  - intros [= <- <-]. split; [|apply new_score_ok]. by apply set_score_ok; [|apply new_score_ok].
Qed.

Lemma GetScore_ok ps id : scorer_ok ps -> scorer_ok (GetScore ps id).1 /\ is_fin (GetScore ps id).2 = true.
Proof.
  intros Hps. unfold GetScore. destruct (scores ps !! id) as [s|] eqn:E; cbn; [|done].
  assert (score_ok (decayed (clock ps (ticks ps)) s)) as Hd by (eapply decayed_ok, Hps, E).
  split; [by apply set_score_ok|by apply computeScore_fin].
Qed.

Lemma score_list_ok ps peers :
  scorer_ok ps -> scorer_ok (score_list ps peers).1
  /\ map fst (score_list ps peers).2 = peers
  /\ Forall (fun px => is_fin px.2 = true) (score_list ps peers).2.
Proof.
  revert ps. induction peers as [|p peers IH]; intros ps Hps; cbn [score_list]; [by cbn|].
  pose proof (GetScore_ok ps p Hps) as [Q1 Q2]. destruct (GetScore ps p) as [ps1 x]. cbn in *.
  destruct (IH ps1 Q1) as (Q3 & Q4 & Q5). destruct (score_list ps1 peers) as [ps2 l]. cbn in *.
  split; [done|]. split; [by rewrite Q4|by constructor].
Qed.

Lemma run_score_op_ok ps o : scorer_ok ps -> latency_measured o -> scorer_ok (run_score_op ps o).
Proof.
  intros Hps Hl. destruct o as [id l|id|id|peers n]; cbn.
  - unfold RecordSuccess. destruct (entry_of ps id) as [ps1 s] eqn:E.
    destruct (entry_ok _ _ _ _ Hps E) as [Q1 Q2]. cbn. apply set_score_ok; [done|].
    pose proof (decayed_ok (clock ps1 (ticks ps1)) s Q2) as [Hsu Hfa Hla].
    split; cbn; [by apply weight_incr|done|]. destruct (_ =? 0); [done|by apply average_bound].
  - unfold RecordFailure. destruct (entry_of ps id) as [ps1 s] eqn:E.
    destruct (entry_ok _ _ _ _ Hps E) as [Q1 Q2]. cbn. apply set_score_ok; [done|].
    pose proof (decayed_ok (clock ps1 (ticks ps1)) s Q2) as [Hsu Hfa Hla].
    split; cbn; [done|by apply weight_incr|done].
  - by apply GetScore_ok.
  - unfold BestPeers. pose proof (score_list_ok ps peers Hps) as [Hk _].
    by destruct (score_list ps peers).
Qed.

Lemma run_score_ops_ok ps ops :
  scorer_ok ps -> Forall latency_measured ops -> scorer_ok (foldl run_score_op ps ops).
Proof.
  intros Hps Hl. revert ps Hps. induction Hl as [|o ops Ho _ IH]; intros ps Hps; [done|].
  cbn. by apply IH, run_score_op_ok.
Qed.

(** *** The clock in the loop of [BestPeers] *)

(** The score of a peer at the time [t]. *)
Definition score_at (t : time) ps (id : peer_ID) : float64 :=
  match scores ps !! id with Some s => computeScore (decayed t s) | None => f_zero end.

(** The score of the [i]-th peer at its turn. *)
Definition turn_score ps (peers : list peer_ID) (i : nat) (p : peer_ID) : float64 :=
  (GetScore (score_list ps (take i peers)).1 p).2.

(** The reading of the clock for the [i]-th peer: every peer with an entry before
    it has taken one. *)
Definition known ps (p : peer_ID) : Prop := is_Some (scores ps !! p).
#[export] Instance known_dec ps p : Decision (known ps p) := is_Some_dec (scores ps !! p).
Definition reading ps (peers : list peer_ID) (i : nat) : time :=
  clock ps (ticks ps + length (filter (known ps) (take i peers)))%nat.

Lemma GetScore_state ps id :
  clock (GetScore ps id).1 = clock ps
  /\ ticks (GetScore ps id).1 = (ticks ps + if decide (known ps id) then 1 else 0)%nat
  /\ (forall q, q <> id -> scores (GetScore ps id).1 !! q = scores ps !! q)
  /\ forall q, known (GetScore ps id).1 q <-> known ps q.
Proof.
  unfold GetScore. destruct (decide (known ps id)) as [[s E]|E%eq_None_not_Some]; rewrite E; cbn.
  - split; [done|]. split; [lia|]. split.
    + intros q Hq. by rewrite lookup_insert_ne.
    + intros q. unfold known. cbn. rewrite lookup_insert_is_Some'. naive_solver.
  - split; [done|]. split; [lia|done].
Qed.

Lemma score_list_state ps peers :
  clock (score_list ps peers).1 = clock ps
  /\ ticks (score_list ps peers).1 = (ticks ps + length (filter (known ps) peers))%nat
  /\ (forall q, q ∉ peers -> scores (score_list ps peers).1 !! q = scores ps !! q)
  /\ forall q, known (score_list ps peers).1 q <-> known ps q.
Proof.
  revert ps. induction peers as [|p peers IH]; intros ps; cbn [score_list].
  { split; [done|]. split; [cbn; lia|done]. }
  destruct (GetScore_state ps p) as (Hc & Ht & Hs & Hk). destruct (GetScore ps p) as [ps1 x]. cbn in *.
  destruct (IH ps1) as (Hc1 & Ht1 & Hs1 & Hk1). destruct (score_list ps1 peers) as [ps2 l]. cbn in *.
  split; [congruence|]. split; [|split].
  - rewrite Ht1, Ht, (list_filter_iff (known ps1) (known ps)) by apply Hk.
    case_decide; cbn; rewrite <-?Nat.add_assoc; done.
  - intros q [Hq Hqs]%not_elem_of_cons. by rewrite Hs1, Hs.
  - intros q. by rewrite Hk1.
Qed.

Lemma score_list_turns ps peers :
  (score_list ps peers).2 = imap (fun i p => (p, turn_score ps peers i p)) peers.
Proof.
  revert ps. induction peers as [|p peers IH]; intros ps; [done|]. cbn [score_list imap].
  unfold turn_score at 1. cbn [take score_list fst]. destruct (GetScore ps p) as [ps1 x] eqn:Ep. cbn [fst snd].
  specialize (IH ps1). destruct (score_list ps1 peers) as [ps2 l]. cbn in *. subst l. f_equal.
  apply imap_ext. intros i q _. unfold turn_score, compose. cbn [take score_list]. rewrite Ep.
  by destruct (score_list ps1 (take i peers)).
Qed.

(** A peer that has not had its turn yet is scored as it was before the loop. *)
Lemma turn_score_reading ps peers i p :
  NoDup peers -> peers !! i = Some p -> turn_score ps peers i p = score_at (reading ps peers i) ps p.
Proof.
  intros Hnd Hi. destruct (score_list_state ps (take i peers)) as (Hc & Ht & Hs & _).
  unfold turn_score, GetScore, score_at, reading. rewrite Hs.
  - destruct (scores ps !! p); [|done]. cbn. by rewrite Hc, Ht.
  - intros (j & Hj)%list_elem_of_lookup. apply lookup_take_Some in Hj as [Hj Hlt].
    pose proof (NoDup_lookup _ _ _ _ Hnd Hi Hj). lia.
Qed.

Lemma better_weak_order l :
  Forall (fun px : peer_ID * float64 => is_fin px.2 = true) l ->
  (forall x y, x ∈ l -> y ∈ l -> better x y = true -> better y x = false)
  /\ (forall x y z, x ∈ l -> y ∈ l -> z ∈ l -> better x z = true -> better x y = true \/ better y z = true).
Proof.
  intros Hl. rewrite Forall_forall in Hl. unfold better, f_gtb. split.
  - intros x y Hx%Hl%is_fin_not_nan Hy%Hl%is_fin_not_nan Hlt.
    destruct (SFltb x.2 y.2) eqn:E; [|done]. apply SFltb_rank in Hlt, E; try done.
    by destruct (rank_lt_irrefl (rank x.2)); eapply rank_lt_trans.
  - intros x y z Hx%Hl%is_fin_not_nan Hy%Hl%is_fin_not_nan Hz%Hl%is_fin_not_nan Hlt.
    rewrite !SFltb_rank in * by done. rewrite (or_comm (rank_lt (rank y.2) _)). by apply rank_lt_total.
Qed.

Lemma StronglySorted_app_inv {A} (R : A -> A -> Prop) l k :
  StronglySorted R (l ++ k) -> StronglySorted R l /\ forall x y, x ∈ l -> y ∈ k -> R x y.
Proof. rewrite StronglySorted_app. tauto. Qed.
End invariant.

(** After a "half-life" a weight is not halved: the factor is [math.Exp(-1)]. *)
Lemma half_life_factor `{MathExp} : decayFactor decayHalfLife = math_Exp (f_of_Z (-1)).
Proof. unfold decayFactor. f_equal. Qed.

(** ** Properties *)
Section properties.
Context `{MathExpLaws, SortSliceLaws}.

(** [C36] Whatever successes, failures and queries a scorer sees, and however its
    clock runs: every weight is a finite number between zero and [2 ^ 53], every
    average latency lies between zero and the bound of the latencies measured,
    and every score that is computed is a finite number, never an infinity or
    NaN.  (At [2 ^ 53] a weight stays: one more success is rounded away.) *)
Theorem scores_bounded c ops id s
    (Hops : Forall latency_measured ops) (Hs : scores (foldl run_score_op (NewPeerScorer c) ops) !! id = Some s) :
  (forall x, x = WeightedSuccess s \/ x = WeightedFailure s ->
     is_fin x = true /\ 0 <= fval x <= 2 ^ 53 * 2 ^ unit_exp)
  /\ 0 <= AvgLatency s <= latency_cap
  /\ forall peer, is_fin (GetScore (foldl run_score_op (NewPeerScorer c) ops) peer).2 = true.
Proof.
  assert (scorer_ok (foldl run_score_op (NewPeerScorer c) ops)) as Hok.
  { apply run_score_ops_ok; [|done]. intros i e. cbn. by rewrite lookup_empty. }
  destruct (Hok _ _ Hs) as [Hsu Hfa Hl]. split; [|split; [done|]].
  - intros x Hx. assert (weight_ok x) as (F & Sg & M) by (destruct Hx; by subst).
    rewrite (proj2 weight_cap_ok), Z.pow_add_r in M by (unfold unit_exp; lia).
    rewrite fval_nonneg by done. pose proof (fmag_nonneg x). done.
  - intros peer. by apply GetScore_ok.
Qed.

(** [C37] [BestPeers] returns the [n] best of the peers it is given (all of them
    if there are fewer, none if [n] is not positive), best first, and no peer left
    out has a higher score than one returned; a peer without an entry counts as
    zero.  The scores are those at each peer's own turn in the loop, while the
    clock runs on: for a list without repetitions, the score that the peer's entry
    has, decayed up to the reading of the clock for its turn. *)
Theorem best_peers c ops peers n (Hops : Forall latency_measured ops) :
  let ps := foldl run_score_op (NewPeerScorer c) ops in
  let r := (BestPeers ps peers n).2 in
  exists best rest : list (peer_ID * float64),
    r = map fst best /\ zlen r = Z.max 0 (Z.min n (zlen peers))
    /\ best ++ rest ≡ₚ imap (fun i p => (p, turn_score ps peers i p)) peers
    /\ StronglySorted (fun a b => f_gtb b.2 a.2 = false) best
    /\ (forall a b, a ∈ best -> b ∈ rest -> f_gtb b.2 a.2 = false)
    /\ (forall i p, scores ps !! p = None -> turn_score ps peers i p = f_zero)
    /\ (NoDup peers -> forall i p, peers !! i = Some p ->
         turn_score ps peers i p = score_at (reading ps peers i) ps p).
Proof.
  intros ps r. assert (scorer_ok ps) as Hok.
  { apply run_score_ops_ok; [|done]. intros i e. cbn. by rewrite lookup_empty. }
  destruct (score_list_ok ps peers Hok) as (_ & Hfst & Hfin). pose proof (score_list_turns ps peers) as Hl.
  unfold r, BestPeers. destruct (score_list ps peers) as [ps1 l] eqn:El. cbn [fst snd] in *.
  destruct (better_weak_order l Hfin) as [Ha Ht]. pose proof (sort_Slice_perm _ better l) as Hp.
  pose proof (sort_Slice_sorted _ better l Ha Ht) as Hs. set (k := Z.to_nat n).
  exists (take k (sort_Slice better l)), (drop k (sort_Slice better l)).
  rewrite <-(take_drop k (sort_Slice better l)) in Hs. apply StronglySorted_app_inv in Hs as [Hs1 Hs2].
  split; [done|]. split; [|split; [by rewrite take_drop, Hp, Hl|split; [done|split; [done|split]]]].
  - assert (length (sort_Slice better l) = length peers) as Hlen by (rewrite Hp, <-Hfst; symmetry; apply length_map).
    unfold zlen. rewrite length_map, length_take, Hlen. unfold k. lia.
  - intros i p Hnone. unfold turn_score, GetScore. enough (scores (score_list ps (take i peers)).1 !! p = None) as -> by done.
    apply eq_None_not_Some. intros Hk%score_list_state. unfold known in Hk. by rewrite Hnone in Hk; destruct Hk.
  - intros Hnd i p. by apply turn_score_reading.
Qed.
End properties.

(** ** Witnesses *)

(** Insertion sort, and an exponential that is one at zero and a half below. *)
Module ToyScores.
#[export] Instance toy_Exp : MathExp :=
  {| math_Exp x := if f_gtb f_zero x then f_const 1 2 else f_one |}.

#[export] Instance toy_ExpLaws : MathExpLaws.
Proof.
  split. intros x _ _. cbn. destruct (f_gtb f_zero x); vm_compute; (split; [done|split; [done|discriminate]]).
Qed.

Fixpoint insert {A} (less : A -> A -> bool) (x : A) (l : list A) : list A :=
  match l with
  | [] => [x]
  | y :: l => if less y x then y :: insert less x l else x :: y :: l
  end.

#[export] Instance toy_Sort : SortSlice := {| sort_Slice A less := foldr (insert less) [] |}.

Lemma insert_perm {A} (less : A -> A -> bool) x l : insert less x l ≡ₚ x :: l.
Proof.
  induction l as [|y l IH]; cbn; [done|]. case_match; [|done]. rewrite IH. constructor.
Qed.

Lemma insert_sorted {A} (less : A -> A -> bool) x l :
  (forall a b, a ∈ x :: l -> b ∈ x :: l -> less a b = true -> less b a = false) ->
  (forall a b c, a ∈ x :: l -> b ∈ x :: l -> c ∈ x :: l -> less a c = true -> less a b = true \/ less b c = true) ->
  StronglySorted (fun a b => less b a = false) l -> StronglySorted (fun a b => less b a = false) (insert less x l).
Proof.
  intros Ha Ht Hs. induction Hs as [|y l Hl IH Hf]; cbn; [repeat constructor|].
  destruct (less y x) eqn:E; constructor.
  - apply IH; intros a b; [intros ? ?|intros c ? ? ?]; [apply Ha|apply Ht]; rewrite ?elem_of_cons in *; tauto.
  - apply Forall_forall. intros z. rewrite insert_perm, elem_of_cons. intros [->|Hz].
    + apply Ha; [set_solver..|done].
    + by apply (proj1 (Forall_forall _ _) Hf).
  - by constructor.
  - constructor; [done|]. apply Forall_forall. intros z Hz. destruct (less z x) eqn:Ez; [|done].
    pose proof (proj1 (Forall_forall _ _) Hf z Hz) as Hzy. cbn in Hzy.
    destruct (Ht z y x) as [?|?]; [set_solver..|done|congruence|congruence].
Qed.

Lemma toy_sort_perm {A} (less : A -> A -> bool) l : foldr (insert less) [] l ≡ₚ l.
Proof. induction l as [|x l IH]; cbn; [done|]. by rewrite insert_perm, IH. Qed.

#[export] Instance toy_SortLaws : SortSliceLaws.
Proof.
  split; intros A less l; [apply toy_sort_perm|]. cbn.
  induction l as [|x l IH]; cbn; [constructor|]. intros Ha Ht.
  apply insert_sorted.
  - intros a b. rewrite !toy_sort_perm. apply Ha.
  - intros a b c. rewrite !toy_sort_perm. apply Ht.
  - apply IH; intros a b; [intros ? ?|intros c ? ? ?]; [apply Ha|apply Ht]; set_solver.
Qed.
End ToyScores.
Import ToyScores.

Definition toy_ops : list score_op := [OpSuccess "a" 1000; OpFailure "b"; OpSuccess "c" 3000000000].

Lemma scores_bounded_witness :
  exists s, scores (foldl run_score_op (NewPeerScorer (fun n => Z.of_nat n)) toy_ops) !! "a" = Some s
    /\ is_fin (WeightedSuccess s) = true /\ 0 <= AvgLatency s <= latency_cap.
Proof.
  destruct (scores (foldl run_score_op (NewPeerScorer (fun n => Z.of_nat n)) toy_ops) !! "a") as [s|] eqn:E;
    [|vm_compute in E; discriminate E].
  destruct (scores_bounded (fun n => Z.of_nat n) toy_ops "a" s) as (Hw & Hl & _).
  - repeat constructor; cbn; unfold latency_cap; lia.
  - exact E.
  - exists s. split; [reflexivity|]. split; [apply (Hw (WeightedSuccess s)); left; reflexivity|exact Hl].
Defined.

(** The clock runs on by a second with every reading. *)
Lemma best_peers_witness :
  let ps := foldl run_score_op (NewPeerScorer (fun k => Z.of_nat k * Second)) toy_ops in
  (BestPeers ps ["b"; "x"; "c"; "a"] 2).2 = ["a"; "c"]
  /\ zlen (BestPeers ps ["b"; "x"; "c"; "a"] 2).2 = 2.
Proof.
  intros ps. split; [vm_compute; reflexivity|].
  destruct (best_peers (fun k => Z.of_nat k * Second) toy_ops ["b"; "x"; "c"; "a"] 2)
    as (best & rest & _ & Hlen & _).
  - repeat constructor; cbn; unfold latency_cap; lia.
  - exact Hlen.
Defined.
