(* ===== verification/SeenMessages.v ===== *)
(** Deduplication of flooded messages (src/internal/fileserver/seenmsgs.go) and
    the choice of the peers to forward to (src/internal/fileserver/peerselector.go).

    The order in which Go iterates over a map is an argument of [See], the
    random numbers one of [Select]. *)
From S2P Require Import Prelude.

(** ** [SeenMessages] *)
Record SeenMessages := {
  entries : gmap string time;
  maxSize : Z;
  seen_window : duration;
}.

Definition NewSeenMessages (maxSize : Z) (window : duration) : SeenMessages :=
  {| entries := ∅; maxSize := maxSize; seen_window := window |}.

Definition set_entries (s : SeenMessages) (m : gmap string time) : SeenMessages :=
  {| entries := m; maxSize := maxSize s; seen_window := seen_window s |}.

(** The scan for the oldest entry, which takes [""] for "none yet". *)
Definition scan_step (acc : string * time) (kv : string * time) : string * time :=
  let '(oldest, oldestTime) := acc in
  let '(k, v) := kv in
  if bool_decide (oldest = "") || (v <? oldestTime) then (k, v) else acc.

Definition scan_oldest (order : list (string * time)) : string * time :=
  foldl scan_step ("", 0) order.

Definition See (s : SeenMessages) (now : time) (order : list (string * time)) (id : string) :
    SeenMessages * bool :=
  let fresh :=
    let m := if maxSize s <=? Z.of_nat (size (entries s))
             then delete (scan_oldest order).1 (entries s) else entries s in
    (set_entries s (<[id := now]> m), true) in
  match entries s !! id with
  | Some t => if time_sub now t <? seen_window s then (s, false) else fresh
  | None => fresh
  end.

(** One tick of [cleanup]. *)
Definition still_seen (w : duration) (now : time) (kt : string * time) : Prop :=
  time_sub now kt.2 < w.
#[export] Instance still_seen_dec w now kt : Decision (still_seen w now kt) :=
  decide (time_sub now kt.2 < w).

Definition seen_cleanup (s : SeenMessages) (now : time) : SeenMessages :=
  set_entries s (filter (still_seen (seen_window s) now) (entries s)).

(** Calls in the order of a clock that does not run backwards, from time [t] and
    state [s]; [n] counts the accepted messages, [ids] lists all of them. *)
Inductive seen_run (t : time) (s : SeenMessages) : time -> nat -> list string -> SeenMessages -> Prop :=
| run_nil : seen_run t s t 0 [] s
| run_see t1 n ids s1 now order id :
    seen_run t s t1 n ids s1 -> t1 <= now -> order ≡ₚ map_to_list (entries s1) ->
    seen_run t s now (if (See s1 now order id).2 then S n else n) (id :: ids) (See s1 now order id).1
| run_cleanup t1 n ids s1 now :
    seen_run t s t1 n ids s1 -> t1 <= now -> seen_run t s now n ids (seen_cleanup s1 now).

(** ** The scan *)
Lemma scan_in order acc :
  (foldl scan_step acc order = acc \/ foldl scan_step acc order ∈ order).
Proof.
  revert acc. induction order as [|[k v] order IH]; intros [o ot]; [by left|]. cbn [foldl scan_step].
  destruct (IH (if bool_decide (o = "") || (v <? ot) then (k, v) else (o, ot))) as [->|Hin].
  - case_match; [right; left|by left].
  - right. by right.
Qed.

Lemma scan_oldest_in order : order <> [] -> scan_oldest order ∈ order.
Proof.
  destruct order as [|[k v] order]; [done|]. intros _. unfold scan_oldest. cbn [foldl scan_step].
  rewrite bool_decide_true by done. cbn [orb].
  destruct (scan_in order (k, v)) as [->|Hin]; [left|by right].
Qed.

Lemma scan_oldest_entry order (m : gmap string time) :
  order ≡ₚ map_to_list m -> m <> ∅ -> m !! (scan_oldest order).1 = Some (scan_oldest order).2.
Proof.
  intros Hord Hm. assert (order <> []) as Hno.
  { intros ->. apply Hm, map_to_list_empty_iff. by apply Permutation_nil_l in Hord. }
  pose proof (scan_oldest_in _ Hno) as Hin. destruct (scan_oldest order) as [k v].
  rewrite Hord in Hin. by apply elem_of_map_to_list in Hin.
Qed.

(** Without the empty key it finds an entry of minimal time. *)
Lemma scan_min order acc :
  Forall (fun kv => kv.1 <> "") order -> acc.1 <> "" ->
  (foldl scan_step acc order).2 <= acc.2
  /\ forall kv, kv ∈ order -> (foldl scan_step acc order).2 <= kv.2.
Proof.
  intros Hne. revert acc. induction Hne as [|[k v] order Hk Hne IH]; intros [o ot] Ho; cbn [foldl].
  { split; [done|]. intros kv Hin. by apply elem_of_nil in Hin. }
  cbn [scan_step fst snd] in *. rewrite bool_decide_false by done. cbn [orb].
  destruct (Z.ltb_spec v ot) as [Hv|Hv].
  - destruct (IH (k, v) Hk) as [H1 H2]. cbn [snd] in *. split; [lia|].
    intros kv [->|Hin]%elem_of_cons; [done|auto].
  - destruct (IH (o, ot) Ho) as [H1 H2]. cbn [snd] in *. split; [done|].
    intros kv [->|Hin]%elem_of_cons; [simpl; lia|auto].
Qed.

Lemma scan_oldest_min order kv :
  Forall (fun kv => kv.1 <> "") order -> kv ∈ order -> (scan_oldest order).2 <= kv.2.
Proof.
  destruct order as [|[k v] order]; [by intros _ ?%elem_of_nil|].
  intros [Hk Hne]%Forall_cons Hin. unfold scan_oldest. cbn [foldl scan_step].
  rewrite bool_decide_true by done. cbn [orb].
  destruct (scan_min order (k, v) Hne Hk) as [H1 H2].
  apply elem_of_cons in Hin as [->|Hin]; auto.
Qed.

(** ** Size *)
Lemma See_size s now order id :
  order ≡ₚ map_to_list (entries s) ->
  Z.of_nat (size (entries s)) <= Z.max 1 (maxSize s) ->
  maxSize (See s now order id).1 = maxSize s /\
  Z.of_nat (size (entries (See s now order id).1)) <= Z.max 1 (maxSize s).
Proof.
  intros Hord Hs. assert (forall m : gmap string time, Z.of_nat (size m) < Z.max 1 (maxSize s) ->
    Z.of_nat (size (<[id := now]> m)) <= Z.max 1 (maxSize s)) as Hins.
  { intros m Hm. destruct (m !! id) eqn:E.
    - rewrite map_size_insert_Some by eauto. lia.
    - rewrite map_size_insert_None by done. lia. }
  assert (Z.of_nat (size (<[id := now]> (if maxSize s <=? Z.of_nat (size (entries s))
    then delete (scan_oldest order).1 (entries s) else entries s))) <= Z.max 1 (maxSize s)) as Hfresh.
  { apply Hins. destruct (Z.leb_spec (maxSize s) (Z.of_nat (size (entries s)))); [|lia].
    destruct (decide (entries s = ∅)) as [He|He].
    - rewrite He, delete_empty, map_size_empty. lia.
    - pose proof (scan_oldest_entry _ _ Hord He) as Hin. rewrite map_size_delete_Some by eauto.
      pose proof (map_size_ne_0_lookup_2 (entries s) _ (mk_is_Some _ _ Hin)). lia. }
  unfold See. destruct (entries s !! id) as [t|]; [destruct (time_sub now t <? seen_window s)|];
    cbn [fst]; (split; [done|]); first [exact Hs|exact Hfresh].
Qed.

Lemma cleanup_size s now :
  (size (entries (seen_cleanup s now)) <= size (entries s))%nat.
Proof. simpl. apply map_subseteq_size, map_filter_subseteq. Qed.

(** ** An accepted message stays for a while *)

Definition no_older (t0 : time) (id : string) (kt : string * time) : Prop := kt.1 <> id /\ t0 <= kt.2.
#[export] Instance no_older_dec t0 id kt : Decision (no_older t0 id kt) := decide (kt.1 <> id /\ t0 <= kt.2).

(** [id] was accepted at [t0]; at most [n] other entries are not older. *)
Definition holds (t0 : time) (id : string) (s : SeenMessages) (now : time) (n : nat) : Prop :=
  entries s !! id = Some t0 /\ t0 <= now /\
  (forall k t, entries s !! k = Some t -> k <> "" /\ t <= now) /\
  (size (filter (no_older t0 id) (entries s)) <= n)%nat.

Lemma insert_size_le (m : gmap string time) k v : (size (<[k := v]> m) <= S (size m))%nat.
Proof. rewrite map_size_insert. destruct (m !! k); simpl; lia. Qed.

(** The eviction spares [id] while fewer than [maxSize - 1] others are not older. *)
Lemma evict_spares t0 id s now n order :
  holds t0 id s now n -> order ≡ₚ map_to_list (entries s) ->
  maxSize s <= Z.of_nat (size (entries s)) -> Z.of_nat n + 1 < maxSize s ->
  (scan_oldest order).1 <> id.
Proof.
  intros (Hid & Ht0 & Hall & Hsz) Hord Hfull Hn Heq.
  assert (entries s <> ∅) as Hemp by (intros He; by rewrite He, lookup_empty in Hid).
  pose proof (scan_oldest_entry _ _ Hord Hemp) as Hin.
  assert (Forall (fun kv => kv.1 <> "") order) as Hne.
  { apply Forall_forall. intros [k v]. rewrite Hord, elem_of_map_to_list. intros Hk. by destruct (Hall k v Hk). }
  pose proof (fun kv => scan_oldest_min order kv Hne) as Hmin.
  destruct (scan_oldest order) as [k v]. simpl in *. subst k.
  rewrite Hid in Hin. injection Hin as <-.
  assert (delete id (entries s) ⊆ filter (no_older t0 id) (entries s)) as Hsub.
  { apply map_subseteq_spec. intros k t [Hk Ht]%lookup_delete_Some.
    apply map_lookup_filter_Some. split; [done|]. split; [done|]. cbn. specialize (Hmin (k, t)).
    rewrite Hord, elem_of_map_to_list in Hmin. by apply Hmin. }
  apply map_subseteq_size in Hsub. rewrite map_size_delete_Some in Hsub by eauto. lia.
Qed.

Lemma See_holds t0 id s now n now' order id' :
  holds t0 id s now n -> now <= now' -> order ≡ₚ map_to_list (entries s) -> id' <> "" ->
  time_sub now' t0 < seen_window s ->
  (if (See s now' order id').2 then Z.of_nat n + 1 else Z.of_nat n) < maxSize s ->
  holds t0 id (See s now' order id').1 now' (if (See s now' order id').2 then S n else n).
Proof.
  intros Hh Hlt Hord Hne Hw. pose proof Hh as (Hid & Ht0 & Hall & Hsz).
  assert (holds t0 id s now' n) as Hsame.
  { split; [done|]. split; [lia|]. split; [|done]. intros k t Hk.
    destruct (Hall k t Hk). split; [done|lia]. }
  set (m := if maxSize s <=? Z.of_nat (size (entries s))
            then delete (scan_oldest order).1 (entries s) else entries s).
  assert (id' <> id -> Z.of_nat n + 1 < maxSize s ->
          holds t0 id (set_entries s (<[id' := now']> m)) now' (S n)) as Hfresh.
  { intros Hidne Hn. assert (m !! id = Some t0) as Hm.
    { unfold m. destruct (Z.leb_spec (maxSize s) (Z.of_nat (size (entries s)))); [|done].
      rewrite lookup_delete_ne; [done|]. by eapply evict_spares. }
    assert (m ⊆ entries s) as Hsub by (unfold m; case_match; [apply delete_subseteq|done]).
    split; [cbn; by rewrite lookup_insert_ne|]. split; [lia|]. split.
    - intros k t. cbn. intros [[<- <-]|[_ Hk]]%lookup_insert_Some; [done|].
      eapply lookup_weaken in Hk; [|exact Hsub]. destruct (Hall k t Hk). split; [done|lia].
    - cbn. rewrite map_filter_insert_True by (split; cbn; [done|lia]).
      etransitivity; [apply insert_size_le|]. apply le_n_S. etransitivity; [|exact Hsz].
      apply map_subseteq_size. by apply map_filter_subseteq_mono. }
  unfold See. fold m. destruct (decide (id' = id)) as [->|Hidne].
  - rewrite Hid. destruct (Z.ltb_spec (time_sub now' t0) (seen_window s)); [done|lia].
  - destruct (entries s !! id') as [t|]; [destruct (time_sub now' t <? seen_window s)|]; cbn [fst snd];
      auto.
Qed.

Lemma cleanup_holds t0 id s now n now' :
  holds t0 id s now n -> now <= now' -> time_sub now' t0 < seen_window s ->
  holds t0 id (seen_cleanup s now') now' n.
Proof.
  intros (Hid & Ht0 & Hall & Hsz) Hlt Hw. split; [|split; [lia|split]].
  - cbn. by apply map_lookup_filter_Some.
  - intros k t. cbn. intros [Hk _]%map_lookup_filter_Some.
    destruct (Hall k t Hk). split; [done|lia].
  - etransitivity; [|exact Hsz]. apply map_subseteq_size, map_filter_subseteq_mono.
    apply map_filter_subseteq.
Qed.

(** ** What every run keeps *)
Lemma See_config s now order id :
  maxSize (See s now order id).1 = maxSize s /\ seen_window (See s now order id).1 = seen_window s.
Proof. unfold See. by repeat case_match. Qed.

Lemma run_config t s t' n ids s' :
  seen_run t s t' n ids s' -> maxSize s' = maxSize s /\ seen_window s' = seen_window s /\ t <= t'.
Proof.
  induction 1 as [|t1 n ids s1 now order id Hr (Hm & Hw & Ht) Hlt Hord|t1 n ids s1 now Hr (Hm & Hw & Ht) Hlt];
    [split_and!; done || lia| |].
  - destruct (See_config s1 now order id) as [-> ->]. split_and!; done || lia.
  - cbn. split_and!; done || lia.
Qed.

Definition proper_entries (s : SeenMessages) (now : time) : Prop :=
  forall k t, entries s !! k = Some t -> k <> "" /\ t <= now.

Lemma run_proper t lim w t' n ids s :
  seen_run t (NewSeenMessages lim w) t' n ids s -> Forall (fun id => id <> "") ids ->
  proper_entries s t'.
Proof.
  induction 1 as [|t1 n ids s1 now order id Hr IH Hlt Hord|t1 n ids s1 now Hr IH Hlt]; intros Hids.
  - intros k x. cbn. by rewrite lookup_empty.
  - apply Forall_cons in Hids as [Hid Hids]. specialize (IH Hids).
    assert (proper_entries s1 now) as Hsame.
    { intros k x Hk. destruct (IH k x Hk). split; [done|lia]. }
    unfold See. destruct (entries s1 !! id) as [x|]; [destruct (time_sub now x <? seen_window s1)|];
      [exact Hsame|..]; intros k y; cbn; (intros [[<- <-]|[_ Hk]]%lookup_insert_Some; [split; [done|lia]|]);
      apply Hsame; (case_match; [by apply lookup_delete_Some in Hk as [_ ?]|done]).
  - intros k x. cbn. intros [Hk _]%map_lookup_filter_Some. destruct (IH Hids k x Hk). split; [done|lia].
Qed.

Lemma accepted_holds s now now' order id :
  proper_entries s now -> now < now' -> id <> "" -> (See s now' order id).2 = true ->
  holds now' id (See s now' order id).1 now' 0.
Proof.
  intros Hp Hlt Hid Hacc. set (m := if maxSize s <=? Z.of_nat (size (entries s))
            then delete (scan_oldest order).1 (entries s) else entries s).
  assert (forall k t, m !! k = Some t -> k <> "" /\ t <= now) as Hm.
  { intros k t Hk. apply Hp. unfold m in Hk. case_match; [|done].
    by apply lookup_delete_Some in Hk as [_ ?]. }
  assert ((See s now' order id).1 = set_entries s (<[id := now']> m)) as ->.
  { revert Hacc. unfold See. fold m.
    destruct (entries s !! id); [destruct (time_sub _ _ <? _)|]; done. }
  split; [cbn; apply lookup_insert_eq|]. split; [lia|]. split.
  - intros k t. cbn. intros [[<- <-]|[_ Hk]]%lookup_insert_Some; [done|].
    destruct (Hm k t Hk). split; [done|lia].
  - cbn. rewrite map_filter_insert_False by (by intros []).
    enough (filter (no_older now' id) (delete id m) = ∅) as -> by done.
    apply map_empty. intros k. apply map_lookup_filter_None. right.
    intros t [_ Hk]%lookup_delete_Some [_ Ht]. cbn in Ht. destruct (Hm k t Hk). lia.
Qed.

Lemma run_holds t0 id s t' n ids s' :
  holds t0 id s t0 0 -> seen_run t0 s t' n ids s' -> Forall (fun id => id <> "") ids ->
  time_sub t' t0 < seen_window s -> Z.of_nat n < maxSize s -> holds t0 id s' t' n.
Proof.
  intros Hh Hr. induction Hr as [|t1 n ids s1 now order id' Hr IH Hlt Hord|t1 n ids s1 now Hr IH Hlt];
    intros Hids Hw Hn; [done|..];
    destruct (run_config _ _ _ _ _ _ Hr) as (Hm & Hwin & Hle).
  - apply Forall_cons in Hids as [Hid' Hids].
    assert (Z.of_nat n < maxSize s) by (destruct (See s1 now order id').2; lia).
    apply (See_holds t0 id s1 t1 n); [apply IH; [done| |done]|done|done|done|by rewrite Hwin|].
    + unfold time_sub in *. lia.
    + rewrite Hm. destruct (See s1 now order id').2; lia.
  - apply (cleanup_holds t0 id s1 t1 n); [apply IH; [done| |done]|done|by rewrite Hwin].
    unfold time_sub in *. lia.
Qed.

(** ** [RandomPeerSelector] *)

(** [candidates[i], candidates[j] = candidates[j], candidates[i]]. *)
Definition swap (l : list string) (i j : nat) : list string :=
  match l !! i, l !! j with
  | Some x, Some y => <[j := x]> (<[i := y]> l)
  | _, _ => l
  end.

(** [intn i n] is the [i]-th call of [rand.Intn], with the argument [n]. *)
Fixpoint shuffle (intn : nat -> nat -> nat) (l : list string) (i steps : nat) : list string :=
  match steps with
  | O => l
  | S steps => shuffle intn (swap l i (i + intn i (length l - i)%nat)) (S i) steps
  end.

(** [None]: a negative [max] makes the final slice expression panic. *)
Definition Select (intn : nat -> nat -> nat) (all : list string) (exclude : string) (max : Z) :
    option (list string) :=
  let candidates := filter (fun p => p <> exclude) all in
  let n := zlen candidates in
  let max := if n <? max then n else max in
  go_slice (shuffle intn candidates 0 (Z.to_nat max)) 0 max.

(** [rand.Intn(n)] is in [[0,n)]. *)
Definition intn_ok (intn : nat -> nat -> nat) : Prop := forall i n, (0 < n -> intn i n < n)%nat.

Lemma swap_perm l i j : swap l i j ≡ₚ l.
Proof.
  unfold swap. destruct (l !! i) as [x|] eqn:Hi; [|done]. destruct (l !! j) as [y|] eqn:Hj; [|done].
  by apply Permutation_insert_swap.
Qed.

Lemma shuffle_perm intn l i steps : shuffle intn l i steps ≡ₚ l.
Proof. revert l i. induction steps as [|k IH]; intros l i; [done|]. cbn. by rewrite IH, swap_perm. Qed.

(** ** Properties *)

(** [C18] Deduplication, as long as no message with an empty id comes in: once a
    message is accepted, the same message is refused for the whole window, if
    fewer than [maxSize] messages are accepted in between; sweeps of the cleanup
    make no difference.  The clock does not run backwards, and has moved on since
    the last call when the message is accepted.  ([empty_id_forgets] below: with
    an empty id in the table this is false.) *)
Theorem seen_dedup lim w t0 t1 n1 ids1 s1 order1 id t2 n2 ids2 s2 order2
    (Hrun1 : seen_run t0 (NewSeenMessages lim w) t1 n1 ids1 s1)
    (Hacc : (See s1 t2 order1 id).2 = true) (Hlt : t1 < t2)
    t3 (Hrun2 : seen_run t2 (See s1 t2 order1 id).1 t3 n2 ids2 s2)
    now (Hnow : t3 <= now) (Hids : Forall (fun id => id <> "") (id :: ids2 ++ ids1))
    (Hw : time_sub now t2 < w) (Hn : Z.of_nat n2 < lim) :
  See s2 now order2 id = (s2, false).
Proof.
  apply Forall_cons in Hids as [Hid [Hids2 Hids1]%Forall_app].
  pose proof (run_proper _ _ _ _ _ _ _ Hrun1 Hids1) as Hp.
  destruct (run_config _ _ _ _ _ _ Hrun1) as (Hm1 & Hw1 & _). cbn in Hm1, Hw1.
  destruct (See_config s1 t2 order1 id) as [HmS HwS].
  destruct (run_config _ _ _ _ _ _ Hrun2) as (Hm2 & Hw2 & Hle).
  destruct (run_holds t2 id _ t3 n2 ids2 s2 (accepted_holds s1 t1 t2 order1 id Hp Hlt Hid Hacc) Hrun2
    Hids2) as (Hent & _).
  - rewrite HwS, Hw1. unfold time_sub in *. lia.
  - by rewrite HmS, Hm1.
  - unfold See. rewrite Hent. destruct (Z.ltb_spec (time_sub now t2) (seen_window s2)); [done|].
    rewrite Hw2, HwS, Hw1 in *. lia.
Qed.

(** The memory stays bounded: whatever ids arrive, the table never holds
    more than [maxSize] of them (one, if [maxSize] is not positive). *)
Theorem seen_bounded lim w t t' n ids s
    (Hrun : seen_run t (NewSeenMessages lim w) t' n ids s) :
  Z.of_nat (size (entries s)) <= Z.max 1 lim.
Proof.
  enough (maxSize s = lim /\ Z.of_nat (size (entries s)) <= Z.max 1 lim) by tauto.
  induction Hrun as [|t1 n ids s1 now order id Hr [Hm Hs] Hlt Hord|t1 n ids s1 now Hr [Hm Hs] Hlt].
  - split; [done|]. cbn [entries NewSeenMessages]. rewrite map_size_empty. lia.
  - rewrite <-Hm in Hs |- *. destruct (See_size s1 now order id Hord Hs). by split.
  - pose proof (cleanup_size s1 now). split; [done|lia].
Qed.

(** The scan for the oldest entry takes the id [""] for "none yet": with
    an entry of that id in the table, an accepted message can be forgotten at
    once and be accepted a second time, within the window and with a single
    other message in between, though the table has room for two. *)
Theorem empty_id_forgets :
  exists s1 s2 order1 order2,
    seen_run 0 (NewSeenMessages 2 100) 2 2 ["a"; ""] s1 /\ entries s1 !! "a" = Some 2
    /\ order1 ≡ₚ map_to_list (entries s1) /\ See s1 3 order1 "b" = (s2, true)
    /\ order2 ≡ₚ map_to_list (entries s2) /\ (See s2 4 order2 "a").2 = true.
Proof.
  set (s0 := NewSeenMessages 2 100). set (sa := (See s0 1 [] "").1).
  set (sb := (See sa 2 [("", 1)] "a").1).
  exists sb, (See sb 3 [("", 1); ("a", 2)] "b").1, [("", 1); ("a", 2)],
    (map_to_list (entries (See sb 3 [("", 1); ("a", 2)] "b").1)).
  assert (seen_run 0 s0 1 1 [""] sa) as H1.
  { apply (run_see 0 s0 0 0 [] s0 1 [] ""); [apply run_nil|lia|done]. }
  assert (seen_run 0 s0 2 2 ["a"; ""] sb) as H2.
  { apply (run_see 0 s0 1 1 [""] sa 2 [("", 1)] "a"); [done|lia|done]. }
  split; [done|]. split; [done|]. split; [|by split_and!].
  apply NoDup_Permutation; [by apply NoDup_cons; split; [set_solver|apply NoDup_singleton]|
    apply NoDup_map_to_list|].
  intros [k v]. change (map_to_list (entries sb)) with (map_to_list (<["a" := 2]> {[ "" := 1 ]} : gmap string time)).
  rewrite elem_of_map_to_list, lookup_insert_Some, lookup_singleton_Some. set_solver.
Qed.

Lemma Select_split intn all exclude max :
  match Select intn all exclude max with
  | None => max < 0
  | Some r => 0 <= max
      /\ zlen r = Z.min max (zlen (filter (fun p => p <> exclude) all))
      /\ exists rest, r ++ rest ≡ₚ filter (fun p => p <> exclude) all
  end.
Proof.
  unfold Select. set (cs := filter (fun p => p <> exclude) all).
  set (m := if zlen cs <? max then zlen cs else max).
  pose proof (shuffle_perm intn cs 0 (Z.to_nat m)) as Hp.
  set (l := shuffle intn cs 0 (Z.to_nat m)) in *. pose proof (zlen_nonneg cs) as Hcs.
  assert (m = Z.min max (zlen cs)) as Hm by (subst m; destruct (Z.ltb_spec (zlen cs) max); lia).
  assert (zlen l = zlen cs) as Hl by (unfold zlen; by rewrite Hp).
  unfold go_slice. case_decide as Hd; [|lia]. rewrite drop_0, Z.sub_0_r.
  split_and!; [lia|rewrite zlen_take; lia|]. exists (drop (Z.to_nat m) l). by rewrite take_drop.
Qed.

Lemma selected_in (r rest all : list string) (exclude p : string) :
  r ++ rest ≡ₚ filter (fun p => p <> exclude) all -> p ∈ r -> p ∈ all /\ p <> exclude.
Proof.
  intros Hr Hin. assert (p ∈ filter (fun p => p <> exclude) all) as Hc.
  { rewrite <-Hr. apply elem_of_app. by left. }
  by apply list_elem_of_filter in Hc as [? ?].
Qed.

(** For a [max] that is not negative. *)
Lemma Select_some intn all exclude max :
  0 <= max -> exists r, Select intn all exclude max = Some r /\ zlen r <= max
    /\ forall p, p ∈ r -> p ∈ all /\ p <> exclude.
Proof.
  intros Hm. pose proof (Select_split intn all exclude max) as Hs.
  destruct (Select intn all exclude max) as [r|]; [|lia]. destruct Hs as (_ & Hl & rest & Hr).
  exists r. split; [done|]. split; [lia|]. intros p. by apply (selected_in r rest).
Qed.

(** [Select], for every outcome of the random numbers, returns
    [min(max, #candidates)] of the given peers without the excluded one, none
    twice if none was given twice; it panics exactly for a negative [max]. *)
Theorem select_sample intn all exclude max :
  match Select intn all exclude max with
  | None => max < 0
  | Some r => 0 <= max
      /\ zlen r = Z.min max (zlen (filter (fun p => p <> exclude) all))
      /\ (forall p, p ∈ r -> p ∈ all /\ p <> exclude) /\ (NoDup all -> NoDup r)
      /\ exists rest, r ++ rest ≡ₚ filter (fun p => p <> exclude) all
  end.
Proof.
  pose proof (Select_split intn all exclude max) as Hs. destruct (Select _ _ _ _) as [r|]; [|done].
  destruct Hs as (Hm & Hl & rest & Hr). split_and!; try done; [intros p; by apply (selected_in r rest)| |eauto].
  intros Hnd. assert (NoDup (r ++ rest)) as Hn by (rewrite Hr; by apply NoDup_filter).
  by apply NoDup_app in Hn as [? _].
Qed.

(** ** Witnesses *)
Lemma seen_dedup_witness :
  let s1 := (See (NewSeenMessages 2 100) 1 [] "a").1 in
  let s2 := (See s1 1 (map_to_list (entries s1)) "b").1 in
  See s2 5 [] "a" = (s2, false).
Proof.
  intros s1 s2.
  apply (seen_dedup 2 100 0 0 0 [] (NewSeenMessages 2 100) [] "a" 1 1 ["b"] s2 []) with (t3 := 1).
  - apply run_nil.
  - reflexivity.
  - lia.
  - apply (run_see 1 s1 1 0 [] s1 1 (map_to_list (entries s1)) "b"); [apply run_nil|lia|reflexivity].
  - lia.
  - repeat constructor; discriminate.
  - reflexivity.
  - reflexivity.
Defined.

Lemma seen_bounded_witness :
  Z.of_nat (size (entries (See (NewSeenMessages 2 100) 1 [] "a").1)) <= 2.
Proof.
  apply (seen_bounded 2 100 0 1 1 ["a"]).
  apply (run_see 0 (NewSeenMessages 2 100) 0 0 [] (NewSeenMessages 2 100) 1 [] "a");
    [apply run_nil|lia|reflexivity].
Defined.

Lemma select_sample_witness :
  match Select (fun _ _ => 0%nat) ["p"; "q"; "r"] "q" 1 with
  | Some r => zlen r = 1 /\ forall p, p ∈ r -> p ∈ ["p"; "q"; "r"] /\ p <> "q"
  | None => False
  end.
Proof.
  pose proof (select_sample (fun _ _ => 0%nat) ["p"; "q"; "r"] "q" 1) as Hs.
  destruct (Select (fun _ _ => 0%nat) ["p"; "q"; "r"] "q" 1) as [r|].
  - destruct Hs as (_ & Hlen & Hin & _). split; [exact Hlen|exact Hin].
  - lia.
Defined.
