(* ===== verification/Json.v ===== *)
(** Package [encoding/json] as far as the program uses it: the text of JSON
    values (compact output as [json.Marshal] writes it, input as the decoder's
    scanner accepts it) and integers in decimal ([strconv]).

    The printer and the parser are executable; [parse_print] is their round
    trip.  Strings are Go strings: the printer replaces invalid UTF-8 by the
    replacement character, so the round trip holds for valid UTF-8. *)
From S2P Require Import Prelude Words.

(** ** Values; a number is its literal, an object keeps the order of its
    members and repeated names *)
Inductive json :=
| JNull
| JBool (b : bool)
| JNum (lit : bytes)
| JStr (s : bytes)
| JArr (l : list json)
| JObj (l : list (bytes * json)).

(** ** UTF-8 *)
Definition in_range (lo hi : Z) (b : byte) : bool := (lo <=? Z_of_byte b) && (Z_of_byte b <=? hi).
Definition cont : byte -> bool := in_range 128 191.

(** The length of the valid sequence at the front, 0 if there is none. *)
Definition rune_len (l : bytes) : nat :=
  match l with
  | [] => 0
  | a :: l =>
      if in_range 0 127 a then 1 else
      match l with
      | [] => 0
      | b :: l =>
          if in_range 194 223 a then if cont b then 2 else 0 else
          match l with
          | [] => 0
          | c :: l =>
              let ok2 := (in_range 224 224 a && in_range 160 191 b)
                         || ((in_range 225 236 a || in_range 238 239 a) && cont b)
                         || (in_range 237 237 a && in_range 128 159 b) in
              if in_range 224 239 a then if ok2 && cont c then 3 else 0 else
              match l with
              | [] => 0
              | d :: _ =>
                  let ok2 := (in_range 240 240 a && in_range 144 191 b)
                             || (in_range 241 243 a && cont b)
                             || (in_range 244 244 a && in_range 128 143 b) in
                  if ok2 && cont c && cont d then 4 else 0
              end
          end
      end
  end%nat.

(** [utf8.EncodeRune], for a code point that is not a surrogate. *)
Definition encode_rune (r : Z) : bytes :=
  map byte_of_Z
    (if r <? 128 then [r]
     else if r <? 2048 then [192 + r / 64; 128 + r mod 64]
     else if r <? 65536 then [224 + r / 4096; 128 + (r / 64) mod 64; 128 + r mod 64]
     else [240 + r / 262144; 128 + (r / 4096) mod 64; 128 + (r / 64) mod 64; 128 + r mod 64]).

Definition replacement : bytes := [xef; xbf; xbd].

Fixpoint utf8_from (n : nat) (l : bytes) : bool :=
  match l with
  | [] => (n =? 0)%nat
  | _ :: l' => match n with
               | S n => utf8_from n l'
               | O => match rune_len l with O => false | S n => utf8_from n l' end
               end
  end.
(** [utf8.Valid]. *)
Definition utf8 (l : bytes) : bool := utf8_from 0 l.

(** ** Printing *)
Definition hex4 (z : Z) : bytes :=
  map hex_digit [z / 4096; (z / 256) mod 16; (z / 16) mod 16; z mod 16].

Definition esc_u (z : Z) : bytes := x5c :: x75 :: hex4 z.

Definition esc_ascii (c : byte) : bytes :=
  let z := Z_of_byte c in
  if (z =? 34) || (z =? 92) then [x5c; c]
  else if z =? 8 then [x5c; x62] else if z =? 9 then [x5c; x74]
  else if z =? 10 then [x5c; x6e] else if z =? 12 then [x5c; x66]
  else if z =? 13 then [x5c; x72]
  else if (z <? 32) || (z =? 60) || (z =? 62) || (z =? 38) then esc_u z
  else [c].

(** The line and paragraph separators U+2028 and U+2029 are escaped too. *)
Definition is_separator (l : bytes) : bool :=
  match l with
  | a :: b :: c :: _ =>
      in_range 226 226 a && in_range 128 128 b && in_range 168 169 c
  | _ => false
  end.

(** [keep] or drop the next [n] bytes, the rest of a sequence. *)
Fixpoint esc_from (keep : bool) (n : nat) (l : bytes) : bytes :=
  match l with
  | [] => []
  | a :: l' =>
      match n with
      | S n => (if keep then [a] else []) ++ esc_from keep n l'
      | O =>
          match rune_len l with
          | O => esc_u 65533 ++ esc_from true 0 l'
          | S O => esc_ascii a ++ esc_from true 0 l'
          | S n =>
              if is_separator l
              then esc_u (8232 + Z_of_byte (nth 2 l x00) - 168) ++ esc_from false n l'
              else a :: esc_from true n l'
          end
      end
  end.

Definition print_string (s : bytes) : bytes := x22 :: esc_from true 0 s ++ [x22].

Definition commas (l : list bytes) : bytes :=
  match l with [] => [] | x :: l => x ++ concat (map (fun y => x2c :: y) l) end.

Definition str (s : string) : bytes := bytes_of_string s.

Fixpoint print (v : json) : bytes :=
  match v with
  | JNull => str "null"
  | JBool true => str "true"
  | JBool false => str "false"
  | JNum lit => lit
  | JStr s => print_string s
  | JArr l => x5b :: commas (map print l) ++ [x5d]
  | JObj l => x7b :: commas (map (fun '(k, v) => print_string k ++ x3a :: print v) l) ++ [x7d]
  end.

(** ** Parsing *)
Definition space (c : byte) : bool :=
  let z := Z_of_byte c in (z =? 32) || (z =? 9) || (z =? 10) || (z =? 13).

Fixpoint skip_ws (l : bytes) : bytes :=
  match l with c :: l' => if space c then skip_ws l' else l | [] => [] end.

Definition hex_val (c : byte) : option Z :=
  let z := Z_of_byte c in
  if (48 <=? z) && (z <=? 57) then Some (z - 48)
  else if (97 <=? z) && (z <=? 102) then Some (z - 87)
  else if (65 <=? z) && (z <=? 70) then Some (z - 55)
  else None.

Definition hex4_val (a b c d : byte) : option Z :=
  a ← hex_val a; b ← hex_val b; c ← hex_val c; d ← hex_val d;
  Some (((a * 16 + b) * 16 + c) * 16 + d).

(** The character behind a backslash. *)
Definition unesc (c : byte) : option byte :=
  let z := Z_of_byte c in
  if (z =? 34) || (z =? 92) || (z =? 47) then Some c
  else if z =? 98 then Some x08 else if z =? 116 then Some x09
  else if z =? 110 then Some x0a else if z =? 102 then Some x0c
  else if z =? 114 then Some x0d else None.

Definition surrogate (r : Z) : bool := (55296 <=? r) && (r <? 57344).
Definition combine (r1 r2 : Z) : option Z :=
  if (55296 <=? r1) && (r1 <? 56320) && (56320 <=? r2) && (r2 <? 57344)
  then Some (65536 + (r1 - 55296) * 1024 + (r2 - 56320)) else None.

Definition add_rune (r : Z) (res : option (bytes * bytes)) : option (bytes * bytes) :=
  '(s, rest) ← res; Some (encode_rune r ++ s, rest).
Definition add_bytes (x : bytes) (res : option (bytes * bytes)) : option (bytes * bytes) :=
  '(s, rest) ← res; Some (x ++ s, rest).

(** The characters up to the closing quote; [n] bytes of a valid sequence are
    still to be copied. *)
Fixpoint parse_chars (n : nat) (l : bytes) : option (bytes * bytes) :=
  match l with
  | [] => None
  | c :: l' =>
      match n with
      | S n => add_bytes [c] (parse_chars n l')
      | O =>
          if Byte.eqb c x22 then Some ([], l')
          else if Byte.eqb c x5c then
            match l' with
            | e :: l2 =>
                if Byte.eqb e x75 then
                  match l2 with
                  | h1 :: h2 :: h3 :: h4 :: l3 =>
                      r ← hex4_val h1 h2 h3 h4;
                      if surrogate r then
                        match l3 with
                        | b :: u :: g1 :: g2 :: g3 :: g4 :: l4 =>
                            match (if Byte.eqb b x5c && Byte.eqb u x75
                                   then hex4_val g1 g2 g3 g4 else None) ≫= combine r with
                            | Some r' => add_rune r' (parse_chars 0 l4)
                            | None => add_rune 65533 (parse_chars 0 l3)
                            end
                        | _ => add_rune 65533 (parse_chars 0 l3)
                        end
                      else add_rune r (parse_chars 0 l3)
                  | _ => None
                  end
                else x ← unesc e; add_bytes [x] (parse_chars 0 l2)
            | [] => None
            end
          else if Z_of_byte c <? 32 then None
          else match rune_len l with
               | O => add_bytes replacement (parse_chars 0 l')
               | S n => add_bytes [c] (parse_chars n l')
               end
      end
  end.

Definition is_digit (c : byte) : bool := in_range 48 57 c.

Fixpoint take_digits (l : bytes) : bytes * bytes :=
  match l with
  | c :: l' => if is_digit c then let '(d, r) := take_digits l' in (c :: d, r) else ([], l)
  | [] => ([], [])
  end.

(** Digits behind a point or an exponent: at least one. *)
Definition digits1 (l : bytes) : option (bytes * bytes) :=
  match take_digits l with ([], _) => None | dr => Some dr end.

Definition parse_frac (l : bytes) : option (bytes * bytes) :=
  match l with
  | c :: l' => if Byte.eqb c x2e then '(d, r) ← digits1 l'; Some (c :: d, r) else Some ([], l)
  | [] => Some ([], [])
  end.

Definition parse_exp (l : bytes) : option (bytes * bytes) :=
  match l with
  | c :: l' =>
      if Byte.eqb c x65 || Byte.eqb c x45 then
        let '(sgn, l2) := match l' with
                          | s :: l2 => if Byte.eqb s x2b || Byte.eqb s x2d then ([s], l2) else ([], l')
                          | [] => ([], [])
                          end in
        '(d, r) ← digits1 l2; Some (c :: sgn ++ d, r)
      else Some ([], l)
  | [] => Some ([], [])
  end.

Definition parse_int_part (l : bytes) : option (bytes * bytes) :=
  match l with
  | c :: l' => if Byte.eqb c x30 then Some ([c], l')
               else if is_digit c then Some (take_digits l) else None
  | [] => None
  end.

Definition parse_number (l : bytes) : option (bytes * bytes) :=
  let '(sgn, l) := match l with
                   | c :: l' => if Byte.eqb c x2d then ([c], l') else ([], l)
                   | [] => ([], [])
                   end in
  '(i, l) ← parse_int_part l; '(f, l) ← parse_frac l; '(e, l) ← parse_exp l;
  Some (sgn ++ i ++ f ++ e, l).

Fixpoint strip_prefix (p l : bytes) : option bytes :=
  match p, l with
  | [], _ => Some l
  | x :: p, y :: l => if Byte.eqb x y then strip_prefix p l else None
  | _, [] => None
  end.

Definition maxNestingDepth : Z := 10000.

Fixpoint parse_value (fuel : nat) (depth : Z) (l : bytes) : option (json * bytes) :=
  match fuel with
  | O => None
  | S fuel =>
      match skip_ws l with
      | [] => None
      | c :: l' =>
          if Byte.eqb c x22 then '(s, r) ← parse_chars 0 l'; Some (JStr s, r)
          else if Byte.eqb c x7b then
            if depth <=? 0 then None else
            match skip_ws l' with
            | [] => None
            | d :: r => if Byte.eqb d x7d then Some (JObj [], r)
                        else '(ms, r) ← parse_members fuel (depth - 1) (d :: r); Some (JObj ms, r)
            end
          else if Byte.eqb c x5b then
            if depth <=? 0 then None else
            match skip_ws l' with
            | [] => None
            | d :: r => if Byte.eqb d x5d then Some (JArr [], r)
                        else '(vs, r) ← parse_elems fuel (depth - 1) (d :: r); Some (JArr vs, r)
            end
          else if Byte.eqb c x6e then r ← strip_prefix (str "ull") l'; Some (JNull, r)
          else if Byte.eqb c x74 then r ← strip_prefix (str "rue") l'; Some (JBool true, r)
          else if Byte.eqb c x66 then r ← strip_prefix (str "alse") l'; Some (JBool false, r)
          else '(lit, r) ← parse_number (c :: l'); Some (JNum lit, r)
      end
  end
with parse_elems (fuel : nat) (depth : Z) (l : bytes) : option (list json * bytes) :=
  match fuel with
  | O => None
  | S fuel =>
      '(v, r) ← parse_value fuel depth l;
      match skip_ws r with
      | [] => None
      | d :: r => if Byte.eqb d x5d then Some ([v], r)
                  else if Byte.eqb d x2c then '(vs, r) ← parse_elems fuel depth r; Some (v :: vs, r)
                  else None
      end
  end
with parse_members (fuel : nat) (depth : Z) (l : bytes) : option (list (bytes * json) * bytes) :=
  match fuel with
  | O => None
  | S fuel =>
      match skip_ws l with
      | [] => None
      | q :: l =>
          if Byte.eqb q x22 then
            '(k, r) ← parse_chars 0 l;
            match skip_ws r with
            | [] => None
            | c :: r =>
                if Byte.eqb c x3a then
                  '(v, r) ← parse_value fuel depth r;
                  match skip_ws r with
                  | [] => None
                  | d :: r => if Byte.eqb d x7d then Some ([(k, v)], r)
                              else if Byte.eqb d x2c
                              then '(ms, r) ← parse_members fuel depth r; Some ((k, v) :: ms, r)
                              else None
                  end
                else None
            end
          else None
      end
  end.

(** Every call consumes a byte, so twice the length is fuel enough. *)
Definition parse (l : bytes) : option (json * bytes) :=
  parse_value (S (2 * length l)) maxNestingDepth l.

(** Text with apostrophes for quotes. *)
Definition quoted (s : string) : bytes := map (fun c => if Byte.eqb c x27 then x22 else c) (str s).

Example parse_example :
  parse (quoted " {'a' : [1, -2.5e3, true], 'b\u00e9':{} } x") =
    Some (JObj [(str "a", JArr [JNum (str "1"); JNum (str "-2.5e3"); JBool true]);
                ([x62; xc3; xa9], JObj [])], str " x").
Proof. vm_compute. reflexivity. Qed.

(** ** Strings: printing, then parsing *)
Lemma in_range_eq z a : in_range z z a = true -> a = byte_of_Z z.
Proof.
  unfold in_range. intros H. breflect. apply (inj Z_of_byte). rewrite Z_of_byte_of_Z.
  pose proof (Z_of_byte_range a). rewrite Z.mod_small; lia.
Qed.

Lemma rune_len_app l n r :
  rune_len l = S n -> rune_len (take (S n) l ++ r) = S n /\ (S n <= length l)%nat.
Proof.
  destruct l as [|a [|b [|c [|d l]]]]; cbn [rune_len]; intros H; repeat case_match; simplify_eq/=;
    repeat match goal with H : _ = true |- _ => rewrite H | H : _ = false |- _ => rewrite H end;
    split; done || lia.
Qed.

Lemma rune_len_lead a l n :
  rune_len (a :: l) = S (S n) -> Byte.eqb a x22 = false /\ Byte.eqb a x5c = false /\ 128 <= Z_of_byte a.
Proof.
  cbn [rune_len]. destruct (in_range 0 127 a) eqn:Ha; [done|]. intros _. revert Ha.
  unfold in_range. pose proof (Z_of_byte_range a). rewrite andb_false_iff, !Z.leb_gt. intros Ha.
  assert (128 <= Z_of_byte a) as Hle by lia. clear Ha. split_and!; [..|done];
    destruct (Byte.eqb a _) eqn:E; try done; apply byte_dec_bl in E; subst; by destruct Hle.
Qed.

Lemma rune_len_one a l : rune_len (a :: l) = 1%nat -> in_range 0 127 a = true.
Proof. cbn [rune_len]. intros H. by repeat case_match. Qed.

Lemma utf8_drop n l :
  utf8_from n l = true -> utf8_from 0 (drop n l) = true /\ (n <= length l)%nat.
Proof.
  revert l. induction n as [|n IH]; intros [|a l] Hu; try (split; [done|simpl; lia]); [done|].
  revert Hu. cbn [utf8_from drop length]. intros [H1 H2]%IH. split; [done|lia].
Qed.

Lemma esc_keep n l :
  (n <= length l)%nat -> esc_from true n l = take n l ++ esc_from true 0 (drop n l).
Proof.
  revert l. induction n as [|n IH]; intros [|a l] Hl; simpl in Hl; try done; try lia.
  cbn [esc_from take drop app]. by rewrite IH by lia.
Qed.

Lemma esc_drop n l : esc_from false n l = esc_from true 0 (drop n l).
Proof.
  revert l. induction n as [|n IH]; intros [|a l]; try done. cbn [esc_from drop app]. apply IH.
Qed.

Lemma parse_keep x l : parse_chars (length x) (x ++ l) = add_bytes x (parse_chars 0 l).
Proof.
  induction x as [|c x IH]; cbn [length app].
  - by destruct (parse_chars 0 l) as [[]|].
  - cbn [parse_chars]. rewrite IH. by destruct (parse_chars 0 l) as [[]|].
Qed.

Lemma parse_esc_ascii a q :
  in_range 0 127 a = true -> parse_chars 0 (esc_ascii a ++ q) = add_bytes [a] (parse_chars 0 q).
Proof. destruct a; try discriminate; intros _; reflexivity. Qed.

Lemma parse_esc_separator c q :
  in_range 168 169 c = true ->
  parse_chars 0 (esc_u (8232 + Z_of_byte c - 168) ++ q) = add_bytes [xe2; x80; c] (parse_chars 0 q).
Proof. destruct c; try discriminate; intros _; reflexivity. Qed.

Lemma parse_esc l r :
  utf8 l = true -> parse_chars 0 (esc_from true 0 l ++ x22 :: r) = Some (l, r).
Proof.
  unfold utf8. remember (length l) as k eqn:Hk. revert l Hk.
  induction k as [k IH] using lt_wf_ind. intros [|a l] Hk Hu; [done|]. cbn [length] in Hk.
  cbn [utf8_from] in Hu. destruct (rune_len (a :: l)) as [|[|n]] eqn:Hr; [done|..].
  - pose proof (rune_len_one _ _ Hr). cbn [esc_from]. rewrite Hr, <-app_assoc, parse_esc_ascii by done.
    by rewrite (IH (length l)) by (done || lia).
  - apply utf8_drop in Hu as [Hu Hn]. cbn [esc_from]. rewrite Hr.
    destruct (is_separator (a :: l)) eqn:Hsep.
    + destruct l as [|b [|c l]]; try done. cbn [is_separator] in Hsep. breflect.
      apply in_range_eq in H, H1. subst a b. assert (n = 1%nat) as ->.
      { revert Hr H0. destruct c; try discriminate; vm_compute; congruence. }
      rewrite esc_drop. cbn [nth drop]. rewrite <-app_assoc, parse_esc_separator by done.
      rewrite (IH (length l)); [done|simpl in Hk; lia|done|done].
    + rewrite esc_keep by done. cbn [app parse_chars]. rewrite <-app_assoc.
      destruct (rune_len_lead _ _ _ Hr) as (-> & -> & Ha).
      destruct (Z.ltb_spec (Z_of_byte a) 32); [lia|].
      destruct (rune_len_app _ _ (esc_from true 0 (drop (S n) l) ++ x22 :: r) Hr) as [Hr' _].
      cbn [take app] in Hr'. rewrite Hr'.
      assert (length (take (S n) l) = S n) as Hlen by (rewrite length_take; lia).
      rewrite <-Hlen at 1. rewrite parse_keep, (IH (length (drop (S n) l)));
        [|rewrite length_drop; lia|done|done].
      cbn. by rewrite take_drop.
Qed.

(** ** Integers in decimal *)
Fixpoint digits_fuel (fuel : nat) (n : Z) : bytes :=
  match fuel with
  | O => []
  | S fuel => (if n <? 10 then [] else digits_fuel fuel (n / 10)) ++ [byte_of_Z (48 + n mod 10)]
  end.

(** A number below [2^k] has at most [k] digits. *)
Definition digits (n : Z) : bytes := digits_fuel (S (Z.to_nat (Z.log2 n))) n.

Definition format_int (z : Z) : bytes := if z <? 0 then x2d :: digits (- z) else digits z.

Definition digits_value (l : bytes) : Z := foldl (fun a c => a * 10 + (Z_of_byte c - 48)) 0 l.

(** [strconv.ParseInt(lit, 10, 64)] of a JSON number literal. *)
Definition parse_int64 (lit : bytes) : option Z :=
  let '(neg, ds) := match lit with
                    | c :: l => if Byte.eqb c x2d then (true, l) else (false, lit)
                    | [] => (false, [])
                    end in
  let z := if neg : bool then - digits_value ds else digits_value ds in
  if forallb is_digit ds && (0 <? zlen ds) && (min_int64 <=? z) && (z <=? max_int64)
  then Some z else None.

Lemma digit_byte d : 0 <= d < 10 -> Z_of_byte (byte_of_Z (48 + d)) = 48 + d /\ is_digit (byte_of_Z (48 + d)) = true.
Proof.
  intros Hd. unfold is_digit, in_range. rewrite Z_of_byte_of_Z, Z.mod_small by lia.
  split; [done|]. apply andb_true_intro. split; lia.
Qed.

Lemma digits_value_snoc l c : digits_value (l ++ [c]) = digits_value l * 10 + (Z_of_byte c - 48).
Proof. unfold digits_value. by rewrite foldl_app. Qed.

Lemma digits_fuel_spec fuel n :
  0 <= n < 2 ^ Z.of_nat fuel -> (0 < fuel)%nat ->
  digits_value (digits_fuel fuel n) = n /\ forallb is_digit (digits_fuel fuel n) = true
  /\ exists c l, digits_fuel fuel n = c :: l /\ (0 < n -> c <> x30) /\ (n = 0 -> c = x30 /\ l = []).
Proof.
  revert n. induction fuel as [|fuel IH]; intros n Hn Hf; [lia|]. cbn [digits_fuel].
  pose proof (Z.mod_pos_bound n 10 eq_refl) as Hm. destruct (digit_byte _ Hm) as [Hv Hd].
  rewrite digits_value_snoc, Hv, forallb_app. destruct (Z.ltb_spec n 10) as [Hs|Hs].
  - cbn. rewrite Hd. split; [divlia|]. split; [done|]. eexists _, []. split; [done|]. split.
    + intros Hp Heq%(f_equal Z_of_byte). rewrite Hv in Heq. change (Z_of_byte x30) with 48 in Heq. divlia.
    + intros ->. done.
  - destruct (IH (n / 10)) as (H1 & H2 & c & l & Heq & Hc & _).
    + rewrite Nat2Z.inj_succ, Z.pow_succ_r in Hn by lia. divlia.
    + destruct fuel; [|lia]. simpl in Hn. lia.
    + rewrite H1, H2. cbn. rewrite Hd. split; [divlia|]. split; [done|].
      rewrite Heq. eexists c, _. split; [done|]. split; [|lia]. intros _. apply Hc. divlia.
Qed.

Lemma digits_spec n :
  0 <= n -> digits_value (digits n) = n /\ forallb is_digit (digits n) = true
  /\ exists c l, digits n = c :: l /\ (0 < n -> c <> x30) /\ (n = 0 -> c = x30 /\ l = []).
Proof.
  intros Hn. apply digits_fuel_spec; [|lia]. split; [done|].
  rewrite Nat2Z.inj_succ, Z2Nat.id by apply Z.log2_nonneg.
  destruct (Z.eq_dec n 0) as [->|]; [done|]. apply Z.log2_spec. lia.
Qed.

Lemma digit_not_minus c : is_digit c = true -> Byte.eqb c x2d = false.
Proof. by destruct c. Qed.

Lemma parse_format_int z : min_int64 <= z <= max_int64 -> parse_int64 (format_int z) = Some z.
Proof.
  intros Hz. unfold format_int, parse_int64. destruct (Z.ltb_spec z 0).
  - destruct (digits_spec (- z)) as (Hv & Hd & c & l & Heq & _); [lia|].
    change (Byte.eqb x2d x2d) with true. cbv iota. rewrite Hv, Hd, Heq, Z.opp_involutive.
    destruct (Z.ltb_spec 0 (zlen (c :: l))) as [_|Hl]; [|len].
    destruct (Z.leb_spec min_int64 z), (Z.leb_spec z max_int64); done || lia.
  - destruct (digits_spec z) as (Hv & Hd & c & l & Heq & _); [lia|]. rewrite Heq in *.
    rewrite digit_not_minus by (by cbn in Hd; apply andb_prop in Hd as [? _]).
    rewrite Hv, Hd. destruct (Z.ltb_spec 0 (zlen (c :: l))) as [_|Hl]; [|len].
    destruct (Z.leb_spec min_int64 z), (Z.leb_spec z max_int64); done || lia.
Qed.

(** What may follow a number. *)
Definition stops (l : bytes) : bool :=
  match l with
  | c :: _ => negb (is_digit c || Byte.eqb c x2e || Byte.eqb c x65 || Byte.eqb c x45)
  | [] => true
  end.

Lemma take_digits_app ds r :
  forallb is_digit ds = true -> stops r = true -> take_digits (ds ++ r) = (ds, r).
Proof.
  intros Hd Hr. induction ds as [|c ds IH]; cbn in *.
  - destruct r as [|c r]; [done|]. cbn in *. by destruct (is_digit c).
  - apply andb_prop in Hd as [-> Hd]. by rewrite (IH Hd).
Qed.

Lemma parse_int_part_digits n r :
  0 <= n -> stops r = true -> parse_int_part (digits n ++ r) = Some (digits n, r).
Proof.
  intros Hn Hr. destruct (digits_spec n Hn) as (_ & Hd & c & l & Heq & Hpos & Hz).
  rewrite Heq in *. cbn [app parse_int_part]. destruct (Byte.eqb c x30) eqn:Hc.
  - apply byte_dec_bl in Hc. destruct (Z.eq_dec n 0) as [E|]; [|by destruct Hpos; [lia|]].
    by destruct (Hz E) as [_ ->].
  - pose proof Hd as Hd'. cbn in Hd'. apply andb_prop in Hd' as [-> _].
    by rewrite app_comm_cons, take_digits_app.
Qed.

Lemma parse_number_format z r :
  stops r = true -> parse_number (format_int z ++ r) = Some (format_int z, r).
Proof.
  intros Hr. assert (parse_frac r = Some ([], r) /\ parse_exp r = Some ([], r)) as [Hf He].
  { destruct r as [|c r]; [done|]. cbn in *. apply negb_true_iff in Hr.
    repeat match goal with H : _ || _ = false |- _ => apply orb_false_iff in H as [? ?] end.
    by rewrite H0, H1, H2. }
  unfold parse_number, format_int. destruct (Z.ltb_spec z 0).
  - cbn [app]. change (Byte.eqb x2d x2d) with true. cbv iota.
    rewrite parse_int_part_digits by (done || lia). cbn [mbind option_bind].
    rewrite Hf. cbn [mbind option_bind]. rewrite He. cbn. by rewrite app_nil_r.
  - destruct (digits_spec z) as (_ & Hd & c & l & Heq & _); [lia|].
    pose proof (parse_int_part_digits z r ltac:(lia) Hr) as Hp. rewrite Heq in *. cbn [app] in *.
    rewrite digit_not_minus by (by cbn in Hd; apply andb_prop in Hd as [? _]).
    rewrite Hp. cbn [mbind option_bind]. rewrite Hf. cbn [mbind option_bind]. rewrite He. cbn.
    by rewrite app_nil_r.
Qed.

(** ** Values: printing, then parsing *)
Fixpoint good (v : json) : Prop :=
  match v with
  | JNull | JBool _ => True
  | JNum lit => exists z, lit = format_int z
  | JStr s => utf8 s = true
  | JArr l => Forall (fun P => P) (map good l)
  | JObj l => Forall (fun P => P) (map (fun '(k, v) => utf8 k = true /\ good v) l)
  end.

Fixpoint height (v : json) : Z :=
  match v with
  | JArr l => 1 + foldr Z.max 0 (map height l)
  | JObj l => 1 + foldr Z.max 0 (map (fun '(_, v) => height v) l)
  | _ => 0
  end.

Fixpoint json_ind' (P : json -> Prop) (Hnull : P JNull) (Hbool : forall b, P (JBool b))
    (Hnum : forall lit, P (JNum lit)) (Hstr : forall s, P (JStr s))
    (Harr : forall l, Forall P l -> P (JArr l))
    (Hobj : forall l, Forall (fun kv => P kv.2) l -> P (JObj l)) (v : json) : P v :=
  let rec := json_ind' P Hnull Hbool Hnum Hstr Harr Hobj in
  match v with
  | JNull => Hnull
  | JBool b => Hbool b
  | JNum lit => Hnum lit
  | JStr s => Hstr s
  | JArr l => Harr l ((fix go l := match l return Forall P l with
                                   | [] => Forall_nil_2 _
                                   | v :: l => Forall_cons_2 _ _ _ (rec v) (go l)
                                   end) l)
  | JObj l => Hobj l ((fix go l := match l return Forall (fun kv => P kv.2) l with
                                   | [] => Forall_nil_2 _
                                   | kv :: l => Forall_cons_2 _ _ _ (rec kv.2) (go l)
                                   end) l)
  end.

Lemma format_int_head z :
  exists c l, format_int z = c :: l /\ (c = x2d \/ is_digit c = true).
Proof.
  unfold format_int. destruct (Z.ltb_spec z 0); [eauto|].
  destruct (digits_spec z) as (_ & Hd & c & l & Heq & _); [lia|]. rewrite Heq in *.
  exists c, l. split; [done|]. right. cbn in Hd. by apply andb_prop in Hd as [? _].
Qed.

(** The first character of a value: no white space, no closing bracket. *)
Lemma print_head v :
  good v -> exists c l, print v = c :: l /\ space c = false /\ Byte.eqb c x5d = false
                        /\ Byte.eqb c x7d = false.
Proof.
  destruct v as [|[]| lit | s | l | l]; cbn [good print]; try (intros _; eexists _, _; done).
  intros [z ->]. destruct (format_int_head z) as (c & l & -> & Hc). exists c, l. split; [done|].
  destruct Hc as [->|Hc]; [done|]. by destruct c.
Qed.

Lemma skip_ws_head c l : space c = false -> skip_ws (c :: l) = c :: l.
Proof. intros Hc. cbn. by rewrite Hc. Qed.

(** What [parse_value] does with the text of [v], given enough fuel. *)
Definition reads (v : json) : Prop := forall fuel d r,
  height v <= d -> stops r = true -> (2 * length (print v) <= fuel)%nat ->
  parse_value fuel d (print v ++ r) = Some (v, r).

Lemma commas_cons x l : l <> [] -> commas (x :: l) = x ++ x2c :: commas l.
Proof. by destruct l as [|y l]. Qed.

Lemma parse_elems_print l fuel d r :
  l <> [] -> Forall reads l -> foldr Z.max 0 (map height l) <= d ->
  (2 * length (commas (map print l)) < fuel)%nat ->
  parse_elems fuel d (commas (map print l) ++ x5d :: r) = Some (l, r).
Proof.
  intros Hl Hr. revert fuel Hl. induction Hr as [|v l Hv Hr IH]; [done|].
  intros [|fuel] _ Hh Hf; [lia|]. cbn [map foldr] in *. cbn [parse_elems].
  destruct l as [|v' l].
  - cbn [map commas concat] in *. rewrite app_nil_r in *.
    rewrite Hv; [done|lia|done|lia].
  - cbn [map] in *. rewrite commas_cons in Hf |- * by done. rewrite length_app in Hf. rewrite <-app_assoc.
    cbn [app length] in *. rewrite Hv; [|lia|done|lia]. cbn [mbind option_bind].
    rewrite skip_ws_head by done. change (Byte.eqb x2c x5d) with false. change (Byte.eqb x2c x2c) with true.
    cbv iota. rewrite IH; [done|done|lia|lia].
Qed.

Lemma parse_string_print s r : utf8 s = true ->
  parse_chars 0 (esc_from true 0 s ++ [x22] ++ r) = Some (s, r).
Proof. apply parse_esc. Qed.

Definition print_member (kv : bytes * json) : bytes := print_string kv.1 ++ x3a :: print kv.2.

Lemma parse_members_print l fuel d r :
  l <> [] -> Forall (fun kv => utf8 kv.1 = true) l -> Forall (fun kv => reads kv.2) l ->
  foldr Z.max 0 (map (fun kv => height kv.2) l) <= d ->
  (2 * length (commas (map print_member l)) < fuel)%nat ->
  parse_members fuel d (commas (map print_member l) ++ x7d :: r) = Some (l, r).
Proof.
  intros Hl Hu Hr. revert fuel Hl. induction Hr as [|[k v] l Hv Hr IH]; [done|].
  apply Forall_cons in Hu as [Hk Hu]. specialize (IH Hu). cbn [fst snd] in *.
  intros [|fuel] _ Hh Hf; [lia|]. cbn [map foldr snd] in *.
  assert (forall q, parse_members (S fuel) d (print_member (k, v) ++ q)
    = ('(v, r) ← parse_value fuel d (print v ++ q);
       match skip_ws r with
       | [] => None
       | c :: r => if Byte.eqb c x7d then Some ([(k, v)], r)
                   else if Byte.eqb c x2c
                   then '(ms, r) ← parse_members fuel d r; Some ((k, v) :: ms, r) else None
       end)) as Hstep.
  { intros q. unfold print_member, print_string. cbn [fst snd app].
    rewrite <-!app_assoc. cbn [parse_members]. rewrite skip_ws_head by done.
    change (Byte.eqb x22 x22) with true. cbv iota.
    rewrite parse_string_print by done. cbn [mbind option_bind app].
    rewrite skip_ws_head by done. done. }
  assert (length (print_member (k, v)) = length (print_string k) + S (length (print v)))%nat as Hlen
    by (unfold print_member; by rewrite length_app).
  destruct l as [|kv' l].
  - cbn [map commas concat] in *. rewrite app_nil_r in *. rewrite Hstep.
    rewrite Hv; [done|lia|done|lia].
  - cbn [map] in *. rewrite commas_cons in Hf |- * by done. rewrite length_app in Hf. rewrite <-app_assoc.
    rewrite Hstep. cbn [app length] in *. rewrite Hv; [|lia|done|lia]. cbn [mbind option_bind].
    rewrite skip_ws_head by done. change (Byte.eqb x2c x7d) with false.
    change (Byte.eqb x2c x2c) with true. cbv iota.
    rewrite IH; [done|done|lia|lia].
Qed.

Lemma foldr_max_nonneg l : 0 <= foldr Z.max 0 l.
Proof. induction l; simpl; lia. Qed.

Lemma parse_value_print v : good v -> reads v.
Proof.
  induction v as [|b|lit|s|l IH|l IH] using json_ind'; cbn [good]; intros Hg fuel d r Hh Hs Hf.
  - destruct fuel; [simpl in Hf; lia|]. done.
  - destruct fuel; [destruct b; simpl in Hf; lia|]. by destruct b.
  - destruct Hg as [z ->]. destruct (format_int_head z) as (c & l & Heq & Hc).
    destruct fuel; [simpl in Hf; rewrite Heq in Hf; simpl in Hf; lia|].
    cbn [print]. pose proof (parse_number_format z r Hs) as Hp. rewrite Heq in *.
    cbn [app parse_value] in *. rewrite skip_ws_head by (destruct Hc as [->|Hc]; [done|by destruct c]).
    rewrite Hp. destruct Hc as [->|Hc]; [done|]. by destruct c.
  - destruct fuel; [simpl in Hf; lia|]. unfold print, print_string. cbn [app parse_value].
    rewrite skip_ws_head by done. change (Byte.eqb x22 x22) with true. cbv iota.
    by rewrite <-app_assoc, parse_string_print.
  - destruct fuel as [|fuel]; [simpl in Hf; lia|]. cbn [print height] in *.
    pose proof (foldr_max_nonneg (map height l)).
    cbn [app parse_value]. rewrite skip_ws_head by done.
    change (Byte.eqb x5b x22) with false. change (Byte.eqb x5b x7b) with false.
    change (Byte.eqb x5b x5b) with true. cbv iota.
    destruct (Z.leb_spec d 0); [lia|]. destruct (decide (l = [])) as [->|Hl]; [done|].
    rewrite Forall_map in Hg. assert (Forall reads l) as Hr.
    { apply Forall_forall. intros v Hv. rewrite Forall_forall in IH, Hg. by apply IH; [|apply Hg]. }
    rewrite <-app_assoc. pose proof (parse_elems_print l fuel (d - 1) r Hl Hr ltac:(lia)) as Hp.
    cbn [length] in Hf. rewrite length_app in Hf. cbn [length] in Hf.
    specialize (Hp ltac:(lia)). destruct l as [|v l]; [done|]. apply Forall_cons in Hg as [Hv _].
    destruct (print_head v Hv) as (c & k & Heq & Hws & Hc & _).
    assert (commas (map print (v :: l)) ++ x5d :: r
      = c :: (k ++ concat (map (fun y => x2c :: y) (map print l)) ++ x5d :: r)) as Hshape.
    { cbn [map commas]. by rewrite Heq, <-app_assoc. }
    cbn [app]. rewrite Hshape in *. rewrite skip_ws_head, Hc by done. by rewrite Hp.
  - destruct fuel as [|fuel]; [simpl in Hf; lia|]. cbn [print height] in *.
    pose proof (foldr_max_nonneg (map (fun kv : bytes * json => height kv.2) l)).
    replace (map (fun '(_, v) => height v) l) with (map (fun kv : bytes * json => height kv.2) l) in Hh
      by (apply map_ext; by intros []).
    replace (map (fun '(k, v) => print_string k ++ x3a :: print v) l) with (map print_member l) in *
      by (apply map_ext; by intros []).
    cbn [app parse_value]. rewrite skip_ws_head by done.
    change (Byte.eqb x7b x22) with false. change (Byte.eqb x7b x7b) with true. cbv iota.
    destruct (Z.leb_spec d 0); [lia|]. destruct (decide (l = [])) as [->|Hl]; [done|].
    rewrite Forall_map in Hg. assert (Forall (fun kv => utf8 kv.1 = true) l) as Hu.
    { eapply Forall_impl; [exact Hg|]. by intros [k v] []. }
    assert (Forall (fun kv => reads kv.2) l) as Hr.
    { apply Forall_forall. intros [k v] Hv. rewrite Forall_forall in IH, Hg.
      apply IH; [done|]. by apply (Hg (k, v)). }
    rewrite <-app_assoc. pose proof (parse_members_print l fuel (d - 1) r Hl Hu Hr ltac:(lia)) as Hp.
    cbn [length] in Hf. rewrite length_app in Hf. cbn [length] in Hf.
    specialize (Hp ltac:(lia)). destruct l as [|[k v] l]; [done|].
    cbn [map commas] in Hp |- *.
    change (print_member (k, v)) with (x22 :: (esc_from true 0 k ++ [x22]) ++ x3a :: print v) in Hp |- *.
    cbn [app] in Hp |- *.
    rewrite skip_ws_head by done. change (Byte.eqb x22 x7d) with false. cbv iota.
    by rewrite Hp.
Qed.

Lemma parse_print v r : good v -> height v <= maxNestingDepth -> stops r = true ->
  parse (print v ++ r) = Some (v, r).
Proof.
  intros Hg Hh Hs. apply parse_value_print; [done..|]. rewrite length_app. lia.
Qed.
