(* ===== verification/Protocol.v ===== *)
(** The message protocol (src/internal/protocol): the envelope and its payloads
    as JSON, one request and at most one reply per stream, a limit on the size
    of a message and on the number of streams served at once.

    libp2p streams are scripted readers ([Io.stream]); the host is the class
    [Host].  A deadline that passes is a stream that ends with [ErrDeadline]. *)
From S2P Require Import Prelude Words Io Json Middleware GoStrings.

(** ** Constants *)
Definition TypeStoreFile : string := "STORE_FILE".
Definition TypeStoreFileResp : string := "STORE_FILE_RESP".
Definition TypeGetFile : string := "GET_FILE".
Definition TypeError : string := "ERROR".

Definition StatusSuccess : string := "success".
Definition StatusNotFound : string := "file not found".
Definition StatusReadFailed : string := "failed to read file".
Definition StatusEmptyKey : string := "key cannot be empty".
Definition StatusInvalidMsg : string := "invalid message format".
Definition StatusUnknownType : string := "unknown message type".
Definition StatusSessionRejected : string := "session rejected".
Definition StatusAlreadyExists : string := "file already exists".

(** ** The envelope and the payloads *)

(** [Data] is raw JSON: [None] when it is nil. *)
Record Message := { Type_ : string; Data : option json }.

Record StoreFilePayload := { sf_Key : string; sf_Session : string }.
Record StoreFileRespPayload := { sr_Key : string; sr_Status : string }.
Record GetFilePayload := {
  gf_Key : string;
  gf_MsgID : string;
  gf_TTL : Z;
  gf_RequesterID : string;
  gf_RequesterAddrs : list string;
}.
Record ErrorPayload := { ep_Reason : string }.

#[export] Instance GetFilePayload_eq_dec : EqDecision GetFilePayload.
Proof. solve_decision. Defined.

(** [core.Message] is [any]: nothing, an envelope, or a value of another type. *)
Inductive any_message := MsgNil | MsgProto (m : Message) | MsgOther.

(** ** [json.Marshal] *)
Definition jstr (s : string) : json := JStr (str s).

Class Marshal (T : Type) := { marshal : T -> json }.

(** A field with [omitempty] is left out when it is the empty string. *)
Definition field (name s : string) : list (bytes * json) := [(str name, jstr s)].
Definition field_omitempty (name s : string) : list (bytes * json) :=
  if decide (s = "") then [] else field name s.

#[export] Instance Message_Marshal : Marshal Message :=
  {| marshal m := JObj (field "type" (Type_ m)
       ++ match Data m with Some d => [(str "data", d)] | None => [] end) |}.
#[export] Instance StoreFilePayload_Marshal : Marshal StoreFilePayload :=
  {| marshal p := JObj (field "key" (sf_Key p) ++ field_omitempty "session" (sf_Session p)) |}.
#[export] Instance StoreFileRespPayload_Marshal : Marshal StoreFileRespPayload :=
  {| marshal p := JObj (field_omitempty "key" (sr_Key p) ++ field "status" (sr_Status p)) |}.
#[export] Instance GetFilePayload_Marshal : Marshal GetFilePayload :=
  {| marshal p := JObj (field "key" (gf_Key p) ++ field "msg_id" (gf_MsgID p)
       ++ [(str "ttl", JNum (format_int (gf_TTL p)))]
       ++ field "requester_id" (gf_RequesterID p)
       ++ [(str "requester_addrs", JArr (map jstr (gf_RequesterAddrs p)))]) |}.
#[export] Instance ErrorPayload_Marshal : Marshal ErrorPayload :=
  {| marshal p := JObj (field "reason" (ep_Reason p)) |}.
#[export] Instance string_Marshal : Marshal string := {| marshal := jstr |}.

Definition NewMessage {T} `{Marshal T} (msgType : string) (payload : T) : Message :=
  {| Type_ := msgType; Data := Some (marshal payload) |}.

(** ** [json.Unmarshal]

    Members are matched to the fields by name, exactly or up to case, in their
    order; unknown ones are skipped, [null] leaves a field as it is.  A value of
    the wrong type is an error. *)

(** Case folding; U+212A and U+017F fold to k and s. *)
Fixpoint fold_name (l : bytes) : bytes :=
  match l with
  | [] => []
  | c :: l' =>
      match l' with
      | d :: l2 =>
          if Byte.eqb c xc5 && Byte.eqb d xbf then x73 :: fold_name l2 else
          match l2 with
          | e :: l3 => if Byte.eqb c xe2 && Byte.eqb d x84 && Byte.eqb e xaa
                       then x6b :: fold_name l3
                       else Ascii.byte_of_ascii (ascii_lower (Ascii.ascii_of_byte c)) :: fold_name l'
          | [] => Ascii.byte_of_ascii (ascii_lower (Ascii.ascii_of_byte c)) :: fold_name l'
          end
      | [] => [Ascii.byte_of_ascii (ascii_lower (Ascii.ascii_of_byte c))]
      end
  end.

Definition find_field (names : list string) (k : bytes) : option string :=
  match find (fun n => bool_decide (str n = k)) names with
  | Some n => Some n
  | None => find (fun n => bool_decide (str n = fold_name k)) names
  end.

Definition errUnmarshalType : goerr := Errorf "json: cannot unmarshal".

Definition get_string (cur : string) (v : json) : result string :=
  match v with JStr s => Ok (string_of_bytes s) | JNull => Ok cur | _ => Err errUnmarshalType end.

Definition get_int (cur : Z) (v : json) : result Z :=
  match v with
  | JNum lit => match parse_int64 lit with Some z => Ok z | None => Err errUnmarshalType end
  | JNull => Ok cur
  | _ => Err errUnmarshalType
  end.

Fixpoint get_string_list (l : list json) : result (list string) :=
  match l with
  | [] => Ok []
  | v :: l => get_string "" v ≫= fun s => get_string_list l ≫= fun ss => Ok (s :: ss)
  end.

Definition get_strings (v : json) : result (list string) :=
  match v with JArr l => get_string_list l | JNull => Ok [] | _ => Err errUnmarshalType end.

(** [set name v x] stores the value of the field [name]. *)
Fixpoint set_fields {T} (names : list string) (set : string -> json -> T -> result T)
    (ms : list (bytes * json)) (x : T) : result T :=
  match ms with
  | [] => Ok x
  | (k, v) :: ms =>
      match find_field names k with
      | Some n => set n v x ≫= set_fields names set ms
      | None => set_fields names set ms x
      end
  end.

Definition unmarshal_struct {T} (names : list string) (set : string -> json -> T -> result T)
    (zero : T) (v : json) : result T :=
  match v with
  | JObj ms => set_fields names set ms zero
  | JNull => Ok zero
  | _ => Err errUnmarshalType
  end.

Class Unmarshal (T : Type) := { unmarshal : json -> result T }.

#[export] Instance Message_Unmarshal : Unmarshal Message :=
  {| unmarshal := unmarshal_struct ["type"; "data"]
       (fun n v m =>
          if decide (n = "type")
          then get_string (Type_ m) v ≫= fun s => Ok {| Type_ := s; Data := Data m |}
          else Ok {| Type_ := Type_ m; Data := Some v |})
       {| Type_ := ""; Data := None |} |}.

#[export] Instance StoreFilePayload_Unmarshal : Unmarshal StoreFilePayload :=
  {| unmarshal := unmarshal_struct ["key"; "session"]
       (fun n v p =>
          if decide (n = "key")
          then get_string (sf_Key p) v ≫= fun s => Ok {| sf_Key := s; sf_Session := sf_Session p |}
          else get_string (sf_Session p) v ≫= fun s => Ok {| sf_Key := sf_Key p; sf_Session := s |})
       {| sf_Key := ""; sf_Session := "" |} |}.

#[export] Instance StoreFileRespPayload_Unmarshal : Unmarshal StoreFileRespPayload :=
  {| unmarshal := unmarshal_struct ["key"; "status"]
       (fun n v p =>
          if decide (n = "key")
          then get_string (sr_Key p) v ≫= fun s => Ok {| sr_Key := s; sr_Status := sr_Status p |}
          else get_string (sr_Status p) v ≫= fun s => Ok {| sr_Key := sr_Key p; sr_Status := s |})
       {| sr_Key := ""; sr_Status := "" |} |}.

#[export] Instance GetFilePayload_Unmarshal : Unmarshal GetFilePayload :=
  {| unmarshal := unmarshal_struct ["key"; "msg_id"; "ttl"; "requester_id"; "requester_addrs"]
       (fun n v p =>
          let put k m t r a := {| gf_Key := k; gf_MsgID := m; gf_TTL := t; gf_RequesterID := r;
                                  gf_RequesterAddrs := a |} in
          if decide (n = "key") then get_string (gf_Key p) v ≫= fun s =>
            Ok (put s (gf_MsgID p) (gf_TTL p) (gf_RequesterID p) (gf_RequesterAddrs p))
          else if decide (n = "msg_id") then get_string (gf_MsgID p) v ≫= fun s =>
            Ok (put (gf_Key p) s (gf_TTL p) (gf_RequesterID p) (gf_RequesterAddrs p))
          else if decide (n = "ttl") then get_int (gf_TTL p) v ≫= fun z =>
            Ok (put (gf_Key p) (gf_MsgID p) z (gf_RequesterID p) (gf_RequesterAddrs p))
          else if decide (n = "requester_id") then get_string (gf_RequesterID p) v ≫= fun s =>
            Ok (put (gf_Key p) (gf_MsgID p) (gf_TTL p) s (gf_RequesterAddrs p))
          else get_strings v ≫= fun l =>
            Ok (put (gf_Key p) (gf_MsgID p) (gf_TTL p) (gf_RequesterID p) l))
       {| gf_Key := ""; gf_MsgID := ""; gf_TTL := 0; gf_RequesterID := "";
          gf_RequesterAddrs := [] |} |}.

#[export] Instance ErrorPayload_Unmarshal : Unmarshal ErrorPayload :=
  {| unmarshal := unmarshal_struct ["reason"]
       (fun _ v p => get_string (ep_Reason p) v ≫= fun s => Ok {| ep_Reason := s |})
       {| ep_Reason := "" |} |}.

(** [Decode[T](m)]: unmarshalling nothing is an error. *)
Definition Decode {T} `{Unmarshal T} (m : Message) : result T :=
  match Data m with
  | Some v => unmarshal v
  | None => Err (Errorf "unexpected end of JSON input")
  end.

(** ** Streams *)
Record Config := {
  MaxMessageSize : Z;
  ReadTimeout : duration;
  WriteTimeout : duration;
  HandlerTimeout : duration;
}.

Definition DefaultConfig : Config :=
  {| MaxMessageSize := Z.shiftl 1 20; ReadTimeout := 5 * Second; WriteTimeout := 5 * Second;
     HandlerTimeout := 5 * Second |}.

(** [encoder.Encode(v)]. *)
Definition encode {T} `{Marshal T} (x : T) : bytes := print (marshal x) ++ [x0a].

(** [json.NewDecoder(io.LimitReader(s, limit)).Decode(&v)]: the first value of
    what the stream delivers within the limit.  Nothing behind it is waited
    for; without one the error is the stream's end. *)
Definition decode {T} `{Unmarshal T} (limit : Z) (s : stream) : result T :=
  let text := rd_bytes (Limited s limit) in
  match parse text with
  | Some (v, _) => unmarshal v
  | None => Err (Wrap "decode" (readfull_err text (rd_end (Limited s limit))))
  end.

(** What becomes of a stream: reset, or closed with what was written to it. *)
Inductive stream_end := SReset | SClosed (written : bytes).

Definition handleStream {St} (cfg : Config) (handler : Handler St any_message)
    (limiter : Limiter) (st : St) (peerID : peer_ID) (s : stream) :
    Limiter * St * stream_end :=
  let '(limiter, ok) := Acquire limiter in
  if ok then
    let done st w := (default limiter (Release limiter), st, SClosed w) in
    match decode (MaxMessageSize cfg) s : result Message with
    | Err _ => done st []
    | Ok msg =>
        let '(st, resp) := handler st peerID (MsgProto msg) in
        match resp with
        | Err _ => done st []
        | Ok MsgNil => done st []
        | Ok (MsgProto m) => done st (encode m)
        | Ok MsgOther => done st []
        end
    end
  else (limiter, st, SReset).

(** The two directions of a stream the host has opened: what writing [b]
    returns, and what can be read once [b] has been written. *)
Record conn := { c_write : bytes -> option goerr; c_read : bytes -> stream }.

Class Host := { host_NewStream : peer_ID -> string -> result conn }.

Section client.
Context `{Host} (cfg : Config) (protocolID : string).

Definition SendOneWay (peerID : peer_ID) (msg : Message) : option goerr :=
  match host_NewStream peerID protocolID with
  | Err e => Some e
  | Ok s => c_write s (encode msg)
  end.

Definition Send (peerID : peer_ID) (msg : Message) : result Message :=
  host_NewStream peerID protocolID ≫= fun s =>
  match c_write s (encode msg) with
  | Some e => Err e
  | None => decode (MaxMessageSize cfg) (c_read s (encode msg))
  end.
End client.

(** [PingHandler.Handle]. *)
Definition ping_Handle {St} : Handler St any_message := fun st peerID msg =>
  match msg with
  | MsgProto m => (st, Ok (MsgProto (NewMessage "PONG" "hello back")))
  | _ => (st, Err (Errorf "invalid message type"))
  end.

(** ** Round trips *)

(** Valid UTF-8, the strings JSON carries unchanged. *)
Definition utf8_string (s : string) : Prop := utf8 (str s) = true.

(** A type whose values survive JSON: marshalled to a well-formed value, and
    back to the same value. *)
Class RoundTrip (T : Type) `{Marshal T, Unmarshal T} := {
  proper : T -> Prop;
  unmarshal_marshal x : proper x -> unmarshal (marshal x) = Ok x;
  marshal_good x : proper x -> good (marshal x) /\ height (marshal x) < maxNestingDepth;
}.

Lemma get_jstr cur s : get_string cur (jstr s) = Ok s.
Proof. unfold get_string, jstr, str. by rewrite string_of_bytes_of_string. Qed.

Lemma get_jstrs l : get_strings (JArr (map jstr l)) = Ok l.
Proof.
  cbn [get_strings]. induction l as [|s l IH]; [done|]. cbn [map get_string_list].
  rewrite get_jstr. cbn [mbind result_bind]. by rewrite IH.
Qed.

Lemma get_format_int cur z : min_int64 <= z <= max_int64 -> get_int cur (JNum (format_int z)) = Ok z.
Proof. intros Hz. cbn. by rewrite parse_format_int. Qed.

(** The fields of a struct, one after the other. *)
Lemma set_fields_cons {T} names set (k : string) v ms (x y : T) n :
  find_field names (str k) = Some n -> set n v x = Ok y ->
  set_fields names set ((str k, v) :: ms) x = set_fields names set ms y.
Proof. intros Hf Hs. cbn [set_fields]. rewrite Hf, Hs. done. Qed.

Ltac next_field :=
  erewrite set_fields_cons;
    [|vm_compute; reflexivity
     |cbv beta; repeat (rewrite decide_True by done || rewrite decide_False by done);
      rewrite ?get_jstr, ?get_jstrs, ?get_format_int by done; reflexivity].

Lemma height_strings l : foldr Z.max 0 (map height (map jstr l)) = 0.
Proof. induction l as [|s l IH]; [done|]. cbn [map foldr]. by rewrite IH. Qed.

Lemma good_strings l : Forall utf8_string l -> Forall (fun P => P) (map good (map jstr l)).
Proof. intros Hl. rewrite !Forall_map. eapply Forall_impl; [exact Hl|]. done. Qed.

#[export] Program Instance StoreFilePayload_RoundTrip : RoundTrip StoreFilePayload :=
  {| proper p := utf8_string (sf_Key p) /\ utf8_string (sf_Session p) |}.
Next Obligation.
  intros [key session] [Hk Hs]. unfold marshal, unmarshal; cbn [StoreFilePayload_Marshal
    StoreFilePayload_Unmarshal unmarshal_struct sf_Key sf_Session]. unfold field_omitempty, field.
  cbn [app]. next_field. case_decide; subst; cbn [app]; [done|]. by next_field.
Qed.
Next Obligation.
  intros [key session] [Hk Hs]. cbn in *. unfold field_omitempty.
  case_decide; cbn; repeat constructor; done.
Qed.

#[export] Program Instance StoreFileRespPayload_RoundTrip : RoundTrip StoreFileRespPayload :=
  {| proper p := utf8_string (sr_Key p) /\ utf8_string (sr_Status p) |}.
Next Obligation.
  intros [key status] [Hk Hs]. unfold marshal, unmarshal; cbn [StoreFileRespPayload_Marshal
    StoreFileRespPayload_Unmarshal unmarshal_struct sr_Key sr_Status]. unfold field_omitempty, field.
  case_decide; subst; cbn [app]; repeat next_field; done.
Qed.
Next Obligation.
  intros [key status] [Hk Hs]. cbn in *. unfold field_omitempty.
  case_decide; cbn; repeat constructor; done.
Qed.

Lemma GetFilePayload_unmarshal (p : GetFilePayload) :
  min_int64 <= gf_TTL p <= max_int64 -> unmarshal (marshal p) = Ok p.
Proof.
  destruct p as [key id ttl rid addrs]. intros Ht. cbn in Ht.
  unfold marshal, unmarshal; cbn [GetFilePayload_Marshal GetFilePayload_Unmarshal unmarshal_struct
    gf_Key gf_MsgID gf_TTL gf_RequesterID gf_RequesterAddrs]. unfold field. cbn [app].
  repeat next_field. done.
Qed.

#[export] Program Instance GetFilePayload_RoundTrip : RoundTrip GetFilePayload :=
  {| proper p := utf8_string (gf_Key p) /\ utf8_string (gf_MsgID p)
       /\ utf8_string (gf_RequesterID p) /\ Forall utf8_string (gf_RequesterAddrs p)
       /\ min_int64 <= gf_TTL p <= max_int64 |}.
Next Obligation.
  intros p (_ & _ & _ & _ & Ht). by apply GetFilePayload_unmarshal.
Qed.
Next Obligation.
  intros [key id ttl rid addrs] (Hk & Hi & Hr & Ha & Ht). cbn in *. split.
  - pose proof (good_strings _ Ha). repeat apply Forall_cons_2; [..|constructor]; split; eauto; done.
  - rewrite height_strings. done.
Qed.

(** A message survives if its data is a well-formed JSON value. *)
#[export] Program Instance Message_RoundTrip : RoundTrip Message :=
  {| proper m := utf8_string (Type_ m)
       /\ match Data m with Some d => good d /\ height d + 1 < maxNestingDepth | None => True end |}.
Next Obligation.
  intros [ty [d|]] [Ht Hd]; unfold marshal, unmarshal; cbn [Message_Marshal Message_Unmarshal
    unmarshal_struct Type_ Data]; unfold field; cbn [app]; repeat next_field; done.
Qed.
Next Obligation.
  intros [ty [d|]] [Ht Hd]; cbn [Type_ Data] in *; (split; [repeat constructor; done || apply Hd|]);
    [|done].
  change (1 + Z.max 0 (Z.max (height d) 0) < maxNestingDepth). destruct Hd as [_ Hh]. unfold maxNestingDepth in *. lia.
Qed.

Lemma NewMessage_proper {T} `{RoundTrip T} ty (p : T) :
  proper p -> utf8_string ty -> height (marshal p) + 1 < maxNestingDepth ->
  proper (NewMessage ty p).
Proof. intros Hp Ht Hh. split; [done|]. split; [by apply marshal_good|done]. Qed.

Lemma Decode_NewMessage {T} `{RoundTrip T} ty (p : T) : proper p -> Decode (NewMessage ty p) = Ok p.
Proof. intros Hp. unfold Decode. cbn. by apply unmarshal_marshal. Qed.

(** What the fields of a struct preserve, the struct has. *)
Lemma set_fields_inv {T} (P : T -> Prop) names set ms (x y : T) :
  (forall n v x y, P x -> set n v x = Ok y -> P y) -> P x -> set_fields names set ms x = Ok y -> P y.
Proof.
  intros Hset. revert x. induction ms as [|[k v] ms IH]; intros x Hx; cbn [set_fields]; [by intros [= <-]|].
  destruct (find_field names k); [|by apply IH].
  rewrite result_bind_ok. intros (z & Hz & Hms). by eapply IH; [eapply Hset|].
Qed.

Lemma get_int_range cur v z :
  min_int64 <= cur <= max_int64 -> get_int cur v = Ok z -> min_int64 <= z <= max_int64.
Proof.
  intros Hc. destruct v; cbn; try done; [by intros [= <-]|].
  unfold parse_int64. destruct (match lit with [] => _ | _ => _ end) as [neg ds].
  set (x := if neg then - digits_value ds else digits_value ds). cbn zeta.
  destruct (forallb is_digit ds && (0 <? zlen ds) && (min_int64 <=? x) && (x <=? max_int64)) eqn:E;
    [|done]. intros [= <-]. breflect. done.
Qed.

(** A decoded TTL is an [int]. *)
Lemma Decode_TTL_range m (q : GetFilePayload) :
  Decode m = Ok q -> min_int64 <= gf_TTL q <= max_int64.
Proof.
  unfold Decode. destruct (Data m) as [v|]; [|done]. unfold unmarshal. cbn [GetFilePayload_Unmarshal].
  unfold unmarshal_struct. destruct v; try done; [by intros [= <-]|].
  apply (set_fields_inv (fun q => min_int64 <= gf_TTL q <= max_int64)); [|done].
  intros n v p p' Hp. repeat case_decide; rewrite result_bind_ok; intros (z & Hz & [= <-]); cbn; try done.
  by eapply get_int_range.
Qed.

(** ** Encoding and decoding *)
Lemma rd_bytes_limited s limit : rd_bytes (Limited s limit) = take (Z.to_nat limit) (rd_bytes s).
Proof. done. Qed.

(** What [encode] has written is decoded, however it is cut into pieces and
    whatever follows it, if it fits the limit. *)
Lemma decode_encode {T} `{RoundTrip T} (x : T) limit s rest :
  proper x -> zlen (encode x) <= limit -> rd_bytes s = encode x ++ rest -> decode limit s = Ok x.
Proof.
  intros Hx Hlen Hs. unfold decode. rewrite rd_bytes_limited, Hs. unfold encode in *.
  rewrite take_app_ge by len. rewrite <-!app_assoc.
  destruct (marshal_good x Hx) as [Hg Hh]. rewrite parse_print; [|done|lia|done].
  by apply unmarshal_marshal.
Qed.

Lemma Release_Acquire l l' : Acquire l = (l', true) -> Release l' = Some l.
Proof.
  unfold Acquire. destruct (_ <? _)%nat; [|done]. intros [= <-]. unfold Release. cbn. by destruct l.
Qed.

(** [Send] to a peer whose streams are served by [handleStream]. *)
Lemma Send_served {St} `{Host} (cfg : Config) protocolID peerID self (h : Handler St any_message)
    lim st (msg : Message) cut
    (Hslot : (Acquire lim).2 = true) (Hmsg : proper msg)
    (Hlen : zlen (encode msg) <= MaxMessageSize cfg)
    (Hcut : forall b : bytes, concat (cut b) = b)
    (Hserved : host_NewStream peerID protocolID = Ok {|
       c_write := fun _ => None;
       c_read := fun b => match (handleStream cfg h lim st self (Stream (cut b) EOF)).2 with
                          | SClosed w => Stream (cut w) EOF
                          | SReset => Stream [] (Errorf "stream reset")
                          end |}) :
  (handleStream cfg h lim st self (Stream (cut (encode msg)) EOF)).1
    = (lim, (h st self (MsgProto msg)).1)
  /\ match (h st self (MsgProto msg)).2 with
     | Ok (MsgProto reply) =>
         proper reply -> zlen (encode reply) <= MaxMessageSize cfg ->
         Send cfg protocolID peerID msg = Ok reply
     | _ => exists e, Send cfg protocolID peerID msg = Err e
     end.
Proof.
  unfold Send. rewrite Hserved. cbn [mbind result_bind c_write c_read]. unfold handleStream.
  destruct (Acquire lim) as [lim' ok] eqn:Ha. cbn in Hslot. subst ok.
  rewrite (Release_Acquire _ _ Ha). cbn [default from_option].
  assert (decode (MaxMessageSize cfg) (Stream (cut (encode msg)) EOF) = Ok msg) as Hd.
  { apply (decode_encode msg _ _ []); [done|done|]. cbn. by rewrite Hcut, app_nil_r. }
  rewrite Hd. destruct (h st self (MsgProto msg)) as [st' [[|reply|]|e]]; cbn [fst snd];
    (split; [done|]); try (eexists; unfold decode; cbn; by rewrite Hcut, take_nil).
  intros Hr Hl. apply (decode_encode reply _ _ []); [done|done|]. cbn. by rewrite Hcut, app_nil_r.
Qed.

(** ** Properties *)

(** [C17] Payloads survive: a payload put into an envelope, written to a stream,
    cut into reads in any way and followed by anything, is decoded to the same
    envelope and the same payload, if its strings are valid UTF-8, and the text
    fits [MaxMessageSize].  In particular omitted fields come back empty. *)
Theorem payload_roundtrip {T} `{RoundTrip T} (ty : string) (p : T) limit s rest
    (Hp : proper p) (Hty : utf8_string ty) (Hh : height (marshal p) + 1 < maxNestingDepth)
    (Hlen : zlen (encode (NewMessage ty p)) <= limit)
    (Hs : rd_bytes s = encode (NewMessage ty p) ++ rest) :
  decode limit s = Ok (NewMessage ty p) /\ Decode (NewMessage ty p) = Ok p.
Proof.
  split.
  - eapply decode_encode; [|done..]. by apply NewMessage_proper.
  - by apply Decode_NewMessage.
Qed.

(** A request reaches the handler of the peer and its reply comes back:
    when the streams of the host to [peerID] are served by [handleStream] with a
    free slot and neither message exceeds the limit, [Send] returns the very
    message the handler replied, or an error if it failed or replied nothing;
    the slot is free again afterwards. *)
Theorem send_handled {St} `{Host} (cfg : Config) protocolID peerID self (h : Handler St any_message)
    lim st (msg : Message) cut
    (Hslot : (Acquire lim).2 = true) (Hmsg : proper msg)
    (Hlen : zlen (encode msg) <= MaxMessageSize cfg)
    (Hcut : forall b : bytes, concat (cut b) = b)
    (Hserved : host_NewStream peerID protocolID = Ok {|
       c_write := fun _ => None;
       c_read := fun b => match (handleStream cfg h lim st self (Stream (cut b) EOF)).2 with
                          | SClosed w => Stream (cut w) EOF
                          | SReset => Stream [] (Errorf "stream reset")
                          end |}) :
  (handleStream cfg h lim st self (Stream (cut (encode msg)) EOF)).1
    = (lim, (h st self (MsgProto msg)).1)
  /\ match (h st self (MsgProto msg)).2 with
     | Ok (MsgProto reply) =>
         proper reply -> zlen (encode reply) <= MaxMessageSize cfg ->
         Send cfg protocolID peerID msg = Ok reply
     | _ => exists e, Send cfg protocolID peerID msg = Err e
     end.
Proof. by apply Send_served. Qed.

(** ** Witnesses *)
Lemma payload_roundtrip_witness :
  let p := {| gf_Key := "k"; gf_MsgID := "m"; gf_TTL := 3; gf_RequesterID := "r";
              gf_RequesterAddrs := ["/ip4/1.2.3.4"] |} in
  decode (MaxMessageSize DefaultConfig) (Stream [encode (NewMessage TypeGetFile p)] EOF)
    = Ok (NewMessage TypeGetFile p)
  /\ Decode (NewMessage TypeGetFile p) = Ok p.
Proof.
  cbn zeta. eapply payload_roundtrip with (rest := []).
  - cbn. unfold utf8_string. split_and!; try reflexivity; [|discriminate..].
    repeat constructor.
  - reflexivity.
  - vm_compute. reflexivity.
  - vm_compute. discriminate.
  - vm_compute. reflexivity.
Defined.

Lemma send_handled_witness :
  let served b := match (handleStream DefaultConfig (ping_Handle (St := unit)) {| sem_cap := 1; sem_len := 0 |} tt
                           "me" (Stream [b] EOF)).2 with
                  | SClosed w => Stream [w] EOF
                  | SReset => Stream [] (Errorf "stream reset")
                  end in
  let host := {| host_NewStream _ _ := Ok {| c_write := fun _ => None; c_read := served |} |} in
  Send (H := host) DefaultConfig "ping" "you" {| Type_ := "PING"; Data := None |}
    = Ok (NewMessage "PONG" "hello back").
Proof.
  cbn zeta.
  pose proof (@send_handled unit {| host_NewStream _ _ := Ok {| c_write := fun _ => None;
      c_read := fun b => match (handleStream DefaultConfig (ping_Handle (St := unit))
        {| sem_cap := 1; sem_len := 0 |} tt "me" (Stream [b] EOF)).2 with
                  | SClosed w => Stream [w] EOF
                  | SReset => Stream [] (Errorf "stream reset")
                  end |} |} DefaultConfig "ping" "you" "me" ping_Handle
    {| sem_cap := 1; sem_len := 0 |} tt {| Type_ := "PING"; Data := None |} (fun b => [b])) as Hw.
  destruct Hw as [_ Hw].
  - reflexivity.
  - split; reflexivity.
  - vm_compute. discriminate.
  - intros b. cbn. apply app_nil_r.
  - reflexivity.
  - apply Hw.
    + split; [reflexivity|]. cbn. split; [reflexivity|vm_compute; reflexivity].
    + vm_compute. discriminate.
Defined.
