(* ===== verification/BlobStore.v ===== *)
(** The store as the file server sees it: an interface with its laws, and the
    proof that a content-addressed store satisfies them.

    The theorems on transfers and on the file server are proved against
    [BlobStoreLaws]; [cas_BlobStoreLaws] discharges them for [store.Store]. *)
From S2P Require Import Prelude Io GoStrings FileSys Encryption Store StoreSpec.

Class BlobStore (S : Type) := {
  bs_Has : S -> string -> bool;
  bs_Read : S -> string -> result (bytes * Z);
  bs_Write : forall R, Reader R -> S -> string -> R -> S * R * result Z;
}.
Arguments bs_Write {S _ R _}.

(** A blob store is a finite map from slots to contents, [slot] being the slot
    of a key; a write from a source that fails keeps [fragment] of the data. *)
Class BlobStoreLaws (S : Type) `{BlobStore S} := {
  slot : string -> string;
  fragment : bytes -> bytes;
  holds_map : gmap string bytes -> S -> Prop;
  bs_Has_ok m s key : holds_map m s -> bs_Has s key = bool_decide (is_Some (m !! slot key));
  bs_Read_ok m s key d : holds_map m s -> m !! slot key = Some d -> bs_Read s key = Ok (d, zlen d);
  bs_Read_absent m s key : holds_map m s -> m !! slot key = None ->
    exists e, bs_Read s key = Err e;
  bs_Write_ok m s key R (HR : Reader R) (HL : ReaderLaws R) (r : R) :
    holds_map m s -> rd_end r = EOF -> exists s' r',
      bs_Write s key r = (s', r', Ok (zlen (rd_bytes r)))
      /\ holds_map (<[slot key := rd_bytes r]> m) s' /\ reads r (rd_bytes r) r';
  bs_Write_fails m s key R (HR : Reader R) (HL : ReaderLaws R) (r : R) :
    holds_map m s -> rd_end r <> EOF -> exists s' r' e,
      bs_Write s key r = (s', r', Err e)
      /\ holds_map (<[slot key := fragment (rd_bytes r)]> m) s' /\ reads r (rd_bytes r) r';
}.

(** ** The content-addressed store *)
Section cas.
Context `{AEADLaws, EntropyLaws} (s : Store).

(** The state of a store is the world it works in. *)
Definition cas_BlobStore : BlobStore world :=
  {| bs_Has w := Has w s; bs_Read w := Read w s; bs_Write _ _ w := Write w s |}.

Lemma Read_absent m w key :
  refines s m w -> m !! cas_hash key = None -> Read w s key = Err (Errorf "file not found").
Proof.
  intros [_ Hm] Hk. destruct (Hm key) as [Hh _]. unfold Read. by rewrite Hh, Hk.
Qed.

Program Definition cas_BlobStoreLaws (Hs : cas_store s) : @BlobStoreLaws world cas_BlobStore :=
  {| slot := cas_hash; fragment := kept s; holds_map := refines s |}.
Next Obligation. intros Hs m w key [_ Hm]. apply Hm. Qed.
Next Obligation. intros Hs m w key d [_ Hm]. by apply Hm. Qed.
Next Obligation. intros Hs m w key Hm Hk. eexists. by eapply Read_absent. Qed.
Next Obligation.
  intros Hs m w key R HR HL r Hm He. destruct (Write_refines s Hs m w key r Hm He) as (w' & r' & ? & ? & ? & _). eauto.
Qed.
Next Obligation. intros Hs m w key R HR HL r Hm He. by apply Write_fails. Qed.
End cas.
