(* ===== verification/FileServer.v ===== *)
(** The file server (src/internal/fileserver/fileserver.go, get.go): its state,
    the peers it tracks, transfer waiters, the receive session, and the
    handlers of control messages.

    The store is any [BlobStore]; the libp2p host is the class [Node], whose
    answers may change with time.  Events published on the bus are collected in
    order; the goroutines a handler starts are returned as a list. *)
From S2P Require Import Prelude Io Json Event Middleware SeenMessages Protocol BlobStore.
From Stdlib Require Import Ascii.

Definition DefaultTTL : Z := 3.
Definition GetConnectTimeout : duration := 30 * Second.
Definition StorageProtocolID : string := "/storage/1.0.0".

(** ** libp2p *)
Inductive Connectedness := Connected | Limited_ | OtherConnectedness.

#[export] Instance Connectedness_eq_dec : EqDecision Connectedness.
Proof. solve_decision. Defined.

(** A peer id is its text form; an address the text of a multiaddr. *)
Class Node := {
  node_ID : peer_ID;
  node_Addrs : time -> list string;
  node_Connectedness : time -> peer_ID -> Connectedness;
  node_ConnsToPeer : time -> peer_ID -> list string;     (* their remote addresses *)
  node_Protocols : time -> peer_ID -> result (list string);
  NewMultiaddr : string -> result string;           (* in its normal form *)
  AddrInfoFromP2pAddr : string -> result AddrInfo;
  peer_Decode : string -> result peer_ID;
}.

(** ** State *)
Record Peer := { p_ID : peer_ID; p_Conn : string }.

(** A waiter's channel, of capacity one. *)
Record waiter := { w_val : option (option goerr); w_closed : bool }.

Record FileServer (S : Type) := {
  fs_store : S;
  fs_started : bool;                       (* [fs.node] is not nil *)
  fs_peers : gmap peer_ID Peer;
  fs_tagged : gset peer_ID;                (* tagged "storage-peer" in the ConnManager *)
  fs_events : list Event;                  (* published on the bus, the oldest first *)
  fs_seen : SeenMessages;
  fs_sessionName : string;
  fs_waiters : gmap string (list nat);
  fs_chans : gmap nat waiter;              (* the waiter channels made so far *)
  fs_nextchan : nat;
}.
Arguments fs_store {S}.
Arguments fs_started {S}.
Arguments fs_peers {S}.
Arguments fs_tagged {S}.
Arguments fs_events {S}.
Arguments fs_seen {S}.
Arguments fs_sessionName {S}.
Arguments fs_waiters {S}.
Arguments fs_chans {S}.
Arguments fs_nextchan {S}.

Definition event_of (ty : EventType) (d : EventData) : Event :=
  {| Event.Type_ := ty; RequestID := ""; Event.Data := d |}.

Section state.
Context {S : Type}.
Implicit Type fs : FileServer S.

(** [NewFileServer], given the store [NewStore] returned. *)
Definition NewFileServer (store : S) : FileServer S :=
  {| fs_store := store; fs_started := false; fs_peers := ∅; fs_tagged := ∅; fs_events := [];
     fs_seen := NewSeenMessages 10000 (60 * Second); fs_sessionName := "";
     fs_waiters := ∅; fs_chans := ∅; fs_nextchan := 0 |}.

Definition with_store fs (s : S) : FileServer S :=
  {| fs_store := s; fs_started := fs_started fs; fs_peers := fs_peers fs;
     fs_tagged := fs_tagged fs; fs_events := fs_events fs; fs_seen := fs_seen fs;
     fs_sessionName := fs_sessionName fs; fs_waiters := fs_waiters fs;
     fs_chans := fs_chans fs; fs_nextchan := fs_nextchan fs |}.
Definition with_peers fs (ps : gmap peer_ID Peer) (ts : gset peer_ID) : FileServer S :=
  {| fs_store := fs_store fs; fs_started := fs_started fs; fs_peers := ps;
     fs_tagged := ts; fs_events := fs_events fs; fs_seen := fs_seen fs;
     fs_sessionName := fs_sessionName fs; fs_waiters := fs_waiters fs;
     fs_chans := fs_chans fs; fs_nextchan := fs_nextchan fs |}.
Definition with_seen fs (x : SeenMessages) : FileServer S :=
  {| fs_store := fs_store fs; fs_started := fs_started fs; fs_peers := fs_peers fs;
     fs_tagged := fs_tagged fs; fs_events := fs_events fs; fs_seen := x;
     fs_sessionName := fs_sessionName fs; fs_waiters := fs_waiters fs;
     fs_chans := fs_chans fs; fs_nextchan := fs_nextchan fs |}.
Definition with_session fs (name : string) : FileServer S :=
  {| fs_store := fs_store fs; fs_started := fs_started fs; fs_peers := fs_peers fs;
     fs_tagged := fs_tagged fs; fs_events := fs_events fs; fs_seen := fs_seen fs;
     fs_sessionName := name; fs_waiters := fs_waiters fs;
     fs_chans := fs_chans fs; fs_nextchan := fs_nextchan fs |}.
Definition with_waiters fs (ws : gmap string (list nat)) (cs : gmap nat waiter) (n : nat) :
    FileServer S :=
  {| fs_store := fs_store fs; fs_started := fs_started fs; fs_peers := fs_peers fs;
     fs_tagged := fs_tagged fs; fs_events := fs_events fs; fs_seen := fs_seen fs;
     fs_sessionName := fs_sessionName fs; fs_waiters := ws; fs_chans := cs; fs_nextchan := n |}.

(** [fs.bus.Publish]: the events are recorded in order.  That a full subscriber
    makes the call wait is the subject of [Event] and [Daemon]; here every call
    goes through. *)
Definition publish fs (ty : EventType) (d : EventData) : FileServer S :=
  {| fs_store := fs_store fs; fs_started := fs_started fs; fs_peers := fs_peers fs;
     fs_tagged := fs_tagged fs;
     fs_events := fs_events fs ++ [{| Event.Type_ := ty; RequestID := ""; Event.Data := d |}];
     fs_seen := fs_seen fs; fs_sessionName := fs_sessionName fs; fs_waiters := fs_waiters fs;
     fs_chans := fs_chans fs; fs_nextchan := fs_nextchan fs |}.

Definition SetSession fs (name : string) : FileServer S := with_session fs name.
Definition ClearSession fs : FileServer S := with_session fs "".

(** ** Waiters *)
Definition registerTransferWaiter fs (key : string) : FileServer S * nat :=
  let ch := fs_nextchan fs in
  (with_waiters fs (<[key := default [] (fs_waiters fs !! key) ++ [ch]]> (fs_waiters fs))
     (<[ch := {| w_val := None; w_closed := false |}]> (fs_chans fs)) (Datatypes.S ch), ch).

Definition RegisterTransferWaiter := registerTransferWaiter.

(** [select { case ch <- err: default: }; close(ch)]; [None]: closing twice
    panics. *)
Definition notify_one (err : option goerr) (w : waiter) : option waiter :=
  if w_closed w then None
  else Some {| w_val := Some (default err (w_val w)); w_closed := true |}.

Fixpoint notify_all (cs : gmap nat waiter) (err : option goerr) (chs : list nat) :
    option (gmap nat waiter) :=
  match chs with
  | [] => Some cs
  | ch :: chs =>
      w ← cs !! ch; w' ← notify_one err w; notify_all (<[ch := w']> cs) err chs
  end.

(** [None]: a panic. *)
Definition notifyTransferComplete fs (key : string) (err : option goerr) : option (FileServer S) :=
  match fs_waiters fs !! key with
  | None => Some fs
  | Some chs =>
      cs ← notify_all (fs_chans fs) err chs;
      Some (with_waiters fs (delete key (fs_waiters fs)) cs (fs_nextchan fs))
  end.

(** ** Peers *)
Definition getPeer fs (id : string) : result Peer :=
  match fs_peers fs !! id with
  | Some p => Ok p
  | None => Err (Errorf "peer not found in peer list")
  end.

Definition GetConnectedPeers fs : Z := Z.of_nat (size (fs_peers fs)).

(** [ListPeers], in the order in which Go iterates over the map. *)
Definition peer_order fs (order : list peer_ID) : Prop :=
  order ≡ₚ map (fun kv : peer_ID * Peer => p_ID kv.2) (map_to_list (fs_peers fs)).

Section peers.
Context `{Node}.

Definition linked (now : time) (id : peer_ID) : bool :=
  bool_decide (node_Connectedness now id = Connected \/ node_Connectedness now id = Limited_).

(** The goroutine of [OnPeerConnect], at the end of its pause of 500 ms. *)
Definition OnPeerConnect fs (now : time) (peerID : peer_ID) (conn : string) : FileServer S :=
  if fs_started fs then
    if linked now peerID then
      match node_Protocols now peerID with
      | Err _ => fs
      | Ok protocols =>
          if decide (StorageProtocolID ∈ protocols) then
            match fs_peers fs !! peerID with
            | Some _ => fs
            | None =>
                let fs := with_peers fs
                            (<[peerID := {| p_ID := peerID; p_Conn := conn |}]> (fs_peers fs))
                            ({[ peerID ]} ∪ fs_tagged fs) in
                publish fs StoragePeerRegistered (StoragePeerEvent peerID)
            end
          else fs
      end
    else fs
  else fs.

(** [None]: the dereference of a nil [fs.node]. *)
Definition OnPeerDisconnect fs (now : time) (peerID : peer_ID) : option (FileServer S) :=
  if fs_started fs && linked now peerID then Some fs
  else match fs_peers fs !! peerID with
       | None => Some fs
       | Some _ =>
           if fs_started fs then
             let fs := with_peers fs (delete peerID (fs_peers fs)) (fs_tagged fs ∖ {[ peerID ]}) in
             Some (publish fs StoragePeerUnregistered (StoragePeerEvent peerID))
           else None
       end.
End peers.
End state.

(** ** Messages *)
Inductive goroutine :=
| GoProcessGet (senderID : peer_ID) (payload : GetFilePayload)
| GoDeliver (payload : GetFilePayload)
| GoForward (to : peer_ID) (msg : Message).

Definition error_message (reason : string) : any_message :=
  MsgProto (NewMessage TypeError {| ep_Reason := reason |}).
Definition store_resp (key status : string) : any_message :=
  MsgProto (NewMessage TypeStoreFileResp {| sr_Key := key; sr_Status := status |}).

Section handlers.
Context {S : Type} `{BlobStore S}.
Implicit Type fs : FileServer S.

Definition handleStoreFileMessage fs (peerID : peer_ID) (msg : Message) : result any_message :=
  match Decode msg : result StoreFilePayload with
  | Err _ => Ok (error_message StatusInvalidMsg)
  | Ok payload =>
      let key := sf_Key payload in
      let session := sf_Session payload in
      if decide (key = "") then Ok (store_resp "" StatusEmptyKey) else
      let waitingForKey := bool_decide (is_Some (fs_waiters fs !! key)) in
      if negb waitingForKey
         && bool_decide (fs_sessionName fs <> "" /\ session <> fs_sessionName fs)
      then Ok (store_resp key StatusSessionRejected)
      else if bs_Has (fs_store fs) key then Ok (store_resp key StatusAlreadyExists)
      else Ok (store_resp key StatusSuccess)
  end.

Definition handleGet (peerID : peer_ID) (msg : Message) : list goroutine :=
  match Decode msg : result GetFilePayload with
  | Err _ => []
  | Ok payload => [GoProcessGet peerID payload]
  end.

Definition handleMessage fs (peerID : peer_ID) (msg : any_message) :
    result any_message * list goroutine :=
  match msg with
  | MsgProto m =>
      if decide (Protocol.Type_ m = TypeStoreFile) then (handleStoreFileMessage fs peerID m, [])
      else if decide (Protocol.Type_ m = TypeGetFile) then (Ok MsgNil, handleGet peerID m)
      else (Ok (error_message StatusUnknownType), [])
  | _ => (Ok (error_message StatusInvalidMsg), [])
  end.

(** [Handle] as a [core.Handler] whose state is the server and the goroutines
    started so far. *)
Definition Handle : Handler (FileServer S * list goroutine) any_message :=
  fun '(fs, gs) peerID msg =>
    let '(r, gs') := handleMessage fs peerID msg in ((fs, gs ++ gs'), r).

(** [seen_order] is the order in which the table of seen messages is scanned,
    [order] that of the peers, [intn] the random numbers; [None]: a panic. *)
Definition processGet fs (now : time) (seen_order : list (string * time))
    (order : list peer_ID) (intn : nat -> nat -> nat) (senderID : peer_ID)
    (payload : GetFilePayload) : option (FileServer S * list goroutine) :=
  let '(seen, new) := See (fs_seen fs) now seen_order (gf_MsgID payload) in
  let fs := with_seen fs seen in
  if negb new then Some (fs, []) else
  if bs_Has (fs_store fs) (gf_Key payload) then
    Some (publish fs GetDelivering
            (GetDeliveringData (gf_MsgID payload) (gf_Key payload) (gf_RequesterID payload)),
          [GoDeliver payload])
  else
    let fs := publish fs GetReceived
                (GetReceivedData (gf_MsgID payload) (gf_Key payload) (gf_TTL payload)) in
    if gf_TTL payload <=? 0 then Some (fs, []) else
    let payload := {| gf_Key := gf_Key payload; gf_MsgID := gf_MsgID payload;
                      gf_TTL := gf_TTL payload - 1; gf_RequesterID := gf_RequesterID payload;
                      gf_RequesterAddrs := gf_RequesterAddrs payload |} in
    peers ← Select intn order senderID 10;
    Some (fs, map (fun p => GoForward p (NewMessage TypeGetFile payload)) peers).

(** [BroadcastGet]: one message to every peer. *)
Definition BroadcastGet (order : list peer_ID) (payload : GetFilePayload) : list goroutine :=
  map (fun p => GoForward p (NewMessage TypeGetFile payload)) order.

Definition HasFile fs (key : string) : bool := bs_Has (fs_store fs) key.
End handlers.

(** ** The registry of peers

    A listener that replays the registration events; [None] when an event does
    not fit. *)
Fixpoint track (evs : list Event) (known : gset peer_ID) : option (gset peer_ID) :=
  match evs with
  | [] => Some known
  | e :: evs =>
      match Event.Data e with
      | StoragePeerEvent id =>
          if decide (Event.Type_ e = StoragePeerRegistered)
          then if decide (id ∈ known) then None else track evs ({[ id ]} ∪ known)
          else if decide (Event.Type_ e = StoragePeerUnregistered)
          then if decide (id ∈ known) then track evs (known ∖ {[ id ]}) else None
          else track evs known
      | _ => track evs known
      end
  end.

Lemma track_app evs evs' known :
  track (evs ++ evs') known = known' ← track evs known; track evs' known'.
Proof.
  revert known. induction evs as [|e evs IH]; intros known; [done|]. cbn [track app].
  repeat case_match; done || apply IH.
Qed.

Definition registry_ok {S} (fs : FileServer S) : Prop :=
  fs_tagged fs = dom (fs_peers fs) /\ track (fs_events fs) ∅ = Some (dom (fs_peers fs))
  /\ (fs_started fs = false -> fs_peers fs = ∅)
  /\ forall id p, fs_peers fs !! id = Some p -> p_ID p = id.

Section registry.
Context {S : Type} `{Node}.
Implicit Type fs : FileServer S.

(** Events that are no registrations do not matter. *)
Lemma publish_registry fs ty d :
  (forall id, d <> StoragePeerEvent id) -> registry_ok fs -> registry_ok (publish fs ty d).
Proof.
  intros Hd (Ht & Htr & Hs & Hp). split; [done|]. split; [|done].
  cbn [fs_events publish]. rewrite track_app, Htr. cbn. destruct d as [| |i| | | | | | | |]; try done. by destruct (Hd i).
Qed.

Lemma OnPeerConnect_ok fs now id conn :
  registry_ok fs -> registry_ok (OnPeerConnect fs now id conn).
Proof.
  intros Hok. pose proof Hok as (Ht & Htr & Hs & Hp). unfold OnPeerConnect.
  destruct (fs_started fs) eqn:Hst; [|done]. destruct (linked now id); [|done].
  destruct (node_Protocols now id) as [ps|]; [|done]. case_decide; [|done].
  destruct (fs_peers fs !! id) as [p|] eqn:Hid; [done|].
  split; [|split; [|split]].
  - cbn. by rewrite dom_insert_L, Ht.
  - cbn [fs_events publish with_peers fs_peers]. rewrite track_app, Htr.
    cbn [mbind option_bind track Event.Data Event.Type_]. rewrite decide_True by done.
    rewrite decide_False, dom_insert_L; [done|]. by apply not_elem_of_dom.
  - cbn. congruence.
  - intros id' p. cbn. intros [[<- <-]|[_ Hp']]%lookup_insert_Some; [done|by apply Hp].
Qed.

Lemma OnPeerDisconnect_ok fs now id :
  registry_ok fs -> exists fs', OnPeerDisconnect fs now id = Some fs' /\ registry_ok fs'.
Proof.
  intros Hok. pose proof Hok as (Ht & Htr & Hs & Hp). unfold OnPeerDisconnect.
  destruct (fs_started fs && linked now id); [by exists fs|].
  destruct (fs_peers fs !! id) as [p|] eqn:Hid; [|by exists fs].
  destruct (fs_started fs) eqn:Hst; [|by rewrite Hs, lookup_empty in Hid].
  eexists. split; [done|]. split; [|split; [|split]].
  - cbn. by rewrite dom_delete_L, Ht.
  - cbn [fs_events publish with_peers fs_peers]. rewrite track_app, Htr.
    cbn [mbind option_bind track Event.Data Event.Type_]. rewrite decide_False, decide_True by done.
    rewrite decide_True, dom_delete_L; [done|]. by apply elem_of_dom.
  - cbn. congruence.
  - intros id' p'. cbn. intros [_ Hp']%lookup_delete_Some. by apply Hp.
Qed.
End registry.

(** ** Waiters *)
Record waiters_ok {S} (fs : FileServer S) : Prop := {
  wo_nodup key chs : fs_waiters fs !! key = Some chs -> NoDup chs;
  wo_disjoint key key' chs chs' ch : fs_waiters fs !! key = Some chs ->
    fs_waiters fs !! key' = Some chs' -> ch ∈ chs -> ch ∈ chs' -> key = key';
  wo_open key chs ch : fs_waiters fs !! key = Some chs -> ch ∈ chs ->
    fs_chans fs !! ch = Some {| w_val := None; w_closed := false |};
  wo_fresh ch : (fs_nextchan fs <= ch)%nat -> fs_chans fs !! ch = None;
}.

Section waiters.
Context {S : Type}.
Implicit Type fs : FileServer S.

Definition woken (err : option goerr) : waiter := {| w_val := Some err; w_closed := true |}.

Lemma notify_all_spec cs err chs :
  NoDup chs -> (forall ch, ch ∈ chs -> cs !! ch = Some {| w_val := None; w_closed := false |}) ->
  exists cs', notify_all cs err chs = Some cs'
    /\ forall ch, cs' !! ch = if decide (ch ∈ chs) then Some (woken err) else cs !! ch.
Proof.
  intros Hnd. revert cs. induction Hnd as [|ch chs Hch Hnd IH]; intros cs Hop; cbn [notify_all].
  { exists cs. split; [done|]. intros ch. by rewrite decide_False by apply not_elem_of_nil. }
  rewrite (Hop ch) by left. cbn [mbind option_bind notify_one w_closed w_val default from_option].
  fold (woken err). destruct (IH (<[ch := woken err]> cs)) as (cs' & -> & Hcs').
  { intros x Hx. rewrite lookup_insert_ne by (by intros ->). apply Hop. by right. }
  exists cs'. split; [done|]. intros x. rewrite Hcs'. destruct (decide (x = ch)) as [->|Hne].
  - by rewrite decide_False, decide_True, lookup_insert_eq by (done || by left).
  - rewrite lookup_insert_ne by done. destruct (decide (x ∈ chs)).
    + by rewrite decide_True by (by right).
    + rewrite decide_False; [done|]. by intros [|]%elem_of_cons.
Qed.

Lemma waiter_lt fs key chs ch :
  waiters_ok fs -> fs_waiters fs !! key = Some chs -> ch ∈ chs -> (ch < fs_nextchan fs)%nat.
Proof.
  intros Hok Hk Hch. pose proof (wo_open _ Hok _ _ _ Hk Hch) as Ho.
  destruct (decide (fs_nextchan fs <= ch)%nat) as [Hle|]; [|lia].
  by rewrite (wo_fresh _ Hok _ Hle) in Ho.
Qed.

Lemma elem_of_default_waiters (m : gmap string (list nat)) key ch :
  ch ∈ default [] (m !! key) -> exists chs, m !! key = Some chs /\ ch ∈ chs.
Proof. destruct (m !! key); [eauto|]. by intros ?%elem_of_nil. Qed.

Lemma register_ok fs key : waiters_ok fs -> waiters_ok (registerTransferWaiter fs key).1.
Proof.
  intros Hok. pose proof (fun k l c => waiter_lt fs k l c Hok) as Hlt.
  assert (forall k l ch, <[key := default [] (fs_waiters fs !! key) ++ [fs_nextchan fs]]>
      (fs_waiters fs) !! k = Some l -> ch ∈ l ->
      (k = key /\ ch = fs_nextchan fs) \/ exists l', fs_waiters fs !! k = Some l' /\ ch ∈ l') as Hin.
  { intros k l ch [[<- <-]|[_ Hk]]%lookup_insert_Some; [|eauto].
    intros [Hd%elem_of_default_waiters|Hs%list_elem_of_singleton]%elem_of_app; eauto. }
  split; cbn [registerTransferWaiter fst with_waiters fs_waiters fs_chans fs_nextchan].
  - intros k l [[<- <-]|[_ Hk]]%lookup_insert_Some; [|by eapply wo_nodup].
    destruct (fs_waiters fs !! key) as [l|] eqn:E; cbn; [|apply NoDup_singleton].
    apply NoDup_app. split; [by eapply wo_nodup|]. split; [|apply NoDup_singleton].
    intros x Hx Hx'%list_elem_of_singleton. specialize (Hlt _ _ _ E Hx). lia.
  - intros k k' l l' ch Hk Hk' Hl Hl'.
    destruct (Hin _ _ _ Hk Hl) as [[-> ->]|(a & Ha & Hca)], (Hin _ _ _ Hk' Hl') as [[-> Hn]|(b & Hb & Hcb)];
      subst; try done.
    + specialize (Hlt _ _ _ Hb Hcb). lia.
    + specialize (Hlt _ _ _ Ha Hca). lia.
    + by eapply wo_disjoint.
  - intros k l ch Hk Hl. destruct (Hin _ _ _ Hk Hl) as [[-> ->]|(a & Ha & Hca)];
      [apply lookup_insert_eq|]. rewrite lookup_insert_ne; [by eapply wo_open|].
    specialize (Hlt _ _ _ Ha Hca). lia.
  - intros ch Hle. rewrite lookup_insert_ne by lia. apply (wo_fresh _ Hok). lia.
Qed.

Lemma notify_ok fs key err :
  waiters_ok fs -> exists fs', notifyTransferComplete fs key err = Some fs' /\ waiters_ok fs'
    /\ fs_waiters fs' = delete key (fs_waiters fs) /\ fs_nextchan fs' = fs_nextchan fs
    /\ forall ch, fs_chans fs' !! ch = if decide (ch ∈ default [] (fs_waiters fs !! key))
                                       then Some (woken err) else fs_chans fs !! ch.
Proof.
  intros Hok. unfold notifyTransferComplete. destruct (fs_waiters fs !! key) as [chs|] eqn:Hk.
  - destruct (notify_all_spec (fs_chans fs) err chs) as (cs & -> & Hcs);
      [by eapply wo_nodup|intros; by eapply wo_open|].
    eexists. split; [done|]. split; [|by cbn]. split; cbn.
    + intros k l [_ Hl]%lookup_delete_Some. by eapply wo_nodup.
    + intros k k' l l' ch [_ Hl]%lookup_delete_Some [_ Hl']%lookup_delete_Some. by eapply wo_disjoint.
    + intros k l ch [Hne Hl]%lookup_delete_Some Hch. rewrite Hcs, decide_False; [by eapply wo_open|].
      intros Hch'. by pose proof (wo_disjoint _ Hok _ _ _ _ _ Hk Hl Hch' Hch).
    + intros ch Hle. rewrite Hcs, decide_False; [by apply (wo_fresh _ Hok)|].
      intros Hch. pose proof (waiter_lt _ _ _ _ Hok Hk Hch). lia.
  - exists fs. split; [done|]. split; [done|]. rewrite delete_id by done.
    split; [done|]. split; [done|]. intros ch. cbn. by rewrite decide_False by apply not_elem_of_nil.
Qed.

(** Registrations and completions in the order of the lock. *)
Inductive waiter_op := Register (key : string) | Notify (key : string) (err : option goerr).

Fixpoint run_waiters fs (ops : list waiter_op) : option (FileServer S) :=
  match ops with
  | [] => Some fs
  | Register key :: ops => run_waiters (registerTransferWaiter fs key).1 ops
  | Notify key err :: ops => fs ← notifyTransferComplete fs key err; run_waiters fs ops
  end.

Definition first_result (key : string) (ops : list waiter_op) : option (option goerr) :=
  hd_error (omap (fun o => match o with
                           | Notify k err => if decide (k = key) then Some err else None
                           | Register _ => None
                           end) ops).

(** A channel that nobody waits on any more keeps its value. *)
Lemma run_waiters_done fs ops ch w :
  waiters_ok fs -> fs_chans fs !! ch = Some w -> w_closed w = true ->
  exists fs', run_waiters fs ops = Some fs' /\ waiters_ok fs' /\ fs_chans fs' !! ch = Some w.
Proof.
  revert fs. induction ops as [|[key|key err] ops IH]; intros fs Hok Hch Hcl; cbn [run_waiters]; [eauto|..].
  - apply IH; [by apply register_ok| |done]. cbn. rewrite lookup_insert_ne; [done|].
    intros <-. by rewrite (wo_fresh _ Hok) in Hch.
  - destruct (notify_ok fs key err Hok) as (fs1 & -> & Hok1 & _ & _ & Hcs). cbn.
    apply IH; [done| |done]. rewrite Hcs, decide_False; [done|].
    intros (chs & Hk & Hin)%elem_of_default_waiters.
    rewrite (wo_open _ Hok _ _ _ Hk Hin) in Hch. by injection Hch as <-.
Qed.

Lemma run_waiters_waiting fs ops ch key chs :
  waiters_ok fs -> fs_waiters fs !! key = Some chs -> ch ∈ chs ->
  exists fs', run_waiters fs ops = Some fs'
    /\ fs_chans fs' !! ch = Some match first_result key ops with
                                 | Some err => woken err
                                 | None => {| w_val := None; w_closed := false |}
                                 end.
Proof.
  revert fs chs. induction ops as [|[k|k err] ops IH]; intros fs chs Hok Hk Hch; cbn [run_waiters].
  - exists fs. split; [done|]. by apply (wo_open _ Hok key chs).
  - destruct (decide (k = key)) as [->|Hne].
    + apply (IH _ (chs ++ [fs_nextchan fs])); [by apply register_ok| |by apply elem_of_app; left].
      cbn. by rewrite lookup_insert_eq, Hk.
    + apply (IH _ chs); [by apply register_ok| |done]. cbn. by rewrite lookup_insert_ne.
  - destruct (notify_ok fs k err Hok) as (fs1 & -> & Hok1 & Hws & _ & Hcs). cbn [mbind option_bind].
    unfold first_result. cbn [omap list_omap]. destruct (decide (k = key)) as [->|Hne].
    + cbn [hd_error]. destruct (run_waiters_done fs1 ops ch (woken err) Hok1) as (fs' & Hr & _ & Hv);
        [by rewrite Hcs, Hk, decide_True|done|eauto].
    + apply (IH fs1 chs); [done| |done]. rewrite Hws. by rewrite lookup_delete_ne.
Qed.
End waiters.

(** ** Properties *)
Section properties.
Context {S : Type}.
Implicit Type fs : FileServer S.

(** [C16] A waiter gets exactly one result.  Whatever registrations and
    completions follow, [notifyTransferComplete] never closes a channel twice,
    and the channel of a waiter holds the error of the first completion of its
    key after its registration, and is closed; before that it is open and
    empty. *)
Theorem waiter_gets_first_result fs key ops (Hok : waiters_ok fs) :
  let '(fs1, ch) := registerTransferWaiter fs key in
  exists fs', run_waiters fs1 ops = Some fs'
    /\ fs_chans fs' !! ch = Some match first_result key ops with
                                 | Some err => {| w_val := Some err; w_closed := true |}
                                 | None => {| w_val := None; w_closed := false |}
                                 end.
Proof.
  cbn [registerTransferWaiter]. eapply run_waiters_waiting.
  - by apply (register_ok fs key).
  - cbn. apply lookup_insert_eq.
  - apply elem_of_app. right. left.
Qed.

(** Connections come and go. *)
Inductive peer_op := Connect (now : time) (id : peer_ID) (conn : string)
                   | Disconnect (now : time) (id : peer_ID).

Fixpoint run_peers `{Node} fs (ops : list peer_op) : option (FileServer S) :=
  match ops with
  | [] => Some fs
  | Connect now id conn :: ops => run_peers (OnPeerConnect fs now id conn) ops
  | Disconnect now id :: ops => fs ← OnPeerDisconnect fs now id; run_peers fs ops
  end.

(** Whatever connections and disconnections are notified, in any order
    and any number of times: the nil node is never dereferenced, the tagged
    peers are exactly the registered ones, and a listener that replays the
    registration events (each of them fitting) ends with exactly the peers of
    the table. *)
Theorem registry_consistent `{Node} fs ops (Hok : registry_ok fs) :
  exists fs', run_peers fs ops = Some fs' /\ fs_tagged fs' = dom (fs_peers fs')
    /\ track (fs_events fs') ∅ = Some (dom (fs_peers fs')).
Proof.
  revert fs Hok. induction ops as [|[now id conn|now id] ops IH]; intros fs Hok; cbn [run_peers].
  - exists fs. destruct Hok as (? & ? & _). done.
  - by apply IH, OnPeerConnect_ok.
  - destruct (OnPeerDisconnect_ok fs now id Hok) as (fs1 & -> & Hok1). by apply IH.
Qed.

Context `{BlobStoreLaws S}.

(** [C20] The decision on a store request.  The server tells the sender to go
    ahead exactly when the key is not empty, is awaited or comes with the name
    of the active session (if there is one), and is not stored yet; it answers
    every request; and it does not change. *)
Theorem store_request_accepted fs m peerID (p : StoreFilePayload) (Hp : proper p)
    (Hm : holds_map m (fs_store fs)) :
  exists status,
    Handle (fs, []) peerID (MsgProto (NewMessage TypeStoreFile p))
      = ((fs, []), Ok (store_resp (sf_Key p) status))
    /\ (status = StatusSuccess <->
        sf_Key p <> "" /\ m !! slot (sf_Key p) = None /\
        (is_Some (fs_waiters fs !! sf_Key p) \/ fs_sessionName fs = ""
         \/ sf_Session p = fs_sessionName fs)).
Proof.
  unfold Handle, handleMessage, handleStoreFileMessage. cbn [Protocol.Type_ NewMessage].
  rewrite decide_True by done. unfold Decode. cbn [Data NewMessage].
  rewrite unmarshal_marshal by done. case_decide as Hk.
  { rewrite Hk. eexists. split; [done|]. split; [done|]. tauto. }
  destruct (bool_decide (is_Some (fs_waiters fs !! sf_Key p))) eqn:Hw; breflect; cbn [negb andb].
  - rewrite (bs_Has_ok m) by done. case_bool_decide as Hh; eexists; (split; [done|]); split; try done.
    + intros (_ & Hn & _). by rewrite Hn in Hh; destruct Hh.
    + intros _. split; [done|]. split; [by apply eq_None_not_Some|by left].
  - case_bool_decide as Hs.
    + eexists. split; [done|]. split; [done|]. destruct Hs. tauto.
    + rewrite (bs_Has_ok m) by done. case_bool_decide as Hh; eexists; (split; [done|]); split; try done.
      * intros (_ & Hn & _). by rewrite Hn in Hh; destruct Hh.
      * intros _. split; [done|]. split; [by apply eq_None_not_Some|]. right.
        destruct (decide (fs_sessionName fs = "")); [by left|]. right.
        destruct (decide (sf_Session p = fs_sessionName fs)); [done|]. by destruct Hs.
Qed.

(** What is forwarded. *)
Definition decremented (q : GetFilePayload) : GetFilePayload :=
  {| gf_Key := gf_Key q; gf_MsgID := gf_MsgID q; gf_TTL := gf_TTL q - 1;
     gf_RequesterID := gf_RequesterID q; gf_RequesterAddrs := gf_RequesterAddrs q |}.

Definition forwards (q : GetFilePayload) (peers : list peer_ID) : list goroutine :=
  map (fun to => GoForward to (NewMessage TypeGetFile (decremented q))) peers.

(** [C21] What a node does with a GET request.  It records the message id.  If it
    has seen it within the window, it does nothing more.  If it has the file, it
    announces and starts exactly one delivery, and forwards nothing.  If not, it
    announces the request; with the TTL used up it stops there, and otherwise it
    forwards the same request, with the TTL decreased by one, once to each of ten
    of its peers other than the sender, chosen at random, or to all of them if
    there are fewer.  It never panics, and its store, peers, session and waiters
    stay as they are. *)
Theorem processGet_forwards fs m now so order intn sender p
    (Hm : holds_map m (fs_store fs)) :
  let new := (See (fs_seen fs) now so (gf_MsgID p)).2 in
  exists fs' gs evs, processGet fs now so order intn sender p = Some (fs', gs)
    /\ fs_seen fs' = (See (fs_seen fs) now so (gf_MsgID p)).1
    /\ fs_store fs' = fs_store fs /\ fs_peers fs' = fs_peers fs
    /\ fs_sessionName fs' = fs_sessionName fs /\ fs_waiters fs' = fs_waiters fs
    /\ fs_events fs' = fs_events fs ++ evs
    /\ (new = false -> gs = [] /\ evs = [])
    /\ (new = true -> is_Some (m !! slot (gf_Key p)) ->
         gs = [GoDeliver p] /\ evs = [event_of GetDelivering (GetDeliveringData (gf_MsgID p) (gf_Key p) (gf_RequesterID p))])
    /\ (new = true -> m !! slot (gf_Key p) = None ->
         evs = [event_of GetReceived (GetReceivedData (gf_MsgID p) (gf_Key p) (gf_TTL p))]
         /\ (gf_TTL p <= 0 -> gs = [])
         /\ (0 < gf_TTL p -> exists peers, gs = forwards p peers
              /\ zlen peers = Z.min 10 (zlen (filter (fun to => to <> sender) order))
              /\ (forall to, to ∈ peers -> to ∈ order /\ to <> sender)
              /\ (NoDup order -> NoDup peers))).
Proof.
  intros new. unfold processGet. subst new. destruct (See (fs_seen fs) now so (gf_MsgID p)) as [seen new].
  cbn [fst snd]. destruct new; cbn [negb].
  2: { eexists _, [], []. split; [done|]. do 5 (split; [done|]). split; [by rewrite app_nil_r|]. by split. }
  cbn [fs_store with_seen]. rewrite (bs_Has_ok m) by done. case_bool_decide as Hh.
  { eexists _, _, _. split; [done|]. do 5 (split; [done|]). split; [done|].
    split; [done|]. split; [done|]. intros _ Hn. rewrite Hn in Hh. by destruct Hh. }
  pose proof (select_sample intn order sender 10) as Hsel.
  destruct (Z.leb_spec (gf_TTL p) 0) as [Ht|Ht].
  - eexists _, [], _. split; [done|]. do 5 (split; [done|]). split; [done|].
    split; [done|]. split; [done|]. intros _ _. split; [done|]. split; [done|lia].
  - destruct (Select intn order sender 10) as [r|]; [|lia]. destruct Hsel as (_ & Hlen & Hin & Hnd & _).
    cbn [mbind option_bind]. eexists _, _, _. split; [done|]. do 5 (split; [done|]).
    split; [done|]. split; [done|]. split; [done|]. intros _ _.
    split; [done|]. split; [lia|]. intros _. by exists r.
Qed.
End properties.

(** ** Witnesses *)

(** A store of one file, and a host that is connected to everybody. *)
Module ToyStore.
#[export] Instance map_BlobStore : BlobStore (gmap string bytes) :=
  {| bs_Has s key := bool_decide (is_Some (s !! key));
     bs_Read s key := match s !! key with Some d => Ok (d, zlen d)
                      | None => Err (Errorf "file not found") end;
     bs_Write _ _ s key r :=
       let '(b, r, n, e) := io_Copy ([] : bytes) r in
       (<[key := b]> s, r, match e with Some e => Err e | None => Ok n end) |}.

#[export] Program Instance map_BlobStoreLaws : BlobStoreLaws (gmap string bytes) :=
  {| slot := id; fragment := id; holds_map m s := s = m |}.
Next Obligation. by intros m s key ->. Qed.
Next Obligation. intros m s key d -> Hd. cbn in *. unfold id in Hd. by rewrite Hd. Qed.
Next Obligation. intros m s key -> Hd. cbn in *. unfold id in Hd. rewrite Hd. eauto. Qed.
Next Obligation.
  intros m s key R HR HL r -> He. cbn [bs_Write map_BlobStore].
  destruct (io_Copy_ok _ ([] : bytes) r [] buffer_reliable eq_refl) as (b & r' & -> & -> & Hrr).
  rewrite He. eauto.
Qed.
Next Obligation.
  intros m s key R HR HL r -> He. cbn [bs_Write map_BlobStore].
  destruct (io_Copy_ok _ ([] : bytes) r [] buffer_reliable eq_refl) as (b & r' & -> & -> & Hrr).
  unfold copy_err. rewrite decide_False by done. eauto 10.
Qed.

#[export] Instance toy_Node : Node :=
  {| node_ID := "me"; node_Addrs _ := []; node_Connectedness _ _ := Connected;
     node_ConnsToPeer _ _ := ["/ip4/1.2.3.4"]; node_Protocols _ _ := Ok [StorageProtocolID];
     NewMultiaddr a := Ok a;
     AddrInfoFromP2pAddr a := Ok {| ai_ID := a; ai_Addrs := [a] |}; peer_Decode s := Ok s |}.

Definition toy_server : FileServer (gmap string bytes) := NewFileServer {[ "k" := [x61] ]}.
End ToyStore.
Import ToyStore.

Lemma NewFileServer_waiters_ok {S} (store : S) : waiters_ok (NewFileServer store).
Proof. split; cbn; intros; rewrite ?lookup_empty in *; done. Defined.

Lemma waiter_gets_first_result_witness :
  exists fs', run_waiters (registerTransferWaiter toy_server "a").1
                [Notify "b" None; Notify "a" (Some EOF); Register "a"; Notify "a" None] = Some fs'
    /\ fs_chans fs' !! 0%nat = Some {| w_val := Some (Some EOF); w_closed := true |}.
Proof.
  exact (waiter_gets_first_result toy_server "a"
    [Notify "b" None; Notify "a" (Some EOF); Register "a"; Notify "a" None]
    (NewFileServer_waiters_ok _)).
Defined.

Lemma registry_consistent_witness :
  exists fs', run_peers toy_server [Connect 5 "p" "c"; Disconnect 6 "p"] = Some fs'
    /\ fs_tagged fs' = dom (fs_peers fs').
Proof.
  destruct (registry_consistent toy_server [Connect 5 "p" "c"; Disconnect 6 "p"])
    as (fs' & Hr & Ht & _).
  - split; [reflexivity|]. split; [reflexivity|]. split; [reflexivity|].
    intros id p. cbn. by rewrite lookup_empty.
  - exists fs'. split; [exact Hr|exact Ht].
Defined.

Lemma store_request_accepted_witness :
  exists status, Handle (SetSession toy_server "s", []) "p"
      (MsgProto (NewMessage TypeStoreFile {| sf_Key := "new"; sf_Session := "t" |}))
    = ((SetSession toy_server "s", []), Ok (store_resp "new" status)) /\ status <> StatusSuccess.
Proof.
  destruct (store_request_accepted (SetSession toy_server "s") {[ "k" := [x61] ]} "p"
    {| sf_Key := "new"; sf_Session := "t" |}) as (status & Hh & Hs).
  - split; reflexivity.
  - reflexivity.
  - exists status. split; [exact Hh|]. intros E. apply Hs in E as (_ & _ & [[x E]|[E|E]]);
      cbn in E; [by rewrite lookup_empty in E|discriminate E|discriminate E].
Defined.

Lemma processGet_forwards_witness :
  exists fs' peers, processGet toy_server 0 [] ["p"; "q"] (fun _ _ => 0%nat) "p"
      {| gf_Key := "x"; gf_MsgID := "m"; gf_TTL := 1; gf_RequesterID := "r"; gf_RequesterAddrs := [] |}
    = Some (fs', forwards {| gf_Key := "x"; gf_MsgID := "m"; gf_TTL := 1; gf_RequesterID := "r";
                             gf_RequesterAddrs := [] |} peers)
    /\ zlen peers = 1.
Proof.
  destruct (processGet_forwards toy_server {[ "k" := [x61] ]} 0 [] ["p"; "q"] (fun _ _ => 0%nat) "p"
    {| gf_Key := "x"; gf_MsgID := "m"; gf_TTL := 1; gf_RequesterID := "r"; gf_RequesterAddrs := [] |})
    as (fs' & gs & evs & Hp & _ & _ & _ & _ & _ & _ & _ & _ & Hf).
  - reflexivity.
  - destruct Hf as (_ & _ & Hf); [reflexivity|reflexivity|].
    destruct Hf as (peers & Hgs & Hlen & _); [reflexivity|].
    exists fs', peers. rewrite <-Hgs. split; [exact Hp|exact Hlen].
Defined.
