(* ===== verification/Transfer.v ===== *)
(** File transfer streams (src/internal/fileserver/transfer.go): the wire format
    [key length, key, file size, data] with a one-byte answer, the receiver
    [handleIncomingStream] with its progress events, the sender [SendFile], and
    the table of pending transfers.

    The receiver reads from any scripted stream and writes to any [BlobStore];
    the sender writes to any [Writer]. *)
From S2P Require Import Prelude Words Io Event Middleware Protocol BlobStore FileServer.

Definition FileTransferProtocol : string := "/storage-transfer/1.0.0".
Definition TransferTimeout : duration := 5 * Minute.
Definition MaxKeyLength : Z := 1024.

(** ** Pending transfers *)
Inductive TransferType := TransferTypeUpload | TransferTypeDownload.

Record PendingTransfer := {
  pt_Key : string;
  pt_Size : Z;
  pt_Type : TransferType;
  pt_PeerID : peer_ID;
  pt_CreatedAt : time;
  pt_TransferID : string;
}.

Abbreviation pending_map := (gmap string PendingTransfer).

Definition RegisterPendingTransfer (pending : pending_map) (id : string) (pt : PendingTransfer) :
    pending_map := <[id := pt]> pending.

Definition GetPendingTransfer (pending : pending_map) (id : string) :
    pending_map * option PendingTransfer := (delete id pending, pending !! id).

Definition fresh_transfer (now : time) (kv : string * PendingTransfer) : Prop :=
  time_sub now (pt_CreatedAt kv.2) <= TransferTimeout.
#[export] Instance fresh_transfer_dec now kv : Decision (fresh_transfer now kv) :=
  decide (time_sub now (pt_CreatedAt kv.2) <= TransferTimeout).

(** One tick of [cleanupStaleTransfers]. *)
Definition cleanupStaleTransfers (pending : pending_map) (now : time) : pending_map :=
  filter (fresh_transfer now) pending.

(** ** [progressTrackingReader] *)
Record progressTrackingReader (R : Type) := ProgressReader {
  ptr_r : R;
  ptr_key : string;
  ptr_total : Z;
  ptr_written : Z;
  ptr_events : list Event;       (* published so far *)
}.
Arguments ProgressReader {R}.
Arguments ptr_r {R}.
Arguments ptr_key {R}.
Arguments ptr_total {R}.
Arguments ptr_written {R}.
Arguments ptr_events {R}.

Definition ptr_Read {R} `{Reader R} (p : progressTrackingReader R) (len : Z) :
    progressTrackingReader R * bytes * option goerr :=
  let '(r, d, err) := rd_read (ptr_r p) len in
  let n := zlen d in
  if 0 <? n then
    let written := ptr_written p + n in
    (ProgressReader r (ptr_key p) (ptr_total p) written
       (ptr_events p ++ [event_of FileReceiveProgress
                           (ReceiveProgressData (ptr_key p) written (ptr_total p))]), d, err)
  else (ProgressReader r (ptr_key p) (ptr_total p) (ptr_written p) (ptr_events p), d, err).

#[export] Instance ptr_Reader {R} `{Reader R} : Reader (progressTrackingReader R) :=
  {| rd_read := ptr_Read; rd_size p := rd_size (ptr_r p) |}.

(** It delivers what the reader under it delivers. *)
#[export] Program Instance ptr_Laws {R} `{ReaderLaws R} : ReaderLaws (progressTrackingReader R) :=
  {| rd_bytes p := rd_bytes (ptr_r p); rd_end p := rd_end (ptr_r p) |}.
Next Obligation.
  intros R HR HL p n p' d e Hn. cbn. unfold ptr_Read.
  destruct (rd_read (ptr_r p) n) as [[r d1] e1] eqn:Hrd.
  pose proof (rd_law _ _ _ _ _ Hn Hrd) as Hlaw.
  destruct (0 <? zlen d1); intros [= <- <- <-]; cbn; by destruct e1.
Qed.

(** ** The receiver *)
Section receiver.
Context {S : Type} `{BlobStore S}.
Implicit Type fs : FileServer S.

Definition add_events fs (evs : list Event) : FileServer S :=
  fold_left (fun fs e => publish fs (Event.Type_ e) (Event.Data e)) evs fs.

(** The server afterwards, and what has been written to the stream; [None]: a
    panic. *)
Definition handleIncomingStream fs (remotePeer : peer_ID) (s : stream) :
    option (FileServer S * bytes) :=
  let '(s, keyLenBuf, err) := io_ReadFull s 2 in
  match err with Some _ => Some (fs, []) | None =>
  let keyLen := be_get keyLenBuf in
  if (keyLen =? 0) || (MaxKeyLength <? keyLen) then Some (fs, []) else
  let '(s, keyBuf, err) := io_ReadFull s keyLen in
  match err with Some _ => Some (fs, []) | None =>
  let key := string_of_bytes keyBuf in
  let '(s, sizeBuf, err) := io_ReadFull s 8 in
  match err with Some _ => Some (fs, []) | None =>
  let fileSize := wrap_s 64 (be_get sizeBuf) in
  let fs := publish fs FileReceiveStarted (ReceiveStartedData key fileSize remotePeer) in
  let limitedReader := Limited s fileSize in
  let progressReader := ProgressReader limitedReader key fileSize 0 [] in
  let '(st, progressReader, written) := bs_Write (fs_store fs) key progressReader in
  let fs := add_events (with_store fs st) (ptr_events progressReader) in
  match written with
  | Err e =>
      let fs := publish fs FileReceiveFailed (ReceiveFailedData key e) in
      fs ← notifyTransferComplete fs key (Some e); Some (fs, [x00])
  | Ok written =>
      let fs := publish fs FileReceiveComplete (ReceiveCompleteData key written) in
      fs ← notifyTransferComplete fs key None; Some (fs, [x01])
  end
  end end end.
End receiver.

(** ** The sender *)
Section sender.
Context {W : Type} `{Writer W} {R : Type} `{Reader R}.

Definition write_wrapped (w : W) (b : bytes) (msg : string) : W * option goerr :=
  let '(w, _, err) := wr_write w b in (w, option_map (Wrap msg) err).

(** On the stream [w]; [reply] is what can be read from it afterwards. *)
Definition SendFile_on (w : W) (reply : W -> stream) (key : string) (r : R) (size : Z) :
    W * result unit :=
  let keyBytes := bytes_of_string key in
  let keyLenBuf := be_put 2 (wrap_u 16 (zlen keyBytes)) in
  let '(w, err) := write_wrapped w keyLenBuf "failed to write key length" in
  match err with Some e => (w, Err e) | None =>
  let '(w, err) := write_wrapped w keyBytes "failed to write key" in
  match err with Some e => (w, Err e) | None =>
  let sizeBuf := be_put 8 (wrap_u 64 size) in
  let '(w, err) := write_wrapped w sizeBuf "failed to write file size" in
  match err with Some e => (w, Err e) | None =>
  let '(w, _, _, err) := io_Copy w r in
  match err with Some e => (w, Err (Wrap "failed to send file data" e)) | None =>
  let '(_, respBuf, err) := io_ReadFull (reply w) 1 in
  match err with Some e => (w, Err (Wrap "failed to read transfer response" e)) | None =>
  if decide (respBuf = [x01]) then (w, Ok tt)
  else (w, Err (Errorf "peer reported transfer failure"))
  end end end end end.

(** [open] is [host.NewStream].  The transfer streams that have been opened, with
    the peer and what has been written to them, come with the result. *)
Definition SendFile (open : peer_ID -> string -> result (W * (W -> stream))) (peerID : peer_ID)
    (key : string) (r : R) (size : Z) : list (peer_ID * W) * result unit :=
  match open peerID FileTransferProtocol with
  | Err e => ([], Err (Wrap "failed to open stream" e))
  | Ok (w, reply) => let '(w, res) := SendFile_on w reply key r size in ([(peerID, w)], res)
  end.
End sender.

(** ** The wire *)
Definition wire_header (key : string) (size : Z) : bytes :=
  be_put 2 (wrap_u 16 (zlen (bytes_of_string key))) ++ bytes_of_string key
  ++ be_put 8 (wrap_u 64 size).

Lemma write_wrapped_ok {W} `{Writer W} (rel : W -> bytes -> Prop) w b d msg :
  reliable rel -> rel w b -> exists w', write_wrapped w d msg = (w', None) /\ rel w' (b ++ d).
Proof.
  intros Hrel Hw. unfold write_wrapped. destruct (wr_write w d) as [[w' n] e] eqn:E.
  destruct (Hrel _ _ _ _ _ _ Hw E) as (_ & -> & Hw'). eauto.
Qed.

(** The sender writes the header and the bytes of [r]; unless [r] fails it then
    returns what the answer says. *)
Lemma SendFile_on_wire {W} `{Writer W} {R} `{ReaderLaws R} (rel : W -> bytes -> Prop)
    (w : W) reply key (r : R) size :
  reliable rel -> rel w [] ->
  exists w', rel w' (wire_header key size ++ rd_bytes r)
    /\ SendFile_on w reply key r size = (w',
         match copy_err (rd_end r) with
         | Some e => Err (Wrap "failed to send file data" e)
         | None =>
             let '(_, respBuf, err) := io_ReadFull (reply w') 1 in
             match err with
             | Some e => Err (Wrap "failed to read transfer response" e)
             | None => if decide (respBuf = [x01]) then Ok tt
                       else Err (Errorf "peer reported transfer failure")
             end
         end).
Proof.
  intros Hrel Hw. unfold SendFile_on.
  destruct (write_wrapped_ok rel w [] (be_put 2 (wrap_u 16 (zlen (bytes_of_string key))))
    "failed to write key length" Hrel Hw) as (w1 & -> & Hw1).
  destruct (write_wrapped_ok rel w1 _ (bytes_of_string key) "failed to write key" Hrel Hw1)
    as (w2 & -> & Hw2).
  destruct (write_wrapped_ok rel w2 _ (be_put 8 (wrap_u 64 size)) "failed to write file size" Hrel Hw2)
    as (w3 & -> & Hw3).
  destruct (io_Copy_ok rel w3 r _ Hrel Hw3) as (w4 & r' & -> & Hw4 & _).
  exists w4. split; [unfold wire_header; by rewrite <-!app_assoc in *|].
  destruct (copy_err (rd_end r)); [done|].
  destruct (io_ReadFull (reply w4) 1) as [[s b] [e|]]; [done|]. by case_decide.
Qed.

(** Reading exactly what is at the front of a stream. *)
Lemma ReadFull_front (s : stream) b rest :
  rd_bytes s = b ++ rest ->
  exists s', io_ReadFull s (zlen b) = (s', b, None) /\ rd_bytes s' = rest /\ rd_end s' = rd_end s.
Proof.
  intros Hs. pose proof (io_ReadFull_ok s (zlen b) (zlen_nonneg b)) as Hr.
  rewrite Hs, zlen_app in Hr. pose proof (zlen_nonneg rest).
  destruct (Z.leb_spec (zlen b) (zlen b + zlen rest)); [|lia].
  destruct Hr as (s' & Hrd & Hb & He & _). exists s'. rewrite Hrd, Hb, He.
  unfold zlen. rewrite Nat2Z.id, take_app_length, drop_app_length. done.
Qed.

(** ** Events *)
Lemma add_events_fields {S} (fs : FileServer S) evs :
  fs_store (add_events fs evs) = fs_store fs /\ fs_waiters (add_events fs evs) = fs_waiters fs
  /\ fs_chans (add_events fs evs) = fs_chans fs /\ fs_nextchan (add_events fs evs) = fs_nextchan fs
  /\ fs_sessionName (add_events fs evs) = fs_sessionName fs
  /\ fs_events (add_events fs evs)
     = fs_events fs ++ map (fun e => event_of (Event.Type_ e) (Event.Data e)) evs.
Proof.
  revert fs. unfold add_events. induction evs as [|e evs IH]; intros fs; cbn [fold_left map].
  { by rewrite app_nil_r. }
  destruct (IH (publish fs (Event.Type_ e) (Event.Data e))) as (-> & -> & -> & -> & -> & ->).
  cbn. by rewrite <-app_assoc.
Qed.

Lemma add_events_peers {S} (fs : FileServer S) evs :
  fs_peers (add_events fs evs) = fs_peers fs /\ fs_tagged (add_events fs evs) = fs_tagged fs
  /\ fs_started (add_events fs evs) = fs_started fs.
Proof.
  revert fs. unfold add_events. induction evs as [|e evs IH]; intros fs; cbn [fold_left]; [done|].
  by destruct (IH (publish fs (Event.Type_ e) (Event.Data e))) as (-> & -> & ->).
Qed.

(** The progress events for the running totals [ns]. *)
Definition progress_events (key : string) (total : Z) (ns : list Z) : list Event :=
  map (fun n => event_of FileReceiveProgress (ReceiveProgressData key n total)) ns.

(** From [lo], strictly increasing, up to [hi]. *)
Fixpoint climbs (lo : Z) (ns : list Z) (hi : Z) : Prop :=
  match ns with [] => lo = hi | n :: ns => lo < n /\ climbs n ns hi end.

Lemma climbs_app lo ns mid n : climbs lo ns mid -> mid < n -> climbs lo (ns ++ [n]) n.
Proof. revert lo. induction ns as [|k ns IH]; intros lo; cbn; [intros ->; done|]. intros [? ?] ?. auto. Qed.

Lemma reads_progress {R} `{Reader R} (p : progressTrackingReader R) b p' :
  reads p b p' -> forall lo ns, ptr_events p = progress_events (ptr_key p) (ptr_total p) ns ->
  climbs lo ns (ptr_written p) ->
  exists ns', ptr_events p' = progress_events (ptr_key p) (ptr_total p) ns'
    /\ climbs lo ns' (ptr_written p + zlen b).
Proof.
  induction 1 as [p|p n p1 d e b p2 Hn Hrd Hreads IH]; intros lo ns Hev Hcl.
  { exists ns. rewrite zlen_nil, Z.add_0_r. done. }
  cbn in Hrd. unfold ptr_Read in Hrd. destruct (rd_read (ptr_r p) n) as [[r1 d1] e1].
  destruct (Z.ltb_spec 0 (zlen d1)); injection Hrd as <- <- <-; cbn in IH.
  - destruct (IH lo (ns ++ [ptr_written p + zlen d1])) as (ns' & Hev' & Hcl').
    + unfold progress_events in *. by rewrite Hev, map_app.
    + eapply climbs_app; [done|lia].
    + exists ns'. rewrite zlen_app, Z.add_assoc. done.
  - assert (d1 = []) as -> by (apply zlen_zero; pose proof (zlen_nonneg d1); lia). cbn [app].
    by apply (IH lo ns).
Qed.

(** ** What the receiver does with a well-formed header *)
Lemma be_get_put_u64 z : wrap_s 64 (be_get (be_put 8 (wrap_u 64 z))) = wrap_s 64 z.
Proof.
  rewrite be_get_put. change (8 * Z.of_nat 8) with 64. unfold wrap_u, wrap_s.
  rewrite Zmod_mod, Zplus_mod_idemp_l. done.
Qed.

Lemma wrap_s_int64 z : min_int64 <= z <= max_int64 -> wrap_s 64 z = z.
Proof. unfold min_int64, max_int64. intros. apply wrap_s_small; lia. Qed.

Section incoming.
Context {S : Type} `{BlobStoreLaws S}.
Implicit Type fs : FileServer S.

(** The data that arrives: at most [size] bytes, all of [size] or up to the end
    of the stream. *)
Definition arriving (size : Z) (rest : bytes) : bytes := take (Z.to_nat size) rest.
Definition arrives (size : Z) (rest : bytes) (fin : goerr) : Prop :=
  size <= zlen rest \/ fin = EOF.

Record received fs fs' (m : gmap string bytes) (peerID : peer_ID) (key : string) (size : Z)
    (content data : bytes) (outcome : EventType * EventData) (err : option goerr) : Prop := {
  rc_store : holds_map (<[slot key := content]> m) (fs_store fs');
  rc_events : exists ns, climbs 0 ns (zlen data)
    /\ fs_events fs' = fs_events fs
         ++ event_of FileReceiveStarted (ReceiveStartedData key size peerID)
         :: progress_events key size ns ++ [event_of outcome.1 outcome.2];
  rc_waiters : fs_waiters fs' = delete key (fs_waiters fs);
  rc_chans ch : fs_chans fs' !! ch = if decide (ch ∈ default [] (fs_waiters fs !! key))
                                     then Some (woken err) else fs_chans fs !! ch;
  rc_session : fs_sessionName fs' = fs_sessionName fs;
  rc_peers : fs_peers fs' = fs_peers fs /\ fs_tagged fs' = fs_tagged fs /\ fs_started fs' = fs_started fs;
  rc_ok : waiters_ok fs';
}.

Lemma notify_received fs fs1 m peerID key size content data ty d err ns :
  waiters_ok fs -> holds_map (<[slot key := content]> m) (fs_store fs1) ->
  climbs 0 ns (zlen data) ->
  fs1 = publish (add_events (with_store (publish fs FileReceiveStarted
          (ReceiveStartedData key size peerID)) (fs_store fs1))
          (progress_events key size ns)) ty d ->
  exists fs', notifyTransferComplete fs1 key err = Some fs'
    /\ received fs fs' m peerID key size content data (ty, d) err.
Proof.
  intros Hok Hst Hns Hfs1.
  destruct (add_events_fields (with_store (publish fs FileReceiveStarted
    (ReceiveStartedData key size peerID)) (fs_store fs1)) (progress_events key size ns))
    as (Ha1 & Ha2 & Ha3 & Ha4 & Ha5 & Ha6).
  assert (fs_waiters fs1 = fs_waiters fs /\ fs_chans fs1 = fs_chans fs
    /\ fs_nextchan fs1 = fs_nextchan fs /\ fs_sessionName fs1 = fs_sessionName fs
    /\ fs_events fs1 = fs_events fs ++ event_of FileReceiveStarted (ReceiveStartedData key size peerID)
         :: progress_events key size ns ++ [event_of ty d]) as (Hw & Hc & Hn & Hs & He).
  { rewrite Hfs1. cbn [publish fs_waiters fs_chans fs_nextchan fs_sessionName fs_events].
    rewrite Ha2, Ha3, Ha4, Ha5, Ha6. split_and!; try done. cbn.
    replace (map _ (progress_events key size ns)) with (progress_events key size ns).
    - by rewrite <-!app_assoc.
    - unfold progress_events. rewrite map_map. by apply map_ext. }
  assert (waiters_ok fs1) as Hok1.
  { split; rewrite ?Hw, ?Hc, ?Hn; apply Hok. }
  unfold notifyTransferComplete. destruct (notify_ok fs1 key err Hok1)
    as (fs' & Hnot & Hok' & Hw' & Hn' & Hc'). unfold notifyTransferComplete in Hnot.
  exists fs'. split; [done|].
  assert (fs_store fs' = fs_store fs1 /\ fs_events fs' = fs_events fs1 /\ fs_sessionName fs' = fs_sessionName fs1
    /\ fs_peers fs' = fs_peers fs1 /\ fs_tagged fs' = fs_tagged fs1 /\ fs_started fs' = fs_started fs1)
    as (Hst' & Hev' & Hse' & Hp' & Ht' & Hsd').
  { destruct (fs_waiters fs1 !! key); [|by injection Hnot as <-].
    destruct (notify_all _ _ _); [|done]. by injection Hnot as <-. }
  split; rewrite ?Hst', ?Hev', ?Hse'; try done.
  - exists ns. by split.
  - by rewrite Hw', Hw.
  - intros ch. by rewrite Hc', Hw, Hc.
  - rewrite Hp', Ht', Hsd', Hfs1. cbn [publish fs_peers fs_tagged fs_started].
    by destruct (add_events_peers (with_store (publish fs FileReceiveStarted (ReceiveStartedData key size peerID))
      (fs_store fs1)) (progress_events key size ns)) as (-> & -> & ->).
Qed.

(** The header, read off the stream. *)
Lemma header_split key size rest :
  wire_header key size ++ rest
  = be_put 2 (wrap_u 16 (zlen (bytes_of_string key)))
    ++ bytes_of_string key ++ be_put 8 (wrap_u 64 size) ++ rest.
Proof. unfold wire_header. by rewrite <-!app_assoc. Qed.

(** What a transfer announced with [size] comes to, when [rest] is what follows
    its header and [fin] how the stream ends. *)
Definition receives fs fs' m peerID key size rest fin (reply : bytes) : Prop :=
  exists e,
    if decide (arrives size rest fin)
    then reply = [x01] /\ received fs fs' m peerID key size (arriving size rest) (arriving size rest)
           (FileReceiveComplete, ReceiveCompleteData key (zlen (arriving size rest))) None
    else reply = [x00] /\ received fs fs' m peerID key size (fragment (arriving size rest)) (arriving size rest)
           (FileReceiveFailed, ReceiveFailedData key e) (Some e).

(** After the header: storing what arrives, and telling the waiters. *)
Lemma receive_body fs m peerID key size (s : stream) :
  waiters_ok fs -> holds_map m (fs_store fs) -> exists fs' reply,
    (let fs := publish fs FileReceiveStarted (ReceiveStartedData key size peerID) in
     let '(st, pr, written) := bs_Write (fs_store fs) key (ProgressReader (Limited s size) key size 0 []) in
     let fs := add_events (with_store fs st) (ptr_events pr) in
     match written with
     | Err e =>
         let fs := publish fs FileReceiveFailed (ReceiveFailedData key e) in
         fs ← notifyTransferComplete fs key (Some e); Some (fs, [x00])
     | Ok written =>
         let fs := publish fs FileReceiveComplete (ReceiveCompleteData key written) in
         fs ← notifyTransferComplete fs key None; Some (fs, [x01])
     end) = Some (fs', reply)
    /\ receives fs fs' m peerID key size (rd_bytes s) (rd_end s) reply.
Proof.
  intros Hok Hm. set (fs1 := publish fs _ _). set (pr := ProgressReader (Limited s size) key size 0 []).
  set (data := arriving size (rd_bytes s)).
  assert (forall b p', reads pr b p' -> exists ns, ptr_events p' = progress_events key size ns
            /\ climbs 0 ns (zlen b)) as Hprog.
  { intros b p' Hrr. destruct (reads_progress pr b p' Hrr 0 []) as (ns & Hn1 & Hn2); [done..|]. eauto. }
  assert (rd_end pr = if size <=? zlen (rd_bytes s) then EOF else rd_end s) as He by done.
  assert (forall st ns ty d err content,
    holds_map (<[slot key := content]> m) st -> climbs 0 ns (zlen data) -> exists fs',
    notifyTransferComplete (publish (add_events (with_store fs1 st) (progress_events key size ns)) ty d) key err
      = Some fs' /\ received fs fs' m peerID key size content data (ty, d) err) as Hend.
  { intros st ns ty d err content Hst Hns. eapply notify_received; [done| |exact Hns|].
    - cbn. by rewrite (proj1 (add_events_fields _ _)).
    - cbn [fs_store publish]. by rewrite (proj1 (add_events_fields _ _)). }
  unfold receives. destruct (decide (arrives size (rd_bytes s) (rd_end s))) as [Har|Har].
  - assert (rd_end pr = EOF) as Heof.
    { rewrite He. destruct (Z.leb_spec size (zlen (rd_bytes s))); [done|]. destruct Har; [lia|done]. }
    destruct (bs_Write_ok m (fs_store fs) key _ _ _ pr Hm Heof) as (st & pr' & Hw & Hm' & Hrr).
    destruct (Hprog _ _ Hrr) as (ns & Hev & Hcl). change (rd_bytes pr) with data in *.
    cbv zeta. change (fs_store fs1) with (fs_store fs). rewrite Hw, Hev.
    destruct (Hend st ns FileReceiveComplete (ReceiveCompleteData key (zlen data)) None data Hm' Hcl)
      as (fs' & -> & Hrc). exists fs', [x01]. split; [done|]. by exists EOF.
  - assert (rd_end pr <> EOF) as Hne.
    { rewrite He. destruct (Z.leb_spec size (zlen (rd_bytes s))); intros E; apply Har; [by left|by right]. }
    destruct (bs_Write_fails m (fs_store fs) key _ _ _ pr Hm Hne) as (st & pr' & e & Hw & Hm' & Hrr).
    destruct (Hprog _ _ Hrr) as (ns & Hev & Hcl). change (rd_bytes pr) with data in *.
    cbv zeta. change (fs_store fs1) with (fs_store fs). rewrite Hw, Hev.
    destruct (Hend st ns FileReceiveFailed (ReceiveFailedData key e) (Some e) (fragment data) Hm' Hcl)
      as (fs' & -> & Hrc). exists fs', [x00]. split; [done|]. by exists e.
Qed.

(** Whatever comes in on a stream: nothing happens, or a transfer is received. *)
Lemma incoming_any fs m peerID s :
  waiters_ok fs -> holds_map m (fs_store fs) -> exists fs' reply,
    handleIncomingStream fs peerID s = Some (fs', reply)
    /\ (fs' = fs \/ exists key size rest fin, receives fs fs' m peerID key size rest fin reply).
Proof.
  intros Hok Hm. unfold handleIncomingStream.
  destruct (io_ReadFull s 2) as [[s1 kl] [|]]; [eauto|]. case_match; [eauto|].
  destruct (io_ReadFull s1 _) as [[s2 kb] [|]]; [eauto|].
  destruct (io_ReadFull s2 8) as [[s3 sz] [|]]; [eauto|].
  destruct (receive_body fs m peerID (string_of_bytes kb) (wrap_s 64 (be_get sz)) s3 Hok Hm)
    as (fs' & reply & Hb & Hr).
  exists fs', reply. split; [exact Hb|]. right. eauto.
Qed.

Lemma incoming_spec fs m peerID s key size rest :
  waiters_ok fs -> holds_map m (fs_store fs) ->
  1 <= zlen (bytes_of_string key) <= MaxKeyLength -> min_int64 <= size <= max_int64 ->
  rd_bytes s = wire_header key size ++ rest ->
  exists fs' e,
    if decide (arrives size rest (rd_end s))
    then handleIncomingStream fs peerID s = Some (fs', [x01])
         /\ received fs fs' m peerID key size (arriving size rest) (arriving size rest)
              (FileReceiveComplete, ReceiveCompleteData key (zlen (arriving size rest))) None
    else handleIncomingStream fs peerID s = Some (fs', [x00])
         /\ received fs fs' m peerID key size (fragment (arriving size rest)) (arriving size rest)
              (FileReceiveFailed, ReceiveFailedData key e) (Some e).
Proof.
  intros Hok Hm Hk Hsz Hs. rewrite header_split in Hs. unfold MaxKeyLength in Hk.
  set (kl := be_put 2 (wrap_u 16 (zlen (bytes_of_string key)))) in *.
  destruct (ReadFull_front s kl _ Hs) as (s1 & Hr1 & Hs1 & He1).
  destruct (ReadFull_front s1 _ _ Hs1) as (s2 & Hr2 & Hs2 & He2).
  set (sz := be_put 8 (wrap_u 64 size)) in *.
  destruct (ReadFull_front s2 sz _ Hs2) as (s3 & Hr3 & Hs3 & He3).
  assert (be_get kl = zlen (bytes_of_string key)) as Hkl.
  { unfold kl. rewrite wrap_u_small by lia. apply be_get_put_small. simpl. lia. }
  destruct (receive_body fs m peerID key size s3 Hok Hm) as (fs' & reply & Hb & e & Hr).
  rewrite Hs3, He3, He2, He1 in Hr. exists fs', e.
  assert (handleIncomingStream fs peerID s = Some (fs', reply)) as ->.
  { unfold handleIncomingStream. change 2 with (zlen kl). rewrite Hr1, Hkl.
    destruct (Z.eqb_spec (zlen (bytes_of_string key)) 0); [lia|].
    destruct (Z.ltb_spec MaxKeyLength (zlen (bytes_of_string key))) as [Hl|_]; [unfold MaxKeyLength in Hl; lia|].
    cbn [orb]. rewrite Hr2. change 8 with (zlen sz). rewrite Hr3.
    change (be_get sz) with (be_get (be_put 8 (wrap_u 64 size))).
    by rewrite be_get_put_u64, wrap_s_int64, string_of_bytes_of_string by done. }
  case_decide; by destruct Hr as [-> Hr].
Qed.
End incoming.

Lemma key_nonempty key n : 1 <= zlen (bytes_of_string key) <= n -> key <> "".
Proof. intros [Hk _] ->. by destruct Hk. Qed.

(** ** Properties *)
Section properties.
Context {S : Type} `{BlobStoreLaws S}.
Implicit Type fs : FileServer S.

(** What [SendFile] writes, fed to a receiver, and its answer fed back. *)
Lemma loopback fs m peerID key {R} `{ReaderLaws R} (r : R) cut fin
    (Hok : waiters_ok fs) (Hm : holds_map m (fs_store fs))
    (Hkey : 1 <= zlen (bytes_of_string key) <= MaxKeyLength)
    (Hr : rd_end r = EOF) (Hsize : zlen (rd_bytes r) <= max_int64)
    (Hcut : forall b : bytes, concat (cut b) = b) :
  let incoming w := handleIncomingStream fs peerID (Stream (cut w) fin) in
  let reply w := match incoming w with Some (_, a) => Stream [a] EOF | None => Stream [] EOF end in
  exists w fs',
    SendFile_on ([] : bytes) reply key r (zlen (rd_bytes r)) = (w, Ok tt)
    /\ w = wire_header key (zlen (rd_bytes r)) ++ rd_bytes r
    /\ incoming w = Some (fs', [x01])
    /\ received fs fs' m peerID key (zlen (rd_bytes r)) (rd_bytes r) (rd_bytes r)
         (FileReceiveComplete, ReceiveCompleteData key (zlen (rd_bytes r))) None.
Proof.
  intros incoming reply.
  destruct (SendFile_on_wire (fun w b : bytes => w = b) ([] : bytes) reply key r
    (zlen (rd_bytes r)) buffer_reliable eq_refl) as (w & Hw & Hsend).
  destruct (incoming_spec fs m peerID (Stream (cut w) fin) key (zlen (rd_bytes r)) (rd_bytes r))
    as (fs' & e & Hin); [done|done|done| | |].
  - pose proof (zlen_nonneg (rd_bytes r)). unfold min_int64. lia.
  - cbn. by rewrite Hcut.
  - rewrite decide_True in Hin by (left; lia). destruct Hin as [Hin Hrc].
    assert (arriving (zlen (rd_bytes r)) (rd_bytes r) = rd_bytes r) as Harr.
    { unfold arriving, zlen. by rewrite Nat2Z.id, firstn_all. }
    rewrite Harr in Hrc. exists w, fs'. split; [|split; [exact Hw|by split]].
    change (handleIncomingStream fs peerID (Stream (cut w) fin)) with (incoming w) in Hin.
    rewrite Hsend, Hr. unfold copy_err. cbn [decide]. rewrite decide_True by done.
    unfold reply. rewrite Hin. done.
Qed.

(** [C5] A transfer delivers the file.  When the bytes [SendFile] writes reach a
    peer (cut into reads in any way, the stream left open), [SendFile] returns
    without an error; the peer's store then holds exactly the bytes of the
    sender's reader under the key and nothing else has changed in it; the peer
    has published the start, strictly increasing progress up to the size, and
    the completion; and every waiter for the key, and no other, has been woken
    without an error. *)
Theorem transfer_delivers fs m peerID key {R} `{ReaderLaws R} (r : R) cut fin
    (Hok : waiters_ok fs) (Hm : holds_map m (fs_store fs))
    (Hkey : 1 <= zlen (bytes_of_string key) <= MaxKeyLength)
    (Hr : rd_end r = EOF) (Hsize : zlen (rd_bytes r) <= max_int64)
    (Hcut : forall b : bytes, concat (cut b) = b) :
  let incoming w := handleIncomingStream fs peerID (Stream (cut w) fin) in
  let reply w := match incoming w with Some (_, a) => Stream [a] EOF | None => Stream [] EOF end in
  exists w fs',
    SendFile_on ([] : bytes) reply key r (zlen (rd_bytes r)) = (w, Ok tt)
    /\ w = wire_header key (zlen (rd_bytes r)) ++ rd_bytes r
    /\ incoming w = Some (fs', [x01])
    /\ received fs fs' m peerID key (zlen (rd_bytes r)) (rd_bytes r) (rd_bytes r)
         (FileReceiveComplete, ReceiveCompleteData key (zlen (rd_bytes r))) None.
Proof. by apply loopback. Qed.

(** [C32] A file that stops short is taken for complete: when the stream ends
    regularly before the announced size, the receiver stores what has come so
    far, acknowledges it as a success, and wakes the waiters without an error. *)
Theorem short_transfer_accepted fs m peerID s key size rest
    (Hok : waiters_ok fs) (Hm : holds_map m (fs_store fs))
    (Hkey : 1 <= zlen (bytes_of_string key) <= MaxKeyLength) (Hsize : 0 <= size <= max_int64)
    (Hs : rd_bytes s = wire_header key size ++ rest) (Hshort : zlen rest < size)
    (Hend : rd_end s = EOF) :
  exists fs', handleIncomingStream fs peerID s = Some (fs', [x01])
    /\ received fs fs' m peerID key size rest rest
         (FileReceiveComplete, ReceiveCompleteData key (zlen rest)) None.
Proof.
  destruct (incoming_spec fs m peerID s key size rest) as (fs' & e & Hin); try done.
  { unfold min_int64. lia. }
  rewrite decide_True in Hin by (by right). destruct Hin as [Hin Hrc].
  assert (arriving size rest = rest) as Harr by (unfold arriving; rewrite take_ge; [done|len]).
  rewrite Harr in Hrc. eauto.
Qed.

(** [C26] The transfer stream is not tied to the negotiation: with a receive
    session active, the key not awaited and a file stored under it already, the
    server refuses every store request that does not name the session, and
    still replaces the file with whatever a transfer stream brings, from any
    peer. *)
Theorem unsolicited_transfer_overwrites fs m peerID s key size rest old (p : StoreFilePayload)
    (Hok : waiters_ok fs) (Hm : holds_map m (fs_store fs)) (Hp : proper p) (Hpk : sf_Key p = key)
    (Hkey : 1 <= zlen (bytes_of_string key) <= MaxKeyLength) (Hsize : 0 <= size <= max_int64)
    (Hs : rd_bytes s = wire_header key size ++ rest) (Hrest : size <= zlen rest)
    (Hsession : fs_sessionName fs <> "") (Hwrong : sf_Session p <> fs_sessionName fs)
    (Hwait : fs_waiters fs !! key = None) (Hold : m !! slot key = Some old) :
  (handleMessage fs peerID (MsgProto (NewMessage TypeStoreFile p))).1
    = Ok (store_resp key StatusSessionRejected)
  /\ exists fs', handleIncomingStream fs peerID s = Some (fs', [x01])
     /\ holds_map (<[slot key := take (Z.to_nat size) rest]> m) (fs_store fs').
Proof.
  split.
  - unfold handleMessage, handleStoreFileMessage. cbn [Protocol.Type_ NewMessage].
    rewrite decide_True by done. unfold Decode. cbn [Protocol.Data NewMessage fst].
    rewrite unmarshal_marshal by done. rewrite Hpk, Hwait, decide_False.
    + by rewrite bool_decide_false, bool_decide_true by (done || by intros []).
    + by eapply key_nonempty.
  - destruct (incoming_spec fs m peerID s key size rest) as (fs' & e & Hin); try done.
    { unfold min_int64. lia. }
    rewrite decide_True in Hin by (by left). destruct Hin as [Hin Hrc]. exists fs'.
    split; [done|]. apply Hrc.
Qed.

(** A broken transfer blocks the next one: when the stream fails before
    the announced size, the receiver answers with a failure, and wakes the
    waiters with the error; but the fragment stays in the store under the key,
    and every later request to store the file is refused as "already exists". *)
Theorem broken_transfer_blocks_retry fs m peerID s key size rest (p : StoreFilePayload)
    (Hok : waiters_ok fs) (Hm : holds_map m (fs_store fs)) (Hp : proper p) (Hpk : sf_Key p = key)
    (Hsession : sf_Session p = fs_sessionName fs)
    (Hkey : 1 <= zlen (bytes_of_string key) <= MaxKeyLength) (Hsize : 0 <= size <= max_int64)
    (Hs : rd_bytes s = wire_header key size ++ rest) (Hshort : zlen rest < size)
    (Hend : rd_end s <> EOF) :
  exists fs' e, handleIncomingStream fs peerID s = Some (fs', [x00])
    /\ received fs fs' m peerID key size (fragment rest) rest
         (FileReceiveFailed, ReceiveFailedData key e) (Some e)
    /\ bs_Read (fs_store fs') key = Ok (fragment rest, zlen (fragment rest))
    /\ forall sender, (handleMessage fs' sender (MsgProto (NewMessage TypeStoreFile p))).1
                      = Ok (store_resp key StatusAlreadyExists).
Proof.
  destruct (incoming_spec fs m peerID s key size rest) as (fs' & e & Hin); try done.
  { unfold min_int64. lia. }
  rewrite decide_False in Hin by (intros [|]; [lia|done]). destruct Hin as [Hin Hrc].
  assert (arriving size rest = rest) as Harr by (unfold arriving; rewrite take_ge; [done|len]).
  rewrite Harr in Hrc. exists fs', e. split; [done|]. split; [done|].
  pose proof (rc_store _ _ _ _ _ _ _ _ _ _ Hrc) as Hst. split.
  { apply (bs_Read_ok _ _ _ _ Hst). apply lookup_insert_eq. }
  intros sender. unfold handleMessage, handleStoreFileMessage. cbn [Protocol.Type_ NewMessage].
  rewrite decide_True by done. unfold Decode. cbn [Protocol.Data NewMessage fst].
  rewrite unmarshal_marshal by done. rewrite Hpk, decide_False by (by eapply key_nonempty).
  rewrite (rc_waiters _ _ _ _ _ _ _ _ _ _ Hrc), lookup_delete_eq, (rc_session _ _ _ _ _ _ _ _ _ _ Hrc).
  rewrite (bool_decide_false (is_Some None)) by (by intros []). cbn [negb andb].
  rewrite bool_decide_false by (by intros []).
  rewrite (bs_Has_ok _ _ _ Hst), bool_decide_true; [done|]. rewrite lookup_insert_eq. eauto.
Qed.

(** The sender writes the length of the key on two bytes, modulo 65536,
    and does not check it; the receiver refuses a length of zero or above
    [MaxKeyLength] without a word.  So for such a key nothing is stored, no
    event is published, and [SendFile] fails. *)
Theorem bad_key_length_rejected fs peerID key {R} `{ReaderLaws R} (r : R) size cut fin
    (Hkey : let n := zlen (bytes_of_string key) mod 65536 in n = 0 \/ MaxKeyLength < n)
    (Hcut : forall b : bytes, concat (cut b) = b) :
  let incoming w := handleIncomingStream fs peerID (Stream (cut w) fin) in
  let reply w := match incoming w with Some (_, a) => Stream [a] EOF | None => Stream [] EOF end in
  exists w e, SendFile_on ([] : bytes) reply key r size = (w, Err e) /\ incoming w = Some (fs, []).
Proof.
  intros incoming reply.
  destruct (SendFile_on_wire (fun w b : bytes => w = b) ([] : bytes) reply key r size
    buffer_reliable eq_refl) as (w & Hw & Hsend).
  assert (incoming w = Some (fs, [])) as Hin.
  { unfold incoming, handleIncomingStream. rewrite header_split in Hw.
    set (kl := be_put 2 (wrap_u 16 (zlen (bytes_of_string key)))) in *.
    destruct (ReadFull_front (Stream (cut w) fin) kl (bytes_of_string key ++ be_put 8 (wrap_u 64 size) ++ rd_bytes r))
      as (s1 & Hr1 & _); [cbn; by rewrite Hcut|].
    change 2 with (zlen kl). rewrite Hr1.
    assert (be_get kl = zlen (bytes_of_string key) mod 65536) as ->.
    { unfold kl. rewrite be_get_put. unfold wrap_u. change (2 ^ (8 * Z.of_nat 2)) with 65536.
      change (2 ^ 16) with 65536. apply Zmod_mod. }
    cbn zeta in Hkey. destruct Hkey as [-> | Hl]; [done|].
    destruct (Z.ltb_spec MaxKeyLength (zlen (bytes_of_string key) mod 65536)); [|lia].
    by rewrite orb_true_r. }
  exists w. rewrite Hsend. destruct (copy_err (rd_end r)) as [e|]; [by eexists|].
  eexists. split; [|done]. unfold reply. rewrite Hin. done.
Qed.
End properties.

(** ** Witnesses *)
Import ToyStore.

Definition toy_data : stream := Stream [[x61]; [x62; x63]] EOF.

Lemma transfer_delivers_witness :
  exists w fs',
    handleIncomingStream toy_server "peer" (Stream [w] ErrDeadline) = Some (fs', [x01])
    /\ fs_store fs' !! "new" = Some [x61; x62; x63].
Proof.
  edestruct (transfer_delivers toy_server {[ "k" := [x61] ]} "peer" "new" toy_data (fun b => [b])
    ErrDeadline) as (w & fs' & _ & _ & Hin & Hrc).
  - apply NewFileServer_waiters_ok.
  - reflexivity.
  - vm_compute. split; discriminate.
  - reflexivity.
  - vm_compute. discriminate.
  - intros b. cbn. apply app_nil_r.
  - exists w, fs'. split; [exact Hin|]. rewrite (rc_store _ _ _ _ _ _ _ _ _ _ Hrc). reflexivity.
Defined.

Lemma short_transfer_accepted_witness :
  exists fs', handleIncomingStream toy_server "peer" (Stream [wire_header "new" 1000; [x61]] EOF)
    = Some (fs', [x01]) /\ fs_store fs' !! "new" = Some [x61].
Proof.
  destruct (short_transfer_accepted toy_server {[ "k" := [x61] ]} "peer"
    (Stream [wire_header "new" 1000; [x61]] EOF) "new" 1000 [x61]) as (fs' & Hin & Hrc).
  - apply NewFileServer_waiters_ok.
  - reflexivity.
  - vm_compute. split; discriminate.
  - vm_compute. split; discriminate.
  - reflexivity.
  - reflexivity.
  - reflexivity.
  - exists fs'. split; [exact Hin|]. rewrite (rc_store _ _ _ _ _ _ _ _ _ _ Hrc). reflexivity.
Defined.

Lemma unsolicited_transfer_overwrites_witness :
  exists fs', handleIncomingStream (SetSession toy_server "secret") "mallory"
      (Stream [wire_header "k" 2; [x7a; x7a]] EOF) = Some (fs', [x01])
    /\ fs_store fs' !! "k" = Some [x7a; x7a].
Proof.
  destruct (unsolicited_transfer_overwrites (SetSession toy_server "secret") {[ "k" := [x61] ]}
    "mallory" (Stream [wire_header "k" 2; [x7a; x7a]] EOF) "k" 2 [x7a; x7a] [x61]
    {| sf_Key := "k"; sf_Session := "" |}) as (_ & fs' & Hin & Hst).
  - split; cbn; intros; rewrite ?lookup_empty in *; done.
  - reflexivity.
  - split; reflexivity.
  - reflexivity.
  - vm_compute. split; discriminate.
  - vm_compute. split; discriminate.
  - reflexivity.
  - vm_compute. discriminate.
  - discriminate.
  - discriminate.
  - reflexivity.
  - reflexivity.
  - exists fs'. split; [exact Hin|]. rewrite Hst. reflexivity.
Defined.

Lemma broken_transfer_blocks_retry_witness :
  exists fs', handleIncomingStream toy_server "peer" (Stream [wire_header "new" 1000; [x61]] ErrDeadline)
      = Some (fs', [x00])
    /\ (handleMessage fs' "peer" (MsgProto (NewMessage TypeStoreFile {| sf_Key := "new"; sf_Session := "" |}))).1
       = Ok (store_resp "new" StatusAlreadyExists).
Proof.
  destruct (broken_transfer_blocks_retry toy_server {[ "k" := [x61] ]} "peer"
    (Stream [wire_header "new" 1000; [x61]] ErrDeadline) "new" 1000 [x61]
    {| sf_Key := "new"; sf_Session := "" |}) as (fs' & e & Hin & _ & _ & Hreq).
  - apply NewFileServer_waiters_ok.
  - reflexivity.
  - split; reflexivity.
  - reflexivity.
  - reflexivity.
  - vm_compute. split; discriminate.
  - vm_compute. split; discriminate.
  - reflexivity.
  - reflexivity.
  - discriminate.
  - exists fs'. split; [exact Hin|exact (Hreq "peer")].
Defined.

Lemma bad_key_length_rejected_witness :
  exists w e, SendFile_on ([] : bytes)
      (fun w => match handleIncomingStream toy_server "peer" (Stream [w] EOF) with
                | Some (_, a) => Stream [a] EOF | None => Stream [] EOF end) "" toy_data 3
    = (w, Err e).
Proof.
  edestruct (bad_key_length_rejected toy_server "peer" "" toy_data 3 (fun b => [b]) EOF)
    as (w & e & Hs & _).
  - left. reflexivity.
  - intros b. cbn. apply app_nil_r.
  - exists w, e. exact Hs.
Defined.
