(* ===== verification/Connect.v ===== *)
(** Connecting to peers (src/internal/fileserver/fileserver.go): the polling
    loops of [ConnectToPeer], [WaitForDirectConnection],
    [WaitForRelayReservation] and [ConnectWithHolePunch], with their deadlines.

    A context is its deadline ([None] for [context.Background()]); the loops
    poll the host, whose answers depend on the time.  They run with fuel:
    [Running] says that a loop has not returned after that many ticks. *)
From S2P Require Import Prelude Io GoStrings Event Middleware BlobStore FileServer.

Abbreviation context := (option time).

(** [context.WithTimeout(ctx, d)] at [now]. *)
Definition WithTimeout (ctx : context) (now : time) (d : duration) : context :=
  Some (match ctx with Some t => Z.min t (now + d) | None => now + d end).

(** The context is done before [t]. *)
Definition done_before (ctx : context) (t : time) : option time :=
  match ctx with Some d => if d <? t then Some d else None | None => None end.

(** What a call does: the error or value it returns, when, and the events it
    has published; or it still runs. *)
Inductive outcome (A : Type) :=
| Returns (r : result A) (at_ : time) (evs : list Event)
| Running.
Arguments Returns {A}.
Arguments Running {A}.

(** Sequencing: on success go on from the time of the return. *)
Definition then_ {A B} (m : outcome A) (onerr : goerr -> goerr) (k : A -> time -> outcome B) :
    outcome B :=
  match m with
  | Returns (Ok a) t evs =>
      match k a t with
      | Returns r t' evs' => Returns r t' (evs ++ evs')
      | Running => Running
      end
  | Returns (Err e) t evs => Returns (Err (onerr e)) t evs
  | Running => Running
  end.

(** [for { select { case <-ctx.Done(): ...; case <-ticker.C: ... } }].  The first
    tick is one period after [now]; a tick at the very deadline still counts. *)
Fixpoint poll {A} (fuel : nat) (period : duration) (ctx : context) (timeout : goerr)
    (check : time -> option A) (now : time) : outcome A :=
  match fuel with
  | O => Running
  | S fuel =>
      let tick := now + period in
      match done_before ctx tick with
      | Some d => Returns (Err timeout) (Z.max now d) []
      | None => match check tick with
                | Some a => Returns (Ok a) tick []
                | None => poll fuel period ctx timeout check tick
                end
      end
  end.

(** The events of a call that has returned. *)
Definition published {A} (m : outcome A) : list Event :=
  match m with Returns _ _ evs => evs | Running => [] end.

Record ConnectOpts := { HolePunchWait : duration }.

Section connect.
Context `{Node}.

Definition discovered (info : AddrInfo) : Event :=
  {| Event.Type_ := PeerDiscovered; RequestID := ""; Event.Data := PeerDiscoveredEvent info |}.

Definition parse_p2p_addr (multiaddr : string) : result AddrInfo :=
  match NewMultiaddr multiaddr with
  | Err e => Err (Wrap "invalid multiaddr" e)
  | Ok maddr => match AddrInfoFromP2pAddr maddr with
                | Err e => Err (Wrap "failed to parse peer info from multiaddr" e)
                | Ok info => Ok info
                end
  end.

Definition ConnectToPeer (fuel : nat) (ctx : context) (now : time) (multiaddr : string) :
    outcome peer_ID :=
  match parse_p2p_addr multiaddr with
  | Err e => Returns (Err e) now []
  | Ok info =>
      match poll fuel (100 * Millisecond) ctx (Wrap "timeout waiting for connection" ErrDeadline)
              (fun t => if linked t (ai_ID info) then Some (ai_ID info) else None) now with
      | Returns r t evs => Returns r t (discovered info :: evs)
      | Running => Running
      end
  end.

Definition is_circuit (addr : string) : bool := strings_Contains addr "/p2p-circuit".

Definition IsDirectConnection (now : time) (id : peer_ID) : bool :=
  existsb (fun addr => negb (is_circuit addr)) (node_ConnsToPeer now id).

Definition GetConnectionType (now : time) (id : peer_ID) : string :=
  if IsDirectConnection now id then "direct" else "relayed".

(** The second ticker only logs. *)
Fixpoint direct_loop (fuel : nat) (ctx : context) (deadline : time) (id : peer_ID) (now : time) :
    outcome unit :=
  match fuel with
  | O => Running
  | S fuel =>
      if now <? deadline then
        if IsDirectConnection now id then Returns (Ok tt) now []
        else match done_before ctx (now + 500 * Millisecond) with
             | Some d => Returns (Err ErrDeadline) (Z.max now d) []
             | None => direct_loop fuel ctx deadline id (now + 500 * Millisecond)
             end
      else if IsDirectConnection now id then Returns (Ok tt) now []
      else Returns (Err ErrRelayedConnection) now []
  end.

Definition WaitForDirectConnection (fuel : nat) (ctx : context) (now : time) (id : peer_ID)
    (timeout : duration) : outcome unit :=
  direct_loop fuel ctx (now + timeout) id now.

Definition GetNodeAddresses (now : time) : list string :=
  map (fun addr => addr +:+ "/p2p/" +:+ node_ID) (node_Addrs now).

Definition WaitForRelayReservation (fuel : nat) (RelayServers : list string) (ctx : context)
    (now : time) : outcome unit :=
  if decide (RelayServers = []) then Returns (Ok tt) now []
  else poll fuel (500 * Millisecond) ctx ErrDeadline
         (fun t => if existsb is_circuit (GetNodeAddresses t) then Some tt else None) now.

Definition ConnectWithHolePunch (fuel : nat) (ctx : context) (now : time) (peerAddr : string)
    (opts : ConnectOpts) : outcome peer_ID :=
  if negb (is_circuit peerAddr) then ConnectToPeer fuel ctx now peerAddr else
  let relayPart := split_head peerAddr "/p2p-circuit" in
  then_ (ConnectToPeer fuel (WithTimeout ctx now GetConnectTimeout) now relayPart)
    (Wrap "failed to connect to relay") (fun relayPeerID now =>
  then_ (poll fuel (500 * Millisecond) (WithTimeout ctx now GetConnectTimeout)
           (Errorf "timed out waiting for relay reservation")
           (fun t => if existsb (fun addr => strings_Contains addr relayPeerID) (GetNodeAddresses t)
                     then Some tt else None) now) id (fun _ now =>
  then_ (ConnectToPeer fuel (WithTimeout ctx now GetConnectTimeout) now peerAddr)
    (Wrap "failed to connect to peer through relay") (fun peerID now =>
  if 0 <? HolePunchWait opts then
    then_ (WaitForDirectConnection fuel (WithTimeout ctx now (HolePunchWait opts)) now peerID
             (HolePunchWait opts))
      (fun _ => Wrap "hole punching failed" ErrRelayedConnection)
      (fun _ now => Returns (Ok peerID) now [])
  else Returns (Ok peerID) now []))).
End connect.

(** ** Deadlines *)

(** [m] has returned, between [lo] and [hi]. *)
Definition returns_within {A} (m : outcome A) (lo hi : time) : Prop :=
  exists r t evs, m = Returns r t evs /\ lo <= t <= hi.

Lemma WithTimeout_bound ctx now d :
  0 <= d -> (match ctx with Some t => now <= t | None => True end) ->
  exists t, WithTimeout ctx now d = Some t /\ now <= t <= now + d.
Proof. intros Hd Hc. unfold WithTimeout. eexists. split; [done|]. destruct ctx; lia. Qed.

Lemma poll_bound {A} fuel period d timeout (check : time -> option A) now :
  0 < period -> now <= d -> d - now < Z.of_nat fuel * period ->
  returns_within (poll fuel period (Some d) timeout check now) now d.
Proof.
  intros Hp. revert now. induction fuel as [|fuel IH]; intros now Hd Hf; [lia|].
  cbn [poll done_before]. destruct (Z.ltb_spec d (now + period)).
  - eexists _, _, _. split; [done|]. lia.
  - destruct (check (now + period)); [eexists _, _, _; split; [done|lia]|].
    destruct (IH (now + period)) as (r & t & evs & -> & Ht); [lia|lia|].
    exists r, t, evs. split; [done|]. lia.
Qed.

Lemma then_bound {A B} (m : outcome A) f (k : A -> time -> outcome B) lo mid hi :
  returns_within m lo mid -> mid <= hi ->
  (forall a t evs, m = Returns (Ok a) t evs -> lo <= t <= mid -> returns_within (k a t) t hi) ->
  returns_within (then_ m f k) lo hi.
Proof.
  intros (r & t & evs & -> & Ht) Hmid Hk. destruct r as [a|e]; cbn.
  - destruct (Hk a t evs eq_refl Ht) as (r' & t' & evs' & -> & Ht').
    eexists _, _, _. split; [done|]. lia.
  - eexists _, _, _. split; [done|]. lia.
Qed.

(** Without a deadline a loop whose check never succeeds never returns. *)
Lemma poll_never {A} fuel period timeout (check : time -> option A) now :
  (forall t, check t = None) -> poll fuel period None timeout check now = Running.
Proof.
  intros Hc. revert now. induction fuel as [|fuel IH]; intros now; [done|]. cbn. by rewrite Hc.
Qed.

(** The value of a successful poll was found at the time of the return. *)
Lemma poll_ok {A} fuel period ctx timeout (check : time -> option A) now a t evs :
  poll fuel period ctx timeout check now = Returns (Ok a) t evs -> check t = Some a.
Proof.
  revert now. induction fuel as [|fuel IH]; intros now; [done|]. cbn.
  destruct (done_before ctx _); [done|]. destruct (check (now + period)) eqn:E; [|apply IH].
  intros [= <- <- _]. done.
Qed.

(** ** What connecting publishes *)
Lemma published_poll {A} fuel period ctx timeout (check : time -> option A) now :
  published (poll fuel period ctx timeout check now) = [].
Proof.
  revert now. induction fuel as [|fuel IH]; intros now; [done|]. cbn. repeat case_match; try done.
Qed.

Lemma published_then {A B} (P : Event -> Prop) (m : outcome A) f (k : A -> time -> outcome B) :
  Forall P (published m) -> (forall a t, Forall P (published (k a t))) -> Forall P (published (then_ m f k)).
Proof.
  intros Hm Hk. destruct m as [[a|e] t evs|]; cbn in *; [|done..].
  specialize (Hk a t). destruct (k a t); cbn in *; [by apply Forall_app|constructor].
Qed.

Section connect_events.
Context `{Node}.

Definition is_discovery (e : Event) : Prop := exists info, e = discovered info.

Lemma published_direct fuel ctx deadline id now : published (direct_loop fuel ctx deadline id now) = [].
Proof. revert now. induction fuel as [|fuel IH]; intros now; [done|]. cbn. repeat case_match; try done. Qed.

Lemma published_connect fuel ctx now addr : Forall is_discovery (published (ConnectToPeer fuel ctx now addr)).
Proof.
  unfold ConnectToPeer. destruct (parse_p2p_addr addr) as [info|]; [|constructor].
  match goal with |- context [poll ?a ?b ?c ?d ?e ?f] => pose proof (published_poll a b c d e f) as Hp;
    destruct (poll a b c d e f) end; cbn in *; [|constructor].
  rewrite Hp. constructor; [by exists info|constructor].
Qed.

Lemma published_hole_punch fuel ctx now addr opts :
  Forall is_discovery (published (ConnectWithHolePunch fuel ctx now addr opts)).
Proof.
  unfold ConnectWithHolePunch. case_match; [apply published_connect|].
  apply published_then; [apply published_connect|intros relay t].
  apply published_then; [by rewrite published_poll; constructor|intros _ t'].
  apply published_then; [apply published_connect|intros id t'']. case_match; [|constructor].
  apply published_then; [|constructor]. unfold WaitForDirectConnection. rewrite published_direct. constructor.
Qed.
End connect_events.

Section connect_lemmas.
Context `{Node}.

Lemma ConnectToPeer_bound fuel d now addr :
  now <= d -> d - now < Z.of_nat fuel * (100 * Millisecond) ->
  returns_within (ConnectToPeer fuel (Some d) now addr) now d.
Proof.
  intros Hd Hf. unfold ConnectToPeer. destruct (parse_p2p_addr addr) as [info|e].
  - edestruct (poll_bound fuel (100 * Millisecond) d (Wrap "timeout waiting for connection" ErrDeadline)
      (fun t => if linked t (ai_ID info) then Some (ai_ID info) else None) now) as (r & t & evs & -> & Ht);
      [unfold Millisecond; lia|done|done|].
    eexists _, _, _. by split.
  - eexists _, _, _. split; [done|]. lia.
Qed.

Lemma direct_loop_bound fuel d deadline id now :
  now <= deadline -> d <= deadline -> deadline - now < (Z.of_nat fuel - 1) * (500 * Millisecond) ->
  returns_within (direct_loop fuel (Some d) deadline id now) now deadline.
Proof.
  revert now. induction fuel as [|fuel IH]; intros now Hn Hd Hf; [unfold Millisecond in Hf; lia|].
  cbn [direct_loop done_before]. destruct (Z.ltb_spec now deadline).
  - destruct (IsDirectConnection now id); [eexists _, _, _; split; [done|lia]|].
    destruct (Z.ltb_spec d (now + 500 * Millisecond)); [eexists _, _, _; split; [done|lia]|].
    destruct (IH (now + 500 * Millisecond)) as (r & t & evs & -> & Ht);
      [lia|lia|unfold Millisecond in *; lia|].
    eexists _, _, _. split; [done|]. unfold Millisecond in *. lia.
  - destruct (IsDirectConnection now id); eexists _, _, _; (split; [done|lia]).
Qed.

Lemma direct_loop_ok fuel ctx deadline id now t evs :
  direct_loop fuel ctx deadline id now = Returns (Ok tt) t evs -> IsDirectConnection t id = true.
Proof.
  revert now. induction fuel as [|fuel IH]; intros now; [done|]. cbn [direct_loop].
  destruct (now <? deadline), (IsDirectConnection now id) eqn:Hi; try (by intros [= <- _]); try done.
  destruct (done_before ctx _); [done|]. apply IH.
Qed.

Lemma then_ok {A B} (m : outcome A) f (k : A -> time -> outcome B) b t evs :
  then_ m f k = Returns (Ok b) t evs ->
  exists a t' evs1 evs2, m = Returns (Ok a) t' evs1 /\ k a t' = Returns (Ok b) t evs2
                         /\ evs = evs1 ++ evs2.
Proof.
  unfold then_. destruct m as [[a|e] t' evs1|]; try done.
  destruct (k a t') as [r t2 evs2|] eqn:Hk; [|done]. intros [= -> -> <-]. eauto 10.
Qed.

(** ** Properties *)

(** [C33] Connecting through a relay takes bounded time: for a circuit address,
    with or without a deadline of the caller's, [ConnectWithHolePunch] returns
    within three times [GetConnectTimeout] plus the time allowed for hole
    punching, whatever the network does. *)
Theorem circuit_connect_bounded fuel ctx now addr opts
    (Haddr : is_circuit addr = true) (Hwait : 0 <= HolePunchWait opts)
    (Hctx : match ctx with Some t => now + 3 * GetConnectTimeout + HolePunchWait opts <= t
            | None => True end)
    (Hfuel : GetConnectTimeout < Z.of_nat fuel * (100 * Millisecond)
             /\ HolePunchWait opts < (Z.of_nat fuel - 1) * (500 * Millisecond)) :
  returns_within (ConnectWithHolePunch fuel ctx now addr opts) now
    (now + 3 * GetConnectTimeout + HolePunchWait opts).
Proof.
  destruct Hfuel as [Hf1 Hf2]. unfold ConnectWithHolePunch. rewrite Haddr. cbn [negb].
  assert (0 < GetConnectTimeout) as Hg by (unfold GetConnectTimeout, Second, Millisecond; lia).
  assert (forall t d, 0 <= d -> t <= now + 3 * GetConnectTimeout ->
    exists t', WithTimeout ctx t d = Some t' /\ t <= t' <= t + d) as Hct.
  { intros t d Hd Ht. apply WithTimeout_bound; [done|]. destruct ctx; [lia|done]. }
  assert (forall t (a : string), t <= now + 3 * GetConnectTimeout ->
    returns_within (ConnectToPeer fuel (WithTimeout ctx t GetConnectTimeout) t a) t
      (t + GetConnectTimeout)) as Hconn.
  { intros t a Ht. destruct (Hct t GetConnectTimeout) as (t' & -> & Ht'); [lia|done|].
    destruct (ConnectToPeer_bound fuel t' t a) as (r & t2 & evs & -> & Hr); [lia|lia|].
    eexists _, _, _. split; [done|]. lia. }
  apply (then_bound _ _ _ now (now + GetConnectTimeout)); [apply Hconn; lia|lia|].
  intros relay t1 _ _ Ht1. apply (then_bound _ _ _ t1 (t1 + GetConnectTimeout)); [|lia|].
  { destruct (Hct t1 GetConnectTimeout) as (t' & -> & Ht'); [lia|lia|].
    edestruct (poll_bound (A := unit) fuel (500 * Millisecond) t') as (r & t2 & evs & -> & Hr);
      [unfold Millisecond; lia|apply Ht'|unfold Millisecond in *; lia|].
    eexists _, _, _. split; [done|]. lia. }
  intros _ t2 _ _ Ht2. apply (then_bound _ _ _ t2 (t2 + GetConnectTimeout)); [apply Hconn; lia|lia|].
  intros id t3 _ _ Ht3. destruct (Z.ltb_spec 0 (HolePunchWait opts)).
  - apply (then_bound _ _ _ t3 (t3 + HolePunchWait opts)); [|lia|].
    + destruct (Hct t3 (HolePunchWait opts)) as (t' & -> & Ht'); [lia|lia|].
      apply direct_loop_bound; lia.
    + intros _ t4 _ _ Ht4. eexists _, _, _. split; [done|]. lia.
  - eexists _, _, _. split; [done|]. lia.
Qed.

(** A success of [ConnectWithHolePunch] means a connection: at the time
    of the return the peer is connected, directly or through a relay, if no hole
    punching was asked for or the address was a direct one; with hole punching
    asked for on a circuit address, there is a direct connection. *)
Theorem connect_success fuel ctx now addr opts id t evs
    (Hret : ConnectWithHolePunch fuel ctx now addr opts = Returns (Ok id) t evs) :
  ai_ID <$> parse_p2p_addr addr = Ok id /\
  if is_circuit addr && (0 <? HolePunchWait opts)
  then IsDirectConnection t id = true else linked t id = true.
Proof.
  assert (forall fuel ctx now a id t evs, ConnectToPeer fuel ctx now a = Returns (Ok id) t evs ->
    ai_ID <$> parse_p2p_addr a = Ok id /\ linked t id = true) as Hconn.
  { intros f c n a i u ev. unfold ConnectToPeer. destruct (parse_p2p_addr a) as [j|]; [|done].
    destruct (poll _ _ _ _ _ _) as [r u' evs'|] eqn:Hp; [|done]. intros [= -> -> _].
    apply poll_ok in Hp. cbn. destruct (linked u (ai_ID j)) eqn:Hl; [|done]. by injection Hp as <-. }
  unfold ConnectWithHolePunch in Hret. destruct (is_circuit addr); cbn [negb andb] in *; [|eauto].
  apply then_ok in Hret as (relay & t1 & ? & ? & _ & Hret & _).
  apply then_ok in Hret as (u & t2 & ? & ? & _ & Hret & _).
  apply then_ok in Hret as (id' & t3 & ? & ? & Hc & Hret & _). apply Hconn in Hc as [Hc Hl].
  destruct (0 <? HolePunchWait opts).
  - apply then_ok in Hret as ([] & t4 & ? & ? & Hw & Hret & _). injection Hret as <- <- _.
    split; [done|]. by eapply direct_loop_ok.
  - injection Hret as <- <- _. by split.
Qed.
End connect_lemmas.

(** ** Witnesses *)
Import ToyStore.

Lemma circuit_connect_bounded_witness :
  returns_within (ConnectWithHolePunch 400 None 0 "/ip4/1.2.3.4/p2p/R/p2p-circuit/p2p/P"
    {| HolePunchWait := 10 * Second |}) 0 (100 * Second).
Proof.
  apply (circuit_connect_bounded 400 None 0 "/ip4/1.2.3.4/p2p/R/p2p-circuit/p2p/P"
    {| HolePunchWait := 10 * Second |}).
  - reflexivity.
  - vm_compute. discriminate.
  - exact I.
  - vm_compute. split; reflexivity.
Defined.

Lemma connect_success_witness :
  ConnectWithHolePunch 400 None 0 "P" {| HolePunchWait := 0 |}
    = Returns (Ok "P") (100 * Millisecond) [discovered {| ai_ID := "P"; ai_Addrs := ["P"] |}]
  /\ linked (100 * Millisecond) "P" = true.
Proof.
  assert (ConnectWithHolePunch 400 None 0 "P" {| HolePunchWait := 0 |}
    = Returns (Ok "P") (100 * Millisecond) [discovered {| ai_ID := "P"; ai_Addrs := ["P"] |}]) as Hr by reflexivity.
  split; [exact Hr|]. exact (proj2 (connect_success _ _ _ _ _ _ _ _ Hr)).
Defined.
