(* ===== verification/Delivery.v ===== *)
(** Sending files to peers (src/internal/fileserver/fileserver.go, get.go):
    negotiation and transfer, replication over the network, and the delivery of
    a requested file to its requester.

    Messages go over the class [Host], transfer streams are opened by a
    parameter; the end-to-end theorem connects both to a second server.  What a
    call sends on transfer streams is part of its result: a list of streams, each
    with the peer it leads to and what has been written to it. *)
From S2P Require Import Prelude Io GoStrings FileSys Json Event Middleware SeenMessages Protocol.
From S2P Require Import BlobStore FileServer Transfer Connect.

Section delivery.
Context {S : Type} `{BlobStore S} `{Node} `{Host}.
Context {W : Type} `{Writer W} (open : peer_ID -> string -> result (W * (W -> stream))).
Context (cfg : Protocol.Config).
Implicit Type fs : FileServer S.

(** The transfer streams opened, and the error. *)
Definition StoreFileToPeer fs (peerID : peer_ID) (key session : string) :
    list (peer_ID * W) * option goerr :=
  match Send cfg StorageProtocolID peerID
          (NewMessage TypeStoreFile {| sf_Key := key; sf_Session := session |}) with
  | Err e => ([], Some (Wrap "failed to negotiate file transfer" e))
  | Ok resp =>
  match Decode resp : result StoreFileRespPayload with
  | Err e => ([], Some (Wrap "failed to decode store response" e))
  | Ok ack =>
      if decide (sr_Status ack = StatusSessionRejected) then ([], Some ErrSessionRejected)
      else if decide (sr_Status ack = StatusAlreadyExists) then ([], Some ErrFileAlreadyExists)
      else if decide (sr_Status ack = StatusSuccess) then
        match bs_Read (fs_store fs) key with
        | Err e => ([], Some (Wrap "failed to read file from local storage" e))
        | Ok (data, size) =>
            match SendFile open peerID key (Stream [data] EOF) size with
            | (sent, Err e) => (sent, Some (Wrap "failed to transfer file" e))
            | (sent, Ok _) => (sent, None)
            end
        end
      else ([], Some (Errorf ("peer rejected transfer: " +:+ sr_Status ack)))
  end end.

(** The loop of [StoreFileToNetwork], which looks at the errors. *)
Fixpoint store_loop fs (key : string) (peers : list peer_ID) (successCount : Z)
    (lastErr : option goerr) : Z * option goerr :=
  match peers with
  | [] => (successCount, lastErr)
  | p :: peers =>
      match (StoreFileToPeer fs p key "").2 with
      | Some e => store_loop fs key peers successCount (Some e)
      | None => store_loop fs key peers (successCount + 1) lastErr
      end
  end.

(** [peers] is what [ListPeers] returned. *)
Definition StoreFileToNetwork fs (peers : list peer_ID) (key : string) (replicationFactor : Z) :
    Z * option goerr :=
  if zlen peers =? 0 then (0, Some (Errorf "no connected peers")) else
  let replicationFactor := if zlen peers <? replicationFactor then zlen peers
                           else replicationFactor in
  let '(successCount, lastErr) :=
    store_loop fs key (take (Z.to_nat replicationFactor) peers) 0 None in
  if successCount =? 0
  then (0, Some (Wrap "failed to store file to any peer" (default (Errorf "<nil>") lastErr)))
  else (successCount, None).

(** [f] is the file system the file is read from. *)
Definition StoreFile fs (f : FileSys.fs) (peers : list peer_ID) (key filePath : string)
    (replicationFactor : Z) : FileServer S * (Z * option goerr) :=
  let propagate fs := (fs, if zlen peers =? 0 then (0, None)
                           else StoreFileToNetwork fs peers key replicationFactor) in
  if bs_Has (fs_store fs) key then propagate fs else
  match os_Stat f filePath with
  | Err e => (fs, (0, Some (Wrap "failed to open file" e)))
  | Ok (_, n) =>
      let file := match n with NFile c => file_stream c | NDir => Stream [] ErrIsDir end in
      let '(st, _, written) := bs_Write (fs_store fs) key file in
      let fs := with_store fs st in
      match written with
      | Err e => (fs, (0, Some (Wrap "failed to store file locally" e)))
      | Ok _ => propagate fs
      end
  end.

(** [WriteFileTo]: the file system afterwards. *)
Definition WriteFileTo fs (f : FileSys.fs) (key destPath : string) : FileSys.fs * option goerr :=
  match bs_Read (fs_store fs) key with
  | Err e => (f, Some (Wrap "failed to read file from store" e))
  | Ok (data, _) =>
      match os_Create f destPath with
      | (f, Err e) => (f, Some (Wrap "failed to create output file" e))
      | (f, Ok p) =>
          let '(h, _, _, err) := io_Copy (File f p 0) (Stream [data] EOF) in
          (f_fs h, option_map (Wrap "failed to write output file") err)
      end
  end.

Definition StoreFileToPeerDirect fs (now : time) (peerID : peer_ID) (key session : string) :
    list (peer_ID * W) * option goerr :=
  if IsDirectConnection now peerID then StoreFileToPeer fs peerID key session
  else ([], Some ErrRelayedConnection).

(** [deliverToRequester]: try the addresses in turn, then transfer. *)
Fixpoint connect_any (fuel : nat) (now : time) (addrs : list string) (opts : ConnectOpts) :
    outcome bool :=
  match addrs with
  | [] => Returns (Ok false) now []
  | addr :: addrs =>
      match ConnectWithHolePunch fuel None now addr opts with
      | Running => Running
      | Returns (Ok _) t evs => Returns (Ok true) t evs
      | Returns (Err _) t evs =>
          match connect_any fuel t addrs opts with
          | Running => Running
          | Returns r t' evs' => Returns r t' (evs ++ evs')
          end
      end
  end.

Definition GetDelivered_event (payload : GetFilePayload) : Event :=
  event_of GetDelivered (GetDeliveredData (gf_MsgID payload) (gf_Key payload)).

(** The goroutine returns nothing: when it has ended, what is left of it are the
    events it has published and the streams it has sent on. *)
Inductive delivery := Delivering | DeliveryDone (at_ : time) (evs : list Event) (sent : list (peer_ID * W)).

Definition deliverToRequester (fuel : nat) fs (now : time) (opts : ConnectOpts)
    (payload : GetFilePayload) : delivery :=
  match peer_Decode (gf_RequesterID payload) with
  | Err e => DeliveryDone now [] []
  | Ok requesterID =>
      match connect_any fuel now (gf_RequesterAddrs payload) opts with
      | Running => Delivering
      | Returns (Ok true) t evs =>
          let '(sent, err) := StoreFileToPeerDirect fs t requesterID (gf_Key payload) "" in
          if decide (err = None \/ err = Some ErrFileAlreadyExists)
          then DeliveryDone t (evs ++ [GetDelivered_event payload]) sent
          else DeliveryDone t evs sent
      | Returns _ t evs => DeliveryDone t evs []
      end
  end.

(** ** Properties *)
Lemma store_loop_count fs key peers n last :
  (store_loop fs key peers n last).1
  = n + zlen (filter (fun p => (StoreFileToPeer fs p key "").2 = None) peers).
Proof.
  revert n last. induction peers as [|p peers IH]; intros n last; cbn [store_loop].
  { rewrite filter_nil, zlen_nil. cbn. lia. }
  rewrite filter_cons. destruct (StoreFileToPeer fs p key "").2 eqn:E.
  - rewrite decide_False by done. apply IH.
  - rewrite decide_True by done. rewrite IH, zlen_cons. lia.
Qed.

(** [StoreFileToNetwork] counts right, but asks only the first
    [replicationFactor] peers: the number it returns is the number of those that
    took the file; it is an error exactly when none of them did, even if a later
    peer would have. *)
Theorem StoreFileToNetwork_count fs peers key rf :
  let tried := take (Z.to_nat rf) peers in
  let took := filter (fun p => (StoreFileToPeer fs p key "").2 = None) tried in
  (StoreFileToNetwork fs peers key rf).1 = zlen took
  /\ ((StoreFileToNetwork fs peers key rf).2 = None <-> took <> []).
Proof.
  cbn zeta. unfold StoreFileToNetwork. destruct (Z.eqb_spec (zlen peers) 0) as [Hp|Hp].
  { apply zlen_zero in Hp as ->. rewrite take_nil. cbn. done. }
  set (rf' := if zlen peers <? rf then zlen peers else rf).
  assert (take (Z.to_nat rf') peers = take (Z.to_nat rf) peers) as ->.
  { unfold rf'. destruct (Z.ltb_spec (zlen peers) rf); [|done].
    unfold zlen in *. rewrite !take_ge by lia. done. }
  pose proof (store_loop_count fs key (take (Z.to_nat rf) peers) 0 None) as Hc.
  destruct (store_loop _ _ _ _ _) as [n last]. cbn [fst] in Hc. rewrite Z.add_0_l in Hc.
  destruct (Z.eqb_spec n 0) as [Hn|Hn]; cbn [fst snd].
  - rewrite Hn in Hc. split; [done|]. symmetry in Hc. apply zlen_zero in Hc. rewrite Hc. done.
  - split; [done|]. split; [|done]. intros _ E. rewrite E, zlen_nil in Hc. done.
Qed.

(** [C27] A requester behind an unreachable direct address never gets its file.
    The delivery tries the requester's addresses with [context.Background()],
    and a direct address is polled without any deadline: when the first address
    of the request is a direct one and the requester does not get connected,
    the delivery never returns, however long it runs, and the addresses behind
    the first, the relay ones among them, are never tried. *)
Theorem delivery_never_returns fs now opts payload addr addrs id requester
    (Hreq : peer_Decode (gf_RequesterID payload) = Ok requester)
    (Haddrs : gf_RequesterAddrs payload = addr :: addrs)
    (Hdirect : is_circuit addr = false) (Hparse : ai_ID <$> parse_p2p_addr addr = Ok id)
    (Hdown : forall t, linked t id = false) :
  forall fuel, deliverToRequester fuel fs now opts payload = Delivering.
Proof.
  intros fuel. unfold deliverToRequester. rewrite Hreq, Haddrs. cbn [connect_any].
  unfold ConnectWithHolePunch. rewrite Hdirect. cbn [negb]. unfold ConnectToPeer.
  destruct (parse_p2p_addr addr) as [info|]; [|done]. injection Hparse as ->.
  rewrite poll_never; [done|]. intros t. by rewrite Hdown.
Qed.

(** Everything that is sent goes to the peer that is asked. *)
Lemma StoreFileToPeer_to fs peerID key session p w :
  (p, w) ∈ (StoreFileToPeer fs peerID key session).1 -> p = peerID.
Proof.
  unfold StoreFileToPeer, SendFile. repeat case_match; cbn; simplify_eq;
    rewrite ?elem_of_nil, ?list_elem_of_singleton; naive_solver.
Qed.

Lemma published_any fuel now addrs opts : Forall is_discovery (published (connect_any fuel now addrs opts)).
Proof.
  revert now. induction addrs as [|addr addrs IH]; intros now; cbn [connect_any]; [constructor|].
  pose proof (published_hole_punch fuel None now addr opts) as Hp.
  destruct (ConnectWithHolePunch _ _ _ _ _) as [[id|e] t evs|]; [done| |constructor].
  specialize (IH t). destruct (connect_any fuel t addrs opts); cbn in *; [by apply Forall_app|constructor].
Qed.

Definition delivery_events (d : delivery) : list Event :=
  match d with Delivering => [] | DeliveryDone _ evs _ => evs end.

(** The requester is connected at the time [t], directly, and the file has been
    sent to it or it has it. *)
Definition taken fs (fuel : nat) (now : time) (opts : ConnectOpts) (payload : GetFilePayload) (t : time)
    (requester : peer_ID) : Prop :=
  peer_Decode (gf_RequesterID payload) = Ok requester
  /\ (exists evs, connect_any fuel now (gf_RequesterAddrs payload) opts = Returns (Ok true) t evs)
  /\ IsDirectConnection t requester = true
  /\ ((StoreFileToPeer fs requester (gf_Key payload) "").2 = None
      \/ (StoreFileToPeer fs requester (gf_Key payload) "").2 = Some ErrFileAlreadyExists).

(** How a delivery ends. *)
Lemma delivery_done fuel fs now opts payload t evs sent :
  deliverToRequester fuel fs now opts payload = DeliveryDone t evs sent ->
  exists found, Forall is_discovery found
    /\ (evs = found ++ [GetDelivered_event payload]
          /\ (exists requester, taken fs fuel now opts payload t requester
               /\ sent = (StoreFileToPeer fs requester (gf_Key payload) "").1)
        \/ evs = found /\ (forall requester, ~ taken fs fuel now opts payload t requester)
           /\ (sent = [] \/ exists requester, peer_Decode (gf_RequesterID payload) = Ok requester
                 /\ IsDirectConnection t requester = true
                 /\ sent = (StoreFileToPeer fs requester (gf_Key payload) "").1)).
Proof.
  unfold deliverToRequester. destruct (peer_Decode _) as [req|] eqn:Hreq.
  2: { intros [= <- <- <-]. exists []. split; [done|]. right. split; [done|]. split; [|by left].
       intros r (Hr & _). congruence. }
  pose proof (published_any fuel now (gf_RequesterAddrs payload) opts) as Hp.
  destruct (connect_any _ _ _ _) as [[[]|] t' evs'|] eqn:Hc; cbn in Hp; [|..|done].
  2,3: intros [= <- <- <-]; exists evs'; split; [done|]; right; split; [done|]; split; [|by left];
       intros r (_ & (evs0 & Hevs0) & _); congruence.
  unfold StoreFileToPeerDirect. destruct (IsDirectConnection t' req) eqn:Hd.
  - destruct (StoreFileToPeer fs req (gf_Key payload) "") as [s err] eqn:Hs.
    case_decide as Herr; intros [= <- <- <-]; exists evs'; (split; [done|]); [left|right].
    + split; [done|]. exists req. split; [|by rewrite Hs]. unfold taken. rewrite Hs. eauto.
    + split; [done|]. split.
      * intros r (Hr & _ & _ & He). rewrite Hreq in Hr. injection Hr as <-. by rewrite Hs in He.
      * right. exists req. by rewrite Hs.
  - rewrite decide_False by (by intros [|]). intros [= <- <- <-]. exists evs'. split; [done|]. right.
    split; [done|]. split; [|by left]. intros r (Hr & _ & Hd' & _). congruence.
Qed.

(** [C22] Files are delivered over direct connections only, and what is announced
    is true.  When the goroutine of a delivery has ended, at the time [t]: it has
    published [GetDelivered] for the request exactly if it had connected to one of
    the requester's addresses, the requester was directly connected then, and took
    the file or said that it has it; it has published no other [GetDelivered], nor
    this one twice; and whatever it has sent on a transfer stream, announced or
    not, went to the requester while that was directly connected. *)
Theorem delivered_direct fuel fs now opts payload t evs sent
    (Hdone : deliverToRequester fuel fs now opts payload = DeliveryDone t evs sent) :
  (GetDelivered_event payload ∈ evs <-> exists requester, taken fs fuel now opts payload t requester)
  /\ filter (fun e => Event.Type_ e = GetDelivered) evs ∈ [[]; [GetDelivered_event payload]]
  /\ (forall p w, (p, w) ∈ sent ->
       peer_Decode (gf_RequesterID payload) = Ok p /\ IsDirectConnection t p = true).
Proof.
  destruct (delivery_done _ _ _ _ _ _ _ _ Hdone) as (found & Hf & Hend).
  assert (GetDelivered_event payload ∉ found) as Hno by (intros (info & E)%(proj1 (Forall_forall _ _) Hf); discriminate E).
  assert (filter (fun e => Event.Type_ e = GetDelivered) found = []) as Hty.
  { clear -Hf. induction Hf as [|e found (info & ->) _ IH]; [done|]. by rewrite filter_cons_False. }
  destruct Hend as [(-> & req & Ht & ->)|(-> & Hnt & Hsent)]; (split; [|split]).
  - split; [by exists req|]. intros _. apply elem_of_app. right. by left.
  - rewrite filter_app, Hty. by right; left.
  - intros p w ->%StoreFileToPeer_to. by destruct Ht as (? & _ & ? & _).
  - split; [by intros ?%Hno|by intros [r Hr%Hnt]].
  - rewrite Hty. by left.
  - destruct Hsent as [->|(r & Hr & Hd & ->)]; [by intros p w ?%elem_of_nil|]. by intros p w ->%StoreFileToPeer_to.
Qed.
End delivery.

(** ** Two servers *)
Section end_to_end.
Context {S : Type} `{BlobStoreLaws S} `{Node}.

(** The host of the sender, when the streams to every peer are served, as
    [Start] has it, by the server [b] behind its rate limiter [rl] and its limiter
    of streams; streams may cut what is written in any way. *)
Definition served_host (cfg : Protocol.Config) (b : FileServer S) (rl : RateLimiter) (now : time)
    (lim : Limiter) (self : peer_ID) (cut : bytes -> list bytes) : Host :=
  {| host_NewStream _ _ := Ok {|
       c_write := fun _ => None;
       c_read := fun w => match (handleStream cfg (rl_Wrap now Handle) lim (rl, (b, [])) self
                                   (Stream (cut w) EOF)).2 with
                          | SClosed w => Stream (cut w) EOF
                          | SReset => Stream [] (Errorf "stream reset")
                          end |} |}.

Definition served_open (b : FileServer S) (self : peer_ID) (cut : bytes -> list bytes) (fin : goerr) :
    peer_ID -> string -> result (bytes * (bytes -> stream)) := fun _ _ =>
  Ok ([], fun w => match handleIncomingStream b self (Stream (cut w) fin) with
                   | Some (_, a) => Stream [a] EOF
                   | None => Stream [] EOF
                   end).

(** The status of the answer to a store request for a key that is not empty. *)
Definition store_status (b : FileServer S) (mb : gmap string bytes) (key session : string) : string :=
  if decide (is_Some (fs_waiters b !! key) \/ fs_sessionName b = "" \/ session = fs_sessionName b)
  then if decide (is_Some (mb !! slot key)) then StatusAlreadyExists else StatusSuccess
  else StatusSessionRejected.

Lemma Handle_store b mb self (p : StoreFilePayload) :
  holds_map mb (fs_store b) -> proper p -> sf_Key p <> "" ->
  Handle (b, []) self (MsgProto (NewMessage TypeStoreFile p))
  = ((b, []), Ok (store_resp (sf_Key p) (store_status b mb (sf_Key p) (sf_Session p)))).
Proof.
  intros Hb Hp Hk. unfold Handle, handleMessage, handleStoreFileMessage. cbn [Protocol.Type_ NewMessage].
  rewrite decide_True by done. unfold Decode. cbn [Data NewMessage].
  rewrite unmarshal_marshal by done. rewrite decide_False by done. rewrite (bs_Has_ok mb) by done.
  unfold store_status. destruct (decide (is_Some (fs_waiters b !! sf_Key p))) as [Hw|Hw].
  - rewrite (bool_decide_true _ Hw), decide_True by tauto. cbn [negb andb].
    case_bool_decide; [by rewrite decide_True|by rewrite decide_False].
  - rewrite (bool_decide_false _ Hw). cbn [negb andb]. case_bool_decide as Hs.
    + rewrite decide_False; [done|]. tauto.
    + rewrite decide_True; [case_bool_decide; [by rewrite decide_True|by rewrite decide_False]|].
      destruct (decide (fs_sessionName b = "")); [tauto|].
      destruct (decide (sf_Session p = fs_sessionName b)); tauto.
Qed.

(** What the sender learns from a served request: the status, or that it has been
    turned away. *)
Lemma StoreFileToPeer_served cfg (a b : FileServer S) mb rl now lim self peerID key session cut fin
    (Hb : holds_map mb (fs_store b)) (Hkey : 1 <= zlen (bytes_of_string key) <= MaxKeyLength)
    (Hutf8 : utf8_string key /\ utf8_string session)
    (Hlim : (Acquire lim).2 = true) (Hcut : forall b : bytes, concat (cut b) = b)
    (Hmax : forall s, In s [StatusSuccess; StatusAlreadyExists; StatusSessionRejected] ->
       zlen (encode (NewMessage TypeStoreFileResp {| sr_Key := key; sr_Status := s |})) <= MaxMessageSize cfg)
    (Hreq : zlen (encode (NewMessage TypeStoreFile {| sf_Key := key; sf_Session := session |}))
            <= MaxMessageSize cfg) :
  let status := store_status b mb key session in
  let result := StoreFileToPeer (H1 := served_host cfg b rl now lim self cut) (served_open b self cut fin)
                  cfg a peerID key session in
  ((allow rl now self).2 = true ->
     result = if decide (status = StatusSessionRejected) then ([], Some ErrSessionRejected)
              else if decide (status = StatusAlreadyExists) then ([], Some ErrFileAlreadyExists)
              else match bs_Read (fs_store a) key with
                   | Err e => ([], Some (Wrap "failed to read file from local storage" e))
                   | Ok (data, size) =>
                       match SendFile (served_open b self cut fin) peerID key (Stream [data] EOF) size with
                       | (sent, Err e) => (sent, Some (Wrap "failed to transfer file" e))
                       | (sent, Ok _) => (sent, None)
                       end
                   end)
  /\ ((allow rl now self).2 = false -> exists e, result = ([], Some (Wrap "failed to negotiate file transfer" e))).
Proof.
  intros status result. assert (key <> "") as Hne by (by eapply key_nonempty).
  pose proof (Handle_store b mb self {| sf_Key := key; sf_Session := session |} Hb Hutf8 Hne) as Hh.
  cbn [sf_Key sf_Session] in Hh. fold status in Hh.
  assert (In status [StatusSuccess; StatusAlreadyExists; StatusSessionRejected]) as Hst.
  { unfold status, store_status. repeat case_decide; cbn; tauto. }
  assert (utf8_string status) as Hsu by (by destruct Hst as [<-|[<-|[<-|[]]]]).
  edestruct (Send_served (H := served_host cfg b rl now lim self cut) cfg StorageProtocolID peerID self
    (rl_Wrap now Handle) lim (rl, (b, [])) (NewMessage TypeStoreFile {| sf_Key := key; sf_Session := session |}) cut)
    as [_ Hsend]; [done| |done..|]. { apply NewMessage_proper; [done..|]. cbn. unfold field_omitempty. by case_decide. }
  unfold rl_Wrap in Hsend. destruct (allow rl now self) as [rl' ok]. cbn [snd].
  unfold result, StoreFileToPeer. destruct ok.
  2: { split; [done|]. intros _. destruct Hsend as [e ->]. by eexists. }
  rewrite Hh in Hsend. cbn [snd store_resp] in Hsend.
  assert (proper {| sr_Key := key; sr_Status := status |}) as Hresp by (split; [apply Hutf8|done]).
  assert (proper (NewMessage TypeStoreFileResp {| sr_Key := key; sr_Status := status |})) as Hreply.
  { apply NewMessage_proper; [done..|]. cbn. unfold field_omitempty. by case_decide. }
  rewrite (Hsend Hreply (Hmax _ Hst)), Decode_NewMessage by done. cbn [sr_Status]. split; [|done]. intros _.
  by destruct Hst as [<-|[<-|[<-|[]]]].
Qed.

(** The transfer that follows a success: what is sent is what arrives. *)
Lemma SendFile_served (b : FileServer S) mb self peerID key data cut fin
    (Hb : holds_map mb (fs_store b)) (Hok : waiters_ok b) (Hsize : zlen data <= max_int64)
    (Hkey : 1 <= zlen (bytes_of_string key) <= MaxKeyLength) (Hcut : forall b : bytes, concat (cut b) = b) :
  exists w b', SendFile (served_open b self cut fin) peerID key (Stream [data] EOF) (zlen data) = ([(peerID, w)], Ok tt)
     /\ handleIncomingStream b self (Stream (cut w) fin) = Some (b', [x01])
     /\ received b b' mb self key (zlen data) data data (FileReceiveComplete, ReceiveCompleteData key (zlen data)) None.
Proof.
  assert (rd_bytes (Stream [data] EOF) = data) as Hd by apply app_nil_r.
  pose proof (loopback b mb self key (Stream [data] EOF) cut fin Hok Hb Hkey eq_refl) as Hl.
  rewrite Hd in Hl. destruct (Hl Hsize Hcut) as (w & b' & Hs & _ & Hin & Hrc).
  exists w, b'. unfold SendFile, served_open. by rewrite Hs.
Qed.

Lemma status_welcome b mb key session :
  is_Some (fs_waiters b !! key) \/ fs_sessionName b = "" \/ session = fs_sessionName b ->
  store_status b mb key session = if decide (is_Some (mb !! slot key)) then StatusAlreadyExists else StatusSuccess.
Proof. intros Hw. unfold store_status. by rewrite decide_True. Qed.

(** [C2] From one store into the other: [StoreFileToPeer] to a server [b] that
    awaits the key, or has no session, or the session named, and does not hold
    the key, succeeds; it has then opened one transfer stream, to [b], and when
    [b] handles the bytes that were written to it, its store holds exactly what
    the sender's store holds under the key, and its waiters for the key are woken;
    the negotiation before leaves [b] as it is.  When [b] has the file, or another
    session is active, or the sender has used up its requests, the sender gets the
    error for it and has opened no transfer stream. *)
Theorem store_to_peer_end_to_end cfg (a b : FileServer S) ma mb rl now lim self peerID key session data cut fin
    (Ha : holds_map ma (fs_store a)) (Hb : holds_map mb (fs_store b)) (Hok : waiters_ok b)
    (Hdata : ma !! slot key = Some data) (Hsize : zlen data <= max_int64)
    (Hkey : 1 <= zlen (bytes_of_string key) <= MaxKeyLength)
    (Hutf8 : utf8_string key /\ utf8_string session)
    (Hlim : (Acquire lim).2 = true) (Hcut : forall b : bytes, concat (cut b) = b)
    (Hmax : forall s, In s [StatusSuccess; StatusAlreadyExists; StatusSessionRejected] ->
       zlen (encode (NewMessage TypeStoreFileResp {| sr_Key := key; sr_Status := s |})) <= MaxMessageSize cfg)
    (Hreq : zlen (encode (NewMessage TypeStoreFile {| sf_Key := key; sf_Session := session |}))
            <= MaxMessageSize cfg) :
  let welcome := is_Some (fs_waiters b !! key) \/ fs_sessionName b = "" \/ session = fs_sessionName b in
  let allowed := (allow rl now self).2 in
  let result := StoreFileToPeer (H1 := served_host cfg b rl now lim self cut) (served_open b self cut fin)
                  cfg a peerID key session in
  (Handle (b, []) self (MsgProto (NewMessage TypeStoreFile {| sf_Key := key; sf_Session := session |}))).1 = (b, [])
  /\ (allowed = true -> welcome -> mb !! slot key = None ->
     exists w b', result = ([(peerID, w)], None)
       /\ handleIncomingStream b self (Stream (cut w) fin) = Some (b', [x01])
       /\ holds_map (<[slot key := data]> mb) (fs_store b')
       /\ forall ch, ch ∈ default [] (fs_waiters b !! key) -> fs_chans b' !! ch = Some (woken None))
  /\ (allowed = true -> welcome -> is_Some (mb !! slot key) -> result = ([], Some ErrFileAlreadyExists))
  /\ (allowed = true -> ~ welcome -> result = ([], Some ErrSessionRejected))
  /\ (allowed = false -> exists e, result = ([], Some (Wrap "failed to negotiate file transfer" e))).
Proof.
  intros welcome allowed result.
  destruct (StoreFileToPeer_served cfg a b mb rl now lim self peerID key session cut fin) as [Hyes Hno]; [done..|].
  split; [by rewrite (Handle_store b mb) by (done || by eapply key_nonempty)|].
  split; [|split; [|split; [|exact Hno]]]; intros Hall; specialize (Hyes Hall).
  - intros Hw Hn. unfold result. rewrite Hyes, status_welcome, Hn by done. rewrite (decide_False (P := is_Some None)) by (by intros []).
    rewrite (bs_Read_ok ma _ _ data) by done.
    destruct (SendFile_served b mb self peerID key data cut fin) as (w & b' & -> & Hin & Hrc); [done..|].
    exists w, b'. split; [done|]. split; [done|]. split; [apply Hrc|]. intros ch Hch.
    by rewrite (rc_chans _ _ _ _ _ _ _ _ _ _ Hrc), decide_True.
  - intros Hw Hh. unfold result. rewrite Hyes, status_welcome by done.
    by rewrite (decide_True (P := is_Some (mb !! slot key))) by done.
  - intros Hw. unfold result. rewrite Hyes. unfold store_status.
    by rewrite (decide_False (P := is_Some (fs_waiters b !! key) \/ _)) by done.
Qed.
End end_to_end.

(** ** Witnesses *)
Import ToyStore.

(** [toy_Node], but nobody is connected. *)
Definition lonely_Node : Node :=
  {| node_ID := "me"; node_Addrs _ := []; node_Connectedness _ _ := OtherConnectedness;
     node_ConnsToPeer _ _ := []; node_Protocols _ _ := Ok [];
     NewMultiaddr a := Ok a; AddrInfoFromP2pAddr a := Ok {| ai_ID := a; ai_Addrs := [a] |};
     peer_Decode s := Ok s |}.

Definition one_slot : Limiter := {| sem_cap := 1; sem_len := 0 |}.
Definition toy_rl : RateLimiter := NewRateLimiter 100 Second (5 * Minute).
Definition toy_host : Host :=
  served_host DefaultConfig toy_server toy_rl 0 one_slot "me" (fun b => [b]).
Definition toy_get : GetFilePayload :=
  {| gf_Key := "k"; gf_MsgID := "m"; gf_TTL := 3; gf_RequesterID := "r";
     gf_RequesterAddrs := ["/ip4/10.0.0.7/tcp/4001/p2p/r"; "/ip4/1.2.3.4/p2p/R/p2p-circuit/p2p/r"] |}.
Definition toy_open := served_open toy_server "me" (fun b => [b]) EOF.

Lemma delivery_never_returns_witness :
  deliverToRequester (H0 := lonely_Node) (H1 := toy_host) toy_open DefaultConfig 4000
    toy_server 0 {| HolePunchWait := 10 * Second |} toy_get = Delivering.
Proof.
  eapply (delivery_never_returns (H0 := lonely_Node) (H1 := toy_host) toy_open DefaultConfig toy_server 0
    {| HolePunchWait := 10 * Second |} toy_get).
  - reflexivity.
  - reflexivity.
  - reflexivity.
  - reflexivity.
  - reflexivity.
Defined.

Lemma delivered_direct_witness :
  exists t evs,
    deliverToRequester (H1 := toy_host) toy_open DefaultConfig 5 toy_server 0
      {| HolePunchWait := 10 * Second |} toy_get = DeliveryDone t evs []
    /\ filter (fun e => Event.Type_ e = GetDelivered) evs ∈ [[]; [GetDelivered_event toy_get]]
    /\ IsDirectConnection t "r" = true.
Proof.
  set (evs := [discovered {| ai_ID := "/ip4/10.0.0.7/tcp/4001/p2p/r"; ai_Addrs := ["/ip4/10.0.0.7/tcp/4001/p2p/r"] |};
               GetDelivered_event toy_get]).
  assert (deliverToRequester (H1 := toy_host) toy_open DefaultConfig 5 toy_server 0
      {| HolePunchWait := 10 * Second |} toy_get = DeliveryDone (100 * Millisecond) evs []) as Hr by reflexivity.
  destruct (delivered_direct (H1 := toy_host) toy_open DefaultConfig 5 toy_server 0
    {| HolePunchWait := 10 * Second |} toy_get _ _ _ Hr) as (Hann & Honce & _).
  exists (100 * Millisecond), evs. split; [exact Hr|]. split; [exact Honce|].
  destruct (proj1 Hann) as (requester & Hd & _ & Hdir & _); [right; left|].
  injection Hd as <-. exact Hdir.
Defined.

Lemma store_to_peer_end_to_end_witness :
  exists w b', StoreFileToPeer (H1 := toy_host) toy_open DefaultConfig
    (NewFileServer ({[ "new" := [x62; x63] ]} : gmap string bytes)) "you" "new" "" = ([("you", w)], None)
    /\ handleIncomingStream toy_server "me" (Stream [w] EOF) = Some (b', [x01])
    /\ fs_store b' !! "new" = Some [x62; x63].
Proof.
  destruct (store_to_peer_end_to_end DefaultConfig
    (NewFileServer ({[ "new" := [x62; x63] ]} : gmap string bytes)) toy_server
    {[ "new" := [x62; x63] ]} {[ "k" := [x61] ]} toy_rl 0 one_slot "me" "you" "new" "" [x62; x63]
    (fun b => [b]) EOF) as (_ & Hok & _).
  - reflexivity.
  - reflexivity.
  - apply NewFileServer_waiters_ok.
  - reflexivity.
  - vm_compute. discriminate.
  - vm_compute. split; discriminate.
  - split; reflexivity.
  - reflexivity.
  - intros b. apply app_nil_r.
  - intros s [<-|[<-|[<-|[]]]]; vm_compute; discriminate.
  - vm_compute. discriminate.
  - destruct Hok as (w & b' & Hs & Hin & Hm & _); [reflexivity|right; left; reflexivity|reflexivity|].
    exists w, b'. split; [exact Hs|]. split; [exact Hin|]. rewrite Hm. reflexivity.
Defined.
