(* ===== verification/Gossip.v ===== *)
(** The flood of a GET request through the network
    (src/internal/fileserver/get.go, pkg/operations/get.go).

    A network is a file server per peer and the requests in flight.  A request
    is received by [handleMessage] and handled by [processGet]; whatever else
    happens to a server (transfers, connections, sessions) is a step that
    changes it arbitrarily and sends no request.  Requests may be lost, and
    arrive in any order. *)
From S2P Require Import Prelude Io Json Event Middleware SeenMessages Protocol BlobStore FileServer.

(** A request under way; [pk_hops] counts how often it has been forwarded. *)
Record packet := { pk_from : peer_ID; pk_to : peer_ID; pk_msg : Message; pk_hops : nat }.

Record network (S : Type) := { nw_nodes : gmap peer_ID (FileServer S); nw_flight : list packet }.
Arguments nw_nodes {S}.
Arguments nw_flight {S}.

Definition packets_of (from : peer_ID) (hops : nat) (gs : list goroutine) : list packet :=
  omap (fun g => match g with
                 | GoForward to msg => Some {| pk_from := from; pk_to := to; pk_msg := msg;
                                               pk_hops := hops |}
                 | _ => None
                 end) gs.

Inductive label := Handled (id : peer_ID) | Lost | Local.

Section network.
Context {S : Type} `{BlobStore S}.
Implicit Type nw : network S.

Inductive gstep nw : label -> network S -> Prop :=
| step_receive l1 p l2 fs resp sender payload now seen_order order intn fs' gs :
    nw_flight nw = l1 ++ p :: l2 -> nw_nodes nw !! pk_to p = Some fs ->
    handleMessage fs (pk_from p) (MsgProto (pk_msg p)) = (resp, [GoProcessGet sender payload]) ->
    seen_order ≡ₚ map_to_list (entries (fs_seen fs)) -> peer_order fs order -> intn_ok intn ->
    processGet fs now seen_order order intn sender payload = Some (fs', gs) ->
    gstep nw (Handled (pk_to p))
      {| nw_nodes := <[pk_to p := fs']> (nw_nodes nw);
         nw_flight := l1 ++ l2 ++ packets_of (pk_to p) (Datatypes.S (pk_hops p)) gs |}
| step_lost l1 p l2 :
    nw_flight nw = l1 ++ p :: l2 ->
    gstep nw Lost {| nw_nodes := nw_nodes nw; nw_flight := l1 ++ l2 |}
| step_local id fs' :
    gstep nw Local {| nw_nodes := <[id := fs']> (nw_nodes nw); nw_flight := nw_flight nw |}.

Inductive gtrace nw : list label -> network S -> Prop :=
| gtrace_nil : gtrace nw [] nw
| gtrace_snoc ls nw1 l nw2 : gtrace nw ls nw1 -> gstep nw1 l nw2 -> gtrace nw (ls ++ [l]) nw2.

Definition is_handled (l : label) : Prop := exists id, l = Handled id.
#[export] Instance is_handled_dec l : Decision (is_handled l).
Proof. destruct l; [left; by eexists|right; by intros [? ?]..]. Defined.

(** How many requests were handled. *)
Definition handled (ls : list label) : Z := zlen (filter is_handled ls).
End network.

(** ** Forwarding *)
Section forward.
Context {S : Type} `{BlobStore S}.

Lemma packets_of_forward me hops (m : Message) peers :
  packets_of me hops (map (fun p => GoForward p m) peers)
  = map (fun to => {| pk_from := me; pk_to := to; pk_msg := m; pk_hops := hops |}) peers.
Proof. induction peers as [|to peers IH]; [done|]. cbn in IH |- *. f_equal. exact IH. Qed.

Lemma processGet_packets (fs : FileServer S) now so order intn sender q fs' gs me hops :
  processGet fs now so order intn sender q = Some (fs', gs) ->
  packets_of me hops gs = []
  \/ 0 < gf_TTL q /\ exists peers, zlen peers <= 10
     /\ (forall p, p ∈ peers -> p ∈ order /\ p <> sender)
     /\ packets_of me hops gs
        = map (fun to => {| pk_from := me; pk_to := to;
                            pk_msg := NewMessage TypeGetFile (decremented q); pk_hops := hops |}) peers.
Proof.
  unfold processGet. destruct (See _ _ _ _) as [seen []]; cbn [negb];
    [|intros [= <- <-]; by left].
  destruct (bs_Has _ _); [intros [= <- <-]; by left|].
  destruct (Z.leb_spec (gf_TTL q) 0); [intros [= <- <-]; by left|].
  destruct (Select_some intn order sender 10) as (peers & -> & Hlen & Hin); [done|].
  cbn [mbind option_bind]. intros [= <- <-]. right. split; [done|]. exists peers. split; [done|]. split; [exact Hin|]. clear. induction peers as [|to peers IH]; [done|].
  cbn in IH |- *. f_equal. exact IH.
Qed.

Lemma handleMessage_get (fs : FileServer S) from msg resp sender q :
  handleMessage fs from (MsgProto msg) = (resp, [GoProcessGet sender q]) ->
  sender = from /\ Decode msg = Ok q.
Proof.
  unfold handleMessage. repeat case_decide; try done. unfold handleGet.
  destruct (Decode msg) as [q'|]; [|done]. by intros [= <- <- <-].
Qed.
End forward.

(** ** Termination *)

(** The requests a request of TTL [t] can turn into, itself included. *)
Fixpoint flood (t : nat) : Z := match t with O => 1 | S t => 1 + 10 * flood t end.

Definition weight (p : packet) : Z :=
  match Decode (pk_msg p) : result GetFilePayload with
  | Ok q => flood (Z.to_nat (gf_TTL q))
  | Err _ => 0
  end.

Definition total (ps : list packet) : Z := foldr (fun p n => weight p + n) 0 ps.

Lemma flood_pos t : 1 <= flood t.
Proof. induction t; cbn [flood]; lia. Qed.

Lemma weight_nonneg p : 0 <= weight p.
Proof. unfold weight. destruct (Decode _) as [q|]; [|lia]. pose proof (flood_pos (Z.to_nat (gf_TTL q))). lia. Qed.

Lemma total_cons p ps : total (p :: ps) = weight p + total ps.
Proof. done. Qed.

Lemma total_app ps ps' : total (ps ++ ps') = total ps + total ps'.
Proof. induction ps as [|p ps IH]; [done|]. rewrite <-app_comm_cons, !total_cons. lia. Qed.

Lemma total_nonneg ps : 0 <= total ps.
Proof. induction ps as [|p ps IH]; [done|]. rewrite total_cons. pose proof (weight_nonneg p). lia. Qed.

Lemma total_same (f : peer_ID -> packet) peers n :
  (forall to, weight (f to) = n) -> total (map f peers) = n * zlen peers.
Proof.
  intros Hf. induction peers as [|p peers IH]; [unfold zlen; cbn; lia|].
  cbn [map]. rewrite total_cons, Hf, IH, zlen_cons. lia.
Qed.

Lemma weight_request from to q hops :
  min_int64 <= gf_TTL q <= max_int64 ->
  weight {| pk_from := from; pk_to := to; pk_msg := NewMessage TypeGetFile q; pk_hops := hops |}
  = flood (Z.to_nat (gf_TTL q)).
Proof.
  intros Hq. unfold weight. cbn [pk_msg]. unfold Decode. cbn [Data NewMessage].
  by rewrite GetFilePayload_unmarshal.
Qed.

Section termination.
Context {S : Type} `{BlobStore S}.

Lemma gstep_weight (nw nw' : network S) l :
  gstep nw l nw' -> total (nw_flight nw') + (if decide (is_handled l) then 1 else 0) <= total (nw_flight nw).
Proof.
  destruct 1 as [l1 p l2 fs resp sender q now so order intn fs' gs Hfl Hn Hm _ _ _ Hp|l1 p l2 Hfl|id fs'];
    cbn [nw_flight].
  - rewrite decide_True by by eexists. apply handleMessage_get in Hm as [-> Hq].
    rewrite Hfl, !total_app, total_cons. change (total (p :: l2)) with (weight p + total l2).
    assert (weight p = flood (Z.to_nat (gf_TTL q))) as -> by (unfold weight; by rewrite Hq).
    pose proof (Decode_TTL_range _ _ Hq) as Hr.
    destruct (processGet_packets fs now so order intn (pk_from p) q fs' gs (pk_to p)
      (Datatypes.S (pk_hops p)) Hp) as [->|(Ht & peers & Hlen & _ & ->)].
    + pose proof (flood_pos (Z.to_nat (gf_TTL q))). change (total []) with 0. lia.
    + rewrite (total_same _ _ (flood (Z.to_nat (gf_TTL q - 1)))).
      * replace (Z.to_nat (gf_TTL q)) with (Datatypes.S (Z.to_nat (gf_TTL q - 1))) by lia.
        cbn [flood]. pose proof (flood_pos (Z.to_nat (gf_TTL q - 1))). nia.
      * intros to. apply weight_request. unfold min_int64 in *. cbn [decremented gf_TTL]. lia.
  - rewrite decide_False by by intros []. rewrite Hfl, !total_app, total_cons.
    pose proof (weight_nonneg p). lia.
  - rewrite decide_False by by intros []. lia.
Qed.

(** [C15] A flood ends.  Whatever the servers do, in whatever order the requests
    arrive and even if every duplicate were handled, no more requests are handled
    than [flood] allows for the requests in flight; for a request broadcast by
    [Get] with [DefaultTTL] that is 1111 per peer it was sent to. *)
Theorem flood_terminates (nw nw' : network S) ls (Hrun : gtrace nw ls nw') :
  handled ls + total (nw_flight nw') <= total (nw_flight nw)
  /\ forall me order q, gf_TTL q = DefaultTTL -> nw_flight nw = packets_of me 0 (BroadcastGet order q) ->
     handled ls <= 1111 * zlen order.
Proof.
  assert (handled ls + total (nw_flight nw') <= total (nw_flight nw)) as Hb.
  { induction Hrun as [|ls nw1 l nw2 Hrun IH Hstep]; [done|]. unfold handled in *.
    rewrite filter_app, zlen_app. pose proof (gstep_weight _ _ _ Hstep) as Hw.
    rewrite filter_cons, filter_nil. case_decide; rewrite ?zlen_cons, zlen_nil; lia. }
  split; [done|]. intros me order q Hq Hfl. pose proof (total_nonneg (nw_flight nw')).
  assert (total (nw_flight nw) = 1111 * zlen order); [|lia].
  rewrite Hfl. unfold BroadcastGet. rewrite packets_of_forward. apply total_same. intros to. rewrite weight_request by (rewrite Hq; done). by rewrite Hq.
Qed.
End termination.

(** ** What travels *)

(** [q'] is [q] but for the TTL. *)
Definition same_request (q q' : GetFilePayload) : Prop :=
  gf_Key q' = gf_Key q /\ gf_MsgID q' = gf_MsgID q /\ gf_RequesterID q' = gf_RequesterID q
  /\ gf_RequesterAddrs q' = gf_RequesterAddrs q.

Definition travels (q : GetFilePayload) (p : packet) : Prop :=
  exists q', Decode (pk_msg p) = Ok q' /\ same_request q q'
    /\ gf_TTL q' = DefaultTTL - Z.of_nat (pk_hops p) /\ 0 <= gf_TTL q'.

Section reach.
Context {S : Type} `{BlobStore S}.

Lemma gstep_travels (nw nw' : network S) l q :
  gstep nw l nw' -> Forall (travels q) (nw_flight nw) -> Forall (travels q) (nw_flight nw').
Proof.
  destruct 1 as [l1 p l2 fs resp sender q1 now so order intn fs' gs Hfl Hn Hm _ _ _ Hp|l1 p l2 Hfl|id fs'];
    cbn [nw_flight]; [rewrite Hfl..|done]; intros [Hl1 [Hpk Hl2]%Forall_cons]%Forall_app.
  2: by apply Forall_app.
  apply Forall_app. split; [done|]. apply Forall_app. split; [done|].
  apply handleMessage_get in Hm as [-> Hq1]. destruct Hpk as (q2 & Hq2 & (Hk & Hi & Hr & Ha) & Ht & H0).
  rewrite Hq1 in Hq2. injection Hq2 as <-.
  destruct (processGet_packets fs now so order intn (pk_from p) q1 fs' gs (pk_to p)
    (Datatypes.S (pk_hops p)) Hp) as [->|(Hpos & peers & _ & _ & ->)]; [done|].
  apply Forall_map, Forall_forall. intros to _. exists (decremented q1). cbn [pk_msg pk_hops].
  pose proof (Decode_TTL_range _ _ Hq1). split; [|split; [done|cbn [decremented gf_TTL]; lia]].
  unfold Decode. cbn [Data NewMessage]. apply GetFilePayload_unmarshal.
  unfold min_int64 in *. cbn [decremented gf_TTL]. lia.
Qed.

(** A request travels unchanged, and not far.  In every network reached from
    the broadcast of a request with [DefaultTTL], whatever has happened, each
    request in flight names the key, the id, the requester and the addresses of
    the broadcast, and its TTL is [DefaultTTL] less the times it has been
    forwarded, at most [DefaultTTL] times: no server more than [DefaultTTL + 1]
    hops away is asked. *)
Theorem request_reach (nw nw' : network S) ls me order q
    (Hrun : gtrace nw ls nw') (Hq : gf_TTL q = DefaultTTL)
    (Hfl : nw_flight nw = packets_of me 0 (BroadcastGet order q)) :
  forall p, p ∈ nw_flight nw' -> (Z.of_nat (pk_hops p) <= DefaultTTL)
    /\ exists q', Decode (pk_msg p) = Ok q' /\ same_request q q'
                  /\ gf_TTL q' = DefaultTTL - Z.of_nat (pk_hops p).
Proof.
  assert (Forall (travels q) (nw_flight nw')) as Hall.
  { induction Hrun as [|ls nw1 l nw2 Hrun IH Hstep]; [|by eapply gstep_travels].
    rewrite Hfl. unfold BroadcastGet. rewrite packets_of_forward.
    apply Forall_map, Forall_forall. intros to _. exists q. cbn [pk_msg pk_hops]. split; [|done || rewrite Hq; done].
    unfold Decode. cbn [Data NewMessage]. apply GetFilePayload_unmarshal. by rewrite Hq. }
  intros p Hp. rewrite Forall_forall in Hall. destruct (Hall p Hp) as (q' & Hd & Hs & Ht & H0).
  split; [lia|]. eauto.
Qed.
End reach.

(** ** A run that loses the file

    [deliver_nth nw i] delivers the [i]-th request in flight. *)
Section run.
Context {S : Type} `{BlobStore S}.

Definition deliver_nth (nw : network S) (i : nat) : option (network S) :=
  p ← nw_flight nw !! i;
  fs ← nw_nodes nw !! pk_to p;
  match (handleMessage fs (pk_from p) (MsgProto (pk_msg p))).2 with
  | [GoProcessGet sender payload] =>
      r ← processGet fs 1 (map_to_list (entries (fs_seen fs)))
            (map (fun kv : peer_ID * Peer => p_ID kv.2) (map_to_list (fs_peers fs)))
            (fun _ _ => 0%nat) sender payload;
      Some {| nw_nodes := <[pk_to p := r.1]> (nw_nodes nw);
              nw_flight := take i (nw_flight nw) ++ drop (Datatypes.S i) (nw_flight nw)
                           ++ packets_of (pk_to p) (Datatypes.S (pk_hops p)) r.2 |}
  | _ => None
  end.

Fixpoint deliver_all (nw : network S) (order : list nat) : option (network S) :=
  match order with
  | [] => Some nw
  | i :: order => nw ← deliver_nth nw i; deliver_all nw order
  end.

Lemma deliver_nth_step nw i nw' :
  deliver_nth nw i = Some nw' -> exists id, gstep nw (Handled id) nw'.
Proof.
  unfold deliver_nth. destruct (nw_flight nw !! i) as [p|] eqn:Hi; [|done]. cbn [mbind option_bind].
  destruct (nw_nodes nw !! pk_to p) as [fs|] eqn:Hn; [|done]. cbn [mbind option_bind].
  destruct (handleMessage fs (pk_from p) (MsgProto (pk_msg p))) as [resp gs0] eqn:Hm. cbn [snd].
  destruct gs0 as [|[sender payload| |] [|]]; try done.
  destruct (processGet _ _ _ _ _ _ _) as [[fs' gs]|] eqn:Hp; [|done]. intros [= <-].
  exists (pk_to p). eapply step_receive; [| | | | | |exact Hp].
  - symmetry. by apply take_drop_middle.
  - exact Hn.
  - exact Hm.
  - done.
  - unfold peer_order. done.
  - by intros j n Hj.
Qed.

Lemma deliver_all_trace nw0 ls0 nw order nw' :
  gtrace nw0 ls0 nw -> deliver_all nw order = Some nw' ->
  exists ls, gtrace nw0 (ls0 ++ ls) nw' /\ Forall is_handled ls.
Proof.
  revert nw ls0. induction order as [|i order IH]; intros nw ls0 Htr; cbn [deliver_all].
  - intros [= <-]. exists []. by rewrite app_nil_r.
  - destruct (deliver_nth nw i) as [nw1|] eqn:Hd; [|done]. cbn [mbind option_bind]. intros Hall.
    apply deliver_nth_step in Hd as [id Hstep].
    destruct (IH nw1 (ls0 ++ [Handled id])) as (ls & Hls & Hh); [by eapply gtrace_snoc|done|].
    exists (Handled id :: ls). rewrite <-app_assoc in Hls. split; [done|]. constructor; [by eexists|done].
Qed.
End run.

(** Connections: each server and its storage peers. *)
Definition server_with {S} (store : S) (peers : list peer_ID) : FileServer S :=
  with_peers (NewFileServer store)
    (list_to_map (map (fun p => (p, {| p_ID := p; p_Conn := p |})) peers)) (list_to_set peers).

Fixpoint connected_path {S} (nodes : gmap peer_ID (FileServer S)) (path : list peer_ID) : bool :=
  match path with
  | p :: (q :: _) as rest =>
      match nodes !! p with Some fs => bool_decide (is_Some (fs_peers fs !! q)) | None => false end
      && connected_path nodes rest
  | _ => true
  end.

Import ToyStore.

Module LateCopy.

(** A ring with a tail: [r - a - b - c - h] is one way to [h], which has the
    file, and [r - x - y - b] a longer one to [b]. *)
Definition nodes : gmap peer_ID (FileServer (gmap string bytes)) :=
  list_to_map [("r", server_with ∅ ["a"; "x"]); ("a", server_with ∅ ["r"; "b"]);
               ("x", server_with ∅ ["r"; "y"]); ("y", server_with ∅ ["x"; "b"]);
               ("b", server_with ∅ ["a"; "y"; "c"]); ("c", server_with ∅ ["b"; "h"]);
               ("h", server_with {[ "k" := [x61] ]} ["c"])].

Definition request : GetFilePayload :=
  {| gf_Key := "k"; gf_MsgID := "m"; gf_TTL := DefaultTTL; gf_RequesterID := "r";
     gf_RequesterAddrs := [] |}.

Definition start : network (gmap string bytes) :=
  {| nw_nodes := nodes; nw_flight := packets_of "r" 0 (BroadcastGet ["a"; "x"] request) |}.

Definition delivering (nw : network (gmap string bytes)) : bool :=
  match nw_nodes nw !! "h" with
  | Some fs => existsb (fun e => bool_decide (Event.Type_ e = GetDelivering)) (fs_events fs)
  | None => false
  end.
End LateCopy.

(** Where the requests in flight go, how far they have come, and whether the
    holder delivers. *)
Definition outcome_of (nw : network (gmap string bytes)) : list (peer_ID * nat) * bool :=
  (map (fun p => (pk_to p, pk_hops p)) (nw_flight nw), LateCopy.delivering nw).

Lemma late_run order x :
  outcome_of <$> deliver_all LateCopy.start order = Some x ->
  exists ls nw, gtrace LateCopy.start ls nw /\ Forall is_handled ls /\ outcome_of nw = x.
Proof.
  destruct (deliver_all LateCopy.start order) as [nw|] eqn:E; [|done]. intros [= Hx].
  destruct (deliver_all_trace LateCopy.start [] LateCopy.start order nw) as (ls & Htr & Hh);
    [apply gtrace_nil|done|]. by exists ls, nw.
Qed.

(** A run that has forwarded the request to [b]. *)
Lemma late_two_steps :
  exists ls nw, gtrace LateCopy.start ls nw /\ Forall is_handled ls
    /\ outcome_of nw = ([("b", 1%nat); ("y", 1%nat)], false).
Proof. apply (late_run [0; 0]%nat). vm_compute. reflexivity. Qed.

(** [C28] Whether a file is found depends on the order of arrival.  In a network
    of seven servers the holder of the file is [DefaultTTL + 1] hops away from
    the requester.  No request is lost, and all of them are handled; in one
    order the holder starts to deliver, in another it is never asked: a copy of
    the request with a smaller TTL, arriving first over a longer way, makes the
    server ignore the copy that could have reached the holder. *)
Theorem late_copy_dropped :
  connected_path LateCopy.nodes ["r"; "a"; "b"; "c"; "h"] = true /\
  (exists ls nw, gtrace LateCopy.start ls nw /\ Forall is_handled ls /\ nw_flight nw = []
     /\ LateCopy.delivering nw = true) /\
  (exists ls nw, gtrace LateCopy.start ls nw /\ Forall is_handled ls /\ nw_flight nw = []
     /\ LateCopy.delivering nw = false).
Proof.
  split; [vm_compute; reflexivity|]. split.
  - destruct (late_run (replicate 8 0%nat) ([], true)) as (ls & nw & Htr & Hh & [= Hfl Hd]);
      [vm_compute; reflexivity|]. exists ls, nw. apply map_eq_nil in Hfl. done.
  - destruct (late_run [1; 1; 1; 0; 0; 0; 0]%nat ([], false)) as (ls & nw & Htr & Hh & [= Hfl Hd]);
      [vm_compute; reflexivity|]. exists ls, nw. apply map_eq_nil in Hfl. done.
Qed.

(** ** Witnesses *)
Lemma flood_terminates_witness :
  exists ls nw, gtrace LateCopy.start ls nw /\ handled ls <= 2222.
Proof.
  destruct late_two_steps as (ls & nw & Htr & _ & _). exists ls, nw. split; [exact Htr|].
  exact (proj2 (flood_terminates _ _ _ Htr) "r" ["a"; "x"] LateCopy.request eq_refl eq_refl).
Defined.

Lemma request_reach_witness :
  exists ls nw, gtrace LateCopy.start ls nw /\ nw_flight nw <> []
    /\ forall p, p ∈ nw_flight nw -> Z.of_nat (pk_hops p) <= DefaultTTL.
Proof.
  destruct late_two_steps as (ls & nw & Htr & _ & Hfl). exists ls, nw. split; [exact Htr|]. split.
  - intros E. unfold outcome_of in Hfl. rewrite E in Hfl. discriminate Hfl.
  - intros p Hp. exact (proj1 (request_reach _ _ _ "r" ["a"; "x"] LateCopy.request Htr eq_refl eq_refl p Hp)).
Defined.
