(* ===== verification/Discovery.v ===== *)
(** Peer discovery (src/internal/discovery, src/internal/network): bootstrap
    peers with retries, the DHT search, mDNS, the manager that starts them, and
    the network manager that dials what they announce.

    Dialling is the class [Dialer]; mDNS, the DHT and its search are third-party
    services, of which the model takes the results as arguments. *)
From S2P Require Import Prelude Words Event Middleware FileServer Connect.

(** ** Configuration *)
Abbreviation DiscoveryMethod := string.
Definition MethodMDNS : DiscoveryMethod := "mdns".
Definition MethodDHT : DiscoveryMethod := "dht".
Definition MethodBootstrap : DiscoveryMethod := "bootstrap".

Record MDNSConfig := { ServiceName : string; Interval : duration }.
Record DHTConfig := {
  RendezvousString : string;
  DiscoveryInterval : duration;
  dht_BootstrapPeers : list AddrInfo;
  Mode : string;
}.
Record BootstrapConfig := {
  BootstrapPeers : list string;
  ConnectionTimeout : duration;
  RetryInterval : duration;
  MaxRetries : Z;
}.
Record Config := {
  EnabledMethods : list DiscoveryMethod;
  MDNS : MDNSConfig;
  DHT : DHTConfig;
  BootstrapCfg : BootstrapConfig;
}.

Definition DefaultMDNSConfig : MDNSConfig := {| ServiceName := "storage"; Interval := 5 * Second |}.

Definition DefaultBootstrapConfig : BootstrapConfig :=
  {| BootstrapPeers := []; ConnectionTimeout := 30 * Second; RetryInterval := 10 * Second;
     MaxRetries := 3 |}.

(** [default_peers] is [dht.GetDefaultBootstrapPeerAddrInfos()]. *)
Definition DefaultDHTConfig (default_peers : list AddrInfo) : DHTConfig :=
  {| RendezvousString := "p2p-storage-network"; DiscoveryInterval := 10 * Second;
     dht_BootstrapPeers := default_peers; Mode := "auto" |}.

Definition DefaultConfig (default_peers : list AddrInfo) : Config :=
  {| EnabledMethods := [MethodMDNS]; MDNS := DefaultMDNSConfig;
     DHT := DefaultDHTConfig default_peers; BootstrapCfg := DefaultBootstrapConfig |}.

(** ** Dialling *)

(** [host.Connect(ctx, info)] at a time: when it returns, and its error. *)
Class Dialer := { host_Connect : time -> context -> AddrInfo -> time * option goerr }.

(** It returns by the deadline of its context. *)
Class DialerLaws `{Dialer} := {
  Connect_deadline now ctx info :
    let t := (host_Connect now ctx info).1 in
    now <= t /\ match ctx with Some d => t <= Z.max now d | None => True end;
}.

Definition ctx_done (ctx : context) (now : time) : bool :=
  match ctx with Some d => d <=? now | None => false end.

(** An announcement: when, and whom. *)
Abbreviation announced := (time * AddrInfo)%type.

Section discovery.
Context `{Node, Dialer}.

(** ** Bootstrap peers

    The loop of [connectWithRetry] with [n] attempts left: when it returns, the
    events it published, and the times at which it dialled. *)
Fixpoint retry_loop (cfg : BootstrapConfig) (ctx : context) (info : AddrInfo) (n : nat) (now : time) :
    time * list Event * list time :=
  match n with
  | O => (now, [], [])
  | S n =>
      if ctx_done ctx now then (now, [], []) else
      let '(t, err) := host_Connect now (WithTimeout ctx now (ConnectionTimeout cfg)) info in
      match err with
      | None => (t, [discovered info], [now])
      | Some _ =>
          match n with
          | O => (t, [], [now])
          | S _ =>
              match done_before ctx (t + RetryInterval cfg) with
              | Some d => (Z.max t d, [], [now])
              | None => let '(t, evs, dials) := retry_loop cfg ctx info n (t + RetryInterval cfg) in
                        (t, evs, now :: dials)
              end
          end
      end
  end.

Definition connectWithRetry (cfg : BootstrapConfig) (ctx : context) (now : time) (addrStr : string) :
    time * list Event * list time :=
  match NewMultiaddr addrStr with
  | Err _ => (now, [], [])
  | Ok maddr =>
  match AddrInfoFromP2pAddr maddr with
  | Err _ => (now, [], [])
  | Ok info =>
      if decide (ai_ID info = node_ID) then (now, [], [])
      else retry_loop cfg ctx info (Z.to_nat (MaxRetries cfg + 1)) now
  end end.

(** The goroutines [Start] and [AddBootstrapPeer] lead to, by their address. *)
Definition Bootstrap_Start (cfg : BootstrapConfig) : list string := BootstrapPeers cfg.

Definition AddBootstrapPeer (addrStr : string) : result (list string) :=
  match NewMultiaddr addrStr with
  | Err e => Err e
  | Ok maddr =>
  match AddrInfoFromP2pAddr maddr with
  | Err e => Err e
  | Ok info => if decide (ai_ID info = node_ID) then Ok [] else Ok [addrStr]
  end end.

(** ** The DHT search *)
Record DHTDiscovery := {
  d_running : bool;
  d_dht : bool;                       (* [d.dht] is not nil *)
  d_cancelled : bool;
  seenPeers : gmap peer_ID time;
}.

Definition NewDHTDiscovery : DHTDiscovery :=
  {| d_running := false; d_dht := false; d_cancelled := false; seenPeers := ∅ |}.

Definition notifyPeerDiscovered (seen : gmap peer_ID time) (now : time) (info : AddrInfo) :
    gmap peer_ID time * announced :=
  (<[ai_ID info := now]> seen, (now, info)).

(** One peer of the search, which came up at [arrival]. *)
Definition find_one (cfg : DHTConfig) (ctx : context) (seen : gmap peer_ID time) (now : time)
    (arrival : time) (p : AddrInfo) : gmap peer_ID time * time * list announced :=
  let now := Z.max now arrival in
  if decide (ai_ID p = node_ID \/ ai_Addrs p = []) then (seen, now, []) else
  let recently := match seen !! ai_ID p with
                  | Some lastSeen => time_sub now lastSeen <? wrap_s 64 (DiscoveryInterval cfg * 2)
                  | None => false
                  end in
  if recently then (seen, now, []) else
  let '(t, err) := host_Connect now (WithTimeout ctx now (10 * Second)) p in
  match err with
  | None => let '(seen, a) := notifyPeerDiscovered seen t p in (seen, t, [a])
  | Some _ => (seen, t, [])
  end.

(** [found] is what the search returns, with the times. *)
Fixpoint findPeers (cfg : DHTConfig) (ctx : context) (seen : gmap peer_ID time) (now : time)
    (found : list (time * AddrInfo)) : gmap peer_ID time * time * list announced :=
  match found with
  | [] => (seen, now, [])
  | (arrival, p) :: found =>
      let '(seen, now, anns) := find_one cfg ctx seen now arrival p in
      let '(seen, now, anns') := findPeers cfg ctx seen now found in
      (seen, now, anns ++ anns')
  end.

(** The [for] loop of [discoveryLoop]: one search after the other, each with the
    peers it finds; a search starts at a tick, or when the one before it is done. *)
Fixpoint search_loop (cfg : DHTConfig) (ctx : context) (seen : gmap peer_ID time) (now : time)
    (searches : list (time * list (time * AddrInfo))) : gmap peer_ID time * list announced :=
  match searches with
  | [] => (seen, [])
  | (tick, found) :: searches =>
      let now := Z.max now tick in
      if ctx_done ctx now then (seen, []) else
      let '(seen, now, anns) := findPeers cfg ctx seen now found in
      let '(seen, anns') := search_loop cfg ctx seen now searches in
      (seen, anns ++ anns')
  end.

(** [first] is what the search before the first tick finds. *)
Definition discoveryLoop (cfg : DHTConfig) (ctx : context) (seen : gmap peer_ID time) (now : time)
    (first : list (time * AddrInfo)) (searches : list (time * list (time * AddrInfo))) :
    gmap peer_ID time * list announced :=
  let '(seen, now, anns) := findPeers cfg ctx seen now first in
  let '(seen, anns') := search_loop cfg ctx seen now searches in
  (seen, anns ++ anns').

(** [connectToBootstrapPeers] of the DHT: the peers that answered, as they
    announce themselves. *)
Definition dht_connectToBootstrapPeers (ctx : context) (now : time) (peers : list AddrInfo) :
    list announced :=
  omap (fun p => if decide (ai_ID p = node_ID) then None else
                 match host_Connect now (WithTimeout ctx now (30 * Second)) p with
                 | (t, None) => Some (t, p)
                 | (_, Some _) => None
                 end) peers.

(** [dht_new] and [dht_bootstrap] are the errors of [dht.New] and of
    [Bootstrap]; [true]: the discovery loop has been started. *)
Definition DHT_Start (d : DHTDiscovery) (dht_new dht_bootstrap : option goerr) :
    DHTDiscovery * option goerr * bool :=
  if d_running d then (d, None, false) else
  match dht_new with
  | Some e => (d, Some e, false)
  | None =>
      let d := {| d_running := d_running d; d_dht := true; d_cancelled := d_cancelled d;
                  seenPeers := seenPeers d |} in
      match dht_bootstrap with
      | Some e => (d, Some e, false)
      | None => ({| d_running := true; d_dht := true; d_cancelled := d_cancelled d;
                    seenPeers := seenPeers d |}, None, true)
      end
  end.

(** [dht_close] is the error of [Close]. *)
Definition DHT_Stop (d : DHTDiscovery) (dht_close : option goerr) : DHTDiscovery * option goerr :=
  ({| d_running := false; d_dht := d_dht d; d_cancelled := true; seenPeers := seenPeers d |},
   if d_dht d then dht_close else None).

(** ** mDNS and the network manager *)
Definition HandlePeerFound (pi : AddrInfo) : list Event :=
  if decide (ai_ID pi = node_ID) then [] else [discovered pi].

(** [connect]: [None] when it does not dial. *)
Definition connect (now : time) (pi : AddrInfo) : option (option goerr) :=
  if linked now (ai_ID pi) then None else Some (host_Connect now None pi).2.

(** [listen]: the goroutines it starts; [None] is the panic of the type
    assertion. *)
Fixpoint listen (evs : list Event) : option (list AddrInfo) :=
  match evs with
  | [] => Some []
  | e :: evs =>
      match Event.Data e with
      | PeerDiscoveredEvent info => infos ← listen evs; Some (info :: infos)
      | _ => None
      end
  end.

(** The [Notifier]'s events. *)
Definition Connected_event (id : peer_ID) (conn : string) : Event :=
  {| Event.Type_ := PeerConnected; RequestID := ""; Event.Data := PeerEvent id conn |}.
Definition Disconnected_event (id : peer_ID) (conn : string) : Event :=
  {| Event.Type_ := PeerDisconnected; RequestID := ""; Event.Data := PeerEvent id conn |}.
End discovery.

(** ** The manager *)
Record Manager := {
  m_config : Config;
  m_bootstrap : bool;                     (* [m.bootstrap] is not nil *)
  bootstrapCancelled : bool;              (* its context has been cancelled *)
  m_dhtDiscovery : option DHTDiscovery;
  mdnsStarted : bool;
}.

Definition NewManager (cfg : Config) : Manager :=
  {| m_config := if decide (EnabledMethods cfg = [])
                 then {| EnabledMethods := [MethodMDNS]; MDNS := MDNS cfg; DHT := DHT cfg;
                         BootstrapCfg := BootstrapCfg cfg |}
                 else cfg;
     m_bootstrap := false; bootstrapCancelled := false; m_dhtDiscovery := None; mdnsStarted := false |}.

Inductive service := SvcMDNS | SvcDHT | SvcBootstrap.

(** How the third-party services start. *)
Record svc_errors := { mdns_err : option goerr; dht_new_err : option goerr; dht_boot_err : option goerr }.

(** The manager afterwards, the error, and the services that now run. *)
Definition startMDNS (m : Manager) (errs : svc_errors) : Manager * option goerr * list service :=
  if mdnsStarted m then (m, None, []) else
  match mdns_err errs with
  | Some e => (m, Some e, [])
  | None => ({| m_config := m_config m; m_bootstrap := m_bootstrap m; bootstrapCancelled := bootstrapCancelled m;
                m_dhtDiscovery := m_dhtDiscovery m; mdnsStarted := true |}, None, [SvcMDNS])
  end.

Definition startDHT (m : Manager) (errs : svc_errors) : Manager * option goerr * list service :=
  match m_dhtDiscovery m with
  | Some _ => (m, None, [])
  | None =>
      let '(d, err, started) := DHT_Start NewDHTDiscovery (dht_new_err errs) (dht_boot_err errs) in
      ({| m_config := m_config m; m_bootstrap := m_bootstrap m; bootstrapCancelled := bootstrapCancelled m; m_dhtDiscovery := Some d;
          mdnsStarted := mdnsStarted m |}, err, if started then [SvcDHT] else [])
  end.

Definition startBootstrap (m : Manager) : Manager * option goerr * list service :=
  if m_bootstrap m then (m, None, []) else
  ({| m_config := m_config m; m_bootstrap := true; bootstrapCancelled := false;
      m_dhtDiscovery := m_dhtDiscovery m;
      mdnsStarted := mdnsStarted m |}, None, [SvcBootstrap]).

Definition start_method (m : Manager) (errs : svc_errors) (method : DiscoveryMethod) :
    Manager * option goerr * list service :=
  if decide (method = MethodMDNS) then startMDNS m errs
  else if decide (method = MethodDHT) then startDHT m errs
  else if decide (method = MethodBootstrap) then startBootstrap m
  else (m, None, []).

Fixpoint start_methods (m : Manager) (errs : svc_errors) (methods : list DiscoveryMethod) :
    Manager * option goerr * list service :=
  match methods with
  | [] => (m, None, [])
  | method :: methods =>
      let '(m, err, svcs) := start_method m errs method in
      match err with
      | Some e => (m, Some e, svcs)
      | None => let '(m, err, svcs') := start_methods m errs methods in (m, err, svcs ++ svcs')
      end
  end.

Definition Manager_Start (m : Manager) (errs : svc_errors) : Manager * option goerr * list service :=
  start_methods m errs (EnabledMethods (m_config m)).

(** [dht_close] is the error of closing the DHT. *)
Definition Manager_Stop (m : Manager) (dht_close : option goerr) : Manager * option goerr :=
  let '(d, err) := match m_dhtDiscovery m with
                   | Some d => let '(d, err) := DHT_Stop d dht_close in (Some d, err)
                   | None => (None, None)
                   end in
  ({| m_config := m_config m; m_bootstrap := m_bootstrap m;
      bootstrapCancelled := bootstrapCancelled m || m_bootstrap m; m_dhtDiscovery := d;
      mdnsStarted := mdnsStarted m |}, err).

Definition IsMethodEnabled (m : Manager) (method : DiscoveryMethod) : bool :=
  bool_decide (method ∈ EnabledMethods (m_config m)).

Definition Manager_AddBootstrapPeer `{Node} (m : Manager) (addr : string) : result (list string) :=
  if m_bootstrap m then AddBootstrapPeer addr else Ok [].

(** ** Bootstrap: attempts and time *)
Section bootstrap.
Context `{Node, DialerLaws}.

Lemma retry_loop_spec cfg ctx info n now :
  0 <= ConnectionTimeout cfg -> 0 <= RetryInterval cfg ->
  let '(t, evs, dials) := retry_loop cfg ctx info n now in
  (length dials <= n)%nat
  /\ now <= t <= now + Z.of_nat n * ConnectionTimeout cfg + Z.of_nat (pred n) * RetryInterval cfg
  /\ evs = match last dials with
           | Some t0 => match host_Connect t0 (WithTimeout ctx t0 (ConnectionTimeout cfg)) info with
                        | (_, None) => [discovered info]
                        | (_, Some _) => []
                        end
           | None => []
           end.
Proof.
  intros Hc Hr. revert now. induction n as [|n IH]; intros now; cbn [retry_loop pred].
  { split; [cbn; lia|]. split; [lia|done]. }
  destruct (ctx_done ctx now) eqn:Hdone; [split; [cbn; lia|]; split; [nia|done]|].
  pose proof (Connect_deadline now (WithTimeout ctx now (ConnectionTimeout cfg)) info) as [Ht Hd].
  destruct (host_Connect now (WithTimeout ctx now (ConnectionTimeout cfg)) info) as [t err] eqn:Hdial.
  cbn in Ht, Hd. assert (t <= now + ConnectionTimeout cfg) as Hb by (destruct ctx; lia).
  destruct err as [e|].
  2: { split; [cbn; lia|]. split; [nia|]. cbn. by rewrite Hdial. }
  destruct n as [|n].
  { split; [cbn; lia|]. split; [lia|]. cbn. by rewrite Hdial. }
  destruct (done_before ctx (t + RetryInterval cfg)) as [d|] eqn:Hdb.
  - split; [cbn; lia|]. unfold done_before in Hdb. destruct ctx as [d'|]; [|done].
    destruct (Z.ltb_spec d' (t + RetryInterval cfg)); [|done]. injection Hdb as ->.
    split; [nia|]. cbn. by rewrite Hdial.
  - specialize (IH (t + RetryInterval cfg)).
    destruct (retry_loop cfg ctx info (S n) (t + RetryInterval cfg)) as [[t' evs] dials].
    destruct IH as (Hlen & Ht' & Hev). split; [cbn in *; lia|]. split; [cbn [pred] in *; nia|].
    rewrite Hev. destruct dials as [|d0 dials]; [cbn; by rewrite Hdial|done].
Qed.

(** [C34] Connecting to a bootstrap peer: at most [MaxRetries + 1] attempts, done
    within their timeouts and the pauses between them; the peer is announced
    once if the last attempt succeeded and not at all otherwise; a node never
    dials itself. *)
Theorem bootstrap_retries cfg ctx now addr t evs dials
    (Hcfg : 0 <= ConnectionTimeout cfg /\ 0 <= RetryInterval cfg /\ 0 <= MaxRetries cfg)
    (Hrun : connectWithRetry cfg ctx now addr = (t, evs, dials)) :
  zlen dials <= MaxRetries cfg + 1
  /\ now <= t <= now + (MaxRetries cfg + 1) * ConnectionTimeout cfg + MaxRetries cfg * RetryInterval cfg
  /\ (dials = [] /\ evs = [] \/
      exists info t0, ai_ID info <> node_ID /\ parse_p2p_addr addr = Ok info /\ last dials = Some t0
        /\ evs = match (host_Connect t0 (WithTimeout ctx t0 (ConnectionTimeout cfg)) info).2 with
                 | None => [discovered info]
                 | Some _ => []
                 end).
Proof.
  destruct Hcfg as (Hc & Hr & Hm). unfold connectWithRetry in Hrun.
  assert (now <= now <= now + (MaxRetries cfg + 1) * ConnectionTimeout cfg
    + MaxRetries cfg * RetryInterval cfg) as Hnow by nia.
  unfold parse_p2p_addr. destruct (NewMultiaddr addr) as [maddr|];
    [destruct (AddrInfoFromP2pAddr maddr) as [info|] eqn:Hinfo|]; [case_decide as Hself| |];
    try (injection Hrun as <- <- <-; split; [rewrite zlen_nil; lia|]; split; [done|by left]).
  pose proof (retry_loop_spec cfg ctx info (Z.to_nat (MaxRetries cfg + 1)) now Hc Hr) as Hs.
  rewrite Hrun in Hs. destruct Hs as (Hlen & Ht & Hev).
  split; [unfold zlen; lia|]. split.
  { rewrite Z2Nat.id in Ht by lia. replace (Z.of_nat (pred (Z.to_nat (MaxRetries cfg + 1))))
      with (MaxRetries cfg) in Ht by lia. done. }
  destruct (last dials) as [t0|] eqn:Hl.
  - right. exists info, t0. split_and!; [done..|]. rewrite Hev. by destruct (host_Connect t0 _ info) as [? []].
  - left. apply last_None in Hl. by subst.
Qed.
End bootstrap.

(** ** The DHT search announces a peer at most every two intervals *)
Section dht.
Context `{Node, DialerLaws}.

(** Announcements of the same peer are at least [gap] apart. *)
Definition spaced (gap : duration) (anns : list announced) : Prop :=
  forall i j a b, (i < j)%nat -> anns !! i = Some a -> anns !! j = Some b ->
    ai_ID a.2 = ai_ID b.2 -> a.1 + gap <= b.1.

(** The table holds a time not before any announcement so far. *)
Definition remembers (seen : gmap peer_ID time) (anns : list announced) : Prop :=
  forall a, a ∈ anns -> exists t, seen !! ai_ID a.2 = Some t /\ a.1 <= t.

(** No announcement is of the node itself or without an address. *)
Definition others (anns : list announced) : Prop :=
  Forall (fun a => ai_ID a.2 <> node_ID /\ ai_Addrs a.2 <> []) anns.

Definition dht_inv (gap : duration) (seen : gmap peer_ID time) (anns : list announced) : Prop :=
  spaced gap anns /\ remembers seen anns /\ others anns.

Lemma spaced_snoc gap anns a :
  spaced gap anns -> (forall b, b ∈ anns -> ai_ID b.2 = ai_ID a.2 -> b.1 + gap <= a.1) ->
  spaced gap (anns ++ [a]).
Proof.
  intros Hs Ha i j x y Hij Hx Hy Heq. apply lookup_snoc_Some in Hy as [[Hj Hy]|[-> <-]].
  - rewrite lookup_app_l in Hx by lia. by apply (Hs i j).
  - rewrite lookup_app_l in Hx by lia. apply Ha; [by eapply list_elem_of_lookup_2|done].
Qed.

Lemma find_one_inv cfg ctx seen now arrival p seen' now' new anns :
  0 <= DiscoveryInterval cfg <= 2 ^ 61 ->
  find_one cfg ctx seen now arrival p = (seen', now', new) ->
  dht_inv (2 * DiscoveryInterval cfg) seen anns ->
  dht_inv (2 * DiscoveryInterval cfg) seen' (anns ++ new).
Proof.
  intros Hi Hf (Hs & Hr & Ho). unfold find_one in Hf. set (n := Z.max now arrival) in *.
  case_decide as Hskip; [injection Hf as <- <- <-; by rewrite app_nil_r|].
  destruct (match seen !! ai_ID p with Some _ => _ | None => false end) eqn:Hrec;
    [injection Hf as <- <- <-; by rewrite app_nil_r|].
  pose proof (Connect_deadline n (WithTimeout ctx n (10 * Second)) p) as [Ht _].
  destruct (host_Connect n (WithTimeout ctx n (10 * Second)) p) as [t [e|]];
    [injection Hf as <- <- <-; by rewrite app_nil_r|].
  cbn in Ht. cbn in Hf. injection Hf as <- <- <-.
  assert (forall b, b ∈ anns -> ai_ID b.2 = ai_ID p -> b.1 + 2 * DiscoveryInterval cfg <= t) as Hgap.
  { intros b Hb Heq. destruct (Hr b Hb) as (last & Hl & Hbl). rewrite Heq in Hl. rewrite Hl in Hrec.
    rewrite wrap_s_small in Hrec by lia. breflect. unfold time_sub, min_int64 in Hrec. lia. }
  split; [|split].
  - by apply spaced_snoc.
  - intros b [Hb|Hb%list_elem_of_singleton]%elem_of_app.
    + destruct (decide (ai_ID b.2 = ai_ID p)) as [Heq|Hne].
      * exists t. rewrite Heq, lookup_insert_eq. split; [done|]. specialize (Hgap b Hb Heq). lia.
      * destruct (Hr b Hb) as (last & Hl & Hbl). exists last. by rewrite lookup_insert_ne.
    + subst b. exists t. cbn. by rewrite lookup_insert_eq.
  - apply Forall_app. split; [done|]. constructor; [|done]. cbn. tauto.
Qed.

Lemma findPeers_inv cfg ctx found seen now seen' now' new anns :
  0 <= DiscoveryInterval cfg <= 2 ^ 61 ->
  findPeers cfg ctx seen now found = (seen', now', new) ->
  dht_inv (2 * DiscoveryInterval cfg) seen anns ->
  dht_inv (2 * DiscoveryInterval cfg) seen' (anns ++ new).
Proof.
  intros Hi. revert seen now new anns. induction found as [|[arrival p] found IH];
    intros seen now new anns; cbn [findPeers].
  - intros [= <- <- <-]. by rewrite app_nil_r.
  - destruct (find_one cfg ctx seen now arrival p) as [[seen1 now1] new1] eqn:Hf1.
    destruct (findPeers cfg ctx seen1 now1 found) as [[seen2 now2] new2] eqn:Hf2.
    intros [= <- <- <-] Hinv. rewrite app_assoc. eapply IH; [exact Hf2|]. by eapply find_one_inv.
Qed.

(** The DHT search neither floods nor announces the node itself: over any
    number of searches, whatever they find and however long dialling takes,
    announcements of the same peer are at least two discovery intervals apart,
    and only peers with an address other than the node are announced. *)
Theorem dht_announcements_spaced cfg ctx now first searches
    (Hi : 0 <= DiscoveryInterval cfg <= 2 ^ 61) :
  let anns := (discoveryLoop cfg ctx ∅ now first searches).2 in
  spaced (2 * DiscoveryInterval cfg) anns /\ others anns.
Proof.
  assert (forall seen now anns, dht_inv (2 * DiscoveryInterval cfg) seen anns ->
    dht_inv (2 * DiscoveryInterval cfg) (search_loop cfg ctx seen now searches).1
      (anns ++ (search_loop cfg ctx seen now searches).2)) as Hall.
  { clear now. induction searches as [|[tick found] searches IH]; intros seen now anns Hinv;
      cbn [search_loop]; [cbn; by rewrite app_nil_r|].
    destruct (ctx_done ctx (Z.max now tick)); [cbn; by rewrite app_nil_r|].
    destruct (findPeers cfg ctx seen (Z.max now tick) found) as [[seen1 now1] new1] eqn:Hf1.
    pose proof (findPeers_inv _ _ _ _ _ _ _ _ _ Hi Hf1 Hinv) as Hinv1.
    specialize (IH seen1 now1 _ Hinv1). destruct (search_loop cfg ctx seen1 now1 searches) as [s2 new2].
    cbn in IH |- *. by rewrite app_assoc. }
  unfold discoveryLoop. destruct (findPeers cfg ctx ∅ now first) as [[seen1 now1] new1] eqn:Hf1.
  assert (dht_inv (2 * DiscoveryInterval cfg) ∅ []) as H0'.
  { split; [intros i j a b _ Ha; by rewrite lookup_nil in Ha|]. split; [|constructor].
    intros a Ha. by apply elem_of_nil in Ha. }
  pose proof (findPeers_inv _ _ _ _ _ _ _ _ _ Hi Hf1 H0') as Hinv1. cbn [app] in Hinv1.
  specialize (Hall seen1 now1 new1 Hinv1). destruct (search_loop cfg ctx seen1 now1 searches).
  destruct Hall as (Hs & _ & Ho). by split.
Qed.
End dht.

(** ** The manager starts each service once *)
Definition m_inv (m : Manager) (log : list service) : Prop :=
  NoDup log /\ (SvcMDNS ∈ log -> mdnsStarted m = true) /\ (SvcBootstrap ∈ log -> m_bootstrap m = true)
  /\ (SvcDHT ∈ log -> is_Some (m_dhtDiscovery m)).

Lemma m_inv_add m m' log s :
  m_inv m log -> s ∉ log ->
  (mdnsStarted m = true -> mdnsStarted m' = true) -> (m_bootstrap m = true -> m_bootstrap m' = true) ->
  (is_Some (m_dhtDiscovery m) -> is_Some (m_dhtDiscovery m')) ->
  match s with SvcMDNS => mdnsStarted m' = true | SvcBootstrap => m_bootstrap m' = true
             | SvcDHT => is_Some (m_dhtDiscovery m') end ->
  m_inv m' (log ++ [s]).
Proof.
  intros (Hnd & H1 & H2 & H3) Hs I1 I2 I3 Hnew. split; [|split; [|split]].
  - apply NoDup_app. split; [done|]. split; [|apply NoDup_singleton].
    intros x Hx Hx'%list_elem_of_singleton. by subst.
  - intros [Hx|Hx%list_elem_of_singleton]%elem_of_app; [auto|by subst].
  - intros [Hx|Hx%list_elem_of_singleton]%elem_of_app; [auto|by subst].
  - intros [Hx|Hx%list_elem_of_singleton]%elem_of_app; [auto|by subst].
Qed.

Lemma start_method_inv m errs method log :
  m_inv m log ->
  m_inv (start_method m errs method).1.1 (log ++ (start_method m errs method).2).
Proof.
  intros Hinv. pose proof Hinv as (Hnd & H1 & H2 & H3). unfold start_method. repeat case_decide.
  - unfold startMDNS. destruct (mdnsStarted m) eqn:E; [by rewrite app_nil_r|].
    destruct (mdns_err errs); [by rewrite app_nil_r|].
    eapply m_inv_add; [done|intros Hx; by specialize (H1 Hx)|by cbn..].
  - unfold startDHT. destruct (m_dhtDiscovery m) eqn:E; [by rewrite app_nil_r|]. unfold DHT_Start.
    cbn [d_running NewDHTDiscovery].
    assert (forall d, m_inv {| m_config := m_config m; m_bootstrap := m_bootstrap m; bootstrapCancelled := bootstrapCancelled m;
      m_dhtDiscovery := Some d; mdnsStarted := mdnsStarted m |} (log ++ [])) as Hkeep.
    { intros d. rewrite app_nil_r. split; [done|]. split; [done|]. split; [done|]. by eexists. }
    destruct (dht_new_err errs); [apply Hkeep|]. destruct (dht_boot_err errs); [apply Hkeep|].
    eapply m_inv_add; [done| |cbn; eauto..]. intros Hx. destruct (H3 Hx). congruence.
  - unfold startBootstrap. destruct (m_bootstrap m) eqn:E; [by rewrite app_nil_r|].
    eapply m_inv_add; [done|intros Hx; by specialize (H2 Hx)|by cbn..].
  - by rewrite app_nil_r.
Qed.

Lemma start_methods_inv methods m errs log :
  m_inv m log ->
  m_inv (start_methods m errs methods).1.1 (log ++ (start_methods m errs methods).2).
Proof.
  revert m log. induction methods as [|method methods IH]; intros m log Hinv; cbn [start_methods].
  { cbn. by rewrite app_nil_r. }
  pose proof (start_method_inv m errs method log Hinv) as Hs.
  destruct (start_method m errs method) as [[m1 [e|]] svcs]; [done|]. cbn [fst snd] in Hs.
  specialize (IH m1 _ Hs). destruct (start_methods m1 errs methods) as [[m2 err] svcs2].
  cbn in IH |- *. by rewrite app_assoc.
Qed.

(** [Start] called again and again. *)
Fixpoint start_many (m : Manager) (runs : list svc_errors) : Manager * list service :=
  match runs with
  | [] => (m, [])
  | errs :: runs =>
      let '(m, _, svcs) := Manager_Start m errs in
      let '(m, svcs') := start_many m runs in (m, svcs ++ svcs')
  end.

Lemma start_many_nodup m log runs : m_inv m log -> NoDup (log ++ (start_many m runs).2).
Proof.
  revert m log. induction runs as [|errs runs IH]; intros m log Hinv; cbn [start_many].
  { cbn. rewrite app_nil_r. apply Hinv. }
  pose proof (start_methods_inv (EnabledMethods (m_config m)) m errs log Hinv) as Hs.
  unfold Manager_Start. destruct (start_methods _ _ _) as [[m1 err] svcs]. cbn in Hs.
  specialize (IH m1 _ Hs). destruct (start_many m1 runs) as [m2 svcs2]. cbn in *. by rewrite app_assoc.
Qed.

(** Every discovery service is started at most once, however often it is
    listed and [Start] is called.  But a DHT whose start failed is kept: from
    then on [Start] takes it for running, and never starts the search. *)
Theorem manager_starts_once cfg runs :
  NoDup (start_many (NewManager cfg) runs).2
  /\ forall m errs m' e svcs, startDHT m errs = (m', Some e, svcs) ->
     SvcDHT ∉ (start_many m' runs).2.
Proof.
  split.
  - apply (start_many_nodup (NewManager cfg) []). split; [constructor|].
    split_and!; by intros Hx%elem_of_nil.
  - intros m errs m' e svcs Hstart Hin.
    assert (NoDup ([SvcDHT] ++ (start_many m' runs).2)) as Hnd.
    { apply start_many_nodup. split; [apply NoDup_singleton|]. split; [|split].
      - by intros Hx%list_elem_of_singleton.
      - by intros Hx%list_elem_of_singleton.
      - intros _. unfold startDHT in Hstart. destruct (m_dhtDiscovery m) eqn:E; [done|].
        destruct (DHT_Start _ _ _) as [[d err] st]. injection Hstart as <- _ _. by eexists. }
    apply NoDup_app in Hnd as (_ & Hnd & _). apply (Hnd SvcDHT); [|done]. by apply list_elem_of_singleton.
Qed.

(** ** Witnesses *)
Import ToyStore.

Module ToyDialer.
(** A dialler that fails after five seconds, but reaches "up" at once. *)
#[export] Instance toy_Dialer : Dialer :=
  {| host_Connect now ctx info :=
       if decide (ai_ID info = "up") then (now, None)
       else (match ctx with Some d => Z.max now (Z.min d (now + 5 * Second)) | None => now + 5 * Second end,
             Some ErrDeadline) |}.

#[export] Instance toy_DialerLaws : DialerLaws.
Proof.
  split. intros now ctx info. cbn. unfold Second, Millisecond. case_decide; destruct ctx; cbn; lia.
Defined.

End ToyDialer.
Import ToyDialer.

Lemma bootstrap_retries_witness :
  exists t evs dials,
    connectWithRetry DefaultBootstrapConfig None 0 "down" = (t, evs, dials)
    /\ zlen dials <= 4 /\ t <= 150 * Second /\ dials <> [].
Proof.
  eexists _, _, _. split; [vm_compute; reflexivity|].
  destruct (bootstrap_retries DefaultBootstrapConfig None 0 "down" _ _ _ ltac:(vm_compute; split_and!; discriminate)
    ltac:(vm_compute; reflexivity)) as (Hd & [_ Ht] & _).
  split; [exact Hd|]. split; [exact Ht|discriminate].
Defined.

Lemma dht_announcements_spaced_witness :
  let up := {| ai_ID := "up"; ai_Addrs := ["a"] |} in
  let anns := (discoveryLoop (DefaultDHTConfig []) None ∅ 0 [(0, up)]
                 [(10 * Second, [(10 * Second, up)]); (20 * Second, [(20 * Second, up)])]).2 in
  map fst anns = [0; 20 * Second] /\ spaced (20 * Second) anns.
Proof.
  intros up anns. split; [vm_compute; reflexivity|].
  refine (proj1 (dht_announcements_spaced (DefaultDHTConfig []) None 0 [(0, up)]
    [(10 * Second, [(10 * Second, up)]); (20 * Second, [(20 * Second, up)])] _)).
  vm_compute. split; discriminate.
Defined.

Lemma manager_starts_once_witness :
  let cfg := {| EnabledMethods := [MethodDHT; MethodMDNS; MethodDHT]; MDNS := DefaultMDNSConfig;
                DHT := DefaultDHTConfig []; BootstrapCfg := DefaultBootstrapConfig |} in
  let ok := {| mdns_err := None; dht_new_err := None; dht_boot_err := None |} in
  let bad := {| mdns_err := None; dht_new_err := None; dht_boot_err := Some EOF |} in
  (start_many (NewManager cfg) [ok; ok]).2 = [SvcDHT; SvcMDNS]
  /\ SvcDHT ∉ (start_many (startDHT (NewManager cfg) bad).1.1 [ok; ok]).2.
Proof.
  intros cfg ok bad. split; [vm_compute; reflexivity|].
  refine (proj2 (manager_starts_once cfg [ok; ok]) (NewManager cfg) bad _ EOF [] _). reflexivity.
Defined.
