(* ===== verification/Lifecycle.v ===== *)
(** The life of a file server (src/internal/fileserver/fileserver.go, [Start],
    [OnPeerConnect], [OnPeerDisconnect]; src/internal/network/notifier.go): the
    goroutines that keep the registry of peers in step with the connections.

    The connections of the network, the notifications in flight, the two channels
    of the bus, the goroutines of [Start] and those of [OnPeerConnect] are one
    transition system.  [OnPeerConnect]'s goroutine takes two steps: it looks at
    the connection and at the protocols without a lock, and then adds the peer
    under the lock. *)
From S2P Require Import Prelude Event Middleware SeenMessages Json Protocol BlobStore FileServer Connect Discovery.

(** ** [OnPeerConnect] in two steps *)
Section steps.
Context {S : Type} `{Node}.
Implicit Type fs : FileServer S.

(** The tests after the pause, without the lock. *)
Definition connect_check fs (now : time) (peerID : peer_ID) : bool :=
  fs_started fs && linked now peerID
  && match node_Protocols now peerID with
     | Err _ => false
     | Ok protocols => bool_decide (StorageProtocolID ∈ protocols)
     end.

(** The rest, under the lock. *)
Definition connect_add fs (peerID : peer_ID) (conn : string) : FileServer S :=
  match fs_peers fs !! peerID with
  | Some _ => fs
  | None =>
      let fs := with_peers fs (<[peerID := {| p_ID := peerID; p_Conn := conn |}]> (fs_peers fs))
                  ({[ peerID ]} ∪ fs_tagged fs) in
      publish fs StoragePeerRegistered (StoragePeerEvent peerID)
  end.

(** Without anything in between the two are [OnPeerConnect]. *)
Lemma OnPeerConnect_two_steps fs now peerID conn :
  OnPeerConnect fs now peerID conn
  = if connect_check fs now peerID then connect_add fs peerID conn else fs.
Proof.
  unfold OnPeerConnect, connect_check, connect_add.
  destruct (fs_started fs); [|done]. destruct (linked now peerID); [|done]. cbn [andb].
  destruct (node_Protocols now peerID) as [ps|]; [|done]. by case_decide; [rewrite bool_decide_true|rewrite bool_decide_false].
Qed.

Lemma connect_add_peers fs peerID conn id :
  is_Some (fs_peers (connect_add fs peerID conn) !! id) <-> is_Some (fs_peers fs !! id) \/ id = peerID.
Proof.
  unfold connect_add. destruct (fs_peers fs !! peerID) as [p|] eqn:E.
  - split; [by left|]. intros [| ->]; [done|by rewrite E].
  - cbn. rewrite lookup_insert_is_Some'. split; intros [|]; auto.
Qed.

Lemma OnPeerDisconnect_peers fs now peerID fs' :
  OnPeerDisconnect fs now peerID = Some fs' ->
  fs_started fs' = fs_started fs
  /\ forall id, is_Some (fs_peers fs' !! id) <->
       is_Some (fs_peers fs !! id) /\ (id <> peerID \/ fs_started fs && linked now peerID = true).
Proof.
  unfold OnPeerDisconnect. destruct (fs_started fs && linked now peerID) eqn:E.
  - intros [= <-]. split; [done|]. intros id. tauto.
  - destruct (fs_peers fs !! peerID) as [p|] eqn:Ep.
    + destruct (fs_started fs) eqn:Es; [|done]. intros [= <-]. split; [done|]. intros id. cbn.
      rewrite lookup_delete_is_Some. naive_solver.
    + intros [= <-]. split; [done|]. intros id. split; [|tauto]. intros Hs. split; [done|]. left. intros ->.
      by rewrite Ep in Hs; destruct Hs.
Qed.
End steps.

(** ** The system *)
Section system.
Context {S : Type} `{base : Node} (supports : peer_ID -> bool).

(** The host, when [links] counts the connections of every peer. *)
Definition net_node (links : gmap peer_ID nat) : Node :=
  {| node_ID := @node_ID base; node_Addrs := @node_Addrs base;
     node_Connectedness _ id := match links !! id with
                                | Some (Datatypes.S _) => Connected | _ => OtherConnectedness end;
     node_ConnsToPeer := @node_ConnsToPeer base;
     node_Protocols _ id := Ok (if supports id then [StorageProtocolID] else []);
     NewMultiaddr := @NewMultiaddr base; AddrInfoFromP2pAddr := @AddrInfoFromP2pAddr base;
     peer_Decode := @peer_Decode base |}.

Record system := {
  sys_fs : FileServer S;
  sys_links : gmap peer_ID nat;                  (* open connections *)
  sys_bus : Bus;
  sys_flight : list Event;                       (* notifications before their [Publish] *)
  sys_pausing : list (peer_ID * string);         (* goroutines of [OnPeerConnect] in their pause *)
  sys_checked : list (peer_ID * string);         (* those that have passed the tests *)
  sys_raced : gset peer_ID;                      (* whose disconnection was handled in between *)
}.

(** [Start] subscribes to both types of events before anything is published. *)
Definition started_bus : Bus := (Subscribe (Subscribe NewBus PeerConnected).1 PeerDisconnected).1.
Definition peerConnectCh : chan := 0%nat.
Definition peerDisconnectCh : chan := 1%nat.

Definition is_linked (links : gmap peer_ID nat) (id : peer_ID) : Prop :=
  exists n, links !! id = Some (Datatypes.S n).

Definition set_fs s fs := {| sys_fs := fs; sys_links := sys_links s; sys_bus := sys_bus s;
  sys_flight := sys_flight s; sys_pausing := sys_pausing s; sys_checked := sys_checked s;
  sys_raced := sys_raced s |}.
Definition set_net s links flight := {| sys_fs := sys_fs s; sys_links := links; sys_bus := sys_bus s;
  sys_flight := flight; sys_pausing := sys_pausing s; sys_checked := sys_checked s;
  sys_raced := sys_raced s |}.
Definition set_bus s bus flight := {| sys_fs := sys_fs s; sys_links := sys_links s; sys_bus := bus;
  sys_flight := flight; sys_pausing := sys_pausing s; sys_checked := sys_checked s;
  sys_raced := sys_raced s |}.
Definition set_goroutines s pausing checked := {| sys_fs := sys_fs s; sys_links := sys_links s;
  sys_bus := sys_bus s; sys_flight := sys_flight s; sys_pausing := pausing; sys_checked := checked;
  sys_raced := sys_raced s |}.
Definition set_raced s raced := {| sys_fs := sys_fs s; sys_links := sys_links s;
  sys_bus := sys_bus s; sys_flight := sys_flight s; sys_pausing := sys_pausing s;
  sys_checked := sys_checked s; sys_raced := raced |}.

(** The goroutines are started once [fs.node] is set. *)
Definition initial_system fs : system :=
  {| sys_fs := fs; sys_links := ∅; sys_bus := started_bus; sys_flight := []; sys_pausing := [];
     sys_checked := []; sys_raced := ∅ |}.

Inductive sys_step : system -> system -> Prop :=
| sys_open s id conn :                                     (* a connection is made *)
    sys_step s (set_net s (<[id := Datatypes.S (default 0%nat (sys_links s !! id))]> (sys_links s))
                  (sys_flight s ++ [Connected_event id conn]))
| sys_close s id conn n : sys_links s !! id = Some (Datatypes.S n) ->     (* one is closed *)
    sys_step s (set_net s (<[id := n]> (sys_links s)) (sys_flight s ++ [Disconnected_event id conn]))
| sys_notify s e l1 l2 bus : sys_flight s = l1 ++ e :: l2 -> Publish (sys_bus s) e = Sent bus ->
    sys_step s (set_bus s bus (l1 ++ l2))
| sys_connected s e bus id conn :                          (* [for evt := range peerConnectCh] *)
    receive (sys_bus s) peerConnectCh = Some (e, bus) -> Event.Data e = PeerEvent id conn ->
    sys_step s (set_goroutines (set_bus s bus (sys_flight s)) ((id, conn) :: sys_pausing s) (sys_checked s))
| sys_disconnected s e bus id conn now fs :                (* [for evt := range peerDisconnectCh] *)
    receive (sys_bus s) peerDisconnectCh = Some (e, bus) -> Event.Data e = PeerEvent id conn ->
    OnPeerDisconnect (H := net_node (sys_links s)) (sys_fs s) now id = Some fs ->
    sys_step s (set_raced (set_fs (set_bus s bus (sys_flight s)) fs)
                  (if decide (id ∈ (sys_checked s).*1) then {[ id ]} ∪ sys_raced s else sys_raced s))
| sys_check s id conn now l1 l2 : sys_pausing s = l1 ++ (id, conn) :: l2 ->
    connect_check (H := net_node (sys_links s)) (sys_fs s) now id = true ->
    sys_step s (set_goroutines s (l1 ++ l2) ((id, conn) :: sys_checked s))
| sys_give_up s id conn now l1 l2 : sys_pausing s = l1 ++ (id, conn) :: l2 ->
    connect_check (H := net_node (sys_links s)) (sys_fs s) now id = false ->
    sys_step s (set_goroutines s (l1 ++ l2) (sys_checked s))
| sys_add s id conn l1 l2 : sys_checked s = l1 ++ (id, conn) :: l2 ->
    sys_step s (set_fs (set_goroutines s (sys_pausing s) (l1 ++ l2)) (connect_add (sys_fs s) id conn)).

Definition reachable fs (s : system) : Prop := rtc sys_step (initial_system fs) s.

(** Nothing is under way any more. *)
Definition quiet (s : system) : Prop :=
  sys_flight s = [] /\ sys_pausing s = [] /\ sys_checked s = []
  /\ receive (sys_bus s) peerConnectCh = None /\ receive (sys_bus s) peerDisconnectCh = None.

(** ** The invariant *)
Definition pending (s : system) (id : peer_ID) : Prop :=
  exists conn, Disconnected_event id conn ∈ sys_flight s ++ chan_buf (sys_bus s) peerDisconnectCh.

(** A registered peer, or one that has passed the tests, is connected, or its
    disconnection is still to be handled, or was handled in between. *)
Definition accounted (s : system) (id : peer_ID) : Prop :=
  is_linked (sys_links s) id \/ pending s id \/ id ∈ sys_raced s.

Definition is_connection_event (e : Event) : Prop :=
  exists id conn, e = Connected_event id conn \/ e = Disconnected_event id conn.

Record sys_inv (s : system) : Prop := {
  si_bus : bus_ok (sys_bus s);
  si_subs : subs (sys_bus s) PeerConnected = [peerConnectCh]
            /\ subs (sys_bus s) PeerDisconnected = [peerDisconnectCh];
  si_flight e : e ∈ sys_flight s -> is_connection_event e;
  si_conn e : e ∈ chan_buf (sys_bus s) peerConnectCh -> exists id conn, e = Connected_event id conn;
  si_disc e : e ∈ chan_buf (sys_bus s) peerDisconnectCh -> exists id conn, e = Disconnected_event id conn;
  si_started : fs_started (sys_fs s) = true;
  si_peers id : is_Some (fs_peers (sys_fs s) !! id) -> accounted s id;
  si_checked id : id ∈ (sys_checked s).*1 -> accounted s id;
}.

Lemma net_linked links now id : @linked (net_node links) now id = true <-> is_linked links id.
Proof.
  unfold linked, is_linked. cbn. rewrite bool_decide_eq_true.
  destruct (links !! id) as [[|n]|]; split; try naive_solver.
Qed.

Lemma initial_inv fs :
  fs_started fs = true -> fs_peers fs = ∅ -> sys_inv (initial_system fs).
Proof.
  intros Hs Hp. split; cbn; try done.
  - by apply Subscribe_ok, Subscribe_ok, NewBus_ok.
  - by intros e ?%elem_of_nil.
  - by intros e ?%elem_of_nil.
  - by intros e ?%elem_of_nil.
  - intros id. rewrite Hp, lookup_empty. by intros [].
  - by intros id ?%elem_of_nil.
Qed.

(** More connections, more notifications and more races keep a peer accounted for. *)
Lemma accounted_mono s s' id :
  accounted s id -> (is_linked (sys_links s) id -> accounted s' id) ->
  (pending s id -> accounted s' id) -> sys_raced s ⊆ sys_raced s' -> accounted s' id.
Proof. intros [Hl|[Hp|Hr]] H1 H2 H3; [by apply H1|by apply H2|]. right. right. by apply H3. Qed.

Lemma notify_pending s e l1 l2 bus id :
  sys_inv s -> sys_flight s = l1 ++ e :: l2 -> Publish (sys_bus s) e = Sent bus ->
  pending s id -> pending (set_bus s bus (l1 ++ l2)) id.
Proof.
  intros Hinv Hf Hp [conn Hin]. exists conn. cbn [sys_flight set_bus sys_bus].
  destruct (Publish_bufs _ _ _ (si_bus s Hinv) Hp) as (_ & _ & ->).
  rewrite Hf in Hin. rewrite !elem_of_app, elem_of_cons in *.
  destruct Hin as [[?|[<-|?]]|?]; [by left; left| |by left; right|by right; left].
  right. right. cbn. rewrite (proj2 (si_subs s Hinv)), decide_True by left. left.
Qed.

(** Each step keeps the invariant. *)
Lemma open_inv s id conn :
  sys_inv s -> sys_inv (set_net s (<[id := Datatypes.S (default 0%nat (sys_links s !! id))]> (sys_links s))
            (sys_flight s ++ [Connected_event id conn])).
Proof.
  intros Hinv. pose proof Hinv as [Hb [Hsc Hsd] Hf Hc Hd Hs Hp Hk].
  assert (forall i, accounted s i -> accounted (set_net s (<[id := Datatypes.S (default 0%nat (sys_links s !! id))]>
    (sys_links s)) (sys_flight s ++ [Connected_event id conn])) i) as Hacc.
  { intros i Hi. eapply accounted_mono; [exact Hi|..|done].
    - intros [n Hl]. left. unfold is_linked. cbn. destruct (decide (i = id)) as [->|].
      + rewrite lookup_insert_eq. eauto.
      + rewrite lookup_insert_ne; eauto.
    - intros [c Hin]. right. left. exists c. cbn. rewrite !elem_of_app in *. tauto. }
  split; cbn; try done; eauto.
  intros e [?| ->%list_elem_of_singleton]%elem_of_app; [by apply Hf|]. exists id, conn. by left.
Qed.

Lemma close_inv s id conn n :
  sys_inv s -> sys_links s !! id = Some (Datatypes.S n) ->
  sys_inv (set_net s (<[id := n]> (sys_links s)) (sys_flight s ++ [Disconnected_event id conn])).
Proof.
  intros Hinv Hn. pose proof Hinv as [Hb [Hsc Hsd] Hf Hc Hd Hs Hp Hk].
  assert (forall i, accounted s i -> accounted (set_net s (<[id := n]> (sys_links s))
    (sys_flight s ++ [Disconnected_event id conn])) i) as Hacc.
  { intros i Hi. eapply accounted_mono; [exact Hi|..|done].
    - intros [k Hl]. destruct (decide (i = id)) as [->|].
      + right. left. exists conn. cbn. rewrite !elem_of_app, list_elem_of_singleton. tauto.
      + left. exists k. cbn. by rewrite lookup_insert_ne.
    - intros [c Hin]. right. left. exists c. cbn. rewrite !elem_of_app in *. tauto. }
  split; cbn; try done; eauto.
  intros e [?| ->%list_elem_of_singleton]%elem_of_app; [by apply Hf|]. exists id, conn. by right.
Qed.

Lemma notify_inv s e l1 l2 bus :
  sys_inv s -> sys_flight s = l1 ++ e :: l2 ->
  Publish (sys_bus s) e = Sent bus ->
  sys_inv (set_bus s bus (l1 ++ l2)).
Proof.
  intros Hinv Hfl Hpu. pose proof Hinv as [Hb [Hsc Hsd] Hf Hc Hd Hs Hp Hk].
  destruct (Publish_bufs _ _ _ Hb Hpu) as (Hb' & Hs' & Hbuf).
  assert (forall i, accounted s i -> accounted (set_bus s bus (l1 ++ l2)) i) as Hacc.
  { intros i Hi. eapply accounted_mono; [exact Hi|by left| |done]. intros Hpe. right. left.
    by eapply notify_pending. }
  assert (is_connection_event e) as (i & c & Hev) by (apply Hf; rewrite Hfl, elem_of_app, elem_of_cons; tauto).
  split; cbn; try done; eauto.
  + by rewrite !Hs'.
  + intros e' He'. apply Hf. rewrite Hfl, elem_of_app, elem_of_cons. apply elem_of_app in He'. tauto.
  + intros e'. rewrite Hbuf. intros [?|Hin]%elem_of_app; [eauto|]. destruct Hev as [->| ->]; cbn in Hin.
    * rewrite Hsc, decide_True in Hin by left. apply list_elem_of_singleton in Hin. eauto.
    * rewrite Hsd, decide_False in Hin by (by intros ?%list_elem_of_singleton). by apply elem_of_nil in Hin.
  + intros e'. rewrite Hbuf. intros [?|Hin]%elem_of_app; [eauto|]. destruct Hev as [->| ->]; cbn in Hin.
    * rewrite Hsc, decide_False in Hin by (by intros ?%list_elem_of_singleton). by apply elem_of_nil in Hin.
    * rewrite Hsd, decide_True in Hin by left. apply list_elem_of_singleton in Hin. eauto.
Qed.

Lemma connected_inv s e bus id conn :
  sys_inv s -> receive (sys_bus s) peerConnectCh = Some (e, bus) ->
  sys_inv (set_goroutines (set_bus s bus (sys_flight s)) ((id, conn) :: sys_pausing s) (sys_checked s)).
Proof.
  intros Hinv Hr. pose proof Hinv as [Hb [Hsc Hsd] Hf Hc Hd Hs Hp Hk].
  destruct (receive_ok _ _ _ _ Hb Hr) as [Hb' Hs']. destruct (receive_bufs _ _ _ _ Hr) as [Hbuf Hoth].
  assert (forall i, accounted s i -> accounted (set_goroutines (set_bus s bus (sys_flight s))
    ((id, conn) :: sys_pausing s) (sys_checked s)) i) as Hacc.
  { intros i [?|[Hpe|?]]; [by left| |by right; right]. right. left.
    destruct Hpe as [c Hin]. exists c. cbn. by rewrite Hoth. }
  split; cbn; try done; eauto.
  + by rewrite !Hs'.
  + intros e' He'. apply Hc. rewrite Hbuf. by right.
  + intros e'. rewrite Hoth by done. apply Hd.
Qed.

Lemma disconnected_inv s e bus id conn now fs :
  sys_inv s -> receive (sys_bus s) peerDisconnectCh = Some (e, bus) ->
  Event.Data e = PeerEvent id conn ->
  OnPeerDisconnect (H := net_node (sys_links s)) (sys_fs s) now id = Some fs ->
  sys_inv (set_raced (set_fs (set_bus s bus (sys_flight s)) fs)
            (if decide (id ∈ (sys_checked s).*1) then {[ id ]} ∪ sys_raced s else sys_raced s)).
Proof.
  intros Hinv Hr He Ho. pose proof Hinv as [Hb [Hsc Hsd] Hf Hc Hd Hs Hp Hk].
  destruct (receive_ok _ _ _ _ Hb Hr) as [Hb' Hs']. destruct (receive_bufs _ _ _ _ Hr) as [Hbuf Hoth].
  assert (exists c, e = Disconnected_event id c) as [c ->].
  { destruct (Hd e) as (i & c & ->); [rewrite Hbuf; left|]. injection He as -> ->. eauto. }
  destruct (OnPeerDisconnect_peers _ _ _ _ Ho) as [Hst Hpe].
  set (s' := set_raced _ _). assert (forall i, accounted s i -> i <> id -> accounted s' i) as Hacc.
  { intros i [?|[[c' Hin]|?]] Hne; [by left| |].
    - right. left. exists c'. cbn in *. rewrite Hbuf in Hin. rewrite !elem_of_app, elem_of_cons in *.
      destruct Hin as [?|[[= ? ?]|?]]; [by left|done|by right].
    - right. right. cbn. case_decide; set_solver. }
  split; cbn; try done.
  + by rewrite !Hs'.
  + intros e'. rewrite Hoth by done. apply Hc.
  + intros e' He'. apply Hd. rewrite Hbuf. by right.
  + by rewrite Hst.
  + intros i [Hi Hor]%Hpe. destruct (decide (i = id)) as [->|Hne]; [|by apply Hacc; [apply Hp|]].
    destruct Hor as [|[_ Hl]%andb_prop]; [done|]. left. by apply net_linked in Hl.
  + intros i Hi. destruct (decide (i = id)) as [->|Hne]; [|by apply Hacc; [apply Hk|]].
    right. right. cbn. rewrite decide_True by done. set_solver.
Qed.

Lemma check_inv s id conn now l1 l2 :
  sys_inv s -> connect_check (H := net_node (sys_links s)) (sys_fs s) now id = true ->
  sys_inv (set_goroutines s (l1 ++ l2) ((id, conn) :: sys_checked s)).
Proof.
  intros Hinv Hch. pose proof Hinv as [Hb [Hsc Hsd] Hf Hc Hd Hs Hp Hk].
  split; cbn; try done; eauto.
  intros i [->|Hi]%elem_of_cons; [|by apply Hk]. left. cbn. unfold connect_check in Hch.
  apply andb_prop in Hch as [[_ Hl]%andb_prop _]. by apply net_linked in Hl.
Qed.

Lemma add_inv s id conn l1 l2 :
  sys_inv s -> sys_checked s = l1 ++ (id, conn) :: l2 ->
  sys_inv (set_fs (set_goroutines s (sys_pausing s) (l1 ++ l2)) (connect_add (sys_fs s) id conn)).
Proof.
  intros Hinv Hck. pose proof Hinv as [Hb [Hsc Hsd] Hf Hc Hd Hs Hp Hk].
  assert (forall i, i ∈ (l1 ++ l2).*1 -> i ∈ (sys_checked s).*1) as Hsub.
  { intros i. rewrite Hck, !fmap_app, fmap_cons, !elem_of_app, elem_of_cons. tauto. }
  split; cbn; try done; eauto.
  + unfold connect_add. by destruct (fs_peers (sys_fs s) !! id).
  + intros i [Hi| ->]%connect_add_peers; [by apply Hp|]. apply Hk.
    rewrite Hck, fmap_app, fmap_cons, elem_of_app, elem_of_cons. tauto.
Qed.

Lemma sys_step_inv s s' : sys_inv s -> sys_step s s' -> sys_inv s'.
Proof.
  intros Hinv Hst. destruct Hst; [by apply open_inv|by apply close_inv|by eapply notify_inv|by eapply connected_inv|
    by eapply disconnected_inv|by eapply check_inv| |by eapply add_inv].
  destruct Hinv. split; cbn; try done; eauto.
Qed.

Lemma reachable_inv fs s :
  fs_started fs = true -> fs_peers fs = ∅ -> reachable fs s -> sys_inv s.
Proof.
  intros Hs Hp Hr. pose proof (initial_inv fs Hs Hp) as Hi. unfold reachable in Hr.
  induction Hr as [s|s s1 s2 Hst _ IH]; [done|]. by eapply IH, sys_step_inv.
Qed.

(** [fs.node = node] in [Start]. *)
Definition node_started fs : FileServer S :=
  {| fs_store := fs_store fs; fs_started := true; fs_peers := fs_peers fs; fs_tagged := fs_tagged fs;
     fs_events := fs_events fs; fs_seen := fs_seen fs; fs_sessionName := fs_sessionName fs;
     fs_waiters := fs_waiters fs; fs_chans := fs_chans fs; fs_nextchan := fs_nextchan fs |}.

(** ** Properties *)

(** [C10] The registry follows the connections.  Whatever connections open and
    close, and however the notifications, the two loops of [Start] and the
    goroutines of [OnPeerConnect] interleave: a registered peer whose
    disconnection was not handled between the tests and the lock of its
    [OnPeerConnect] is connected, or the notification of its disconnection is
    still in flight or in its channel; so when nothing is under way every such
    peer is connected. *)
Theorem registered_peers_connected fs s id
    (Hnew : fs_peers fs = ∅) (Hr : reachable (node_started fs) s)
    (Hreg : is_Some (fs_peers (sys_fs s) !! id)) (Hrace : id ∉ sys_raced s) :
  (is_linked (sys_links s) id \/ pending s id) /\ (quiet s -> is_linked (sys_links s) id).
Proof.
  assert (sys_inv s) as Hinv by (eapply reachable_inv; [| |exact Hr]; done).
  assert (is_linked (sys_links s) id \/ pending s id) as Hor.
  { destruct (si_peers s Hinv id Hreg) as [?|[?|?]]; tauto. }
  split; [done|]. intros (Hfl & _ & _ & _ & Hd). destruct Hor as [|[conn Hin]]; [done|].
  rewrite Hfl, (proj1 (receive_none _ _) Hd) in Hin. by apply elem_of_nil in Hin.
Qed.

(** The loops of [Start] do not panic: in every state that can be reached,
    whatever arrives on the channel of disconnections is a [PeerEvent], on which
    [OnPeerDisconnect] returns, and whatever arrives on the other is one, too. *)
Theorem start_loops_safe fs s ch e bus now
    (Hnew : fs_peers fs = ∅) (Hr : reachable (node_started fs) s)
    (Hch : ch = peerConnectCh \/ ch = peerDisconnectCh) (Hrecv : receive (sys_bus s) ch = Some (e, bus)) :
  exists id conn, Event.Data e = PeerEvent id conn
    /\ exists fs', OnPeerDisconnect (H := net_node (sys_links s)) (sys_fs s) now id = Some fs'.
Proof.
  assert (sys_inv s) as Hinv by (eapply reachable_inv; [| |exact Hr]; done).
  assert (e ∈ chan_buf (sys_bus s) ch) as Hin by (rewrite (proj1 (receive_bufs _ _ _ _ Hrecv)); left).
  assert (exists id conn, Event.Data e = PeerEvent id conn) as (id & conn & He).
  { destruct Hch as [->| ->]; [destruct (si_conn s Hinv e Hin) as (i & c & ->)|
      destruct (si_disc s Hinv e Hin) as (i & c & ->)]; by eexists _, _. }
  exists id, conn. split; [done|]. unfold OnPeerDisconnect. rewrite (si_started s Hinv).
  destruct (linked now id); [by eexists|]. cbn [andb]. destruct (fs_peers (sys_fs s) !! id); by eexists.
Qed.

(** *** A run of one connection *)
Definition pub (b : Bus) (e : Event) : Bus := match Publish b e with Sent b => b | _ => b end.
Definition rcv (b : Bus) (ch : chan) : Bus := match receive b ch with Some (_, b) => b | None => b end.

(** The bus while one connection comes, and goes. *)
Definition run_bus (n : nat) (id conn : string) : Bus :=
  let b1 := pub started_bus (Connected_event id conn) in
  let b2 := rcv b1 peerConnectCh in
  let b3 := pub b2 (Disconnected_event id conn) in
  match n with 0%nat => started_bus | 1%nat => b1 | 2%nat => b2 | 3%nat => b3 | _ => rcv b3 peerDisconnectCh end.

Definition run_state fs (n : nat) (id conn : string) (up : nat) flight pausing checked raced : system :=
  {| sys_fs := fs; sys_links := <[id := up]> ∅; sys_bus := run_bus n id conn; sys_flight := flight;
     sys_pausing := pausing; sys_checked := checked; sys_raced := raced |}.

(** The connection is made, notified and tested. *)
Lemma run_connect fs id conn :
  supports id = true -> fs_started fs = true ->
  reachable fs (run_state fs 2 id conn 1 [] [] [(id, conn)] ∅)
  /\ reachable fs (run_state fs 1 id conn 1 [] [] [] ∅).
Proof.
  intros Hsup Hst. assert (reachable fs (run_state fs 1 id conn 1 [] [] [] ∅)) as H1.
  { unfold reachable. apply (rtc_l _ _ (run_state fs 0 id conn 1 [Connected_event id conn] [] [] ∅)).
    - exact (sys_open (initial_system fs) id conn).
    - apply rtc_once, (sys_notify (run_state fs 0 id conn 1 [Connected_event id conn] [] [] ∅) (Connected_event id conn) [] []
        (run_bus 1 id conn)); reflexivity. }
  split; [|done]. unfold reachable in *; etrans; [exact H1|].
  apply (rtc_l _ _ (run_state fs 2 id conn 1 [] [(id, conn)] [] ∅)).
  - apply (sys_connected (run_state fs 1 id conn 1 [] [] [] ∅) (Connected_event id conn) (run_bus 2 id conn));
      reflexivity.
  - apply rtc_once, (sys_check (run_state fs 2 id conn 1 [] [(id, conn)] [] ∅) id conn 0 [] []); [done|].
    unfold connect_check. cbn [sys_fs sys_links run_state]. rewrite Hst, (proj2 (net_linked _ 0 id)).
    + cbn. rewrite Hsup. by rewrite bool_decide_true by (by left).
    + exists 0%nat. apply lookup_insert_eq.
Qed.

(** It is closed, and its disconnection handled, before the lock is taken. *)
Lemma run_race fs id conn :
  supports id = true -> fs_started fs = true -> fs_peers fs !! id = None ->
  reachable fs (run_state (connect_add fs id conn) 4 id conn 0 [] [] [] ({[ id ]} ∪ ∅)).
Proof.
  intros Hsup Hst Hid. unfold reachable; etrans; [exact (proj1 (run_connect fs id conn Hsup Hst))|].
  set (st := fun n up flight raced => run_state fs n id conn up flight [] [(id, conn)] raced).
  apply (rtc_l _ _ (st 2%nat 0%nat [Disconnected_event id conn] ∅)).
  { replace (st 2%nat 0%nat [Disconnected_event id conn] ∅) with
      (set_net (run_state fs 2 id conn 1 [] [] [(id, conn)] ∅) (<[id := 0%nat]> (<[id := 1%nat]> ∅))
         ([] ++ [Disconnected_event id conn])); [apply (sys_close (run_state fs 2 id conn 1 [] [] [(id, conn)] ∅) id conn 0); apply lookup_insert_eq|].
    unfold set_net, st, run_state. cbn. by rewrite insert_insert_eq. }
  apply (rtc_l _ _ (st 3%nat 0%nat [] ∅)).
  { apply (sys_notify (st 2%nat 0%nat [Disconnected_event id conn] ∅) (Disconnected_event id conn) [] []
      (run_bus 3 id conn)); reflexivity. }
  apply (rtc_l _ _ (st 4%nat 0%nat [] ({[ id ]} ∪ ∅))).
  { pose proof (sys_disconnected (st 3%nat 0%nat [] ∅) (Disconnected_event id conn) (run_bus 4 id conn)
      id conn 0 fs) as Hd. rewrite decide_True in Hd by (by left). apply Hd; [reflexivity..|].
    unfold OnPeerDisconnect. case_match; [done|]. cbn [sys_fs st run_state]. by rewrite Hid. }
  apply rtc_once. exact (sys_add (st 4%nat 0%nat [] ({[ id ]} ∪ ∅)) id conn [] [] eq_refl).
Qed.

(** [C38] [OnPeerConnect] looks at the connection before it takes the lock.  If
    the connection is closed in between and its disconnection handled, the peer
    is added afterwards: a state is reached in which nothing is under way and a
    peer without any connection is registered, so that the server counts it and
    sends to it. *)
Theorem stale_peer fs id (conn : string) (Hsup : supports id = true) (Hnew : fs_peers fs = ∅) :
  exists s, reachable (node_started fs) s /\ quiet s
    /\ is_Some (fs_peers (sys_fs s) !! id) /\ ~ is_linked (sys_links s) id
    /\ GetConnectedPeers (sys_fs s) = 1.
Proof.
  assert (fs_peers (node_started fs) !! id = None) as Hid by (cbn; by rewrite Hnew).
  exists (run_state (connect_add (node_started fs) id conn) 4 id conn 0 [] [] [] ({[ id ]} ∪ ∅)).
  split; [by apply run_race|].
  assert (fs_peers (connect_add (node_started fs) id conn) = {[ id := {| p_ID := id; p_Conn := conn |} ]}) as Hadd.
  { unfold connect_add. rewrite Hid. cbn. by rewrite Hnew. }
  split; [|split; [|split]].
  - split; [reflexivity|]. split; [reflexivity|]. split; [reflexivity|]. split; reflexivity.
  - cbn. rewrite Hadd, lookup_singleton_eq. by eexists.
  - intros [n Hn]. cbn in Hn. by rewrite lookup_insert_eq in Hn.
  - unfold GetConnectedPeers. cbn. by rewrite Hadd, map_size_singleton.
Qed.
End system.

(** ** Stopping

    [Stop] stops discovery and closes the node; errors are dropped, the two
    subscriptions stay. *)
Definition FileServer_Stop (m : Manager) (dht_close : option goerr) : Manager :=
  (Manager_Stop m dht_close).1.

(** ** Witnesses *)
Import ToyStore.

Lemma registered_peers_connected_witness :
  exists s, is_Some (fs_peers (sys_fs s) !! "p") /\ quiet s /\ is_linked (sys_links (S := gmap string bytes) s) "p".
Proof.
  exists (run_state (connect_add (node_started toy_server) "p" "c") 2 "p" "c" 1 [] [] [] ∅).
  assert (reachable (fun _ => true) (node_started toy_server)
    (run_state (connect_add (node_started toy_server) "p" "c") 2 "p" "c" 1 [] [] [] ∅)) as Hr.
  { unfold reachable; etrans; [exact (proj1 (run_connect (fun _ => true) (node_started toy_server) "p" "c" eq_refl eq_refl))|].
    apply rtc_once, (sys_add (fun _ => true)
      (run_state (node_started toy_server) 2 "p" "c" 1 [] [] [("p", "c")] ∅) "p" "c" [] []). reflexivity. }
  assert (is_Some (fs_peers (connect_add (node_started toy_server) "p" "c") !! "p")) as Hp
    by (vm_compute; eexists; reflexivity).
  assert (quiet (run_state (connect_add (node_started toy_server) "p" "c") 2 "p" "c" 1 [] [] [] ∅)) as Hq.
  { split; [reflexivity|]. split; [reflexivity|]. split; [reflexivity|]. split; reflexivity. }
  split; [exact Hp|]. split; [exact Hq|].
  apply (registered_peers_connected (fun _ => true) toy_server _ "p"); [reflexivity|exact Hr|exact Hp| |exact Hq].
  apply not_elem_of_empty.
Defined.

Lemma start_loops_safe_witness :
  exists s e bus, receive (sys_bus (S := gmap string bytes) s) peerConnectCh = Some (e, bus)
    /\ exists id conn, Event.Data e = PeerEvent id conn.
Proof.
  exists (run_state (node_started toy_server) 1 "p" "c" 1 [] [] [] ∅), (Connected_event "p" "c"), (run_bus 2 "p" "c").
  split; [reflexivity|].
  destruct (start_loops_safe (fun _ => true) toy_server
    (run_state (node_started toy_server) 1 "p" "c" 1 [] [] [] ∅) peerConnectCh (Connected_event "p" "c")
    (run_bus 2 "p" "c") 0) as (id & conn & He & _).
  - reflexivity.
  - apply (run_connect (fun _ => true) (node_started toy_server) "p" "c"); reflexivity.
  - left. reflexivity.
  - reflexivity.
  - exists id, conn. exact He.
Defined.

Lemma stale_peer_witness :
  exists s, reachable (fun _ => true) (node_started toy_server) s
    /\ ~ is_linked (sys_links s) "p" /\ GetConnectedPeers (sys_fs s) = 1.
Proof.
  destruct (stale_peer (fun _ => true) toy_server "p" "c") as (s & Hr & _ & _ & Hl & Hc);
    [reflexivity|reflexivity|].
  exists s. split; [exact Hr|]. split; [exact Hl|exact Hc].
Defined.
