(* ===== verification/Observability.v ===== *)
(** Logging and metrics (src/internal/observability): levels, log lines as JSON
    objects, and the request counters.

    A field is a JSON value; the time stamp of a line is an argument. *)
From stdpp Require Import sorting.
From S2P Require Import Prelude Words Json Protocol GoStrings.

(** ** Levels *)
Abbreviation LogLevel := Z.
Definition LevelDebug : LogLevel := 0.
Definition LevelInfo : LogLevel := 1.
Definition LevelError : LogLevel := 2.

Definition LogLevel_String (l : LogLevel) : string :=
  if l =? LevelDebug then "debug" else if l =? LevelInfo then "info"
  else if l =? LevelError then "error" else "info".

Definition ParseLogLevel (s : string) : LogLevel :=
  let s := strings_ToLower (strings_TrimSpace s) in
  if decide (s = "debug") then LevelDebug else if decide (s = "info") then LevelInfo
  else if decide (s = "error") then LevelError else LevelInfo.

(** ** The logger *)
Abbreviation Fields := (gmap string json).

Record Logger := { out : bytes; static : Fields; level : LogLevel }.

Definition NewLogger (fields : Fields) : Logger := {| out := []; static := fields; level := LevelInfo |}.
Definition NewLoggerWithLevel (w : bytes) (fields : Fields) (level : LogLevel) : Logger :=
  {| out := w; static := fields; level := level |}.
Definition SetLevel (l : Logger) (level : LogLevel) : Logger :=
  {| out := out l; static := static l; level := level |}.

Definition key_le (a b : string * json) : Prop := String.leb a.1 b.1 = true.
#[export] Instance key_le_dec a b : Decision (key_le a b) := decide (String.leb a.1 b.1 = true).

(** [json.Marshal] of a map: the members in the order of their names. *)
Definition map_members (m : Fields) : list (string * json) := merge_sort key_le (map_to_list m).
Definition marshal_map (m : Fields) : json :=
  JObj (map (fun kv => (str kv.1, kv.2)) (map_members m)).

(** Later fields replace earlier ones. *)
Definition log_entry (l : Logger) (ts lvl msg : string) (fields : Fields) : Fields :=
  fields ∪ (static l ∪ <["msg" := jstr msg]> (<["level" := jstr lvl]> {["ts" := jstr ts]})).

Definition log (l : Logger) (ts : string) (lvl : string) (minLevel : LogLevel) (msg : string)
    (fields : Fields) : Logger :=
  if minLevel <? level l then l
  else {| out := out l ++ print (marshal_map (log_entry l ts lvl msg fields)) ++ [x0a];
          static := static l; level := level l |}.

Definition Info (l : Logger) (ts msg : string) (fields : Fields) : Logger :=
  log l ts "INFO" LevelInfo msg fields.
Definition Error (l : Logger) (ts msg : string) (fields : Fields) : Logger :=
  log l ts "ERROR" LevelError msg fields.
Definition Debug (l : Logger) (ts msg : string) (fields : Fields) : Logger :=
  log l ts "DEBUG" LevelDebug msg fields.

(** ** Metrics *)
Record Metrics := {
  RequestsTotal : Z;
  FailuresTotal : Z;
  TotalLatency : duration;
  RequestCount : Z;
}.

Definition NewMetrics : Metrics :=
  {| RequestsTotal := 0; FailuresTotal := 0; TotalLatency := 0; RequestCount := 0 |}.

Definition RecordRequest (m : Metrics) (latency : duration) : Metrics :=
  {| RequestsTotal := wrap_s 64 (RequestsTotal m + 1); FailuresTotal := FailuresTotal m;
     TotalLatency := wrap_s 64 (TotalLatency m + latency);
     RequestCount := wrap_s 64 (RequestCount m + 1) |}.

Definition RecordFailure (m : Metrics) : Metrics :=
  {| RequestsTotal := RequestsTotal m; FailuresTotal := wrap_s 64 (FailuresTotal m + 1);
     TotalLatency := TotalLatency m; RequestCount := RequestCount m |}.

(** Requests, failures and the average latency; Go's division truncates. *)
Definition Snapshot (m : Metrics) : Z * Z * duration :=
  (RequestsTotal m, FailuresTotal m,
   if 0 <? RequestCount m then Z.quot (TotalLatency m) (RequestCount m) else 0).

(** ** Lines can be read back *)
Lemma map_members_perm m : map_members m ≡ₚ map_to_list m.
Proof. apply merge_sort_Permutation. Qed.

Definition loggable (m : Fields) : Prop :=
  forall k v, m !! k = Some v -> utf8_string k /\ good v /\ height v < maxNestingDepth.

Lemma members_forall (P : string * json -> Prop) m :
  (forall k v, m !! k = Some v -> P (k, v)) -> Forall P (map_members m).
Proof.
  intros HP. rewrite map_members_perm. apply Forall_forall. intros [k v] Hkv%elem_of_map_to_list. auto.
Qed.

Lemma marshal_map_good m : loggable m -> good (marshal_map m) /\ height (marshal_map m) <= maxNestingDepth.
Proof.
  intros Hm. unfold marshal_map. split.
  - cbn [good]. rewrite !Forall_map. apply members_forall. intros k v Hk. cbn.
    destruct (Hm _ _ Hk) as (? & ? & ?). done.
  - cbn [height]. assert (Forall (fun kv => height kv.2 < maxNestingDepth) (map_members m)) as Hall.
    { apply members_forall. intros k v Hk. by destruct (Hm _ _ Hk) as (? & ? & ?). }
    clear Hm. unfold maxNestingDepth in *. induction Hall as [|[k v] l Hv Hall IH]; cbn in *; lia.
Qed.

(** A log line can be read back.  A message below the logger's level
    changes nothing; any other appends one line, whose JSON object has, each
    name once, exactly the dynamic fields, the static fields they do not
    replace, and the time, level and message unless a field of that name
    replaces them. *)
Theorem log_line l ts lvl minLevel msg fields
    (Hf : loggable fields) (Hs : loggable (static l))
    (Hmsg : utf8_string ts /\ utf8_string lvl /\ utf8_string msg) :
  if decide (minLevel < level l) then log l ts lvl minLevel msg fields = l else
  exists line ms, out (log l ts lvl minLevel msg fields) = out l ++ line ++ [x0a]
    /\ parse line = Some (JObj (map (fun kv : string * json => (str kv.1, kv.2)) ms), [])
    /\ NoDup (map fst ms)
    /\ forall k v, (k, v) ∈ ms <->
         fields !! k = Some v \/ fields !! k = None /\
         (static l !! k = Some v \/ static l !! k = None /\
          (k = "msg" /\ v = jstr msg \/ k = "level" /\ v = jstr lvl \/ k = "ts" /\ v = jstr ts)).
Proof.
  unfold log. destruct (Z.ltb_spec minLevel (level l)); [by rewrite decide_True by lia|].
  rewrite decide_False by lia. set (e := log_entry l ts lvl msg fields).
  exists (print (marshal_map e)), (map_members e). split; [done|].
  assert (forall k v, e !! k = Some v <->
         fields !! k = Some v \/ fields !! k = None /\
         (static l !! k = Some v \/ static l !! k = None /\
          (k = "msg" /\ v = jstr msg \/ k = "level" /\ v = jstr lvl \/ k = "ts" /\ v = jstr ts))) as He.
  { intros k v. unfold e, log_entry. rewrite !lookup_union_Some_raw, !lookup_insert_Some, lookup_singleton_Some.
    naive_solver. }
  split; [|split].
  - rewrite <-(app_nil_r (print _)). destruct (marshal_map_good e) as [Hg Hh].
    + intros k v Hk. apply He in Hk as [Hk|[_ [Hk|[_ Hk]]]]; [by apply Hf|by apply Hs|].
      assert (exists s, v = jstr s /\ utf8_string s /\ utf8_string k) as (s & -> & ? & ?); [|done].
      destruct Hk as [[-> ->]|[[-> ->]|[-> ->]]]; eexists; (split; [done|]); (split; [apply Hmsg|done]).
    + by rewrite parse_print.
  - rewrite map_members_perm. apply NoDup_fst_map_to_list.
  - intros k v. rewrite map_members_perm, elem_of_map_to_list. apply He.
Qed.

(** ** Witness *)
Lemma log_line_witness :
  exists line ms, out (Info (NewLogger {[ "service" := jstr "p2p" ]}) "2024-01-01T00:00:00Z" "hello"
                         {[ "level" := JNum (format_int 7) ]}) = [] ++ line ++ [x0a]
    /\ parse line = Some (JObj (map (fun kv : string * json => (str kv.1, kv.2)) ms), [])
    /\ ("level", JNum (format_int 7)) ∈ ms.
Proof.
  pose proof (log_line (NewLogger {[ "service" := jstr "p2p" ]}) "2024-01-01T00:00:00Z" "INFO" LevelInfo
    "hello" {[ "level" := JNum (format_int 7) ]}) as Hl.
  destruct Hl as (line & ms & Hout & Hp & _ & Hin).
  - intros k v [<- <-]%lookup_singleton_Some. split; [reflexivity|]. split; [by exists 7|reflexivity].
  - intros k v. cbn [static NewLogger]. intros [<- <-]%lookup_singleton_Some. split; [reflexivity|]. split; [reflexivity|reflexivity].
  - repeat split.
  - exists line, ms. split; [exact Hout|]. split; [exact Hp|]. apply Hin. left. apply lookup_singleton_eq.
Defined.
