(* ===== verification/NodeSetup.v ===== *)
(** Setting up the libp2p node (src/internal/node): the configuration, the
    identity kept on disk, and the options the node is made with.

    Keys are the class [Crypto]; [libp2p.New], the connection manager, the
    resource manager and the relay service are third-party: their errors are
    arguments. *)
From S2P Require Import Prelude Io GoStrings FileSys Encryption Store Json Event Middleware FileServer.
From S2P Require Import Connect Discovery.

(** ** Configuration *)
Record NodeConfig := {
  ListenPort : Z;
  IdentityPath : string;
  MinConnection : Z;
  MaxConnection : Z;
  Concurrency : Z;
  DiscoveryConfig : Discovery.Config;
  EnableRelay : bool;
  EnableHolePunch : bool;
  EnableAutoNAT : bool;
  RelayServers : list string;
  EnableRelayService : bool;
  nc_HolePunchWait : duration;
  ExternalIP : string;
}.

Definition DefaultNodeConfig (default_peers : list AddrInfo) : NodeConfig :=
  {| ListenPort := 0; IdentityPath := "./node.key"; MinConnection := 50; MaxConnection := 100;
     Concurrency := 10; DiscoveryConfig := Discovery.DefaultConfig default_peers;
     EnableRelay := true; EnableHolePunch := true; EnableAutoNAT := true; RelayServers := [];
     EnableRelayService := false; nc_HolePunchWait := 30 * Second; ExternalIP := "" |}.

(** ** Identity *)
Class Crypto := {
  PrivKey : Type;
  UnmarshalPrivateKey : bytes -> result PrivKey;
  MarshalPrivateKey : PrivKey -> result bytes;
}.

(** Marshalled keys are read back. *)
Class CryptoLaws `{Crypto} := {
  Unmarshal_Marshal k d : MarshalPrivateKey k = Ok d -> UnmarshalPrivateKey d = Ok k;
}.

Section identity.
Context `{Crypto}.

(** [generated] is what [GenerateKeyPair] returns. *)
Definition LoadOrCreateIdentity (f : fs) (path : string) (generated : result PrivKey) :
    fs * result PrivKey :=
  match os_Stat f path with
  | Ok _ => (f, os_ReadFile f path ≫= UnmarshalPrivateKey)
  | Err _ =>
      match generated with
      | Err e => (f, Err e)
      | Ok priv =>
          match MarshalPrivateKey priv with
          | Err e => (f, Err e)
          | Ok data =>
              match os_WriteFile f path data with
              | (f, Some e) => (f, Err e)
              | (f, None) => (f, Ok priv)
              end
          end
      end
  end.
End identity.

(** ** Options *)
Inductive node_option {K : Type} :=
| OptIdentity (priv : K)
| OptListenAddrStrings (addrs : list string)
| OptDefaultStack                                (* transports, security, muxers *)
| OptConnectionManager (low high : Z)
| OptResourceManager (conns inbound outbound streams streams_in streams_out : Z)
| OptEnableAutoNATv2
| OptAddrsFactory (announce : list (option string))    (* appended; [None]: a nil address *)
| OptEnableRelay
| OptEnableHolePunching
| OptEnableNATService
| OptStaticRelays (relays : list AddrInfo).
Arguments node_option : clear implicits.

Definition result_ok {A} (r : result A) : option A := match r with Ok a => Some a | Err _ => None end.

(** [%d]. *)
Definition fmt_d (z : Z) : string := string_of_bytes (format_int z).

Section options.
Context `{Node} {K : Type}.

Fixpoint relay_infos (addrs : list string) : result (list AddrInfo) :=
  match addrs with
  | [] => Ok []
  | addrStr :: addrs =>
      match NewMultiaddr addrStr with
      | Err e => Err (Wrap ("invalid relay address " +:+ addrStr) e)
      | Ok maddr =>
      match AddrInfoFromP2pAddr maddr with
      | Err e => Err (Wrap "failed to parse relay peer info" e)
      | Ok info => infos ← relay_infos addrs; Ok (info :: infos)
      end end
  end.

Definition announce_addrs (cfg : NodeConfig) : list (option string) :=
  let port := if ListenPort cfg =? 0 then 4001 else ListenPort cfg in
  let tcpAddr := NewMultiaddr ("/ip4/" +:+ ExternalIP cfg +:+ "/tcp/" +:+ fmt_d port) in
  let quicAddr := NewMultiaddr ("/ip4/" +:+ ExternalIP cfg +:+ "/udp/" +:+ fmt_d port +:+ "/quic-v1") in
  [result_ok tcpAddr; result_ok quicAddr].

Definition node_options (cfg : NodeConfig) (priv : K) : result (list (node_option K)) :=
  let max := MaxConnection cfg in
  let opts := [OptIdentity priv;
               OptListenAddrStrings ["/ip4/0.0.0.0/tcp/" +:+ fmt_d (ListenPort cfg);
                                     "/ip4/0.0.0.0/udp/" +:+ fmt_d (ListenPort cfg) +:+ "/quic-v1"];
               OptDefaultStack;
               OptConnectionManager (MinConnection cfg) max;
               OptResourceManager (max * 2) max max (max * 100) (max * 50) (max * 50);
               OptEnableAutoNATv2] in
  let opts := if decide (ExternalIP cfg = "") then opts
              else opts ++ [OptAddrsFactory (announce_addrs cfg)] in
  let opts := if EnableRelay cfg then opts ++ [OptEnableRelay] else opts in
  let opts := if EnableHolePunch cfg then opts ++ [OptEnableHolePunching] else opts in
  let opts := if EnableAutoNAT cfg then opts ++ [OptEnableNATService] else opts in
  if decide (RelayServers cfg = []) then Ok opts
  else relayInfos ← relay_infos (RelayServers cfg); Ok (opts ++ [OptStaticRelays relayInfos]).
End options.

(** The errors of the third-party constructors. *)
Record node_errors := {
  ConnManager_err : option goerr;
  ResourceManager_err : option goerr;
  libp2p_New_err : option goerr;
  relay_New_err : option goerr;
}.

(** A node: its options, and whether it is a relay. *)
Definition NewNode `{Node, Crypto} (cfg : NodeConfig) (f : fs) (generated : result PrivKey)
    (errs : node_errors) : fs * result (list (node_option PrivKey) * bool) :=
  match ConnManager_err errs with Some e => (f, Err e) | None =>
  match ResourceManager_err errs with
  | Some e => (f, Err (Wrap "failed to create resource manager" e))
  | None =>
  match LoadOrCreateIdentity f (IdentityPath cfg) generated with
  | (f, Err e) => (f, Err e)
  | (f, Ok priv) =>
  match node_options cfg priv with
  | Err e => (f, Err e)
  | Ok opts =>
  match libp2p_New_err errs with Some e => (f, Err e) | None =>
  if EnableRelayService cfg then
    match relay_New_err errs with
    | Some e => (f, Err (Wrap "failed to start relay service" e))
    | None => (f, Ok (opts, true))
    end
  else (f, Ok (opts, false))
  end end end end end.

(** ** Properties *)
Section properties.
Context `{Node, CryptoLaws}.

Lemma identity_kept f path g f1 k :
  LoadOrCreateIdentity f path g = (f1, Ok k) ->
  (exists p n, os_Stat f1 path = Ok (p, n)) /\ os_ReadFile f1 path ≫= UnmarshalPrivateKey = Ok k.
Proof.
  unfold LoadOrCreateIdentity. destruct (os_Stat f path) as [[p n]|e] eqn:Hst.
  - intros [= <- Hk]. eauto.
  - destruct g as [priv|]; [|done]. destruct (MarshalPrivateKey priv) as [data|] eqn:Hm; [|done].
    destruct (os_WriteFile f path data) as [f2 [e2|]] eqn:Hw; [done|]. intros [= <- <-].
    apply os_WriteFile_read in Hw. split.
    + unfold os_ReadFile in Hw. destruct (os_Stat f2 path) as [[p n]|]; [eauto|done].
    + rewrite Hw. by apply Unmarshal_Marshal.
Qed.

(** The identity is there afterwards, and no file was lost. *)
Lemma identity_file f path g f1 k :
  LoadOrCreateIdentity f path g = (f1, Ok k) ->
  files_kept f f1 /\ exists d, os_ReadFile f1 path = Ok d /\ UnmarshalPrivateKey d = Ok k.
Proof.
  intros Hl. pose proof (identity_kept f path g f1 k Hl) as [_ Hr]. apply result_bind_ok in Hr as (d & Hr & Hu).
  split; [|by exists d]. revert Hl. unfold LoadOrCreateIdentity. destruct (os_Stat f path) as [[p n]|e] eqn:Hst.
  - by intros [= <- _].
  - destruct g as [priv|]; [|done]. destruct (MarshalPrivateKey priv) as [data|]; [|done].
    destruct (os_WriteFile f path data) as [f2 [e2|]] eqn:Hw; [done|]. intros [= <- <-]. by eapply os_WriteFile_new.
Qed.

Lemma identity_again f path d k g :
  os_ReadFile f path = Ok d -> UnmarshalPrivateKey d = Ok k -> LoadOrCreateIdentity f path g = (f, Ok k).
Proof.
  intros Hr Hu. unfold LoadOrCreateIdentity. pose proof Hr as [p ->]%os_ReadFile_Stat. rewrite Hr. cbn. by rewrite Hu.
Qed.

(** A node that started starts again in the same way, as long as no file is lost. *)
Lemma NewNode_again cfg f g errs f1 r f2 g' :
  NewNode cfg f g errs = (f1, Ok r) -> files_kept f1 f2 ->
  files_kept f f1 /\ NewNode cfg f2 g' errs = (f2, Ok r).
Proof.
  unfold NewNode. destruct (ConnManager_err errs), (ResourceManager_err errs); try done.
  destruct (LoadOrCreateIdentity f _ g) as [f0 [k|]] eqn:Hl; [|done]. intros Hn Hk.
  destruct (identity_file _ _ _ _ _ Hl) as (Hf & d & Hr & Hu).
  destruct (node_options cfg k) as [opts|] eqn:Ho; [|done]. destruct (libp2p_New_err errs); [done|].
  assert (f1 = f0) as -> by (repeat case_match; by simplify_eq). split; [done|].
  rewrite (identity_again f2 _ d k g'), Ho by auto. repeat case_match; by simplify_eq.
Qed.

(** A node keeps its identity.  When [NewNode] succeeds, a later one with
    the same identity path, on the file system it left, whatever the rest of
    its configuration and whatever key the generator would make, uses the same
    key if it succeeds, and leaves the file system as it is. *)
Theorem NewNode_identity_stable cfg f g errs f1 opts relay cfg' g' errs'
    (Hnew : NewNode cfg f g errs = (f1, Ok (opts, relay)))
    (Hpath : IdentityPath cfg' = IdentityPath cfg) :
  exists priv, OptIdentity priv ∈ opts /\ (NewNode cfg' f1 g' errs').1 = f1
    /\ forall f2 opts' relay', NewNode cfg' f1 g' errs' = (f2, Ok (opts', relay')) ->
       OptIdentity priv ∈ opts'.
Proof.
  assert (forall c (k : PrivKey) os, node_options c k = Ok os -> OptIdentity k ∈ os) as Hid.
  { intros c k os. unfold node_options.
    destruct (decide (RelayServers c = [])); [intros [= <-]|rewrite result_bind_ok; intros (infos & _ & [= <-])];
      repeat case_match; rewrite ?elem_of_app; set_solver. }
  unfold NewNode in *. destruct (ConnManager_err errs), (ResourceManager_err errs); try done.
  destruct (LoadOrCreateIdentity f (IdentityPath cfg) g) as [f0 [priv|]] eqn:Hl; [|done].
  destruct (node_options cfg priv) as [os|] eqn:Ho; [|done]. destruct (libp2p_New_err errs); [done|].
  assert (f1 = f0 /\ opts = os) as [-> ->].
  { destruct (EnableRelayService cfg), (relay_New_err errs); by simplify_eq. }
  apply identity_kept in Hl as [(p & n & Hst) Hr]. exists priv. split; [by eapply Hid|].
  rewrite Hpath. unfold LoadOrCreateIdentity. rewrite Hst, Hr. cbv beta iota.
  split; [by repeat case_match|]. intros f2 opts' relay' Hn.
  destruct (ConnManager_err errs'), (ResourceManager_err errs'); try done.
  destruct (node_options cfg' priv) as [os'|] eqn:Ho'; [|done]. destruct (libp2p_New_err errs'); [done|].
  apply Hid in Ho'. by destruct (EnableRelayService cfg'), (relay_New_err errs'); simplify_eq.
Qed.

(** An [ExternalIP] that makes no address is not an error: nil addresses are
    announced. *)
Lemma bad_external_ip cfg (priv : PrivKey) :
  (forall s, exists e, NewMultiaddr ("/ip4/" +:+ ExternalIP cfg +:+ s) = Err e) ->
  ExternalIP cfg <> "" -> RelayServers cfg = [] ->
  exists opts, node_options cfg priv = Ok opts /\ OptAddrsFactory [None; None] ∈ opts.
Proof.
  intros Hbad Hne Hrel. unfold node_options. rewrite Hrel.
  destruct (decide (ExternalIP cfg = "")); [done|]. rewrite decide_True by done.
  assert (announce_addrs cfg = [None; None]) as ->.
  { unfold announce_addrs.
    destruct (Hbad ("/tcp/" +:+ fmt_d (if ListenPort cfg =? 0 then 4001 else ListenPort cfg))) as [e1 ->].
    destruct (Hbad ("/udp/" +:+ fmt_d (if ListenPort cfg =? 0 then 4001 else ListenPort cfg) +:+ "/quic-v1"))
      as [e2 ->]. done. }
  eexists. split; [done|]. repeat case_match; rewrite ?elem_of_app; set_solver.
Qed.
End properties.

(** ** Witness *)
Import ToyStore.

Module ToyCrypto.
#[export] Instance toy_Crypto : Crypto :=
  {| PrivKey := bytes; UnmarshalPrivateKey d := Ok d; MarshalPrivateKey k := Ok k |}.
#[export] Instance toy_CryptoLaws : CryptoLaws.
Proof. split. by intros k d [= ->]. Defined.

Definition toy_generated (b : byte) : result PrivKey := @Ok bytes [b].

End ToyCrypto.
Import ToyCrypto.

Lemma NewNode_identity_stable_witness :
  let cfg := DefaultNodeConfig [] in
  let errs := {| ConnManager_err := None; ResourceManager_err := None; libp2p_New_err := None;
                 relay_New_err := None |} in
  exists f1 opts, NewNode cfg (FS ∅ []) (toy_generated x61) errs = (f1, Ok (opts, false))
    /\ (NewNode cfg f1 (toy_generated x62) errs).1 = f1.
Proof.
  intros cfg errs. destruct (NewNode cfg (FS ∅ []) (toy_generated x61) errs) as [f1 [[opts []]|]] eqn:E;
    [vm_compute in E; discriminate| |vm_compute in E; discriminate].
  exists f1, opts. split; [reflexivity|].
  destruct (NewNode_identity_stable cfg (FS ∅ []) (toy_generated x61) errs f1 opts false cfg (toy_generated x62) errs E eq_refl)
    as (priv & _ & Hf & _). exact Hf.
Defined.
