(* ===== verification/Config.v ===== *)
(** Configuration (src/internal/config): the YAML file, the defaults, the
    command-line overrides, and the configurations of the components derived
    from them.

    [yaml_Unmarshal] is the YAML package: what it makes of a file, fields the
    file does not set being zero. *)
From Stdlib Require Import Ascii.
From S2P Require Import Prelude Io GoStrings FileSys Encryption Store Event Middleware Protocol.
From S2P Require Import Discovery NodeSetup.

Definition DefaultConfigPath : string := "./config.yaml".

(** ** The YAML structs *)
Record YAMLMDNSConfig := { y_ServiceName : string; y_Interval : duration }.
Record YAMLDHTConfig := {
  y_RendezvousString : string; y_DiscoveryInterval : duration; y_Mode : string }.
Record YAMLBootstrapConfig := {
  y_Peers : list string; y_ConnectionTimeout : duration; y_RetryInterval : duration;
  y_MaxRetries : Z }.
Record YAMLDiscoveryConfig := {
  y_EnabledMethods : list string; y_MDNS : YAMLMDNSConfig; y_DHT : YAMLDHTConfig;
  y_Bootstrap : YAMLBootstrapConfig }.
Record YAMLNodeConfig := {
  y_ListenPort : Z; y_IdentityPath : string; y_MinConnection : Z; y_MaxConnection : Z;
  y_Concurrency : Z; y_EnableRelay : bool; y_EnableHolePunch : bool; y_EnableAutoNAT : bool;
  y_RelayServers : list string; y_EnableRelayService : bool; y_HolePunchWait : duration;
  y_ExternalIP : string; y_Discovery : YAMLDiscoveryConfig }.
Record YAMLProtocolConfig := {
  y_MaxMessageSize : Z; y_ReadTimeout : duration; y_WriteTimeout : duration;
  y_HandlerTimeout : duration }.
Record YAMLRateLimiterConfig := { y_Limit : Z; y_Window : duration; y_TTL : duration }.
Record YAMLEncryptionConfig := { y_Enabled : bool; y_KeyPath : string }.
Record YAMLConfig := {
  y_StorageRoot : string; y_LogFile : string; y_LogLevel : string; y_PeerWait : duration;
  y_Timeout : duration; y_Node : YAMLNodeConfig; y_Protocol : YAMLProtocolConfig;
  y_RateLimiter : YAMLRateLimiterConfig; y_Encryption : YAMLEncryptionConfig }.

Record CLIOverrides := {
  o_ConfigPath : string; o_StorageRoot : string; o_PeerWait : duration; o_Timeout : duration;
  o_LogFile : string; o_LogLevel : string; o_DiscoveryModes : string;
  o_BootstrapPeers : list string }.

(** The [config.Config] of a server. *)
Record Config := {
  c_Node : NodeConfig; c_RateLimiter : RateLimiterConfig; c_Protocol : Protocol.Config;
  c_Encryption : EncryptionConfig }.

(** [if v != 0 { ... }] and its like: a value that is not the zero value wins. *)
Definition or_default (v d : Z) : Z := if v =? 0 then d else v.
Definition or_default_s (v d : string) : string := if decide (v = "") then d else v.

Section config.
Context (yaml_Unmarshal : bytes -> result YAMLConfig) (default_peers : list AddrInfo).

Definition DefaultYAMLConfig : YAMLConfig :=
  let nodeCfg := DefaultNodeConfig default_peers in
  let protoCfg := Protocol.DefaultConfig in
  let rateCfg := DefaultRateLimiterConfig in
  let discoveryCfg := Discovery.DefaultConfig default_peers in
  {| y_StorageRoot := "./storage"; y_LogFile := ""; y_LogLevel := "info";
     y_PeerWait := 5 * Second; y_Timeout := 5 * Minute;
     y_Node := {|
       y_ListenPort := ListenPort nodeCfg; y_IdentityPath := IdentityPath nodeCfg;
       y_MinConnection := MinConnection nodeCfg; y_MaxConnection := MaxConnection nodeCfg;
       y_Concurrency := Concurrency nodeCfg; y_EnableRelay := EnableRelay nodeCfg;
       y_EnableHolePunch := EnableHolePunch nodeCfg; y_EnableAutoNAT := EnableAutoNAT nodeCfg;
       y_RelayServers := RelayServers nodeCfg; y_EnableRelayService := EnableRelayService nodeCfg;
       y_HolePunchWait := nc_HolePunchWait nodeCfg; y_ExternalIP := ExternalIP nodeCfg;
       y_Discovery := {|
         y_EnabledMethods := ["mdns"];
         y_MDNS := {| y_ServiceName := ServiceName (MDNS discoveryCfg);
                      y_Interval := Interval (MDNS discoveryCfg) |};
         y_DHT := {| y_RendezvousString := RendezvousString (DHT discoveryCfg);
                     y_DiscoveryInterval := DiscoveryInterval (DHT discoveryCfg);
                     y_Mode := Mode (DHT discoveryCfg) |};
         y_Bootstrap := {| y_Peers := BootstrapPeers (BootstrapCfg discoveryCfg);
                           y_ConnectionTimeout := ConnectionTimeout (BootstrapCfg discoveryCfg);
                           y_RetryInterval := RetryInterval (BootstrapCfg discoveryCfg);
                           y_MaxRetries := MaxRetries (BootstrapCfg discoveryCfg) |} |} |};
     y_Protocol := {| y_MaxMessageSize := MaxMessageSize protoCfg; y_ReadTimeout := ReadTimeout protoCfg;
                      y_WriteTimeout := WriteTimeout protoCfg;
                      y_HandlerTimeout := HandlerTimeout protoCfg |};
     y_RateLimiter := {| y_Limit := cfg_Limit rateCfg; y_Window := cfg_Window rateCfg;
                         y_TTL := cfg_TTL rateCfg |};
     y_Encryption := {| y_Enabled := true; y_KeyPath := "./encryption.key" |} |}.

(** ** Loading *)
Definition LoadYAMLConfig (f : fs) (path : string) : result YAMLConfig :=
  match os_ReadFile f path with
  | Err e => Err (Wrap "failed to read config file" e)
  | Ok data => match yaml_Unmarshal data with
               | Err e => Err (Wrap "failed to parse config file" e)
               | Ok cfg => Ok cfg
               end
  end.

(** The methods of a [--discovery] flag. *)
Definition parse_methods (modes : string) : list string :=
  filter (fun m => m <> "")
    (map (fun m => strings_TrimSpace (strings_ToLower m)) (split_char ","%char modes)).

(** The methods after [--discovery] and [--bootstrap]. *)
Definition override_methods (o : CLIOverrides) (methods : list string) : list string :=
  let methods := if decide (o_DiscoveryModes o = "") then methods
                 else match parse_methods (o_DiscoveryModes o) with
                      | [] => methods
                      | given => given
                      end in
  match o_BootstrapPeers o with
  | [] => methods
  | _ => if decide ("bootstrap" ∈ methods) then methods else methods ++ ["bootstrap"]
  end.

Definition with_discovery (cfg : YAMLConfig) (d : YAMLDiscoveryConfig) : YAMLConfig :=
  let n := y_Node cfg in
  {| y_StorageRoot := y_StorageRoot cfg; y_LogFile := y_LogFile cfg; y_LogLevel := y_LogLevel cfg;
     y_PeerWait := y_PeerWait cfg; y_Timeout := y_Timeout cfg;
     y_Node := {| y_ListenPort := y_ListenPort n; y_IdentityPath := y_IdentityPath n;
                  y_MinConnection := y_MinConnection n; y_MaxConnection := y_MaxConnection n;
                  y_Concurrency := y_Concurrency n; y_EnableRelay := y_EnableRelay n;
                  y_EnableHolePunch := y_EnableHolePunch n; y_EnableAutoNAT := y_EnableAutoNAT n;
                  y_RelayServers := y_RelayServers n; y_EnableRelayService := y_EnableRelayService n;
                  y_HolePunchWait := y_HolePunchWait n; y_ExternalIP := y_ExternalIP n;
                  y_Discovery := d |};
     y_Protocol := y_Protocol cfg; y_RateLimiter := y_RateLimiter cfg;
     y_Encryption := y_Encryption cfg |}.

(** The second half of [Load]. *)
Definition apply_overrides (o : CLIOverrides) (cfg : YAMLConfig) : YAMLConfig :=
  let cfg := {| y_StorageRoot := or_default_s (o_StorageRoot o) (y_StorageRoot cfg);
                y_LogFile := or_default_s (o_LogFile o) (y_LogFile cfg);
                y_LogLevel := or_default_s (o_LogLevel o) (y_LogLevel cfg);
                y_PeerWait := or_default (o_PeerWait o) (y_PeerWait cfg);
                y_Timeout := or_default (o_Timeout o) (y_Timeout cfg);
                y_Node := y_Node cfg; y_Protocol := y_Protocol cfg;
                y_RateLimiter := y_RateLimiter cfg; y_Encryption := y_Encryption cfg |} in
  let d := y_Discovery (y_Node cfg) in
  let b := y_Bootstrap d in
  with_discovery cfg
    {| y_EnabledMethods := override_methods o (y_EnabledMethods d); y_MDNS := y_MDNS d; y_DHT := y_DHT d;
       y_Bootstrap := {| y_Peers := match o_BootstrapPeers o with [] => y_Peers b | peers => peers end; y_ConnectionTimeout := y_ConnectionTimeout b;
                         y_RetryInterval := y_RetryInterval b; y_MaxRetries := y_MaxRetries b |} |}.

Definition Load (f : fs) (overrides : CLIOverrides) : result YAMLConfig :=
  let configPath := if decide (o_ConfigPath overrides = "") then DefaultConfigPath
                    else o_ConfigPath overrides in
  match os_Stat f configPath with
  | Ok _ => match LoadYAMLConfig f configPath with
            | Err e => Err (Wrap "failed to load config" e)
            | Ok cfg => Ok (apply_overrides overrides cfg)
            end
  | Err _ =>
      if decide (configPath <> DefaultConfigPath)
      then Err (Errorf ("config file not found: " +:+ configPath))
      else Ok (apply_overrides overrides DefaultYAMLConfig)
  end.

(** ** Conversions *)
Definition known_methods (l : list string) : list DiscoveryMethod :=
  filter (fun m => m ∈ [MethodMDNS; MethodDHT; MethodBootstrap]) l.

Definition ToDiscoveryConfig (y : YAMLConfig) : Discovery.Config :=
  let cfg := Discovery.DefaultConfig default_peers in
  let d := y_Discovery (y_Node y) in
  {| EnabledMethods := match known_methods (y_EnabledMethods d) with
                       | [] => EnabledMethods cfg
                       | methods => methods
                       end;
     MDNS := {| ServiceName := or_default_s (y_ServiceName (y_MDNS d)) (ServiceName (MDNS cfg));
                Interval := or_default (y_Interval (y_MDNS d)) (Interval (MDNS cfg)) |};
     DHT := {| RendezvousString := or_default_s (y_RendezvousString (y_DHT d)) (RendezvousString (DHT cfg));
               DiscoveryInterval := or_default (y_DiscoveryInterval (y_DHT d)) (DiscoveryInterval (DHT cfg));
               dht_BootstrapPeers := dht_BootstrapPeers (DHT cfg);
               Mode := or_default_s (y_Mode (y_DHT d)) (Mode (DHT cfg)) |};
     BootstrapCfg := {|
       BootstrapPeers := match y_Peers (y_Bootstrap d) with [] => BootstrapPeers (BootstrapCfg cfg)
                                                          | peers => peers end;
       ConnectionTimeout := or_default (y_ConnectionTimeout (y_Bootstrap d))
                              (ConnectionTimeout (BootstrapCfg cfg));
       RetryInterval := or_default (y_RetryInterval (y_Bootstrap d)) (RetryInterval (BootstrapCfg cfg));
       MaxRetries := or_default (y_MaxRetries (y_Bootstrap d)) (MaxRetries (BootstrapCfg cfg)) |} |}.

Definition ToNodeConfig (y : YAMLConfig) : NodeConfig :=
  let cfg := DefaultNodeConfig default_peers in
  let n := y_Node y in
  {| ListenPort := or_default (y_ListenPort n) (ListenPort cfg);
     IdentityPath := or_default_s (y_IdentityPath n) (IdentityPath cfg);
     MinConnection := or_default (y_MinConnection n) (MinConnection cfg);
     MaxConnection := or_default (y_MaxConnection n) (MaxConnection cfg);
     Concurrency := or_default (y_Concurrency n) (Concurrency cfg);
     DiscoveryConfig := ToDiscoveryConfig y;
     EnableRelay := y_EnableRelay n; EnableHolePunch := y_EnableHolePunch n;
     EnableAutoNAT := y_EnableAutoNAT n; RelayServers := y_RelayServers n;
     EnableRelayService := y_EnableRelayService n;
     nc_HolePunchWait := or_default (y_HolePunchWait n) (nc_HolePunchWait cfg);
     ExternalIP := y_ExternalIP n |}.

Definition ToProtocolConfig (y : YAMLConfig) : Protocol.Config :=
  let cfg := Protocol.DefaultConfig in
  let p := y_Protocol y in
  {| MaxMessageSize := or_default (y_MaxMessageSize p) (MaxMessageSize cfg);
     ReadTimeout := or_default (y_ReadTimeout p) (ReadTimeout cfg);
     WriteTimeout := or_default (y_WriteTimeout p) (WriteTimeout cfg);
     HandlerTimeout := or_default (y_HandlerTimeout p) (HandlerTimeout cfg) |}.

Definition ToRateLimiterConfig (y : YAMLConfig) : RateLimiterConfig :=
  let cfg := DefaultRateLimiterConfig in
  let r := y_RateLimiter y in
  {| cfg_Limit := or_default (y_Limit r) (cfg_Limit cfg);
     cfg_Window := or_default (y_Window r) (cfg_Window cfg);
     cfg_TTL := or_default (y_TTL r) (cfg_TTL cfg) |}.

Definition ToEncryptionConfig (y : YAMLConfig) : EncryptionConfig :=
  {| Enabled := y_Enabled (y_Encryption y); KeyPath := y_KeyPath (y_Encryption y) |}.

Definition ToConfig (y : YAMLConfig) : Config :=
  {| c_Node := ToNodeConfig y; c_RateLimiter := ToRateLimiterConfig y;
     c_Protocol := ToProtocolConfig y; c_Encryption := ToEncryptionConfig y |}.
End config.

(** ** Properties *)
Definition no_overrides : CLIOverrides :=
  {| o_ConfigPath := ""; o_StorageRoot := ""; o_PeerWait := 0; o_Timeout := 0; o_LogFile := "";
     o_LogLevel := ""; o_DiscoveryModes := ""; o_BootstrapPeers := [] |}.

(** What a file that sets only the storage root is decoded to. *)
Definition only_storage_root (root : string) : YAMLConfig :=
  {| y_StorageRoot := root; y_LogFile := ""; y_LogLevel := ""; y_PeerWait := 0; y_Timeout := 0;
     y_Node := {| y_ListenPort := 0; y_IdentityPath := ""; y_MinConnection := 0; y_MaxConnection := 0;
                  y_Concurrency := 0; y_EnableRelay := false; y_EnableHolePunch := false;
                  y_EnableAutoNAT := false; y_RelayServers := []; y_EnableRelayService := false;
                  y_HolePunchWait := 0; y_ExternalIP := "";
                  y_Discovery := {| y_EnabledMethods := [];
                    y_MDNS := {| y_ServiceName := ""; y_Interval := 0 |};
                    y_DHT := {| y_RendezvousString := ""; y_DiscoveryInterval := 0; y_Mode := "" |};
                    y_Bootstrap := {| y_Peers := []; y_ConnectionTimeout := 0; y_RetryInterval := 0;
                                      y_MaxRetries := 0 |} |} |};
     y_Protocol := {| y_MaxMessageSize := 0; y_ReadTimeout := 0; y_WriteTimeout := 0;
                      y_HandlerTimeout := 0 |};
     y_RateLimiter := {| y_Limit := 0; y_Window := 0; y_TTL := 0 |};
     y_Encryption := {| y_Enabled := false; y_KeyPath := "" |} |}.

Section properties.
Context (yaml_Unmarshal : bytes -> result YAMLConfig) (default_peers : list AddrInfo).

Lemma known_methods_spec l m :
  m ∈ known_methods l <-> m ∈ l /\ m ∈ [MethodMDNS; MethodDHT; MethodBootstrap].
Proof. unfold known_methods. rewrite list_elem_of_filter. tauto. Qed.

(** The methods the derived configuration enables. *)
Definition enabled (y : YAMLConfig) : list DiscoveryMethod :=
  EnabledMethods (ToDiscoveryConfig default_peers y).

(** The known methods of the list; mDNS alone when there is none. *)
Lemma enabled_spec y m :
  let listed m := m ∈ y_EnabledMethods (y_Discovery (y_Node y)) /\ m ∈ [MethodMDNS; MethodDHT; MethodBootstrap] in
  enabled y <> [] /\ (m ∈ enabled y <-> listed m \/ m = MethodMDNS /\ forall m', ~ listed m').
Proof.
  intros listed. unfold enabled, ToDiscoveryConfig. cbn [EnabledMethods].
  assert (forall m, m ∈ known_methods (y_EnabledMethods (y_Discovery (y_Node y))) <-> listed m) as Hk
    by (intros; apply known_methods_spec).
  destruct (known_methods _) as [|x l]; (split; [done|]).
  - change (EnabledMethods _) with [MethodMDNS]. rewrite list_elem_of_singleton. split.
    + intros ->. right. split; [done|]. by intros m' ?%Hk%not_elem_of_nil.
    + by intros [?%Hk%not_elem_of_nil|[-> _]].
  - rewrite Hk. split; [by left|]. intros [|[_ Hn]]; [done|]. destruct (Hn x). apply Hk. by left.
Qed.

Lemma override_methods_spec o ms m :
  m ∈ override_methods o ms <->
  (if decide (parse_methods (o_DiscoveryModes o) = []) then m ∈ ms
   else m ∈ parse_methods (o_DiscoveryModes o))
  \/ m = "bootstrap" /\ o_BootstrapPeers o <> [].
Proof.
  unfold override_methods. set (given := if decide (o_DiscoveryModes o = "") then ms else _).
  assert (m ∈ given <-> if decide (parse_methods (o_DiscoveryModes o) = []) then m ∈ ms
    else m ∈ parse_methods (o_DiscoveryModes o)) as <-.
  { unfold given. destruct (decide (o_DiscoveryModes o = "")) as [->|]; [done|].
    by destruct (parse_methods _) as [|x l]. }
  destruct (o_BootstrapPeers o) as [|p ps]; [naive_solver|].
  case_decide as Hb; rewrite ?elem_of_app, ?list_elem_of_singleton; split.
  - by left.
  - by intros [Hm|[-> _]].
  - intros [Hm| ->]; [by left|by right].
  - intros [Hm|[-> _]]; [by left|by right].
Qed.

(** A known method that is asked for: [--discovery] names it or, if that names
    none, the file lists it; or it is bootstrap, and [--bootstrap] gives peers. *)
Definition asked_for (o : CLIOverrides) (base : YAMLConfig) (m : DiscoveryMethod) : Prop :=
  let named := parse_methods (o_DiscoveryModes o) in
  m ∈ [MethodMDNS; MethodDHT; MethodBootstrap]
  /\ (m ∈ named \/ named = [] /\ m ∈ y_EnabledMethods (y_Discovery (y_Node base))
      \/ m = MethodBootstrap /\ o_BootstrapPeers o <> []).

(** [C35] What the command line asks for is what runs.  After [Load]'s overrides
    and [ToConfig], the discovery methods enabled are exactly the known ones that
    are asked for, by [--discovery], by the file if [--discovery] names none, or,
    for bootstrap, by giving peers with [--bootstrap]; mDNS, and nothing else, if
    no known method is asked for; so at least one is enabled.  With [--bootstrap],
    its peers replace those of the file. *)
Theorem overrides_effective o base m :
  let d := DiscoveryConfig (c_Node (ToConfig default_peers (apply_overrides o base))) in
  EnabledMethods d <> []
  /\ (m ∈ EnabledMethods d <->
      asked_for o base m \/ m = MethodMDNS /\ forall m', ~ asked_for o base m')
  /\ (o_BootstrapPeers o <> [] -> BootstrapPeers (BootstrapCfg d) = o_BootstrapPeers o).
Proof.
  intros d. change (EnabledMethods d) with (enabled (apply_overrides o base)).
  destruct (enabled_spec (apply_overrides o base) m) as [Hne Hin]. split; [done|].
  assert (forall m, m ∈ y_EnabledMethods (y_Discovery (y_Node (apply_overrides o base)))
    /\ m ∈ [MethodMDNS; MethodDHT; MethodBootstrap] <-> asked_for o base m) as Ha.
  { intros m'. unfold asked_for. cbn [y_EnabledMethods y_Discovery y_Node apply_overrides with_discovery].
    rewrite override_methods_spec. destruct (decide (parse_methods (o_DiscoveryModes o) = [])) as [->|]; [|tauto].
    pose proof (not_elem_of_nil m'). tauto. }
  split.
  - rewrite Hin, Ha. by setoid_rewrite Ha.
  - intros Hp. cbn. by destruct (o_BootstrapPeers o).
Qed.

(** A configuration file replaces the defaults, it does not refine them.
    Without a file the loaded configuration stands for the components' defaults;
    but with a file that sets only the storage root, the operation timeout and
    the time to wait for peers are zero, relaying, hole punching and AutoNAT are
    off and encryption is disabled, although the defaults say otherwise. *)
Theorem file_replaces_defaults f root data
    (Hfile : os_ReadFile f DefaultConfigPath = Ok data)
    (Hyaml : yaml_Unmarshal data = Ok (only_storage_root root)) (g : fs)
    (Hnofile : os_Stat g DefaultConfigPath = Err ErrNotExist) :
  Load yaml_Unmarshal default_peers g no_overrides = Ok (DefaultYAMLConfig default_peers)
  /\ c_Node (ToConfig default_peers (DefaultYAMLConfig default_peers)) = DefaultNodeConfig default_peers
  /\ c_Protocol (ToConfig default_peers (DefaultYAMLConfig default_peers)) = Protocol.DefaultConfig
  /\ c_RateLimiter (ToConfig default_peers (DefaultYAMLConfig default_peers)) = DefaultRateLimiterConfig
  /\ exists cfg, Load yaml_Unmarshal default_peers f no_overrides = Ok cfg
     /\ y_StorageRoot cfg = root /\ y_Timeout cfg = 0 /\ y_PeerWait cfg = 0
     /\ EnableRelay (c_Node (ToConfig default_peers cfg)) = false
     /\ EnableHolePunch (c_Node (ToConfig default_peers cfg)) = false
     /\ EnableAutoNAT (c_Node (ToConfig default_peers cfg)) = false
     /\ Enabled (c_Encryption (ToConfig default_peers cfg)) = false.
Proof.
  split; [unfold Load; cbn [o_ConfigPath no_overrides]; rewrite decide_True, Hnofile by done;
          by rewrite decide_False by (by intros [])|].
  do 3 (split; [done|]). exists (only_storage_root root). split; [|done].
  unfold Load. cbn [o_ConfigPath no_overrides]. rewrite decide_True by done.
  unfold LoadYAMLConfig. rewrite Hfile. unfold os_ReadFile in Hfile.
  destruct (os_Stat f DefaultConfigPath) as [[p n]|]; [|done]. by rewrite Hyaml.
Qed.
End properties.

(** ** Witnesses *)
Lemma overrides_effective_witness :
  let o := {| o_ConfigPath := ""; o_StorageRoot := ""; o_PeerWait := 0; o_Timeout := 0; o_LogFile := "";
              o_LogLevel := ""; o_DiscoveryModes := " DHT, foo"; o_BootstrapPeers := ["p"] |} in
  let d := DiscoveryConfig (c_Node (ToConfig [] (apply_overrides o (DefaultYAMLConfig [])))) in
  EnabledMethods d = [MethodDHT; MethodBootstrap] /\ BootstrapPeers (BootstrapCfg d) = ["p"]
  /\ ~ asked_for o (DefaultYAMLConfig []) MethodMDNS.
Proof.
  intros o d. split; [vm_compute; reflexivity|].
  destruct (overrides_effective [] o (DefaultYAMLConfig []) MethodMDNS) as (_ & Hm & Hb).
  split; [apply Hb; discriminate|]. intros Ha.
  assert (MethodMDNS ∈ [MethodDHT; MethodBootstrap]) as Hin by (apply Hm; left; exact Ha).
  rewrite !elem_of_cons, elem_of_nil in Hin. destruct Hin as [E|[E|[]]]; discriminate E.
Defined.

Lemma file_replaces_defaults_witness :
  let f := FS {[ ["config.yaml"] := NFile [x61] ]} [] in
  exists cfg, Load (fun _ => Ok (only_storage_root "/data")) [] f no_overrides = Ok cfg
    /\ y_Timeout cfg = 0 /\ y_Timeout (DefaultYAMLConfig []) = 5 * Minute.
Proof.
  intros f.
  destruct (file_replaces_defaults (fun _ => Ok (only_storage_root "/data")) [] f "/data" [x61])
    with (g := FS ∅ []) as (_ & _ & _ & _ & cfg & Hl & _ & Ht & _).
  - vm_compute. reflexivity.
  - reflexivity.
  - vm_compute. reflexivity.
  - exists cfg. split; [exact Hl|]. split; [exact Ht|reflexivity].
Defined.
