(* ===== verification/Operations.v ===== *)
(** The operations (src/pkg/operations): starting a server, storing, sending and
    getting files, waiting for peers and events, the receive session. *)
From S2P Require Import Prelude Io GoStrings FileSys Sha Encryption Store StoreSpec Json Event Middleware.
From S2P Require Import SeenMessages Protocol BlobStore FileServer Transfer Connect Delivery Discovery NodeSetup Config.

Record StoreResult := { st_Key : string }.
Record SendResult := { se_Key : string; se_PeerID : string }.
Record SendOpts := { so_Session : string }.

(** ** Starting a server *)
Record FileServerOpts := {
  StorageRoot : string;
  opts_PathTransformFunc : option (string -> PathKey);
  LogLevel : string;
  opts_Config : Config.Config;
  opts_Encryption : option EncryptionConfig;
}.

Section start.
Context `{AEAD, Entropy, Node, Crypto} (default_peers : list AddrInfo).

(** [fileserver.NewFileServer], with its store. *)
Definition NewFileServer_of (w : world) (opts : FileServerOpts) :
    world * result (Store * FileServer unit) :=
  let encryption := default {| Enabled := true; KeyPath := "" |} (opts_Encryption opts) in
  match NewStore w {| Root := StorageRoot opts; PathTransformFunc := opts_PathTransformFunc opts;
                      Store.Encryption := encryption |} with
  | (w, Err e) => (w, Err (Wrap "failed to create store" e))
  | (w, Ok s) => (w, Ok (s, NewFileServer tt))
  end.

(** What [Start] wires together: the node, the rate limiter, the limiter of
    streams ([None]: a panic), and the discovery manager. *)
Record started := {
  sv_options : list (node_option PrivKey);
  sv_rateLimiter : RateLimiter;
  sv_limiter : Limiter;
  sv_discovery : Manager;
  sv_services : list service;
}.

Definition FileServer_Start (cfg : Config.Config) (f : fs) (generated : result PrivKey)
    (nerrs : node_errors) (serrs : svc_errors) : option (fs * result started) :=
  match NewNode (c_Node cfg) f generated nerrs with
  | (f, Err e) => Some (f, Err e)
  | (f, Ok (opts, _)) =>
      let rl := NewRateLimiter (cfg_Limit (c_RateLimiter cfg)) (cfg_Window (c_RateLimiter cfg))
                  (cfg_TTL (c_RateLimiter cfg)) in
      limiter ← NewLimiter (Concurrency (c_Node cfg));
      let '(m, err, svcs) := Manager_Start (NewManager (DiscoveryConfig (c_Node cfg))) serrs in
      Some (f, match err with
               | Some e => Err e
               | None => Ok {| sv_options := opts; sv_rateLimiter := rl; sv_limiter := limiter;
                               sv_discovery := m; sv_services := svcs |}
               end)
  end.

Definition StartServer (w : world) (cfg : YAMLConfig) (generated : result PrivKey)
    (nerrs : node_errors) (serrs : svc_errors) :
    option (world * result (Store * FileServer unit * started)) :=
  let opts := {| StorageRoot := y_StorageRoot cfg;
                 opts_PathTransformFunc := Some CASPathTransformFunc;
                 LogLevel := y_LogLevel cfg; opts_Config := ToConfig default_peers cfg;
                 opts_Encryption := None |} in
  match NewFileServer_of w opts with
  | (w, Err e) => Some (w, Err (Wrap "failed to create file server" e))
  | (w, Ok (s, fs)) =>
      '(f, r) ← FileServer_Start (opts_Config opts) (w_fs w) generated nerrs serrs;
      Some (set_fs w f, match r with
                        | Err e => Err (Wrap "failed to start node" e)
                        | Ok sv => Ok (s, fs, sv)
                        end)
  end.
End start.

(** ** Waiting *)

(** [WaitForPeers]: the number of peers and when; [count] is
    [GetConnectedPeers] at a time. *)
Fixpoint wait_peers (fuel : nat) (count : time -> Z) (deadline now : time) : option (Z * time) :=
  match fuel with
  | O => None
  | S fuel =>
      if now <? deadline then
        let tick := now + 500 * Millisecond in
        if 0 <? count tick then Some (count tick, tick) else wait_peers fuel count deadline tick
      else Some (count now, now)
  end.

Definition WaitForPeers (fuel : nat) (count : time -> Z) (now : time) (wait : duration) :
    option (Z * time) := wait_peers fuel count (now + wait) now.

(** What a loop over received events comes to. *)
Inductive waited := Got (r : result string) | Panics | Waiting.

(** [WaitForGet]: events of its two channels in the order received, or the text
    of [ctx.Err()] for a context that is done. *)
Fixpoint WaitForGet (key : string) (evs : list (string + Event)) : waited :=
  match evs with
  | [] => Waiting
  | inl ctxErr :: _ =>
      Got (Err (Errorf ("no peer delivered the file within timeout (" +:+ ctxErr +:+ ")")))
  | inr e :: evs =>
      if decide (Event.Type_ e = FileReceiveComplete) then
        match Event.Data e with
        | ReceiveCompleteData k _ => if decide (k = key) then Got (Ok k) else WaitForGet key evs
        | _ => Panics
        end
      else
        match Event.Data e with
        | ReceiveFailedData k err => if decide (k = key) then Got (Err err) else WaitForGet key evs
        | _ => Panics
        end
  end.

(** ** Files *)
Definition GetFileKey (f : fs) (filePath : string) : result string :=
  match os_Stat f filePath with
  | Err e => if os_IsNotExist (Some e) then Err (Errorf ("file does not exist: " +:+ filePath)) else Err e
  | Ok (_, NDir) => Err (Errorf ("cannot get key for a directory: " +:+ filePath))
  | Ok (_, NFile _) => GenerateFileKey f filePath
  end.

Section operations.
Context {S : Type} `{BlobStore S} `{Node} `{Host}.
Context {W : Type} `{Writer W} (open : peer_ID -> string -> result (W * (W -> stream))).
Context (cfg : Protocol.Config).
Implicit Type srv : FileServer S.

(** [peers] is what [ListPeers] returns. *)
Definition StoreLocally srv (f : fs) (peers : list peer_ID) (filePath : string) :
    FileServer S * result StoreResult :=
  match os_Stat f filePath with
  | Err e => (srv, if os_IsNotExist (Some e) then Err (Errorf ("file does not exist: " +:+ filePath))
                   else Err e)
  | Ok (_, NDir) => (srv, Err (Errorf ("cannot store a directory: " +:+ filePath)))
  | Ok (_, NFile _) =>
      match GetFileKey f filePath with
      | Err e => (srv, Err e)
      | Ok key =>
          match StoreFile open cfg srv f peers key filePath 0 with
          | (srv, (_, Some e)) => (srv, Err (Wrap "failed to store file" e))
          | (srv, (_, None)) => (srv, Ok {| st_Key := key |})
          end
      end
  end.

(** [operations.SendFile]; [timeout] and [opts] come from the configuration. *)
Definition op_SendFile (fuel : nat) srv (f : fs) (peers : list peer_ID) (ctx : context) (now : time)
    (timeout : duration) (connOpts : ConnectOpts) (filePath peerAddr : string) (opts : SendOpts) :
    FileServer S * outcome SendResult :=
  match os_Stat f filePath with
  | Err e => (srv, Returns (if os_IsNotExist (Some e) then Err (Errorf ("file does not exist: " +:+ filePath))
                            else Err e) now [])
  | Ok (_, NDir) => (srv, Returns (Err (Errorf ("cannot send a directory: " +:+ filePath))) now [])
  | Ok (_, NFile _) =>
  match GetFileKey f filePath with
  | Err e => (srv, Returns (Err e) now [])
  | Ok key =>
  let '(srv, storeErr) :=
    if HasFile srv key then (srv, None)
    else let '(srv, (_, err)) := StoreFile open cfg srv f peers key filePath 0 in (srv, err) in
  match storeErr with
  | Some e => (srv, Returns (Err (Wrap "failed to store file locally" e)) now [])
  | None =>
      (srv, then_ (ConnectWithHolePunch fuel (WithTimeout ctx now timeout) now peerAddr connOpts)
              (Wrap "failed to connect to peer") (fun targetPeerID now =>
              match (StoreFileToPeerDirect open cfg srv now targetPeerID key (so_Session opts)).2 with
              | None => Returns (Ok {| se_Key := key; se_PeerID := targetPeerID |}) now []
              | Some e =>
                  Returns (Err (if decide (e = ErrRelayedConnection)
                                then Errorf "hole punching failed: no direct connection to peer (only relay available)"
                                else Wrap "failed to send file" e)) now []
              end))
  end end end.

(** [operations.Get]: the broadcast; [msgID] is the new UUID, [order] the peers. *)
Definition Get (fuel : nat) srv (RelayServers : list string) (ctx : context) (now : time)
    (key msgID : string) (order : list peer_ID) : FileServer S * option (list goroutine) :=
  let '(srv, _) := RegisterTransferWaiter srv key in
  match WaitForRelayReservation fuel RelayServers ctx now with
  | Running => (srv, None)
  | Returns _ now _ =>
      (srv, Some (BroadcastGet order
         {| gf_Key := key; gf_MsgID := msgID; gf_TTL := DefaultTTL; gf_RequesterID := node_ID;
            gf_RequesterAddrs := GetNodeAddresses now |}))
  end.

(** [StartReceiveSession]: [serve] is what happens to the server meanwhile. *)
Definition StartReceiveSession srv (sessionName : string) (serve : FileServer S -> FileServer S) :
    FileServer S := ClearSession (serve (SetSession srv sessionName)).
End operations.

(** ** Starting again *)
Section restart.
Context `{AEAD, EntropyLaws, Node, CryptoLaws} (default_peers : list AddrInfo).

Lemma StartServer_again w cfg g nerrs serrs w1 s srv sv w2 g' :
  StartServer default_peers w cfg g nerrs serrs = Some (w1, Ok (s, srv, sv)) ->
  files_kept (w_fs w1) (w_fs w2) ->
  StartServer default_peers w2 cfg g' nerrs serrs = Some (w2, Ok (s, srv, sv))
  /\ srv = NewFileServer tt
  /\ exists k, zlen k = 32 /\ s = Build_Store (y_StorageRoot cfg) CASPathTransformFunc (Some k).
Proof.
  unfold StartServer, NewFileServer_of, NewStore.
  cbn [opts_Encryption default from_option Store.Encryption Enabled StorageRoot Root PathTransformFunc
       opts_PathTransformFunc opts_Config].
  change (if decide (KeyPath {| Enabled := true; KeyPath := "" |} = "") then _ else _)
    with (filepath_Join (y_StorageRoot cfg) ".encryption_key").
  destruct (loadOrCreateEncryptionKey w _) as [w0 [k|]] eqn:Hk; [|done].
  apply loadOrCreate_ok in Hk as [Hlen Hr]. unfold FileServer_Start.
  destruct (NewNode _ (w_fs w0) g nerrs) as [f1 [[opts rel]|]] eqn:Hn; [|done].
  destruct (NewLimiter _) as [lim|]; [|done]. cbn [mbind option_bind].
  destruct (Manager_Start _ _) as [[m [e|]] svcs]; [done|]. cbn [mbind option_bind].
  intros [= <- <- <- <-] Hkept. cbn [w_fs set_fs] in Hkept.
  destruct (NewNode_again _ _ _ _ _ _ (w_fs w2) g' Hn Hkept) as [Hk1 Hn2].
  rewrite (loadOrCreate_again w2 _ k) by auto. rewrite Hn2. cbn.
  split; [by destruct w2|]. split; [done|]. by exists k.
Qed.
End restart.

(** ** Properties *)
Lemma GetFileKey_file f filePath p c :
  os_Stat f filePath = Ok (p, NFile c) -> GetFileKey f filePath = Ok (hex_digest (sha256_Sum c)).
Proof.
  intros Hst. unfold GetFileKey, GenerateFileKey. rewrite Hst.
  destruct (io_Copy_ok _ ([] : bytes) (file_stream c) [] buffer_reliable eq_refl) as (w & r' & -> & -> & _).
  by rewrite rd_bytes_file_stream.
Qed.

Section properties.
Context {S : Type} `{BlobStoreLaws S} `{Node} `{Host}.
Context {W : Type} `{Writer W} (open : peer_ID -> string -> result (W * (W -> stream))).
Context (cfg : Protocol.Config).
Implicit Type srv : FileServer S.

Lemma StoreFile_local srv m f peers key filePath p c :
  holds_map m (fs_store srv) -> os_Stat f filePath = Ok (p, NFile c) ->
  exists srv', StoreFile open cfg srv f peers key filePath 0
    = (srv', if decide (peers = []) then (0, None)
             else (0, Some (Wrap "failed to store file to any peer" (Errorf "<nil>"))))
    /\ holds_map (match m !! slot key with Some _ => m | None => <[slot key := c]> m end) (fs_store srv').
Proof.
  intros Hm Hst.
  assert (forall srv1, (if zlen peers =? 0 then (0, None) else StoreFileToNetwork open cfg srv1 peers key 0)
    = if decide (peers = []) then (0, None)
      else (0, Some (Wrap "failed to store file to any peer" (Errorf "<nil>")))) as Hnet.
  { intros srv1. unfold StoreFileToNetwork. destruct peers as [|q peers]; [done|].
    rewrite decide_False by done. rewrite zlen_cons. pose proof (zlen_nonneg peers).
    destruct (Z.eqb_spec (1 + zlen peers) 0); [lia|]. destruct (Z.ltb_spec (1 + zlen peers) 0); [lia|]. done. }
  unfold StoreFile. rewrite (bs_Has_ok m) by done. case_bool_decide as Hh.
  - exists srv. rewrite Hnet. destruct Hh as [d Hd]. by rewrite Hd.
  - rewrite Hst. destruct (bs_Write_ok m (fs_store srv) key _ _ _ (file_stream c) Hm) as (st & r' & Hw & Hm' & _);
      [done|]. rewrite Hw. exists (with_store srv st). rewrite Hnet. split; [done|].
    rewrite rd_bytes_file_stream in Hm'. destruct (m !! slot key); [by destruct Hh|done].
Qed.

Lemma WriteFileTo_ok srv g key dest c n g1 p :
  bs_Read (fs_store srv) key = Ok (c, n) -> os_Create g dest = (g1, Ok p) ->
  exists g2, WriteFileTo srv g key dest = (g2, None) /\ os_ReadFile g2 dest = Ok c.
Proof.
  intros Hr Hc. unfold WriteFileTo. rewrite Hr, Hc. apply os_Create_ok in Hc as (-> & Hres & Hp).
  destruct (io_Copy_ok (file_rel g p) (File (set_tree g (<[p := NFile []]> (tree g))) p 0)
    (Stream [c] EOF) [] (file_reliable g p)) as (h & r' & Hcopy & Hh & _); [done|].
  rewrite Hcopy. eexists. split; [done|]. unfold file_rel in Hh. cbn [app] in Hh.
  assert (rd_bytes (Stream [c] EOF) = c) as Hb by apply app_nil_r. rewrite Hb in Hh. subst h.
  cbn [f_fs]. unfold os_ReadFile. by rewrite (os_Stat_written g dest p c).
Qed.

(** [C13] What [store] puts in, [get] writes out.  [StoreLocally] of a file stores
    its content under its SHA-256 and changes nothing else in the store; a
    content that is already there stays.  On a server without peers it returns
    the key, and [WriteFileTo] of that key, to any file that can be created,
    leaves exactly the stored content in it. *)
Theorem store_then_get srv m f filePath p c g dest g1 q
    (Hm : holds_map m (fs_store srv)) (Hfile : os_Stat f filePath = Ok (p, NFile c))
    (Hcreate : os_Create g dest = (g1, Ok q)) :
  let key := hex_digest (sha256_Sum c) in
  let m' := match m !! slot key with Some _ => m | None => <[slot key := c]> m end in
  exists srv', StoreLocally open cfg srv f [] filePath = (srv', Ok {| st_Key := key |})
    /\ holds_map m' (fs_store srv')
    /\ exists g2, WriteFileTo srv' g key dest = (g2, None)
                  /\ os_ReadFile g2 dest = Ok (default c (m !! slot key)).
Proof.
  intros key m'. unfold StoreLocally. rewrite Hfile, (GetFileKey_file f filePath p c Hfile).
  destruct (StoreFile_local srv m f [] key filePath p c Hm Hfile) as (srv' & Hs & Hm').
  fold key. rewrite Hs. exists srv'. split; [done|]. split; [done|].
  assert (m' !! slot key = Some (default c (m !! slot key))) as Hk.
  { unfold m'. destruct (m !! slot key) eqn:E; [done|]. apply lookup_insert_eq. }
  apply (WriteFileTo_ok srv' g key dest _ (zlen (default c (m !! slot key))) g1 q); [|done].
  by apply (bs_Read_ok m').
Qed.

(** [C25] Storing locally fails as soon as a peer is connected.  [StoreLocally]
    passes a replication factor of zero, which [StoreFileToNetwork] takes for a
    failure of every peer: with any peer the operation returns an error,
    although no peer was asked and the file has been stored; [SendFile] fails
    the same way, before it connects, if the file was not stored yet. *)
Theorem store_locally_fails_with_peers srv m f peers filePath p c fuel ctx now timeout connOpts addr opts
    (Hm : holds_map m (fs_store srv)) (Hfile : os_Stat f filePath = Ok (p, NFile c))
    (Hpeers : peers <> []) (Hnew : m !! slot (hex_digest (sha256_Sum c)) = None) :
  (exists srv' e, StoreLocally open cfg srv f peers filePath = (srv', Err e)
     /\ holds_map (<[slot (hex_digest (sha256_Sum c)) := c]> m) (fs_store srv'))
  /\ exists srv' e, op_SendFile open cfg fuel srv f peers ctx now timeout connOpts filePath addr opts
       = (srv', Returns (Err e) now []).
Proof.
  set (key := hex_digest (sha256_Sum c)) in *.
  destruct (StoreFile_local srv m f peers key filePath p c Hm Hfile) as (srv' & Hs & Hm').
  rewrite decide_False in Hs by done. rewrite Hnew in Hm'. split.
  - unfold StoreLocally. rewrite Hfile, (GetFileKey_file f filePath p c Hfile). fold key. rewrite Hs. eauto.
  - unfold op_SendFile, HasFile. rewrite Hfile, (GetFileKey_file f filePath p c Hfile). fold key.
    rewrite (bs_Has_ok m), Hnew by done. rewrite bool_decide_false by (by intros []). rewrite Hs. eauto.
Qed.

End properties.

Definition with_encryption (cfg : YAMLConfig) (e : YAMLEncryptionConfig) : YAMLConfig :=
  {| y_StorageRoot := y_StorageRoot cfg; y_LogFile := y_LogFile cfg; y_LogLevel := y_LogLevel cfg;
     y_PeerWait := y_PeerWait cfg; y_Timeout := y_Timeout cfg; y_Node := y_Node cfg;
     y_Protocol := y_Protocol cfg; y_RateLimiter := y_RateLimiter cfg; y_Encryption := e |}.

(** The encryption settings have no effect: whatever [encryption.enabled]
    and [encryption.key_path] say, the server starts in the same way; if it
    starts its store is encrypted, with the key kept in the storage root. *)
Theorem encryption_settings_ignored `{AEAD, Entropy, Node, Crypto} default_peers w cfg e generated nerrs serrs :
  StartServer default_peers w (with_encryption cfg e) generated nerrs serrs
    = StartServer default_peers w cfg generated nerrs serrs
  /\ forall w' s fs sv, StartServer default_peers w cfg generated nerrs serrs = Some (w', Ok (s, fs, sv)) ->
     s_Root s = y_StorageRoot cfg /\ exists key, encryptionKey s = Some key
     /\ (loadOrCreateEncryptionKey w (filepath_Join (y_StorageRoot cfg) ".encryption_key")).2 = Ok key.
Proof.
  split; [done|]. intros w' s fs sv. unfold StartServer, NewFileServer_of, NewStore.
  cbn [opts_Encryption default from_option Store.Encryption Enabled StorageRoot Root].
  change (if decide (KeyPath {| Enabled := true; KeyPath := "" |} = "") then _ else _)
    with (filepath_Join (y_StorageRoot cfg) ".encryption_key").
  destruct (loadOrCreateEncryptionKey _ _) as [w1 [k|]]; [|done].
  destruct (FileServer_Start _ _ _ _ _) as [[f [r|]]|]; [|done..]. cbn. intros [= <- <- <- <-]. eauto.
Qed.

(** ** Witnesses *)
Import Toy ToyStore ToyCrypto.

#[local] Instance no_host : Host := {| host_NewStream _ _ := Err (Errorf "no route") |}.
Definition no_open : peer_ID -> string -> result (bytes * (bytes -> stream)) :=
  fun _ _ => Err (Errorf "no route").
Definition toy_files : fs := FS {[ ["a.txt"] := NFile [x62; x63] ]} [].

Lemma store_then_get_witness :
  exists srv' key g2,
    StoreLocally no_open Protocol.DefaultConfig toy_server toy_files [] "a.txt"
      = (srv', Ok {| st_Key := key |})
    /\ WriteFileTo srv' (FS ∅ []) key "out.txt" = (g2, None) /\ os_ReadFile g2 "out.txt" = Ok [x62; x63].
Proof.
  destruct (os_Create (FS ∅ []) "out.txt") as [g1 [q|]] eqn:Hc; [|discriminate Hc].
  destruct (store_then_get no_open Protocol.DefaultConfig toy_server {[ "k" := [x61] ]} toy_files
    "a.txt" ["a.txt"] [x62; x63] (FS ∅ []) "out.txt" g1 q) as (srv' & Hs & _ & g2 & Hw & Hr).
  - reflexivity.
  - vm_compute. reflexivity.
  - exact Hc.
  - exists srv', (hex_digest (sha256_Sum [x62; x63])), g2. split; [exact Hs|]. split; [exact Hw|].
    rewrite Hr. vm_compute. reflexivity.
Defined.

Lemma store_locally_fails_with_peers_witness :
  exists srv' e,
    StoreLocally no_open Protocol.DefaultConfig toy_server toy_files ["p"] "a.txt"
      = (srv', Err e)
    /\ holds_map (<[slot (hex_digest (sha256_Sum [x62; x63])) := [x62; x63]]> {[ "k" := [x61] ]})
         (fs_store srv').
Proof.
  destruct (store_locally_fails_with_peers no_open Protocol.DefaultConfig toy_server
    {[ "k" := [x61] ]} toy_files ["p"] "a.txt" ["a.txt"] [x62; x63] 5 None 0 Second
    {| HolePunchWait := 0 |} "addr" {| so_Session := "" |}) as [(srv' & e & Hs & Hm) _].
  - reflexivity.
  - vm_compute. reflexivity.
  - discriminate.
  - vm_compute. reflexivity.
  - exists srv', e. split; [exact Hs|exact Hm].
Defined.

Lemma encryption_settings_ignored_witness :
  let cfg := DefaultYAMLConfig [] in
  let nerrs := {| ConnManager_err := None; ResourceManager_err := None; libp2p_New_err := None;
                  relay_New_err := None |} in
  let serrs := {| mdns_err := None; dht_new_err := None; dht_boot_err := None |} in
  exists w s fs sv,
    StartServer [] (World (FS ∅ []) 0) (with_encryption cfg {| y_Enabled := false; y_KeyPath := "k" |})
      (toy_generated x61) nerrs serrs = Some (w, Ok (s, fs, sv))
    /\ exists key, encryptionKey s = Some key.
Proof.
  intros cfg nerrs serrs.
  destruct (encryption_settings_ignored [] (World (FS ∅ []) 0) cfg {| y_Enabled := false; y_KeyPath := "k" |}
    (toy_generated x61) nerrs serrs) as [Heq Hs].
  assert (match StartServer [] (World (FS ∅ []) 0) cfg (toy_generated x61) nerrs serrs with
          | Some (_, Ok _) => true | _ => false end = true) as Hok by (vm_compute; reflexivity).
  destruct (StartServer [] (World (FS ∅ []) 0) cfg (toy_generated x61) nerrs serrs)
    as [[w [[[s fs] sv]|]]|]; [|discriminate Hok..].
  exists w, s, fs, sv. split; [exact Heq|]. destruct (Hs w s fs sv eq_refl) as (_ & key & Hk & _).
  exists key. exact Hk.
Defined.
