(* ===== verification/Daemon.v ===== *)
(** The daemon and the receive session (src/pkg/operations/daemon.go,
    receive.go): subscriptions on the bus and the loops that pass the events
    received to a callback.

    A loop is a function of what its [select] picks, in order; [picks] takes that
    from a run of the bus ([Event.trace]), so that the theorems speak about the
    events that publishers send.  [daemon_step] is the bus with [RunDaemon] on it:
    the channels it subscribes are received from by its loop alone, if that was
    started.  The callback says whether it returns; [false] is a panic, which ends
    the process. *)
From S2P Require Import Prelude Event Encryption Store FileServer Discovery NodeSetup Config Operations Lifecycle.

(** ** The loops *)
Inductive selected := CtxDone | FromCh (e : Event) (ok : bool).
Inductive daemon_end := DaemonStopped | DaemonWaiting | DaemonCrashed.

Abbreviation callback := (Event -> bool).

(** A call, and what follows if it returns. *)
Definition call (onEvent : callback) (e : Event) (rest : list Event * daemon_end) : list Event * daemon_end :=
  if onEvent e then (e :: rest.1, rest.2) else ([e], DaemonCrashed).

(** The goroutine of [RunDaemon]. *)
Fixpoint run_daemon_loop (onEvent : callback) (ins : list selected) : list Event * daemon_end :=
  match ins with
  | [] => ([], DaemonWaiting)
  | CtxDone :: _ => ([], DaemonStopped)
  | FromCh e ok :: ins =>
      if ok then call onEvent e (run_daemon_loop onEvent ins) else run_daemon_loop onEvent ins
  end.

(** The goroutine of [StartDaemon]. *)
Fixpoint start_daemon_loop (onEvent : option callback) (ins : list selected) : list Event * daemon_end :=
  match ins with
  | [] => ([], DaemonWaiting)
  | CtxDone :: _ => ([], DaemonStopped)
  | FromCh e ok :: ins =>
      match onEvent with
      | Some f => if ok then call f e (start_daemon_loop onEvent ins) else start_daemon_loop onEvent ins
      | None => start_daemon_loop onEvent ins
      end
  end.

(** The loop of [StartReceiveSession], which does not look at [ok]. *)
Fixpoint receive_loop (onEvent : callback) (ins : list selected) : list Event * daemon_end :=
  match ins with
  | [] => ([], DaemonWaiting)
  | CtxDone :: _ => ([], DaemonStopped)
  | FromCh e _ :: ins => call onEvent e (receive_loop onEvent ins)
  end.

(** ** The subscriptions *)
Definition daemon_types : list EventType := [GetReceived; GetDelivering; GetDelivered].
Definition receive_types : list EventType :=
  [FileReceiveStarted; FileReceiveProgress; FileReceiveComplete; FileReceiveFailed].

(** One [Subscribe] after the other. *)
Fixpoint subscribe_all (b : Bus) (tys : list EventType) : Bus * list (EventType * chan) :=
  match tys with
  | [] => (b, [])
  | ty :: tys =>
      let '(b, ch) := Subscribe b ty in
      let '(b, l) := subscribe_all b tys in (b, (ty, ch) :: l)
  end.

(** The deferred [Unsubscribe]s, the last one first. *)
Definition unsubscribe_all (b : Bus) (l : list (EventType * chan)) : Bus :=
  foldr (fun tc b => Unsubscribe b tc.1 tc.2) b l.

(** What the [select] over the channels [chs] picks in a run of the bus. *)
Definition picks (chs : list chan) (ls : list label) : list selected :=
  omap (fun l => match l with Recv ch e => if decide (ch ∈ chs) then Some (FromCh e true) else None
                            | _ => None end) ls.

(** [RunDaemon]: without a callback no goroutine is started and nobody receives. *)
Definition RunDaemon_loop (onEvent : option callback) (ins : list selected) : option (list Event * daemon_end) :=
  option_map (fun f => run_daemon_loop f ins) onEvent.

Definition RunDaemon `{AEAD, Entropy, Node, Crypto} default_peers (w : world) (cfg : YAMLConfig) generated
    nerrs serrs (onEvent : option callback) (ins : list selected) dht_close :
    option (world * result (option (list Event * daemon_end) * Manager)) :=
  '(w, r) ← StartServer default_peers w cfg generated nerrs serrs;
  Some (w, match r with
           | Err e => Err e
           | Ok (_, _, sv) => Ok (RunDaemon_loop onEvent ins, FileServer_Stop (sv_discovery sv) dht_close)
           end).

(** ** Lemmas *)
Definition calls_of (ins : list selected) : list Event :=
  omap (fun i => match i with FromCh e _ => Some e | CtxDone => None end) ins.

Lemma start_daemon_calls f chs ls :
  (forall e, f e = true) -> (start_daemon_loop (Some f) (picks chs ls)).1 = calls_of (picks chs ls).
Proof.
  intros Hf. induction ls as [|[|x e|x e|] ls IH]; cbn; try done. unfold picks in *.
  case_decide; cbn; [|done]. unfold call. rewrite Hf. cbn. by rewrite IH.
Qed.

Lemma subscribe_all_spec tys b b' l :
  bus_ok b -> subscribe_all b tys = (b', l) ->
  bus_ok b' /\ l.*1 = tys /\ l.*2 = seq (next_chan b) (length tys)
  /\ (next_chan b' = next_chan b + length tys)%nat
  /\ (forall ch, (ch < next_chan b)%nat -> chan_buf b' ch = chan_buf b ch)
  /\ (forall ch, (next_chan b <= ch)%nat -> chan_buf b' ch = [])
  /\ (forall ty ch, ch ∈ subs b' ty <-> ch ∈ subs b ty \/ (ty, ch) ∈ l).
Proof.
  revert b b' l. induction tys as [|ty tys IH]; intros b b' l Hb; cbn [subscribe_all].
  { intros [= <- <-]. split; [done|]. do 2 (split; [done|]). split; [cbn; lia|]. split; [done|]. split.
    - intros ch Hle. unfold chan_buf. by rewrite (ok_fresh _ Hb).
    - intros t ch. split; [by left|]. by intros [|?%elem_of_nil]. }
  pose proof (Subscribe_ok b ty Hb) as Hb1. destruct (Subscribe b ty) as [b1 ch1] eqn:Es. cbn [fst] in Hb1.
  destruct (subscribe_all b1 tys) as [b2 l2] eqn:Ea. intros [= <- <-].
  destruct (IH _ _ _ Hb1 Ea) as (H1 & H2 & H3 & H4 & H5 & H6 & H7). injection Es as Eb1 Ech.
  assert (next_chan b1 = S (next_chan b)) as En by (by rewrite <-Eb1). subst ch1.
  split; [done|]. cbn [fmap list_fmap length seq fst snd]. rewrite H2, H3, En in *.
  do 2 (split; [done|]). split; [lia|]. split; [|split].
  - intros ch Hlt. rewrite H5 by lia. rewrite <-Eb1. unfold chan_buf. cbn. by rewrite lookup_insert_ne by lia.
  - intros ch Hle. destruct (decide (ch = next_chan b)) as [->|]; [|apply H6; lia].
    rewrite H5 by lia. rewrite <-Eb1. unfold chan_buf. cbn. by rewrite lookup_insert_eq.
  - intros t ch. rewrite H7, elem_of_cons, <-Eb1, subs_insert.
    case_decide as Ht; [subst t; rewrite elem_of_app, list_elem_of_singleton|]; naive_solver.
Qed.

(** The events that the loop is called with and that came from [ch]. *)
Lemma picks_by_type chs ls ch ty :
  ch ∈ chs -> (forall e, e ∈ received_on ch ls -> Type_ e = ty) ->
  (forall x e, x ∈ chs -> x <> ch -> e ∈ received_on x ls -> Type_ e <> ty) ->
  filter (fun e => Type_ e = ty) (calls_of (picks chs ls)) = received_on ch ls.
Proof.
  intros Hch. induction ls as [|l ls IH]; [done|]. intros Hty Hoth.
  assert (filter (fun e => Type_ e = ty) (calls_of (picks chs ls)) = received_on ch ls) as IH'.
  { apply IH.
    - intros e He. apply Hty. unfold received_on in *. cbn. case_match; [by right|done].
    - intros x e Hx Hne He. apply (Hoth x e Hx Hne). unfold received_on in *. cbn. case_match; [by right|done]. }
  clear IH. unfold calls_of, picks, received_on in *. destruct l as [|x e|x e|]; try done.
  cbn [omap list_omap]. destruct (decide (x = ch)) as [->|Hne].
  - rewrite decide_True by done. cbn [omap list_omap]. rewrite filter_cons_True; [by f_equal|].
    apply Hty. cbn. rewrite decide_True by done. by left.
  - destruct (decide (x ∈ chs)) as [Hx|]; [|done]. cbn [omap list_omap]. rewrite filter_cons_False; [done|].
    apply (Hoth x e Hx Hne). cbn. rewrite decide_True by done. by left.
Qed.

Lemma run_daemon_calls f chs ls :
  (forall e, f e = true) -> (run_daemon_loop f (picks chs ls)).1 = calls_of (picks chs ls).
Proof.
  intros Hf. induction ls as [|[|x e|x e|] ls IH]; cbn; try done. unfold picks in *.
  case_decide; cbn; [|done]. unfold call. rewrite Hf. cbn. by rewrite IH.
Qed.

Lemma receive_calls f chs ls :
  (forall e, f e = true) -> (receive_loop f (picks chs ls)).1 = calls_of (picks chs ls).
Proof.
  intros Hf. induction ls as [|[|x e|x e|] ls IH]; cbn; try done. unfold picks in *.
  case_decide; cbn; [|done]. unfold call. rewrite Hf. cbn. by rewrite IH.
Qed.

(** A fresh subscription belongs to one type. *)
Lemma subscribe_all_type tys b b' l ty ch ty' :
  NoDup tys -> bus_ok b -> subscribe_all b tys = (b', l) -> (ty, ch) ∈ l ->
  (next_chan b <= ch < next_chan b')%nat /\ (ch ∈ subs b' ty' -> ty' = ty)
  /\ forall ch', (ty, ch') ∈ l -> ch' = ch.
Proof.
  intros Hnd Hb Hs Hin. destruct (subscribe_all_spec _ _ _ _ Hb Hs) as (Hb' & H1 & H2 & H3 & _ & _ & H7).
  assert (ch ∈ l.*2) as Hch by (apply list_elem_of_fmap; by exists (ty, ch)).
  rewrite H2, elem_of_seq in Hch. split; [lia|].
  assert (NoDup l.*2) as Hnd2 by (rewrite H2; apply NoDup_seq). assert (NoDup l.*1) as Hnd1 by (by rewrite H1).
  split.
  - intros [Hold|Hl]%H7; [apply subs_lt in Hold; [lia|done]|].
    apply list_elem_of_lookup in Hin as [i Hi], Hl as [j Hj].
    assert (i = j) as <-; [|congruence]. eapply NoDup_lookup; [exact Hnd2| |];
      rewrite list_lookup_fmap; [by rewrite Hi|by rewrite Hj].
  - intros ch' Hl. apply list_elem_of_lookup in Hin as [i Hi], Hl as [j Hj].
    assert (i = j) as <-; [|congruence]. eapply NoDup_lookup; [exact Hnd1| |];
      rewrite list_lookup_fmap; [by rewrite Hi|by rewrite Hj].
Qed.

(** What was sent on a fresh subscription: what was received, then what waits. *)
Lemma subscription_fifo tys b ths ls c' b' l ty ch :
  NoDup tys -> bus_ok b -> subscribe_all b tys = (b', l) -> config_ok {| bus := b'; threads := ths |} ->
  trace {| bus := b'; threads := ths |} ls c' -> (ty, ch) ∈ l ->
  sent_on ch ls = received_on ch ls ++ chan_buf (bus c') ch /\ Forall (fun e => Type_ e = ty) (sent_on ch ls).
Proof.
  intros Hnd Hb Hs Hc Ht Hin. destruct (subscribe_all_spec _ _ _ _ Hb Hs) as (Hb' & _ & _ & _ & _ & H6 & _).
  destruct (subscribe_all_type _ _ _ _ _ _ ty Hnd Hb Hs Hin) as (Hr & _ & _). split.
  - pose proof (trace_bufs _ _ _ ch Hc Ht) as Hf. cbn in Hf. by rewrite H6 in Hf by lia.
  - apply (trace_types {| bus := b'; threads := ths |} ls c' ch ty Hc); [cbn; lia| |done]. intros ty' Hty'.
    by apply (subscribe_all_type _ _ _ _ _ _ ty' Hnd Hb Hs Hin).
Qed.

Lemma calls_fifo tys b ths ls c' b' l ty ch :
  NoDup tys -> bus_ok b -> subscribe_all b tys = (b', l) -> config_ok {| bus := b'; threads := ths |} ->
  trace {| bus := b'; threads := ths |} ls c' -> (ty, ch) ∈ l ->
  sent_on ch ls = filter (fun e => Type_ e = ty) (calls_of (picks l.*2 ls)) ++ chan_buf (bus c') ch.
Proof.
  intros Hnd Hb Hs Hc Ht Hin.
  assert (forall t x e, (t, x) ∈ l -> e ∈ received_on x ls -> Type_ e = t) as Hty.
  { intros t x e Hx He. destruct (subscription_fifo _ _ _ _ _ _ _ _ _ Hnd Hb Hs Hc Ht Hx) as [Hf Ha].
    rewrite Forall_forall in Ha. apply Ha. rewrite Hf. apply elem_of_app. by left. }
  rewrite (picks_by_type _ _ ch ty).
  - by apply (subscription_fifo tys b ths ls c' b' l ty ch).
  - apply list_elem_of_fmap. by exists (ty, ch).
  - intros e. by apply Hty.
  - intros x e ([t y] & -> & Hx)%list_elem_of_fmap Hne He <-. cbn in *.
    rewrite (Hty _ _ _ Hx He) in Hin. apply Hne.
    by apply (subscribe_all_type _ _ _ _ _ _ t Hnd Hb Hs Hin).
Qed.

(** ** Properties *)

(** The loops, with the types they subscribe to. *)
Inductive event_loop (f : callback) : list EventType -> (list selected -> list Event * daemon_end) -> Prop :=
| loop_RunDaemon : event_loop f daemon_types (run_daemon_loop f)
| loop_StartDaemon : event_loop f daemon_types (start_daemon_loop (Some f))
| loop_StartReceiveSession : event_loop f receive_types (receive_loop f).

(** [C11] The daemon and the receive session see everything.  However publishers,
    other subscribers and the loop interleave after the subscriptions, and as
    long as the callback returns: for each of the types the loop subscribed to,
    the events sent on its channel are exactly those the callback was called
    with, in the order in which they were sent, followed by those that still
    wait; none is lost and none is passed on twice. *)
Theorem loops_forward_everything f tys loop b ths ls c' b' l ty ch
    (Hl : event_loop f tys loop) (Hf : forall e, f e = true) (Hb : bus_ok b)
    (Hs : subscribe_all b tys = (b', l)) (Hc : config_ok {| bus := b'; threads := ths |})
    (Ht : trace {| bus := b'; threads := ths |} ls c') (Hin : (ty, ch) ∈ l) :
  sent_on ch ls = filter (fun e => Type_ e = ty) (loop (picks l.*2 ls)).1 ++ chan_buf (bus c') ch.
Proof.
  assert (NoDup tys) as Hnd by (destruct Hl; apply (bool_decide_unpack _); vm_compute; exact I).
  rewrite (calls_fifo tys b ths ls c' b' l ty ch) by done. do 2 f_equal. symmetry.
  destruct Hl; [by apply run_daemon_calls|by apply start_daemon_calls|by apply receive_calls].
Qed.

(** *** [RunDaemon] among the goroutines of the bus

    The channels [chs] that [RunDaemon] subscribes are local to it: only its loop
    receives from them, if there is one.  Everybody else does as before, and so
    does [RunDaemon] itself when its context ends and it unsubscribes. *)
Inductive daemon_step (onEvent : option callback) (chs : list chan) : config -> label -> config -> Prop :=
| loop_receives c ch e c' : RunDaemon_loop onEvent [FromCh e true] <> None -> ch ∈ chs ->
    step c (Recv ch e) c' -> daemon_step onEvent chs c (Recv ch e) c'
| others_move c l c' : step c l c' -> (forall ch e, l = Recv ch e -> ch ∉ chs) ->
    daemon_step onEvent chs c l c'.

Inductive daemon_trace (onEvent : option callback) (chs : list chan) : config -> list label -> config -> Prop :=
| daemon_nil c : daemon_trace onEvent chs c [] c
| daemon_cons c l c1 ls c2 : daemon_step onEvent chs c l c1 -> daemon_trace onEvent chs c1 ls c2 ->
    daemon_trace onEvent chs c (l :: ls) c2.

Lemma daemon_trace_trace onEvent chs c ls c' : daemon_trace onEvent chs c ls c' -> trace c ls c'.
Proof. induction 1 as [c|c l c1 ls c2 Hst _ IH]; [constructor|]. eapply trace_cons; [by destruct Hst|done]. Qed.

Lemma daemon_trace_app onEvent chs c ls c1 ls' c2 :
  daemon_trace onEvent chs c ls c1 -> daemon_trace onEvent chs c1 ls' c2 ->
  daemon_trace onEvent chs c (ls ++ ls') c2.
Proof. induction 1; [done|]. cbn. eauto using daemon_trace. Qed.

(** A step that receives nothing. *)
Lemma quiet_step chs c l c' ls c2 :
  step c l c' -> (forall ch e, l <> Recv ch e) -> daemon_trace None chs c' ls c2 ->
  daemon_trace None chs c (l :: ls) c2.
Proof. intros Hst Hl. apply daemon_cons. apply others_move; [done|]. intros ch e E. by destruct (Hl ch e). Qed.

(** Without a callback nothing is received. *)
Lemma no_callback_no_receive chs c ls c' ch e :
  daemon_trace None chs c ls c' -> ch ∈ chs -> Recv ch e ∉ ls.
Proof.
  intros Ht Hch. induction Ht as [c|c l c1 ls c2 Hst _ IH]; [apply not_elem_of_nil|].
  intros [Hl|]%elem_of_cons; [|done]. destruct Hst as [c x y c' Hloop _ _|c l c' _ Hno]; [by destruct Hloop|].
  by apply (Hno ch e).
Qed.

Lemma not_received ch ls : (forall e, Recv ch e ∉ ls) -> received_on ch ls = [].
Proof.
  intros Hno. destruct (received_on ch ls) as [|e es] eqn:E; [done|]. exfalso.
  assert (e ∈ received_on ch ls) as He by (rewrite E; left). unfold received_on in He.
  apply list_elem_of_omap in He as ([|x ?|x ?|] & Hx & He); try done. case_decide; [|done]. subst x.
  by apply (Hno _ Hx).
Qed.

(** The channel [ch], the only one subscribed to the type of [e], holds [es]. *)
Definition filled (c : config) (t : nat) (e : Event) (ch : chan) (es : list Event) : Prop :=
  threads c !! t = Some Idle /\ subs (bus c) (Type_ e) = [ch]
  /\ channels (bus c) !! ch = Some {| buf := es; closed := false |}.

(** One call of [Publish] while there is room, and the one that finds none. *)
Lemma publish_once chs c t e ch es :
  filled c t e ch es -> (length es < chan_cap)%nat ->
  exists ls c', daemon_trace None chs c ls c' /\ sent_on ch ls = [e] /\ filled c' t e ch (es ++ [e]).
Proof.
  intros (Ht & Hs & Hc) Hlen. set (b := set_channel (bus c) ch {| buf := es ++ [e]; closed := false |}).
  exists [Tau; Tau; Snd ch e; Tau], (upd (upd (upd (upd c (bus c) t (AtPublish e)) (bus c) t
    (Publishing e (subs (bus c) (Type_ e)))) b t (Publishing e [])) b t Idle).
  split; [|split].
  - eapply quiet_step; [by apply (step_call _ t (AtPublish e))|done|].
    eapply quiet_step; [apply (step_rlock _ t e); apply lookup_insert_eq|done|].
    eapply quiet_step; [apply (step_send _ t e ch []); [cbn; by rewrite Hs, lookup_insert_eq|]|done|].
    { unfold send. cbn. rewrite Hc. cbn [closed buf]. by rewrite decide_True. }
    eapply quiet_step; [apply (step_runlock _ t e); apply lookup_insert_eq|done|]. apply daemon_nil.
  - cbn. by rewrite decide_True.
  - split; [apply lookup_insert_eq|]. split; [exact Hs|]. apply lookup_insert_eq.
Qed.

Lemma publish_full chs c t e ch es :
  filled c t e ch es -> exists ls c', daemon_trace None chs c ls c' /\ sent_on ch ls = []
    /\ threads c' !! t = Some (Publishing e [ch]).
Proof.
  intros (Ht & Hs & _). eexists [Tau; Tau], _. split; [|split; [done|]].
  - eapply quiet_step; [by apply (step_call _ t (AtPublish e))|done|].
    eapply quiet_step; [apply (step_rlock _ t e); apply lookup_insert_eq|done|]. apply daemon_nil.
  - cbn. by rewrite Hs, lookup_insert_eq.
Qed.

Lemma publish_many chs c t e ch n es :
  filled c t e ch es -> (length es + n <= chan_cap)%nat ->
  exists ls c', daemon_trace None chs c ls c' /\ sent_on ch ls = replicate n e
    /\ filled c' t e ch (es ++ replicate n e).
Proof.
  revert c es. induction n as [|n IH]; intros c es Hf Hlen.
  { exists [], c. split; [constructor|]. by rewrite app_nil_r. }
  destruct (publish_once chs c t e ch es Hf) as (ls1 & c1 & Ht1 & Hs1 & Hf1); [lia|].
  destruct (IH c1 (es ++ [e]) Hf1) as (ls2 & c2 & Ht2 & Hs2 & Hf2); [rewrite length_app; cbn; lia|].
  exists (ls1 ++ ls2), c2. split; [by eapply daemon_trace_app|]. split.
  - unfold sent_on in *. by rewrite omap_app, Hs1, Hs2.
  - by rewrite <-app_assoc in Hf2.
Qed.

(** The only subscriber. *)
Lemma subscribed_alone tys b b' l ty ch :
  NoDup tys -> bus_ok b -> subscribe_all b tys = (b', l) -> (ty, ch) ∈ l -> subs b ty = [] ->
  subs b' ty = [ch] /\ channels b' !! ch = Some {| buf := []; closed := false |}.
Proof.
  intros Hnd Hb Hs Hin Hno. destruct (subscribe_all_spec _ _ _ _ Hb Hs) as (Hb' & _ & _ & _ & _ & H6 & H7).
  destruct (subscribe_all_type _ _ _ _ _ _ ty Hnd Hb Hs Hin) as (Hr & _ & Huniq).
  assert (forall x, x ∈ subs b' ty <-> x = ch) as Hsub.
  { intros x. rewrite H7, Hno, elem_of_nil. split; [intros [[]|Hx]; by apply Huniq|]. intros ->. by right. }
  destruct (ok_open _ Hb' ty ch) as [d Hd]; [by apply Hsub|]. split.
  - pose proof (ok_nodup _ Hb' ty) as Hnd'. destruct (subs b' ty) as [|x [|y r]].
    + by destruct (not_elem_of_nil ch); apply Hsub.
    + f_equal. apply Hsub. by left.
    + apply NoDup_cons in Hnd' as [Hx _]. exfalso. apply Hx.
      rewrite (proj1 (Hsub x)) by by left. rewrite (proj1 (Hsub y)) by (right; by left). by left.
  - specialize (H6 ch ltac:(lia)). unfold chan_buf in H6. rewrite Hd in H6. cbn in H6. by rewrite Hd, H6.
Qed.

(** [C39] [RunDaemon] without a callback blocks the server.  It subscribes to the
    three types of GET events and starts no loop.  In every run from there, at
    most ten events are ever sent on each of its channels; once ten have been,
    the goroutine of the server that is to send the eleventh waits there in every
    continuation of the run, and so does every goroutine that subscribes or
    unsubscribes, [RunDaemon]'s own deferred [Unsubscribe] and the [Stop] behind it
    included.  And this happens: a goroutine that publishes eleven events of such
    a type, to which nobody else is subscribed, sends ten and waits. *)
Theorem RunDaemon_without_callback_blocks b ths b' l ty ch
    (Hb : bus_ok b) (Hs : subscribe_all b daemon_types = (b', l)) (Hin : (ty, ch) ∈ l)
    (Hc : config_ok {| bus := b'; threads := ths |}) :
  let run := daemon_trace None l.*2 in
  (forall ls c, run {| bus := b'; threads := ths |} ls c ->
     (length (sent_on ch ls) <= 10)%nat
     /\ (length (sent_on ch ls) = 10%nat -> forall t e todo, threads c !! t = Some (Publishing e (ch :: todo)) ->
         forall ls' c', run c ls' c' ->
           stuck c' t ch
           /\ forall u th, threads c !! u = Some th -> wants_table th = true -> threads c' !! u = Some th))
  /\ (forall t e, ths !! t = Some Idle -> Type_ e = ty -> subs b ty = [] ->
      exists ls c, run {| bus := b'; threads := ths |} ls c /\ sent_on ch ls = replicate 10 e
        /\ threads c !! t = Some (Publishing e [ch])).
Proof.
  intros run. assert (NoDup daemon_types) as Hnd by (apply (bool_decide_unpack _); vm_compute; exact I).
  assert (ch ∈ l.*2) as Hch by (apply list_elem_of_fmap; by exists (ty, ch)). split.
  - intros ls c Ht. pose proof (daemon_trace_trace _ _ _ _ _ Ht) as Htr.
    destruct (subscription_fifo _ _ _ _ _ _ _ _ _ Hnd Hb Hs Hc Htr Hin) as [-> _].
    rewrite not_received by (intros e; by eapply no_callback_no_receive). cbn [app].
    destruct (trace_ok _ _ _ Hc Htr) as [[Hb' Hp] _]. unfold chan_buf. split.
    + destruct (channels (bus c) !! ch) as [x|] eqn:Ex; [|cbn; lia]. by apply (ok_cap _ Hb') in Ex.
    + intros Hlen t e todo Hpub ls' c' Ht'.
      destruct (ok_open _ Hb' (Type_ e) ch) as [d Hd]; [apply (Hp t e (ch :: todo) Hpub); by left|].
      rewrite Hd in Hlen. apply (stuck_trace c ls'); [by exists e, todo, d|by eapply daemon_trace_trace|].
      intros x. by eapply no_callback_no_receive.
  - intros t e Ht <- Hno. destruct (subscribed_alone _ _ _ _ _ _ Hnd Hb Hs Hin Hno) as [Hsub Hopen].
    destruct (publish_many l.*2 {| bus := b'; threads := ths |} t e ch 10 []) as (ls1 & c1 & Ht1 & Hs1 & Hf1);
      [done|done|].
    destruct (publish_full l.*2 c1 t e ch _ Hf1) as (ls2 & c2 & Ht2 & Hs2 & Hw).
    exists (ls1 ++ ls2), c2. split; [by eapply daemon_trace_app|]. split; [|done].
    unfold sent_on in *. by rewrite omap_app, Hs1, Hs2, app_nil_r.
Qed.

(** ** Witnesses *)

(** The daemon's three channels, and one publisher of GET events. *)
Definition daemon_bus : Bus := (subscribe_all NewBus daemon_types).1.
Definition daemon_subs : list (EventType * chan) := (subscribe_all NewBus daemon_types).2.
Definition get_event : Event :=
  {| Type_ := GetReceived; RequestID := ""; Event.Data := GetReceivedData "m" "k" 3 |}.
Definition one_publisher (b : Bus) (th : thread) : config := {| bus := b; threads := {[ 1%nat := th ]} |}.

(** A GET event is published and received. *)
Definition get_sent : Bus := match send daemon_bus get_event 0 with Sent b => b | _ => daemon_bus end.
Definition get_run : list label := [Tau; Tau; Snd 0 get_event; Tau; Recv 0 get_event].

Lemma publisher_upd b th b' th' : upd (one_publisher b th) b' 1 th' = one_publisher b' th'.
Proof. unfold upd, one_publisher. cbn [threads]. by rewrite insert_singleton_eq. Qed.

Lemma publisher_ok b th : bus_ok b -> publishing th = false -> config_ok (one_publisher b th).
Proof.
  intros Hb Hth. split; [done|]. intros t evt todo Ht. cbn in Ht.
  apply lookup_singleton_Some in Ht as [_ ->]. done.
Qed.

Lemma daemon_bus_ok : bus_ok daemon_bus.
Proof.
  apply (subscribe_all_spec daemon_types NewBus daemon_bus daemon_subs); [apply NewBus_ok|].
  apply surjective_pairing.
Qed.

Lemma get_trace : trace (one_publisher daemon_bus Idle) get_run (one_publisher daemon_bus Idle).
Proof.
  eapply trace_cons; [apply (step_call _ 1%nat (AtPublish get_event)); reflexivity|]. rewrite publisher_upd.
  eapply trace_cons; [apply (step_rlock _ 1%nat get_event); reflexivity|]. rewrite publisher_upd.
  eapply trace_cons; [apply (step_send _ 1%nat get_event 0%nat [] get_sent); reflexivity|]. rewrite publisher_upd.
  eapply trace_cons; [apply (step_runlock _ 1%nat get_event); reflexivity|]. rewrite publisher_upd.
  eapply trace_cons; [apply (step_receive _ 0%nat get_event daemon_bus); vm_compute; reflexivity|]. apply trace_nil.
Qed.

Lemma loops_forward_everything_witness :
  sent_on 0 get_run
  = filter (fun e => Type_ e = GetReceived) (start_daemon_loop (Some (fun _ => true)) (picks [0; 1; 2]%nat get_run)).1
    ++ [].
Proof.
  exact (loops_forward_everything (fun _ => true) daemon_types _ NewBus {[ 1%nat := Idle ]} get_run
    (one_publisher daemon_bus Idle) daemon_bus daemon_subs GetReceived 0
    (loop_StartDaemon _) (fun _ => eq_refl) NewBus_ok (surjective_pairing _)
    (publisher_ok _ Idle daemon_bus_ok eq_refl) get_trace (list_elem_of_here _ _)).
Defined.

(** Eleven GET events, and what becomes of the publisher. *)
Lemma RunDaemon_without_callback_blocks_witness :
  exists ls c, daemon_trace None [0; 1; 2]%nat (one_publisher daemon_bus Idle) ls c
    /\ sent_on 0 ls = replicate 10 get_event
    /\ forall ls' c', daemon_trace None [0; 1; 2]%nat c ls' c' -> stuck c' 1 0.
Proof.
  destruct (RunDaemon_without_callback_blocks NewBus {[ 1%nat := Idle ]} daemon_bus daemon_subs GetReceived 0
    NewBus_ok (surjective_pairing _) (list_elem_of_here _ _) (publisher_ok _ Idle daemon_bus_ok eq_refl))
    as [Hall Hrun].
  destruct (Hrun 1%nat get_event) as (ls & c & Ht & Hs & Hw); [reflexivity|reflexivity|reflexivity|].
  exists ls, c. split; [exact Ht|]. split; [exact Hs|]. intros ls' c' Ht'.
  destruct (Hall ls c Ht) as [_ Hst].
  refine (proj1 (Hst _ 1%nat get_event [] Hw ls' c' Ht')). rewrite Hs. reflexivity.
Defined.
