(* ===== verification/CommandLine.v ===== *)
(** The command line (src/cmd/node/main.go): the commands, from the configuration
    to the exit code, run against the store on the file system.

    The flags and arguments cobra has parsed are [CLIOverrides] and [invocation].
    What a run meets outside the process - the errors of libp2p, the clock, the
    peers, the events that arrive, the interrupt - is a record, [surroundings].
    A run ends with the state of the file system, the result lines printed and the
    error returned; the lines that describe the node and the file, the progress
    bars (mpb), the hints and what goes to the log are left out.  The deferred [fs.Stop] and the closing
    of the log touch no file. *)
From Stdlib Require Import Ascii.
From S2P Require Import Lifecycle Prelude Words Io GoStrings FileSys Sha Encryption Store StoreSpec Json Event Middleware.
From S2P Require Import SeenMessages Protocol BlobStore FileServer Transfer Connect Delivery Discovery NodeSetup Config.
From S2P Require Import Operations Daemon.
Import FileSys Encryption.

(** ** What is printed *)
(** [key[:16] + ".dat"], replaced by the second argument if there is one. *)
Definition output_path (key : string) (output : option string) : option string :=
  prefix ← go_slice (bytes_of_string key) 0 16;
  Some (default (string_of_bytes prefix +:+ ".dat") output).

(** [s[:min(16, len(s))]]. *)
Definition shortened (s : string) : option string :=
  b ← go_slice (bytes_of_string s) 0 (Z.min 16 (zlen (bytes_of_string s)));
  Some (string_of_bytes b).

(** [msgID[:8]]. *)
Definition short_id (s : string) : option string :=
  b ← go_slice (bytes_of_string s) 0 8; Some (string_of_bytes b).

(** What [runDaemon] prints for an event, [""] for nothing. *)
Definition daemon_line (e : Event) : option string :=
  if decide (Event.Type_ e = GetReceived) then
    match Event.Data e with
    | GetReceivedData msgID key ttl =>
        k ← shortened key; m ← short_id msgID;
        Some ("[relay]    key=" +:+ k +:+ " msgID=" +:+ m +:+ " ttl=" +:+ fmt_d ttl)
    | _ => None
    end
  else if decide (Event.Type_ e = GetDelivering) then
    match Event.Data e with
    | GetDeliveringData _ key requesterID =>
        k ← shortened key; r ← shortened requesterID;
        Some ("[deliver]  key=" +:+ k +:+ " requester=" +:+ r)
    | _ => None
    end
  else if decide (Event.Type_ e = GetDelivered) then
    match Event.Data e with
    | GetDeliveredData msgID key =>
        k ← shortened key; m ← short_id msgID; Some ("[done]     key=" +:+ k +:+ " msgID=" +:+ m)
    | _ => None
    end
  else Some "".

(** ** The loop of [get] *)
(** The [select] loop of [runGet] over the events of its four channels in the
    order received; [inl] is a context that is done, [bar] whether the progress
    bar has been made.  The bar itself, and [p.Wait()] after the loop, belong to
    the library mpb and are not modelled; the channels are closed by the deferred
    [Unsubscribe] only, so that [!ok] does not occur. *)
Inductive loop_end := LoopDone (getErr : option goerr) | LoopPanics | LoopWaiting.

Fixpoint get_loop (key : string) (bar : bool) (evs : list (unit + Event)) : loop_end :=
  match evs with
  | [] => LoopWaiting
  | inl _ :: _ => LoopDone (Some (Errorf "cancelled"))
  | inr e :: evs =>
      if decide (Event.Type_ e = FileReceiveStarted) then
        match Event.Data e with
        | ReceiveStartedData k _ _ => get_loop key (if decide (k = key) then true else bar) evs
        | _ => LoopPanics
        end
      else if decide (Event.Type_ e = FileReceiveProgress) then
        if negb bar then get_loop key bar evs else
        match Event.Data e with
        | ReceiveProgressData _ _ _ => get_loop key bar evs
        | _ => LoopPanics
        end
      else if decide (Event.Type_ e = FileReceiveComplete) then
        match Event.Data e with
        | ReceiveCompleteData k _ => if decide (k = key) then LoopDone None else get_loop key bar evs
        | _ => LoopPanics
        end
      else
        match Event.Data e with
        | ReceiveFailedData k err => if decide (k = key) then LoopDone (Some err) else get_loop key bar evs
        | _ => LoopPanics
        end
  end.

(** How a command ends: with a state, what it has printed and the error it
    returns; with a panic; or not within the events and ticks considered. *)
Inductive run (T : Type) := Exits (t : T) (out : list string) (err : option goerr) | Crashes | Hangs.
Arguments Exits {T}.
Arguments Crashes {T}.
Arguments Hangs {T}.

(** ** [get], after the start of the server

    [T] is what the run leaves, made by [put] of the store's state and of the file
    system, which [files] takes out of it. *)
Section get.
Context {S T : Type} `{BlobStore S} (files : S -> fs) (put : S -> fs -> T).
Implicit Type srv : FileServer S.

(** [fs.WriteFileTo] and what is printed then. *)
Definition save srv (key outputPath note : string) : run T :=
  let '(f, err) := WriteFileTo srv (files (fs_store srv)) key outputPath in
  Exits (put (fs_store srv) f)
    (match err with None => ["✓ Saved to: " +:+ outputPath +:+ note] | Some _ => [] end)
    (option_map (Wrap "failed to save file") err).

Definition stop srv (err : goerr) : run T := Exits (put (fs_store srv) (files (fs_store srv))) [] (Some err).

(** [peers] is what [WaitForPeers] finds, [None] while it waits; [srv'] the server
    when the loop ends, [None] while [Get] waits; [evs] what the loop receives. *)
Definition get_command srv (key outputPath : string) (peers : option Z) (srv' : option (FileServer S))
    (evs : list (unit + Event)) : run T :=
  if HasFile srv key then save srv key outputPath " (from local storage)"
  else match peers with
       | None => Hangs
       | Some peerCount =>
           if peerCount =? 0 then stop srv (Errorf "no peers available")
           else match srv' with
                | None => Hangs
                | Some srv' =>
                    match get_loop key false evs with
                    | LoopPanics => Crashes
                    | LoopWaiting => Hangs
                    | LoopDone (Some e) => stop srv' (Wrap "failed to get file" e)
                    | LoopDone None => save srv' key outputPath ""
                    end
                end
       end.
End get.

(** ** The commands *)

(** What the arguments say. *)
Inductive invocation :=
| Store_ (filePath : string)
| Get_ (key : string) (output : option string)
| Daemon_
| GetFileKey_ (filePath : string)
| Send_ (filePath peerAddr session : string)
| Receive_ (session : string).

(** What a run meets; [en_fuel] bounds the ticks of the polling loops, and
    [en_interrupt] is the time of an interrupt. *)
Record surroundings `{Crypto} := {
  en_generated : result PrivKey;
  en_node : node_errors;
  en_services : svc_errors;
  en_now : time;                                            (* when the server has started *)
  en_fuel : nat;
  en_interrupt : context;
  en_count : time -> Z;                                     (* [GetConnectedPeers] *)
  en_peers : list peer_ID;                                  (* [ListPeers] *)
  en_msgID : string;                                        (* the new UUID *)
  en_meanwhile : FileServer world -> FileServer world;      (* what the other goroutines do *)
  en_received : list (unit + Event);
  en_selected : list selected;
}.

(** The callback of [runReceive]: [bars] are the keys with a progress bar;
    [None]: a panic, [""]: nothing printed. *)
Definition receive_event (error_text : goerr -> string) (bars : gset string) (e : Event) :
    option (gset string * string) :=
  if decide (Event.Type_ e = FileReceiveStarted) then
    match Event.Data e with
    | ReceiveStartedData key _ _ => _ ← shortened key; Some ({[ key ]} ∪ bars, "")
    | _ => None
    end
  else if decide (Event.Type_ e = FileReceiveProgress) then
    match Event.Data e with ReceiveProgressData _ _ _ => Some (bars, "") | _ => None end
  else if decide (Event.Type_ e = FileReceiveComplete) then
    match Event.Data e with
    | ReceiveCompleteData key size =>
        Some (bars ∖ {[ key ]}, "✓ Received: " +:+ key +:+ " (" +:+ fmt_d size +:+ " bytes)")
    | _ => None
    end
  else if decide (Event.Type_ e = FileReceiveFailed) then
    match Event.Data e with
    | ReceiveFailedData key err =>
        Some (bars ∖ {[ key ]}, "✗ Failed:   " +:+ key +:+ " (" +:+ error_text err +:+ ")")
    | _ => None
    end
  else Some (bars, "").

(** The bars and lines after a list of calls. *)
Fixpoint receive_events (error_text : goerr -> string) (bars : gset string) (evs : list Event) :
    option (gset string * list string) :=
  match evs with
  | [] => Some (bars, [])
  | e :: evs =>
      '(bars, line) ← receive_event error_text bars e;
      '(bars, lines) ← receive_events error_text bars evs; Some (bars, line :: lines)
  end.

(** A callback returns unless it panics. *)
Definition returns {A} (f : Event -> option A) : callback := fun e => bool_decide (is_Some (f e)).

Section commands.
Context `{AEAD, Entropy, Node, Host, Crypto}.
Context {W : Type} `{Writer W} (open : peer_ID -> string -> result (W * (W -> stream))).
Context (default_peers : list AddrInfo) (yaml_Unmarshal : bytes -> result YAMLConfig).
Context (error_text : goerr -> string).
Implicit Type (w : world) (cfg : YAMLConfig) (en : surroundings).

(** [os.OpenFile(path, O_CREATE|O_WRONLY|O_APPEND, 0644)]. *)
Definition os_OpenAppend (f : fs) (path : string) : fs * result rpath :=
  match resolve f path with
  | Err e => (f, Err e)
  | Ok p => match get (tree f) p with
            | Some NDir => (f, Err ErrIsDir)
            | Some (NFile _) => (f, Ok p)
            | None => (set_tree f (<[p := NFile []]> (tree f)), Ok p)
            end
  end.

(** [None] is the standard output. *)
Definition getLogWriter (f : fs) cfg : fs * result (option rpath) :=
  if decide (y_LogFile cfg = "") then (f, Ok None)
  else let '(f, r) := os_OpenAppend f (y_LogFile cfg) in (f, p ← r; Ok (Some p)).

Definition startServer w cfg en : option (world * result (Store * FileServer unit * started)) :=
  match getLogWriter (w_fs w) cfg with
  | (f, Err e) => Some (set_fs w f, Err (Wrap "failed to open log file" e))
  | (f, Ok _) =>
      StartServer default_peers (set_fs w f) cfg (en_generated en) (en_node en) (en_services en)
  end.

(** The server over the world it works in. *)
Definition serving (srv : FileServer unit) w : FileServer world :=
  node_started
    {| fs_store := w; fs_started := fs_started srv; fs_peers := fs_peers srv; fs_tagged := fs_tagged srv;
       fs_events := fs_events srv; fs_seen := fs_seen srv; fs_sessionName := fs_sessionName srv;
       fs_waiters := fs_waiters srv; fs_chans := fs_chans srv; fs_nextchan := fs_nextchan srv |}.

(** Every command but [get-file-key] begins with the server. *)
Definition with_server w cfg en (k : BlobStore world -> FileServer world -> run world) : run world :=
  match startServer w cfg en with
  | None => Crashes
  | Some (w, Err e) => Exits w [] (Some e)
  | Some (w, Ok (s, srv, _)) => k (cas_BlobStore s) (serving srv w)
  end.

(** The checks of [store] and [send]; after another error than "does not exist"
    the commands go on with a nil [FileInfo] and call its [IsDir]. *)
Definition checked_file w (filePath what : string) (k : run world) : run world :=
  match os_Stat (w_fs w) filePath with
  | Err e => if os_IsNotExist (Some e) then Exits w [] (Some (Errorf ("file does not exist: " +:+ filePath)))
             else Crashes
  | Ok (_, NDir) => Exits w [] (Some (Errorf ("cannot " +:+ what +:+ " a directory: " +:+ filePath)))
  | Ok (_, NFile _) => k
  end.

Definition runStoreLocally w cfg en (filePath : string) : run world :=
  checked_file w filePath "store"
    (with_server w cfg en (fun _ srv =>
       let '(srv, result) := StoreLocally open (ToProtocolConfig cfg) srv (w_fs (fs_store srv)) (en_peers en)
                               filePath in
       match result with
       | Err e => Exits (fs_store srv) [] (Some e)
       | Ok result => Exits (fs_store srv) ["Key:  " +:+ st_Key result; "✓ Stored locally"] None
       end)).

Definition runGet w cfg en (key : string) (output : option string) : run world :=
  match output_path key output with
  | None => Crashes
  | Some outputPath =>
      with_server w cfg en (fun _ srv =>
        let waited := WaitForPeers (en_fuel en) (en_count en) (en_now en) (y_PeerWait cfg) in
        let now := from_option snd (en_now en) waited in
        let srv' := match Get (en_fuel en) srv (RelayServers (c_Node (ToConfig default_peers cfg)))
                            (en_interrupt en) now key (en_msgID en) (en_peers en) with
                    | (srv, Some _) => Some (en_meanwhile en srv)
                    | (_, None) => None
                    end in
        get_command w_fs set_fs srv key outputPath (option_map fst waited) srv' (en_received en))
  end.

Definition runGetFileKey w (filePath : string) : run world :=
  match GetFileKey (w_fs w) filePath with
  | Err e => Exits w [] (Some e)
  | Ok key => Exits w [key] None
  end.

Definition runSend w cfg en (filePath peerAddr session : string) : run world :=
  checked_file w filePath "send"
    (with_server w cfg en (fun _ srv =>
       let ctx := WithTimeout None (en_now en) (wrap_s 64 (y_Timeout cfg * 3)) in
       let '(srv, result) :=
         op_SendFile open (ToProtocolConfig cfg) (en_fuel en) srv (w_fs (fs_store srv)) (en_peers en) ctx (en_now en) (y_Timeout cfg)
           {| HolePunchWait := y_HolePunchWait (y_Node cfg) |} filePath peerAddr {| so_Session := session |} in
       match result with
       | Running => Hangs
       | Returns (Err e) _ _ => Exits (fs_store srv) [] (Some e)
       | Returns (Ok result) _ _ =>
           Exits (fs_store srv) ["✓ File sent successfully!"; "  To peer: " +:+ se_PeerID result;
                                 "  Key: " +:+ se_Key result] None
       end)).

(** How a loop over events ends a command. *)
Definition loop_run (t : world) (out : list string) (fin : daemon_end) : run world :=
  match fin with
  | DaemonStopped => Exits t (filter (fun l => l <> "") out) None
  | DaemonWaiting => Hangs
  | DaemonCrashed => Crashes
  end.

Definition runDaemon w cfg en : run world :=
  with_server w cfg en (fun _ srv =>
    let '(calls, fin) := start_daemon_loop (Some (returns daemon_line)) (en_selected en) in
    loop_run (fs_store (en_meanwhile en srv))
      ("Daemon running. Ctrl+C to stop." :: omap daemon_line calls) fin).

(** Which events a callback of [runReceive] panics on does not depend on the bars. *)
Definition runReceive w cfg en (session : string) : run world :=
  with_server w cfg en (fun _ srv =>
    match WaitForRelayReservation (en_fuel en) (RelayServers (c_Node (ToConfig default_peers cfg)))
            (WithTimeout None (en_now en) (30 * Second)) (en_now en) with
    | Running => Hangs
    | Returns reservation _ _ =>
        let warning := match reservation with
                       | Err _ => ["Warning: relay reservation not established, only local addresses available"]
                       | Ok _ => []
                       end in
        let '(calls, fin) := receive_loop (returns (receive_event error_text ∅)) (en_selected en) in
        loop_run (fs_store (StartReceiveSession srv session (en_meanwhile en)))
          (warning ++ ("Session: " +:+ session) :: from_option snd [] (receive_events error_text ∅ calls)) fin
    end).

(** [PersistentPreRunE] and the command. *)
Definition execute w (overrides : CLIOverrides) en (i : invocation) : run world :=
  match Load yaml_Unmarshal default_peers (w_fs w) overrides with
  | Err e => Exits w [] (Some e)
  | Ok cfg =>
      match i with
      | Store_ filePath => runStoreLocally w cfg en filePath
      | Get_ key output => runGet w cfg en key output
      | Daemon_ => runDaemon w cfg en
      | GetFileKey_ filePath => runGetFileKey w filePath
      | Send_ filePath peerAddr session => runSend w cfg en filePath peerAddr session
      | Receive_ session => runReceive w cfg en session
      end
  end.
End commands.

(** The exit status of [main]; a panic exits with 2. *)
Definition exit_status {T} (r : run T) : option Z :=
  match r with Exits _ _ None => Some 0 | Exits _ _ (Some _) => Some 1 | Crashes => Some 2 | Hangs => None end.

(** ** Lemmas on the loop *)
Lemma shortened_some s : exists k, shortened s = Some k.
Proof.
  unfold shortened, go_slice. pose proof (zlen_nonneg (bytes_of_string s)). rewrite decide_True by lia. by eexists.
Qed.

(** An event of a transfer of another key. *)
Definition foreign (key : string) (e : Event) : Prop :=
  match Event.Data e with
  | ReceiveStartedData k _ _ => Event.Type_ e = FileReceiveStarted /\ k <> key
  | ReceiveProgressData k _ _ => Event.Type_ e = FileReceiveProgress /\ k <> key
  | ReceiveCompleteData k _ => Event.Type_ e = FileReceiveComplete /\ k <> key
  | ReceiveFailedData k _ => Event.Type_ e = FileReceiveFailed /\ k <> key
  | _ => False
  end.

(** An event the loop goes on after, or that ends it well. *)
Definition harmless (key : string) (e : Event) : Prop :=
  match Event.Data e with
  | ReceiveStartedData _ _ _ => Event.Type_ e = FileReceiveStarted
  | ReceiveProgressData _ _ _ => Event.Type_ e = FileReceiveProgress
  | ReceiveCompleteData _ _ => Event.Type_ e = FileReceiveComplete
  | ReceiveFailedData k _ => Event.Type_ e = FileReceiveFailed /\ k <> key
  | _ => False
  end.

Lemma get_loop_done key bar evs size :
  Forall (harmless key) evs -> event_of FileReceiveComplete (ReceiveCompleteData key size) ∈ evs ->
  get_loop key bar (map inr evs) = LoopDone None.
Proof.
  intros Hall. revert bar. induction Hall as [|[ty r d] evs Hh Hall IH]; intros bar Hin;
    [by apply elem_of_nil in Hin|].
  apply elem_of_cons in Hin as [Heq|Hin].
  - injection Heq as <- <- <-. cbn [map get_loop Event.Type_ Event.Data].
    rewrite decide_False, decide_False, decide_True by done. by rewrite decide_True.
  - cbn [map get_loop Event.Type_ Event.Data]. unfold harmless in Hh. cbn [Event.Type_ Event.Data] in Hh.
    destruct d; try done; [subst ty..|destruct Hh as [-> Hk]];
      repeat (rewrite decide_False by done || rewrite decide_True by done).
    + by apply IH.
    + destruct bar; by apply IH.
    + destruct (decide (FileReceiveComplete = FileReceiveComplete)); [|done].
      destruct (decide (key0 = key)); [done|by apply IH].
    + by apply IH.
Qed.

(** ** Properties *)

(** The two loops over the end of a transfer. *)
Definition ends_transfer (e : Event) : Prop :=
  Event.Type_ e = FileReceiveComplete \/ Event.Type_ e = FileReceiveFailed.

#[local] Instance ends_transfer_dec e : Decision (ends_transfer e) := or_dec _ _.

Definition waited_of (key : string) (l : loop_end) : waited :=
  match l with
  | LoopDone None => Got (Ok key)
  | LoopDone (Some e) => Got (Err e)
  | LoopPanics => Panics
  | LoopWaiting => Waiting
  end.

(** The struct of a well-typed event, whose type is known. *)
Ltac well_typed_data Ht d :=
  apply (bool_decide_pack (well_typed _)) in Ht; destruct d; try (by vm_compute in Ht); clear Ht.

Lemma get_loop_waits key bar evs :
  Forall well_typed evs -> Forall (fun e => Event.Type_ e ∈ receive_types) evs ->
  WaitForGet key (map inr (filter ends_transfer evs)) = waited_of key (get_loop key bar (map inr evs))
  /\ get_loop key bar (map inr evs) <> LoopPanics.
Proof.
  intros Ht Hch. revert bar. induction Ht as [|[ty r d] evs He Ht IH]; intros bar; [done|].
  apply Forall_cons in Hch as [Hty Hch]. cbn [Event.Type_] in Hty.
  unfold receive_types in Hty. rewrite !elem_of_cons, elem_of_nil in Hty. destruct Hty as [->|[->|[->|[->|[]]]]]; well_typed_data He d.
  all: rewrite ?filter_cons_True by (by (left + right)); rewrite ?filter_cons_False by (by intros []).
  all: cbn [map get_loop WaitForGet Event.Type_ Event.Data];
    repeat (rewrite decide_False by done || rewrite decide_True by done); try apply (IH Hch).
  all: repeat case_match; first [apply (IH Hch)|done|by subst].
Qed.

(** [C12] The loop of [get] is [WaitForGet].  On the events of its four channels,
    well typed as they are published, the loop written out in the command, with
    its progress bar, comes to the same end as [operations.WaitForGet] does on
    those of its two channels: the same success, the same error of the same
    failed transfer, or waiting; neither panics. *)
Theorem get_loop_is_WaitForGet key bar evs
    (Ht : Forall well_typed evs) (Hch : Forall (fun e => Event.Type_ e ∈ receive_types) evs) :
  WaitForGet key (map inr (filter ends_transfer evs)) = waited_of key (get_loop key bar (map inr evs))
  /\ get_loop key bar (map inr evs) <> LoopPanics.
Proof. by apply get_loop_waits. Qed.

Section properties.
Context {S : Type} `{BlobStoreLaws S} `{Node} `{Host}.
Implicit Type srv : FileServer S.

(** [C24] A short message id stops a daemon.  Any peer can send a GET request
    whose id has fewer than eight bytes; a server that does not hold the file
    publishes it like any other, and the daemon's printing of that event
    panics.  In the same way [get] panics for keys shorter than 16 bytes, even
    when the output path is given. *)
Theorem short_names_panic srv m now so order intn peerID q
    (Hm : holds_map m (fs_store srv)) (Hnew : (See (fs_seen srv) now so (gf_MsgID q)).2 = true)
    (Habsent : m !! slot (gf_Key q) = None) (Httl : min_int64 <= gf_TTL q <= max_int64)
    (Hshort : zlen (bytes_of_string (gf_MsgID q)) < 8) :
  (exists srv' gs e,
     Handle (srv, []) peerID (MsgProto (NewMessage TypeGetFile q)) = ((srv, [GoProcessGet peerID q]), Ok MsgNil)
     /\ processGet srv now so order intn peerID q = Some (srv', gs)
     /\ fs_events srv' = fs_events srv ++ [e] /\ daemon_line e = None)
  /\ forall key output, output_path key output = None <-> zlen (bytes_of_string key) < 16.
Proof.
  split.
  - assert (daemon_line (event_of GetReceived (GetReceivedData (gf_MsgID q) (gf_Key q) (gf_TTL q))) = None) as Hd.
    { unfold daemon_line. cbn [event_of Event.Type_ Event.Data]. rewrite decide_True by done.
      destruct (shortened (gf_Key q)); [|done]. cbn. unfold short_id, go_slice.
      rewrite decide_False; [done|]. lia. }
    assert (exists srv' gs, processGet srv now so order intn peerID q = Some (srv', gs)
      /\ fs_events srv' = fs_events srv ++ [event_of GetReceived
           (GetReceivedData (gf_MsgID q) (gf_Key q) (gf_TTL q))]) as (srv' & gs & Hp & He).
    { unfold processGet. destruct (See _ _ _ _) as [seen b]. cbn in Hnew. subst b. cbn [negb fs_store with_seen].
      rewrite (bs_Has_ok m), Habsent by done. rewrite bool_decide_false by (by intros []).
      destruct (gf_TTL q <=? 0); [eauto|].
      destruct (Select_some intn order peerID 10) as (r & -> & _); [done|]. cbn. eauto. }
    eexists srv', gs, _. split; [|done]. unfold Handle, handleMessage. cbn [Protocol.Type_ NewMessage].
    rewrite decide_False, decide_True by done. unfold handleGet, Decode. cbn [Data NewMessage].
    by rewrite GetFilePayload_unmarshal.
  - intros key output. unfold output_path, go_slice. pose proof (zlen_nonneg (bytes_of_string key)).
    case_decide; cbn; split; intros; try done; lia.
Qed.
(** Once the transfer has been received, [get] saves it. *)
Lemma get_saves srv srv1 srv2 m m1 key path g g1 q peerCount peerID data published others evs :
  holds_map m (fs_store srv) -> m !! slot key = None -> 0 < peerCount -> os_Create g path = (g1, Ok q) ->
  received srv1 srv2 m1 peerID key (zlen data) data data
    (FileReceiveComplete, ReceiveCompleteData key (zlen data)) None ->
  fs_events srv2 = fs_events srv1 ++ published -> Forall (foreign key) others -> evs ≡ₚ published ++ others ->
  exists g2 out, get_command (fun _ => g) (fun _ f => f) srv key path (Some peerCount) (Some srv2) (map inr evs)
                 = Exits g2 out None
              /\ os_ReadFile g2 path = Ok data.
Proof.
  intros Hm Habsent Hpeers Hcreate Hrc Hpub Hothers Hperm.
  destruct (rc_events _ _ _ _ _ _ _ _ _ _ Hrc) as (ns & _ & Hev). rewrite Hpub in Hev. apply app_inv_head in Hev.
  assert (get_loop key false (map inr evs) = LoopDone None) as Hloop.
  { apply (get_loop_done key false evs (zlen data)); rewrite Hperm, Hev.
    - apply Forall_app. split.
      + constructor; [done|]. apply Forall_app. split; [|by constructor].
        unfold progress_events. apply Forall_map, Forall_forall. done.
      + eapply Forall_impl; [exact Hothers|]. intros [ty r []]; unfold foreign, harmless; cbn; tauto.
    - apply elem_of_app. left. right. apply elem_of_app. right. by left. }
  destruct (WriteFileTo_ok srv2 g key path data (zlen data) g1 q) as (g2 & Hw2 & Hr); [|done|].
  { apply (bs_Read_ok (<[slot key := data]> m1)); [apply Hrc|apply lookup_insert_eq]. }
  eexists g2, _. split; [|done]. unfold get_command, HasFile. rewrite (bs_Has_ok m), Habsent by done.
  rewrite bool_decide_false by (by intros []). destruct (Z.eqb_spec peerCount 0); [lia|].
  rewrite Hloop. unfold save. by rewrite Hw2.
Qed.

(** [C6] Getting a file over the network.  After [Get] has registered its waiter,
    a transfer of the key (of at least 16 bytes) arrives, cut in any way: the
    store request for it is accepted even during a receive session under
    another name, and [get], whatever the order in which it receives the events
    of this transfer and of transfers of other keys, ends without an error, with
    exactly the transferred bytes in the output file. *)
Theorem get_end_to_end srv m key session output path g g1 q peerCount peerID s data others
    (Hok : waiters_ok srv) (Hm : holds_map m (fs_store srv)) (Habsent : m !! slot key = None)
    (Hkey : 16 <= zlen (bytes_of_string key) <= MaxKeyLength) (Hutf8 : utf8_string key /\ utf8_string session)
    (Hs : rd_bytes s = wire_header key (zlen data) ++ data) (Hsize : zlen data <= max_int64)
    (Hpath : output_path key output = Some path) (Hcreate : os_Create g path = (g1, Ok q))
    (Hpeers : 0 < peerCount) (Hothers : Forall (foreign key) others) :
  let srv1 := (RegisterTransferWaiter srv key).1 in
  (handleMessage srv1 peerID (MsgProto (NewMessage TypeStoreFile {| sf_Key := key; sf_Session := session |}))).1
    = Ok (store_resp key StatusSuccess)
  /\ exists srv2 published, handleIncomingStream srv1 peerID s = Some (srv2, [x01])
     /\ fs_events srv2 = fs_events srv1 ++ published
     /\ (forall evs, evs ≡ₚ published ++ others ->
         exists g2 out, get_command (fun _ => g) (fun _ f => f) srv key path (Some peerCount) (Some srv2) (map inr evs)
                        = Exits g2 out None
                    /\ os_ReadFile g2 path = Ok data).
Proof.
  intros srv1.
  assert (waiters_ok srv1) as Hok1 by by apply register_ok.
  assert (holds_map m (fs_store srv1)) as Hm1 by done.
  assert (is_Some (fs_waiters srv1 !! key)) as Hw.
  { cbn. rewrite lookup_insert_eq. by eexists. }
  split.
  { assert (key <> "") as Hne by (eapply (key_nonempty key MaxKeyLength); lia).
    pose proof (Handle_store srv1 m peerID {| sf_Key := key; sf_Session := session |} Hm1 Hutf8 Hne) as Hh.
    unfold Handle in Hh. destruct (handleMessage _ _ _) as [r gs']. cbn [fst]. injection Hh as _ ->.
    cbn [sf_Key sf_Session]. unfold store_status. rewrite decide_True by by left.
    by rewrite decide_False by (rewrite Habsent; by intros []). }
  pose proof (zlen_nonneg data) as Hnn.
  destruct (incoming_spec srv1 m peerID s key (zlen data) data) as (srv2 & e & Hin);
    [done|done|lia|unfold min_int64; lia|done|].
  rewrite decide_True in Hin by (left; lia). destruct Hin as [Hin Hrc].
  assert (arriving (zlen data) data = data) as Harr by (unfold arriving, zlen; by rewrite Nat2Z.id, firstn_all).
  rewrite Harr in Hrc. destruct (rc_events _ _ _ _ _ _ _ _ _ _ Hrc) as (ns & _ & Hev).
  eexists srv2, _. split; [done|]. split; [exact Hev|]. intros evs Hperm.
  by eapply (get_saves srv srv1 srv2 m m key path g g1 q peerCount peerID data).
Qed.
End properties.

(** ** Whole runs *)
Section runs.
Context `{AEADLaws, EntropyLaws, Node, Host, CryptoLaws}.
Context {W : Type} `{Writer W} (open : peer_ID -> string -> result (W * (W -> stream))).
Context (default_peers : list AddrInfo) (yaml_Unmarshal : bytes -> result YAMLConfig).
Context (error_text : goerr -> string).
Implicit Type (w : world) (cfg : YAMLConfig) (en : surroundings).

(** A key is long enough for [key[:16]]. *)
Lemma file_key_path (c : bytes) output :
  output_path (hex_digest (sha256_Sum c)) (Some output) = Some output.
Proof.
  unfold output_path, go_slice, hex_digest. rewrite bytes_of_string_of_bytes.
  rewrite decide_True; [done|]. unfold zlen. rewrite length_hex_encode, length_sha256_Sum. lia.
Qed.

Lemma without_log w cfg en :
  y_LogFile cfg = "" -> startServer default_peers w cfg en
  = StartServer default_peers w cfg (en_generated en) (en_node en) (en_services en).
Proof. intros Hl. unfold startServer, getLogWriter. rewrite decide_True by done. by destruct w. Qed.

Lemma store_on_disk s m (srv : FileServer world) pcfg file c (B := cas_BlobStore s) :
  let key := hex_digest (sha256_Sum c) in
  cas_store s -> refines s m (fs_store srv) -> os_ReadFile (w_fs (fs_store srv)) file = Ok c ->
  m !! cas_hash key = None ->
  exists srv', StoreLocally open pcfg srv (w_fs (fs_store srv)) [] file = (srv', Ok {| st_Key := key |})
    /\ refines s (<[cas_hash key := c]> m) (fs_store srv')
    /\ files_kept (w_fs (fs_store srv)) (w_fs (fs_store srv')).
Proof.
  intros key Hs Hm [p Hp]%os_ReadFile_Stat Hnew. unfold StoreLocally, StoreFile.
  rewrite Hp, (GetFileKey_file _ _ p c Hp). fold key. cbn [bs_Has bs_Write B cas_BlobStore].
  pose proof Hm as [_ Hh]. rewrite (proj1 (Hh key)), Hnew. rewrite bool_decide_false by (by intros []).
  destruct (Write_refines s Hs m (fs_store srv) key (file_stream c) Hm ltac:(done))
    as (w' & r' & -> & Hm' & _ & Hag & Hd).
  rewrite rd_bytes_file_stream in Hm'. cbn. eexists. split; [done|]. split; [done|]. by eapply Write_files_kept.
Qed.

(** [C7] What one run stores a later run finds.  Let [store] run on a file whose
    content is not in the storage yet, with no peer connected: it prints the key,
    no file is lost, and a later process with the same configuration, whatever
    its clock, its peers, the events it receives and the key its generator would
    make, starts with the same store; its [get] with that key writes exactly the
    stored content to the output file, if that can be created, without asking
    the network, and fails otherwise. *)
Theorem stored_file_found_by_later_run w cfg en file c w1 s srv sv m
    (Hroot : no_dotdot (split_char slash (y_StorageRoot cfg))) (Hlog : y_LogFile cfg = "")
    (Hstart : startServer default_peers w cfg en = Some (w1, Ok (s, srv, sv))) (Hm : refines s m w1)
    (Hfile : os_ReadFile (w_fs w) file = Ok c) (Hfile1 : os_ReadFile (w_fs w1) file = Ok c)
    (Hnew : m !! cas_hash (hex_digest (sha256_Sum c)) = None) (Hpeers : en_peers en = []) :
  let key := hex_digest (sha256_Sum c) in
  exists w2, runStoreLocally open default_peers w cfg en file = Exits w2 ["Key:  " +:+ key; "✓ Stored locally"] None
    /\ files_kept (w_fs w1) (w_fs w2)
    /\ forall en' dest, en_node en' = en_node en -> en_services en' = en_services en ->
         match os_Create (w_fs w2) dest with
         | (_, Ok _) => exists w3 out, runGet default_peers w2 cfg en' key (Some dest) = Exits w3 out None
                                       /\ os_ReadFile (w_fs w3) dest = Ok c
         | (_, Err e) => exists w3 e', runGet default_peers w2 cfg en' key (Some dest) = Exits w3 [] (Some e')
         end.
Proof.
  intros key. rewrite without_log in Hstart by done.
  destruct (StartServer_again _ _ _ _ _ _ _ _ _ _ w1 (en_generated en) Hstart (reflexivity _))
    as (_ & Hsrv & k & Hk & Hs'). subst srv.
  assert (cas_store s) as Hs.
  { subst s. split; [done|done|]. intros k' [= <-]. unfold aes_NewCipher. rewrite decide_True; auto. }
  destruct (store_on_disk s m (serving (NewFileServer tt) w1) (ToProtocolConfig cfg) file c Hs Hm Hfile1 Hnew)
    as (srv2 & Hst & Hm2 & Hkept).
  exists (fs_store srv2). split; [|split; [done|]].
  - unfold runStoreLocally, checked_file, with_server. rewrite without_log, Hstart by done.
    pose proof Hfile as [p ->]%os_ReadFile_Stat. rewrite Hpeers.
    change (fs_store (serving (NewFileServer tt) w1)) with w1 in Hst.
    change (fs_store (serving (NewFileServer tt) w1)) with w1. rewrite Hst. done.
  - intros en' dest Hen Hsv. unfold runGet, with_server. rewrite (file_key_path c dest : output_path key _ = _).
    rewrite without_log, Hen, Hsv by done.
    rewrite (proj1 (StartServer_again _ _ _ _ _ _ _ _ _ _ (fs_store srv2) (en_generated en') Hstart Hkept)).
    unfold get_command, HasFile. cbn [bs_Has cas_BlobStore fs_store serving node_started].
    pose proof Hm2 as [_ Hh2]. destruct (Hh2 key) as [-> Hread]. rewrite lookup_insert_eq, bool_decide_true by done.
    unfold save. change (fs_store (serving (NewFileServer tt) (fs_store srv2))) with (fs_store srv2).
    destruct (os_Create (w_fs (fs_store srv2)) dest) as [g [q|e]] eqn:Hc.
    + destruct (@WriteFileTo_ok world (cas_BlobStore s) (serving (NewFileServer tt) (fs_store srv2))
        (w_fs (fs_store srv2)) key dest c (zlen c) g q) as (g2 & Hw & Hr);
        [apply Hread, lookup_insert_eq|exact Hc|].
      rewrite Hw. eexists (set_fs (fs_store srv2) g2), _. split; [done|exact Hr].
    + unfold WriteFileTo. change (bs_Read (fs_store (serving (NewFileServer tt) (fs_store srv2))) key)
        with (Read (fs_store srv2) s key).
      rewrite (Hread c (lookup_insert_eq _ _ _)), Hc. by eexists _, _.
Qed.
(** [C40] A path through a regular file crashes [store] and [send].  [os.Stat]
    fails on it with "not a directory", which is not "does not exist": both
    commands go on to call [IsDir] on the nil [FileInfo] and panic, before the
    server is started.  [get-file-key] reports the error. *)
Theorem path_through_file_panics w cfg en file c rest peerAddr session
    (Hfile : os_ReadFile (w_fs w) file = Ok c) :
  let path := file +:+ "/" +:+ rest in
  runStoreLocally open default_peers w cfg en path = Crashes
  /\ runSend open default_peers w cfg en path peerAddr session = Crashes
  /\ runGetFileKey w path = Exits w [] (Some ErrNotDir).
Proof.
  intros path. assert (os_Stat (w_fs w) path = Err ErrNotDir) as Hst.
  { apply os_ReadFile_Stat in Hfile as [p Hp]. revert Hp. unfold os_Stat, resolve.
    destruct (decide (file = "")); [done|]. rewrite decide_False by apply app_slash_nonempty.
    assert (start_dir (w_fs w) path = start_dir (w_fs w) file) as ->.
    { unfold start_dir, path. by destruct file. }
    unfold path. change ("/" +:+ rest) with (String slash rest). rewrite split_char_app, walk_app.
    destruct (walk _ _ (split_char slash file)) as [q|]; [|done]. cbn.
    destruct (split_char slash rest) eqn:E; [by destruct (split_char_nonnil slash rest)|]. cbn.
    destruct (get (tree (w_fs w)) q) as [[b|]|]; done. }
  unfold runStoreLocally, runSend, checked_file, runGetFileKey, GetFileKey. by rewrite Hst.
Qed.
End runs.

(** ** Witnesses *)
Import Toy ToyStore ToyCrypto.

#[local] Instance no_host : Host := {| host_NewStream _ _ := Err (Errorf "no route") |}.

Lemma short_names_panic_witness :
  exists srv' gs e,
    processGet toy_server 0 [] ["p"] (fun _ _ => 0%nat) "p"
      {| gf_Key := "x"; gf_MsgID := "short"; gf_TTL := 0; gf_RequesterID := "r"; gf_RequesterAddrs := [] |}
      = Some (srv', gs)
    /\ fs_events srv' = fs_events toy_server ++ [e] /\ daemon_line e = None.
Proof.
  destruct (short_names_panic toy_server {[ "k" := [x61] ]} 0 [] ["p"] (fun _ _ => 0%nat) "p"
    {| gf_Key := "x"; gf_MsgID := "short"; gf_TTL := 0; gf_RequesterID := "r"; gf_RequesterAddrs := [] |})
    as [(srv' & gs & e & _ & Hp & He & Hd) _].
  - reflexivity.
  - reflexivity.
  - reflexivity.
  - vm_compute. split; discriminate.
  - vm_compute. reflexivity.
  - exists srv', gs, e. split; [exact Hp|]. split; [exact He|exact Hd].
Defined.

Lemma get_end_to_end_witness :
  let key := "0123456789abcdef" in
  let srv1 := (RegisterTransferWaiter toy_server key).1 in
  exists srv2 evs g2 out,
    handleIncomingStream srv1 "p" (Stream [wire_header key 2; [x62; x63]] ErrDeadline) = Some (srv2, [x01])
    /\ get_command (fun _ => FS ∅ []) (fun _ f => f) toy_server key "0123456789abcdef.dat" (Some 1) (Some srv2)
         (map inr evs) = Exits g2 out None
    /\ os_ReadFile g2 "0123456789abcdef.dat" = Ok [x62; x63].
Proof.
  intros key srv1.
  destruct (os_Create (FS ∅ []) "0123456789abcdef.dat") as [g1 [q|]] eqn:Hc; [|discriminate Hc].
  destruct (get_end_to_end toy_server {[ "k" := [x61] ]} key "s" None "0123456789abcdef.dat" (FS ∅ []) g1 q
    1 "p" (Stream [wire_header key 2; [x62; x63]] ErrDeadline) [x62; x63] [])
    as (_ & srv2 & published & Hin & _ & Hget).
  - apply NewFileServer_waiters_ok.
  - reflexivity.
  - reflexivity.
  - vm_compute. split; discriminate.
  - split; reflexivity.
  - reflexivity.
  - vm_compute. discriminate.
  - reflexivity.
  - exact Hc.
  - reflexivity.
  - constructor.
  - destruct (Hget (published ++ []) (reflexivity _)) as (g2 & out & Hg & Hr).
    exists srv2, (published ++ []), g2, out. split; [exact Hin|]. split; [exact Hg|exact Hr].
Defined.

Lemma os_Create_readable f path d : os_ReadFile f path = Ok d -> exists g q, os_Create f path = (g, Ok q).
Proof.
  intros [p Hp]%os_ReadFile_Stat. revert Hp. unfold os_Stat, os_Create. destruct (resolve f path) as [q|]; [|done].
  cbn. destruct (get (tree f) q) as [[b|]|]; [eauto|done|done].
Qed.

Lemma get_loop_is_WaitForGet_witness :
  let started := event_of FileReceiveStarted (ReceiveStartedData "k" 2 "p") in
  let other := event_of FileReceiveComplete (ReceiveCompleteData "x" 2) in
  let failed := event_of FileReceiveFailed (ReceiveFailedData "k" (Errorf "lost")) in
  WaitForGet "k" (map inr [other; failed]) = waited_of "k" (get_loop "k" false (map inr [started; other; failed])).
Proof.
  intros started other failed.
  refine (proj1 (get_loop_is_WaitForGet "k" false [started; other; failed] _ _));
    apply (bool_decide_unpack _); vm_compute; exact I.
Defined.

(** A storage that has been used, with its key, next to the identity and a file. *)
Definition toy_disk : world :=
  World (FS (<[["a.txt"] := NFile [x62; x63]]> (<[["node.key"] := NFile [x61]]>
    (<[[".encryption_key"; "storage"] := NFile (replicate 32 x00)]> (<[["storage"] := NDir]> ∅)))) []) 0.

Lemma toy_disk_wf : wf (tree (w_fs toy_disk)).
Proof. by repeat (apply wf_insert; [| |split_and!|]); [apply wf_empty|..]. Qed.

Lemma toy_disk_lookup p b :
  tree (w_fs toy_disk) !! p = Some (NFile b) ->
  p = ["a.txt"] \/ p = ["node.key"] \/ p = [".encryption_key"; "storage"].
Proof.
  cbn. rewrite !lookup_insert_Some, lookup_empty. naive_solver.
Qed.

Lemma toy_disk_short p : is_Some (tree (w_fs toy_disk) !! p) -> (length p <= 2)%nat.
Proof.
  cbn. rewrite !lookup_insert_is_Some'. intros [<-|[<-|[<-|[<-|[n Hn]]]]]; cbn; try lia. by rewrite lookup_empty in Hn.
Qed.

Lemma toy_disk_refines s : cas_store s -> s_Root s = "./storage" -> refines s ∅ toy_disk.
Proof.
  intros Hs Hr. assert (sane s (w_fs toy_disk)) as Hf.
  { split; [apply toy_disk_wf|]. unfold start, start_dir. by rewrite Hr. }
  assert (rootp s (w_fs toy_disk) = ["storage"] /\ start s (w_fs toy_disk) = [] /\ root_comps s = ["."; "storage"])
    as (Hroot & Hst & Hcomps) by (unfold rootp, start, start_dir, root_comps; rewrite Hr; done).
  split; [done|]. intros key. rewrite lookup_empty. split; [|done]. rewrite bool_decide_false by (by intros []).
  apply Has_false; [done..|]. split.
  - pose proof (entry_length s (w_fs toy_disk) key) as Hl. rewrite Hroot in Hl.
    apply eq_None_not_Some. intros Hn%toy_disk_short. rewrite Hl in Hn. cbn in Hn. lia.
  - intros (xs & ys & b & Hxy & Hb). rewrite Hst, Hcomps in *.
    destruct xs as [|x [|x' zs]]; [done|by injection Hxy as <- _|]. injection Hxy as <- <- Hzs.
    change (target [] _) with (target ["storage"] zs) in Hb.
    assert (Forall (hexname 5) zs) as Hx.
    { pose proof (cas_blocks_hexname key) as Hx. rewrite Hzs in Hx. by apply Forall_app in Hx as [? _]. }
    rewrite target_plain in Hb by (eapply Forall_impl; [exact Hx|]; intros z; apply hexname_plain).
    destruct zs as [|z zs' _] using rev_ind; [done|]. rewrite rev_app_distr in Hb. cbn in Hb.
    apply toy_disk_lookup in Hb as [Hb|[Hb|Hb]]; try (by destruct (rev zs')).
    destruct (rev zs') as [|? [|]]; try done. injection Hb as ->.
    apply Forall_app in Hx as [_ Hx]. apply Forall_cons in Hx as [[Hlen _] _]. done.
Qed.

Definition toy_surroundings : surroundings :=
  {| en_generated := toy_generated x62;
     en_node := {| ConnManager_err := None; ResourceManager_err := None; libp2p_New_err := None; relay_New_err := None |};
     en_services := {| mdns_err := None; dht_new_err := None; dht_boot_err := None |};
     en_now := 0; en_fuel := 5; en_interrupt := None; en_count _ := 0; en_peers := []; en_msgID := "id";
     en_meanwhile srv := srv; en_received := []; en_selected := [] |}.

Definition same_world (w w' : world) : bool :=
  bool_decide (tree (w_fs w) = tree (w_fs w')) && bool_decide (cwd (w_fs w) = cwd (w_fs w')) && bool_decide (w_rand w = w_rand w').

Lemma same_world_eq w w' : same_world w w' = true -> w = w'.
Proof.
  unfold same_world. rewrite !andb_true_iff, !bool_decide_eq_true.
  destruct w as [[t c] n], w' as [[t' c'] n']. cbn. by intros [[-> ->] ->].
Qed.

Lemma toy_disk_starts :
  match startServer [] toy_disk (DefaultYAMLConfig []) toy_surroundings with
  | Some (w, Ok _) => same_world w toy_disk | _ => false end = true.
Proof. vm_compute. reflexivity. Qed.

Lemma stored_file_found_by_later_run_witness :
  let key := hex_digest (sha256_Sum [x62; x63]) in
  exists w2, runStoreLocally no_open [] toy_disk (DefaultYAMLConfig []) toy_surroundings "a.txt"
               = Exits w2 ["Key:  " +:+ key; "✓ Stored locally"] None
    /\ exists w3 out, runGet [] w2 (DefaultYAMLConfig []) toy_surroundings key (Some "a.txt") = Exits w3 out None
                      /\ os_ReadFile (w_fs w3) "a.txt" = Ok [x62; x63].
Proof.
  intros key. pose proof toy_disk_starts as Hok.
  destruct (startServer [] toy_disk (DefaultYAMLConfig []) toy_surroundings)
    as [[w1 [[[s srv] sv]|]]|] eqn:Hst; [|discriminate Hok..].
  apply same_world_eq in Hok. subst w1.
  assert (no_dotdot (split_char slash (y_StorageRoot (DefaultYAMLConfig [])))) as Hroot
    by (apply (bool_decide_unpack _); vm_compute; exact I).
  assert (cas_store s /\ s_Root s = "./storage") as [Hs Hr].
  { pose proof Hst as Hst'. rewrite without_log in Hst' by reflexivity.
    destruct (StartServer_again _ _ _ _ _ _ _ _ _ _ toy_disk (toy_generated x62) Hst' (reflexivity _))
      as (_ & _ & k & Hk & ->).
    split; [|reflexivity]. split; [reflexivity|exact Hroot|]. intros k' [= <-]. unfold aes_NewCipher.
    rewrite decide_True; auto. }
  destruct (stored_file_found_by_later_run no_open [] toy_disk (DefaultYAMLConfig []) toy_surroundings "a.txt"
    [x62; x63] toy_disk s srv sv ∅) as (w2 & Hrun & Hkept & Hget).
  - exact Hroot.
  - reflexivity.
  - exact Hst.
  - apply toy_disk_refines; assumption.
  - reflexivity.
  - reflexivity.
  - reflexivity.
  - reflexivity.
  - exists w2. split; [exact Hrun|]. specialize (Hget toy_surroundings "a.txt" eq_refl eq_refl).
    destruct (os_Create_readable (w_fs w2) "a.txt" [x62; x63] (Hkept "a.txt" [x62; x63] eq_refl)) as (g & q & Hc).
    rewrite Hc in Hget. exact Hget.
Defined.

Lemma path_through_file_panics_witness :
  runStoreLocally no_open [] toy_disk (DefaultYAMLConfig []) toy_surroundings "a.txt/b" = Crashes
  /\ exit_status (runGetFileKey toy_disk "a.txt/b") = Some 1.
Proof.
  destruct (path_through_file_panics no_open [] toy_disk (DefaultYAMLConfig []) toy_surroundings "a.txt" [x62; x63]
    "b" "addr" "" eq_refl) as (Hs & _ & Hk).
  split; [exact Hs|]. exact (f_equal exit_status Hk).
Defined.
