(* ===== verification/EndToEnd.v ===== *)
(** A GET request from end to end: the requester, the request as it reaches a
    server that holds the file, the delivery back, and the requester's output
    file.

    The pieces are those of Gossip (a request travels unchanged but for its TTL),
    FileServer, Delivery, Transfer and CommandLine. *)
From S2P Require Import Prelude Io GoStrings FileSys Json Event Middleware SeenMessages Protocol BlobStore FileServer.
From S2P Require Import Transfer Connect Delivery Operations CommandLine.

Section get.
Context {S : Type} `{BlobStoreLaws S} (NA NB : Node).

(** The request of the requester, whose host is [NA], with the TTL it has left. *)
Definition request_of (now : time) (key msgID : string) (ttl : Z) : GetFilePayload :=
  {| gf_Key := key; gf_MsgID := msgID; gf_TTL := ttl; gf_RequesterID := @node_ID NA;
     gf_RequesterAddrs := @GetNodeAddresses NA now |}.

(** A direct address of a peer that gets connected is enough. *)
Lemma connect_any_direct fuel t addr rest opts info :
  is_circuit addr = false -> @parse_p2p_addr NB addr = Ok info ->
  @linked NB (t + 100 * Millisecond) (ai_ID info) = true ->
  @connect_any NB (Datatypes.S fuel) t (addr :: rest) opts
  = Returns (Ok true) (t + 100 * Millisecond) [discovered info].
Proof.
  intros Hd Hp Hl. cbn [connect_any]. unfold ConnectWithHolePunch. rewrite Hd. cbn [negb].
  unfold ConnectToPeer. rewrite Hp. cbn [poll done_before]. by rewrite Hl.
Qed.

(** [C1] [get] gets the file.  The requester lacks the file and broadcasts the
    request; a copy with any TTL left reaches, over whatever path, a server that
    holds the file and has not seen the message id.  That server answers it,
    connects to the requester over the direct address in the request and
    delivers: the negotiation is accepted, even during another receive session,
    one transfer stream is opened, to the requester, and the delivery is
    announced.  The requester, when it handles the bytes that the delivery has
    written to that stream, acknowledges them; and its [get], however the events
    it publishes are ordered and mixed with those of other transfers, ends without
    an error, with exactly the holder's bytes in its output file. *)
Theorem get_from_holder cfg (a b : FileServer S) ma mb key data msgID order now sender ttl nowb so orderb intn
    t opts requester addr rest info rl nowd lim self cut fin fuel fuelb ctx
    (Ha : holds_map ma (fs_store a)) (Hwa : waiters_ok a) (Hb : holds_map mb (fs_store b))
    (Habsent : ma !! slot key = None) (Hdata : mb !! slot key = Some data) (Hsize : zlen data <= max_int64)
    (Hkey : 16 <= zlen (bytes_of_string key) <= MaxKeyLength) (Hutf8 : utf8_string key)
    (Httl : min_int64 <= ttl <= max_int64) (Hnew : (See (fs_seen b) nowb so msgID).2 = true)
    (Hid : @peer_Decode NB (@node_ID NA) = Ok requester)
    (Haddrs : @GetNodeAddresses NA now = addr :: rest) (Hdirect : is_circuit addr = false)
    (Hparse : @parse_p2p_addr NB addr = Ok info) (Hlinked : @linked NB (t + 100 * Millisecond) (ai_ID info) = true)
    (Hconn : @IsDirectConnection NB (t + 100 * Millisecond) requester = true)
    (Hlim : (Acquire lim).2 = true) (Hcut : forall b : bytes, concat (cut b) = b)
    (Hallow : (allow rl nowd self).2 = true)
    (Hmax : forall s, In s [StatusSuccess; StatusAlreadyExists; StatusSessionRejected] ->
       zlen (encode (NewMessage TypeStoreFileResp {| sr_Key := key; sr_Status := s |})) <= MaxMessageSize cfg)
    (Hreq : zlen (encode (NewMessage TypeStoreFile {| sf_Key := key; sf_Session := "" |})) <= MaxMessageSize cfg) :
  let a1 := (RegisterTransferWaiter a key).1 in
  let q := request_of now key msgID in
  Get (H0 := NA) fuel a [] ctx now key msgID order
    = (a1, Some (map (fun p => GoForward p (NewMessage TypeGetFile (q DefaultTTL))) order))
  /\ Handle (b, []) sender (MsgProto (NewMessage TypeGetFile (q ttl))) = ((b, [GoProcessGet sender (q ttl)]), Ok MsgNil)
  /\ exists b1 evs w, processGet b nowb so orderb intn sender (q ttl) = Some (b1, [GoDeliver (q ttl)])
     /\ deliverToRequester (H0 := NB) (H1 := served_host cfg a1 rl nowd lim self cut) (served_open a1 self cut fin)
          cfg (Datatypes.S fuelb) b1 t opts (q ttl)
        = DeliveryDone (t + 100 * Millisecond) evs [(requester, w)]
     /\ event_of GetDelivered (GetDeliveredData msgID key) ∈ evs
     /\ exists a2 published, handleIncomingStream a1 self (Stream (cut w) fin) = Some (a2, [x01])
          /\ fs_events a2 = fs_events a1 ++ published
          /\ forall g g1 p output path others received peerCount,
               output_path key output = Some path -> os_Create g path = (g1, Ok p) -> 0 < peerCount ->
               Forall (foreign key) others -> received ≡ₚ published ++ others ->
               exists g2 out, get_command (fun _ => g) (fun _ f => f) a key path (Some peerCount) (Some a2)
                                (map inr received) = Exits g2 out None
                              /\ os_ReadFile g2 path = Ok data.
Proof.
  intros a1 q. split; [done|]. split.
  { unfold Handle, handleMessage. cbn [Protocol.Type_ NewMessage]. rewrite decide_False, decide_True by done.
    unfold handleGet, Decode. cbn [Data NewMessage]. by rewrite GetFilePayload_unmarshal. }
  assert (exists b1, processGet b nowb so orderb intn sender (q ttl) = Some (b1, [GoDeliver (q ttl)])
    /\ fs_store b1 = fs_store b) as (b1 & Hp & Hst).
  { unfold processGet, q, request_of. cbn [gf_MsgID gf_Key]. destruct (See _ _ _ _) as [seen new]. cbn in Hnew. subst new.
    cbn [negb fs_store with_seen]. rewrite (bs_Has_ok mb), Hdata, bool_decide_true by done. by eexists. }
  assert (waiters_ok a1 /\ holds_map ma (fs_store a1) /\ is_Some (fs_waiters a1 !! key)) as (Hwa1 & Ha1 & Hw).
  { split; [by apply register_ok|]. split; [done|]. cbn. rewrite lookup_insert_eq. by eexists. }
  assert (1 <= zlen (bytes_of_string key) <= MaxKeyLength) as Hkey1 by lia.
  destruct (SendFile_served a1 ma self requester key data cut fin Ha1 Hwa1 Hsize Hkey1 Hcut)
    as (w & a2 & Hsend & Hin & Hrc).
  destruct (StoreFileToPeer_served cfg b1 a1 ma rl nowd lim self requester key "" cut fin) as [Hyes _]; [done..|].
  specialize (Hyes Hallow). rewrite status_welcome, Habsent in Hyes by (by left).
  rewrite (decide_False (P := is_Some None)) in Hyes by (by intros []). cbv zeta in Hyes.
  rewrite decide_False, decide_False, Hst, (bs_Read_ok mb _ _ data), Hsend in Hyes by done.
  eexists b1, _, w. split; [done|]. split.
  { unfold deliverToRequester, q, request_of. cbn [gf_RequesterID gf_RequesterAddrs gf_Key gf_MsgID].
    rewrite Hid, Haddrs, (connect_any_direct _ _ _ _ _ info) by done.
    unfold StoreFileToPeerDirect. rewrite Hconn, Hyes. by rewrite decide_True by by left. }
  split; [apply elem_of_app; right; by left|].
  destruct (rc_events _ _ _ _ _ _ _ _ _ _ Hrc) as (ns & _ & Hev).
  exists a2. eexists. split; [exact Hin|]. split; [exact Hev|]. intros. by eapply (get_saves a a1 a2 ma ma key).
Qed.
End get.

(** ** Witness *)
Import ToyStore.

(** A requester with one address; the holder's host is [toy_Node]. *)
Definition requester_node : Node :=
  {| node_ID := "r"; node_Addrs _ := ["/ip4/10.0.0.7/tcp/4001"]; node_Connectedness _ _ := Connected;
     node_ConnsToPeer _ _ := ["/ip4/1.2.3.4"]; node_Protocols _ _ := Ok [StorageProtocolID];
     NewMultiaddr a := Ok a; AddrInfoFromP2pAddr a := Ok {| ai_ID := a; ai_Addrs := [a] |}; peer_Decode s := Ok s |}.

Lemma get_from_holder_witness :
  let key := "0123456789abcdef" in
  let a1 := (RegisterTransferWaiter (NewFileServer (∅ : gmap string bytes)) key).1 in
  exists w a2 received g2 out,
    handleIncomingStream a1 "b" (Stream [w] EOF) = Some (a2, [x01])
    /\ get_command (fun _ => FS ∅ []) (fun _ f => f) (NewFileServer (∅ : gmap string bytes)) key "out.txt" (Some 1)
         (Some a2) (map inr received) = Exits g2 out None
    /\ os_ReadFile g2 "out.txt" = Ok [x62; x63].
Proof.
  intros key a1. destruct (os_Create (FS ∅ []) "out.txt") as [g1 [p|]] eqn:Hc; [|discriminate Hc].
  destruct (get_from_holder requester_node toy_Node Protocol.DefaultConfig (NewFileServer ∅)
    (NewFileServer ({[ key := [x62; x63] ]} : gmap string bytes)) ∅ {[ key := [x62; x63] ]} key [x62; x63] "message-1"
    ["b"] 0 "c" 2 0 [] ["c"] (fun _ _ => 0%nat) 0 {| HolePunchWait := 0 |} "r" "/ip4/10.0.0.7/tcp/4001/p2p/r" []
    {| ai_ID := "/ip4/10.0.0.7/tcp/4001/p2p/r"; ai_Addrs := ["/ip4/10.0.0.7/tcp/4001/p2p/r"] |} toy_rl 0 one_slot "b"
    (fun b => [b]) EOF 5 0 None) as (_ & _ & b1 & evs & w & _ & _ & _ & a2 & published & Hin & _ & Hget).
  - reflexivity.
  - apply NewFileServer_waiters_ok.
  - reflexivity.
  - reflexivity.
  - reflexivity.
  - vm_compute. discriminate.
  - vm_compute. split; discriminate.
  - reflexivity.
  - vm_compute. split; discriminate.
  - vm_compute. reflexivity.
  - reflexivity.
  - reflexivity.
  - reflexivity.
  - reflexivity.
  - reflexivity.
  - reflexivity.
  - reflexivity.
  - intros b. apply app_nil_r.
  - vm_compute. reflexivity.
  - intros s [<-|[<-|[<-|[]]]]; vm_compute; discriminate.
  - vm_compute. discriminate.
  - destruct (Hget (FS ∅ []) g1 p (Some "out.txt") "out.txt" [] (published ++ []) 1) as (g2 & out & Hg & Hr).
    + reflexivity.
    + exact Hc.
    + reflexivity.
    + constructor.
    + reflexivity.
    + exists w, a2, (published ++ []), g2, out. split; [exact Hin|]. split; [exact Hg|exact Hr].
Defined.
