(* ===== verification/ServerSteps.v ===== *)
(** The file server as a whole: every operation that reaches it, in any order,
    keeps one invariant, and what it publishes is what the consumers of its events
    assert.

    The operations are those of FileServer, Transfer, Delivery, Connect and
    Discovery; this file puts them together. *)
From S2P Require Import Lifecycle Prelude Io GoStrings FileSys Json Event Middleware SeenMessages Protocol BlobStore FileServer.
From S2P Require Import Transfer Connect Delivery Discovery Operations Daemon CommandLine.

(** ** Operations *)
Section steps.
Context {S : Type} `{BlobStoreLaws S} `{Node} `{Host}.
Context {W : Type} `{Writer W} (open : peer_ID -> string -> result (W * (W -> stream))).
Context (cfg : Protocol.Config).
Implicit Type fs : FileServer S.

(** What reaches a server: the goroutines of [OnPeerConnect] and the loop of
    disconnections, the session and the waiters, messages and the goroutines they
    start, transfers that come in, files stored and sent out, and what the
    notifier and the discovery services publish on its bus. *)
Inductive server_op :=
| OpPeerConnect (now : time) (id : peer_ID) (conn : string)
| OpPeerAdd (id : peer_ID) (conn : string)                 (* the second half of [OnPeerConnect], tested before *)
| OpPeerDisconnect (now : time) (id : peer_ID)
| OpSetSession (name : string)
| OpClearSession
| OpRegister (key : string)
| OpMessage (from : peer_ID) (msg : any_message)
| OpProcessGet (now : time) (seen_order : list (string * time)) (order : list peer_ID) (intn : nat -> nat -> nat)
    (sender : peer_ID) (payload : GetFilePayload)
| OpIncoming (from : peer_ID) (s : stream)
| OpStoreFile (f : fs) (peers : list peer_ID) (key filePath : string) (replicationFactor : Z)
| OpConnectToPeer (fuel : nat) (ctx : context) (now : time) (multiaddr : string)
| OpDeliver (fuel : nat) (now : time) (opts : ConnectOpts) (payload : GetFilePayload)
| OpConnected (id : peer_ID) (conn : string)
| OpDisconnected (id : peer_ID) (conn : string)
| OpDiscovered (info : AddrInfo).

(** [None]: a panic. *)
Definition run_server_op fs (op : server_op) : option (FileServer S) :=
  match op with
  | OpPeerConnect now id conn => Some (OnPeerConnect fs now id conn)
  | OpPeerAdd id conn => Some (connect_add fs id conn)
  | OpPeerDisconnect now id => OnPeerDisconnect fs now id
  | OpSetSession name => Some (SetSession fs name)
  | OpClearSession => Some (ClearSession fs)
  | OpRegister key => Some (RegisterTransferWaiter fs key).1
  | OpMessage from msg => Some (Handle (fs, []) from msg).1.1
  | OpProcessGet now so order intn sender payload => option_map fst (processGet fs now so order intn sender payload)
  | OpIncoming from s => option_map fst (handleIncomingStream fs from s)
  | OpStoreFile f peers key filePath rf => Some (StoreFile open cfg fs f peers key filePath rf).1
  | OpConnectToPeer fuel ctx now addr => Some (add_events fs (published (ConnectToPeer fuel ctx now addr)))
  | OpDeliver fuel now opts payload =>
      Some (add_events fs (delivery_events (deliverToRequester open cfg fuel fs now opts payload)))
  | OpConnected id conn => Some (add_events fs [Connected_event id conn])
  | OpDisconnected id conn => Some (add_events fs [Disconnected_event id conn])
  | OpDiscovered info => Some (add_events fs [discovered info])
  end.

Fixpoint run_server fs (ops : list server_op) : option (FileServer S) :=
  match ops with [] => Some fs | op :: ops => fs ← run_server_op fs op; run_server fs ops end.

(** ** The invariant *)

(** The table of peers, the tags and the registrations published agree; the
    waiters' channels are open and distinct; every event published is well typed;
    the store is a map. *)
Record server_ok fs : Prop := {
  so_started : fs_started fs = true;
  so_registry : registry_ok fs;
  so_waiters : waiters_ok fs;
  so_events : Forall well_typed (fs_events fs);
  so_store : exists m, holds_map m (fs_store fs);
}.

(** An event that is no registration. *)
Definition neutral (e : Event) : Prop := well_typed e /\ forall id, Event.Data e <> StoragePeerEvent id.

Lemma publish_ok fs ty d : server_ok fs -> neutral (event_of ty d) -> server_ok (publish fs ty d).
Proof.
  intros [Hs Hr Hw He Hm] [Ht Hd]. split; [done|by apply publish_registry| |apply Forall_app; by split; [|constructor]|done].
  by destruct Hw; split.
Qed.

Lemma add_events_ok fs evs : server_ok fs -> Forall neutral evs -> server_ok (add_events fs evs).
Proof.
  intros Hok Hevs. revert fs Hok. unfold add_events. induction Hevs as [|[ty r d] evs He _ IH]; intros fs Hok; [done|].
  apply IH. by apply publish_ok.
Qed.

(** What connecting publishes. *)
Lemma neutral_discovered info : neutral (discovered info).
Proof. split; [by left|done]. Qed.

Lemma neutral_discovery evs : Forall is_discovery evs -> Forall neutral evs.
Proof. intros Hf. eapply Forall_impl; [exact Hf|]. intros e [info ->]. apply neutral_discovered. Qed.

Lemma delivery_neutral fuel fs now opts payload :
  Forall neutral (delivery_events (deliverToRequester open cfg fuel fs now opts payload)).
Proof.
  destruct (deliverToRequester open cfg fuel fs now opts payload) as [|t evs sent] eqn:E; [constructor|].
  apply delivery_done in E as (found & Hf & [[-> _]|[-> _]]); cbn; [|by apply neutral_discovery].
  apply Forall_app. split; [by apply neutral_discovery|]. constructor; [by split; [left|]|constructor].
Qed.

(** ** Every operation keeps it *)
Lemma server_ok_same fs fs' :
  server_ok fs -> fs_started fs' = fs_started fs -> fs_peers fs' = fs_peers fs -> fs_tagged fs' = fs_tagged fs ->
  fs_events fs' = fs_events fs -> waiters_ok fs' -> (exists m, holds_map m (fs_store fs')) -> server_ok fs'.
Proof.
  intros [Hs Hr _ He _] E1 E2 E3 E4 Hw Hm. split; rewrite ?E1, ?E4; try done.
  unfold registry_ok. by rewrite E1, E2, E3, E4.
Qed.

Lemma with_store_ok fs st : server_ok fs -> (exists m, holds_map m st) -> server_ok (with_store fs st).
Proof. intros Hok Hm. apply (server_ok_same fs); try done. by destruct (so_waiters _ Hok); split. Qed.

Lemma connect_add_ok fs id conn : server_ok fs -> server_ok (connect_add fs id conn).
Proof.
  intros Hok. pose proof Hok as [Hs Hr Hw He Hm].
  assert (registry_ok (connect_add fs id conn)) as Hr'.
  { pose proof (OnPeerConnect_ok (H := net_node (fun _ => true) {[ id := 1%nat ]}) fs 0 id conn Hr) as Hc.
    rewrite OnPeerConnect_two_steps in Hc. revert Hc. unfold connect_check. rewrite Hs.
    rewrite (proj2 (net_linked _ _ _ _)) by (exists 0%nat; apply lookup_singleton_eq).
    cbn [andb node_Protocols net_node]. by rewrite bool_decide_true by left. }
  unfold connect_add in *. destruct (fs_peers fs !! id); [done|].
  split; [done|done|by destruct Hw; split| |done].
  apply Forall_app. split; [done|]. constructor; [|done]. by left.
Qed.

Lemma disconnect_ok fs now id : server_ok fs -> exists fs', OnPeerDisconnect fs now id = Some fs' /\ server_ok fs'.
Proof.
  intros Hok. pose proof Hok as [Hs Hr Hw He Hm]. destruct (OnPeerDisconnect_ok fs now id Hr) as (fs' & Hd & Hr').
  exists fs'. split; [done|]. revert Hd. unfold OnPeerDisconnect.
  destruct (fs_started fs && linked now id); [by intros [= <-]|].
  destruct (fs_peers fs !! id); [|by intros [= <-]]. rewrite Hs. intros [= <-].
  split; [done|done|by destruct Hw; split| |done].
  apply Forall_app. split; [done|]. constructor; [|done]. right. by left.
Qed.

Lemma processGet_ok fs now so order intn sender payload :
  server_ok fs -> exists fs' gs, processGet fs now so order intn sender payload = Some (fs', gs) /\ server_ok fs'.
Proof.
  intros Hok. unfold processGet. destruct (See (fs_seen fs) now so (gf_MsgID payload)) as [seen new].
  assert (server_ok (with_seen fs seen)) as Hok1.
  { apply (server_ok_same fs); try done; [by destruct (so_waiters _ Hok); split|apply Hok]. }
  destruct new; cbn [negb]; [|by eexists _, _]. case_match.
  { eexists _, _. split; [done|]. apply publish_ok; [done|]. by split; [left|]. }
  match goal with |- context [publish ?a ?b ?c] => assert (server_ok (publish a b c)) as Hok2
    by (apply publish_ok; [done|]; by split; [left|]) end.
  case_match; [by eexists _, _|].
  destruct (Select_some intn order sender 10) as (r & -> & _); [done|]. by eexists _, _.
Qed.

Lemma incoming_ok fs from s :
  server_ok fs -> exists fs' reply, handleIncomingStream fs from s = Some (fs', reply) /\ server_ok fs'.
Proof.
  intros Hok. pose proof Hok as [Hs Hr Hw He [m Hm]].
  destruct (incoming_any fs m from s Hw Hm) as (fs' & reply & Hi & Hc). exists fs', reply. split; [done|].
  destruct Hc as [->|(key & size & rest & fin & e & Hc)]; [done|].
  assert (exists content data ty d err, received fs fs' m from key size content data (ty, d) err /\ neutral (event_of ty d))
    as (content & data & ty & d & err & Hrc & Hn).
  { case_decide; destruct Hc as [_ Hc]; eexists _, _, _, _, _; (split; [exact Hc|]); by split; [left|]. }
  destruct (rc_events _ _ _ _ _ _ _ _ _ _ Hrc) as (ns & _ & Hev).
  destruct (rc_peers _ _ _ _ _ _ _ _ _ _ Hrc) as (Ep & Et & Es).
  assert (server_ok (add_events fs (event_of FileReceiveStarted (ReceiveStartedData key size from)
    :: progress_events key size ns ++ [event_of ty d]))) as Hadd.
  { apply add_events_ok; [done|]. constructor; [by split; [left|]|]. apply Forall_app. split; [|by constructor].
    unfold progress_events. apply Forall_map, Forall_forall. intros n _. by split; [left|]. }
  destruct (add_events_fields fs (event_of FileReceiveStarted (ReceiveStartedData key size from)
    :: progress_events key size ns ++ [event_of ty d])) as (_ & _ & _ & _ & _ & Ea).
  destruct (add_events_peers fs (event_of FileReceiveStarted (ReceiveStartedData key size from)
    :: progress_events key size ns ++ [event_of ty d])) as (Ea1 & Ea2 & Ea3).
  eapply (server_ok_same _ fs' Hadd); rewrite ?Ea, ?Ea1, ?Ea2, ?Ea3; try done.
  - rewrite Hev. f_equal. cbn. f_equal. rewrite map_app. f_equal. unfold progress_events. rewrite map_map.
    by apply map_ext.
  - apply Hrc.
  - eexists. apply Hrc.
Qed.

Lemma StoreFile_ok fs f peers key filePath rf :
  server_ok fs -> server_ok (StoreFile open cfg fs f peers key filePath rf).1.
Proof.
  intros Hok. unfold StoreFile. case_match; [done|]. destruct (os_Stat f filePath) as [[p n]|]; [|done].
  destruct (so_store _ Hok) as [m Hm].
  assert (forall r : stream, server_ok (with_store fs (bs_Write (fs_store fs) key r).1.1)) as Hw.
  { intros r. apply with_store_ok; [done|]. destruct (decide (rd_end r = EOF)) as [He|He].
    - destruct (bs_Write_ok m (fs_store fs) key _ _ _ r Hm He) as (st & r' & -> & Hm' & _). eauto.
    - destruct (bs_Write_fails m (fs_store fs) key _ _ _ r Hm He) as (st & r' & e & -> & Hm' & _). eauto. }
  match goal with |- context [bs_Write _ _ ?r] => specialize (Hw r) end.
  destruct (bs_Write _ _ _) as [[st r'] written]. by destruct written.
Qed.

Lemma run_server_op_ok fs op : server_ok fs -> exists fs', run_server_op fs op = Some fs' /\ server_ok fs'.
Proof.
  intros Hok. destruct op; cbn [run_server_op].
  - eexists. split; [done|]. rewrite OnPeerConnect_two_steps. case_match; [by apply connect_add_ok|done].
  - eexists. split; [done|]. by apply connect_add_ok.
  - by apply disconnect_ok.
  - eexists. split; [done|]. apply (server_ok_same fs); try done; [by destruct (so_waiters _ Hok); split|apply Hok].
  - eexists. split; [done|]. apply (server_ok_same fs); try done; [by destruct (so_waiters _ Hok); split|apply Hok].
  - eexists. split; [done|]. apply (server_ok_same fs); try done; [apply register_ok; apply Hok|apply Hok].
  - eexists. split; [done|]. cbn. by destruct (handleMessage fs from msg).
  - destruct (processGet_ok fs now seen_order order intn sender payload Hok) as (fs' & gs & -> & Hok').
    by exists fs'.
  - destruct (incoming_ok fs from s Hok) as (fs' & reply & -> & Hok'). by exists fs'.
  - eexists. split; [done|]. by apply StoreFile_ok.
  - eexists. split; [done|]. apply add_events_ok; [done|]. apply neutral_discovery, published_connect.
  - eexists. split; [done|]. apply add_events_ok; [done|]. apply delivery_neutral.
  - eexists. split; [done|]. apply add_events_ok; [done|]. constructor; [by split; [left|]|done].
  - eexists. split; [done|]. apply add_events_ok; [done|]. constructor; [by split; [right; left|]|done].
  - eexists. split; [done|]. apply add_events_ok; [done|]. constructor; [apply neutral_discovered|done].
Qed.

(** A server as [Start] leaves it. *)
Lemma started_ok st m : holds_map m st -> server_ok (node_started (NewFileServer st)).
Proof.
  intros Hm. split; [done| |by split; cbn; intros; rewrite ?lookup_empty in *|constructor|by exists m].
  split; [cbn; by rewrite dom_empty_L|]. split; [cbn; by rewrite dom_empty_L|]. split; [done|].
  cbn. intros id p. by rewrite lookup_empty.
Qed.

Lemma run_server_ok fs ops : server_ok fs -> exists fs', run_server fs ops = Some fs' /\ server_ok fs'.
Proof.
  revert fs. induction ops as [|op ops IH]; intros fs Hok; cbn [run_server]; [by exists fs|].
  destruct (run_server_op_ok fs op Hok) as (fs1 & -> & Hok1). by apply IH.
Qed.

End steps.

(** ** What the consumers make of the events *)
Lemma WaitForGet_safe key evs :
  Forall well_typed evs -> Forall ends_transfer evs -> WaitForGet key (map inr evs) <> Panics.
Proof.
  induction 1 as [|[ty r d] evs Ht _ IH]; [done|]. intros [He Hevs]%Forall_cons. specialize (IH Hevs).
  destruct He as [He|He]; cbn in He; subst ty; well_typed_data Ht d;
    cbn [map WaitForGet Event.Type_ Event.Data]; by repeat case_match.
Qed.

Lemma receive_events_safe error_text bars evs :
  Forall well_typed evs -> Forall (fun e => Event.Type_ e ∈ receive_types) evs ->
  is_Some (receive_events error_text bars evs).
Proof.
  intros Ht. revert bars. induction Ht as [|[ty r d] evs Ht _ IH]; intros bars Hr; [by eexists|].
  apply Forall_cons in Hr as [Hty Hr]. cbn [Event.Type_] in Hty.
  assert (exists bars' line, receive_event error_text bars {| Event.Type_ := ty; RequestID := r; Event.Data := d |}
    = Some (bars', line)) as (bars' & line & Hev).
  { unfold receive_types in Hty. rewrite !elem_of_cons, elem_of_nil in Hty.
    destruct Hty as [->|[->|[->|[->|[]]]]]; well_typed_data Ht d;
      unfold receive_event; cbn [Event.Type_ Event.Data];
      repeat (rewrite decide_False by done || rewrite decide_True by done); try by eexists _, _.
    destruct (shortened_some key) as [k ->]. by eexists _, _. }
  cbn [receive_events]. rewrite Hev. cbn. destruct (IH bars' Hr) as [[b l] ->]. by eexists.
Qed.

Lemma listen_safe evs :
  Forall well_typed evs -> Forall (fun e => Event.Type_ e = PeerDiscovered) evs -> is_Some (listen evs).
Proof.
  induction 1 as [|[ty r d] evs Ht _ IH]; [by eexists|]. intros [He Hevs]%Forall_cons. cbn in He. subst ty.
  well_typed_data Ht d. cbn. destruct (IH Hevs) as [l ->]. by eexists.
Qed.

(** The daemon only stumbles over short message ids. *)
Lemma daemon_line_short e :
  well_typed e -> daemon_line e = None ->
  exists msgID key, zlen (bytes_of_string msgID) < 8
    /\ (Event.Data e = GetDeliveredData msgID key \/ exists ttl, Event.Data e = GetReceivedData msgID key ttl).
Proof.
  destruct e as [ty r d]. unfold daemon_line. cbn [Event.Type_ Event.Data]. intros Ht.
  assert (forall s, short_id s = None -> zlen (bytes_of_string s) < 8) as Hs.
  { intros s. unfold short_id, go_slice. case_decide; [done|]. intros _. pose proof (zlen_nonneg (bytes_of_string s)). lia. }
  repeat case_decide; subst; try done; well_typed_data Ht d;
    destruct (shortened_some key) as [k ->]; cbn [mbind option_bind].
  - destruct (short_id msgID) eqn:E; [done|]. intros _. exists msgID, key. eauto.
  - by destruct (shortened_some requesterID) as [k' ->].
  - destruct (short_id msgID) eqn:E; [done|]. intros _. exists msgID, key. eauto.
Qed.

(** ** Properties *)
Section properties.
Context {S : Type} `{BlobStoreLaws S} `{Node} `{Host}.
Context {W : Type} `{Writer W} (open : peer_ID -> string -> result (W * (W -> stream))).
Context (cfg : Protocol.Config).

(** [C8] The server never panics and stays consistent.  Start a server on a store
    and let anything reach it, any number of times and in any order: connections
    and disconnections (with the two halves of [OnPeerConnect] apart), sessions,
    waiters, any message, any bytes on a transfer stream, GET requests, files
    stored and delivered, events of the notifier and of discovery.  No operation
    panics; the tagged peers are those of the table, and a listener that replays
    the registrations ends with them; every waiter's channel is open and empty;
    every event published carries the struct of its type; and the store is still
    a map. *)
Theorem server_stays_consistent st m ops (Hm : holds_map m st) :
  exists fs, run_server open cfg (node_started (NewFileServer st)) ops = Some fs
    /\ fs_tagged fs = dom (fs_peers fs) /\ track (fs_events fs) ∅ = Some (dom (fs_peers fs))
    /\ (forall key chs ch, fs_waiters fs !! key = Some chs -> ch ∈ chs ->
         fs_chans fs !! ch = Some {| w_val := None; w_closed := false |})
    /\ Forall well_typed (fs_events fs) /\ exists m', holds_map m' (fs_store fs).
Proof.
  destruct (run_server_ok open cfg _ ops (started_ok st m Hm)) as (fs & Hr & [_ (Ht & Htr & _) Hw He Hst]).
  exists fs. split; [done|]. do 2 (split; [done|]). split; [|done]. intros key chs ch. by apply (wo_open _ Hw).
Qed.

(** [C9] Publishers and consumers agree on the types.  Take any of the events such
    a server has published, in any order and with any repetitions, as they come
    out of the channels a consumer subscribed to: no type assertion fails in the
    loop of [get], in [WaitForGet], in the callback of [receive], in the network
    manager's [listen], or in the loops of [Start]; the daemon's callback panics
    on an event only if the message id in it has fewer than eight bytes. *)
Theorem consumers_never_panic st m ops fs evs (Hm : holds_map m st)
    (Hrun : run_server open cfg (node_started (NewFileServer st)) ops = Some fs)
    (Hevs : Forall (fun e => e ∈ fs_events fs) evs) :
  (Forall (fun e => Event.Type_ e ∈ receive_types) evs ->
     (forall key bar, get_loop key bar (map inr evs) <> LoopPanics)
     /\ (forall error_text bars, is_Some (receive_events error_text bars evs)))
  /\ (Forall ends_transfer evs -> forall key, WaitForGet key (map inr evs) <> Panics)
  /\ (Forall (fun e => Event.Type_ e = PeerDiscovered) evs -> is_Some (listen evs))
  /\ (forall e, e ∈ evs -> Event.Type_ e = PeerConnected \/ Event.Type_ e = PeerDisconnected ->
       exists id conn, Event.Data e = PeerEvent id conn)
  /\ (forall e, e ∈ evs -> daemon_line e = None -> exists msgID key, zlen (bytes_of_string msgID) < 8
       /\ (Event.Data e = GetDeliveredData msgID key \/ exists ttl, Event.Data e = GetReceivedData msgID key ttl)).
Proof.
  destruct (run_server_ok open cfg _ ops (started_ok st m Hm)) as (fs' & Hr & Hok).
  rewrite Hrun in Hr. injection Hr as <-.
  assert (Forall well_typed evs) as Ht.
  { pose proof (so_events _ Hok) as He. rewrite !Forall_forall in *. auto. }
  pose proof Ht as Hwt. rewrite Forall_forall in Hwt. split_and!.
  - intros Hr. split; [|intros; by apply receive_events_safe].
    intros key bar. by apply get_loop_waits.
  - intros He key. by apply WaitForGet_safe.
  - by apply listen_safe.
  - intros [ty r d] He%Hwt Hty. cbn in Hty. destruct Hty as [->| ->]; well_typed_data He d; by eexists _, _.
  - intros e He. apply daemon_line_short. by apply Hwt.
Qed.
End properties.

(** ** Witnesses *)
Import ToyStore.

#[local] Instance no_host : Host := {| host_NewStream _ _ := Err (Errorf "no route") |}.

(** A peer is found, connects, sends a file and asks for another one. *)
Definition toy_ops : list server_op :=
  [OpDiscovered {| ai_ID := "p"; ai_Addrs := ["a"] |}; OpConnected "p" "c"; OpPeerConnect 0 "p" "c"; OpRegister "x";
   OpIncoming "p" (Stream [wire_header "x" 1; [x62]] EOF);
   OpProcessGet 0 [] ["p"] (fun _ _ => 0%nat) "p"
     {| gf_Key := "y"; gf_MsgID := "message-1"; gf_TTL := 1; gf_RequesterID := "r"; gf_RequesterAddrs := [] |};
   OpDisconnected "p" "c"].

Abbreviation toy_run :=
  (run_server no_open Protocol.DefaultConfig (node_started (NewFileServer ({[ "k" := [x61] ]} : gmap string bytes))) toy_ops).

Example toy_run_events :
  option_map (fun fs => map Event.Type_ (fs_events fs)) toy_run
  = Some [PeerDiscovered; PeerConnected; StoragePeerRegistered; FileReceiveStarted; FileReceiveProgress;
          FileReceiveComplete; GetReceived; PeerDisconnected].
Proof. vm_compute. reflexivity. Qed.

Lemma server_stays_consistent_witness :
  exists fs, toy_run = Some fs /\ fs_tagged fs = dom (fs_peers fs) /\ Forall well_typed (fs_events fs).
Proof.
  destruct (server_stays_consistent no_open Protocol.DefaultConfig {[ "k" := [x61] ]} {[ "k" := [x61] ]} toy_ops)
    as (fs & Hr & Ht & _ & _ & Hw & _); [reflexivity|].
  exists fs. split; [exact Hr|]. split; [exact Ht|exact Hw].
Defined.

Lemma consumers_never_panic_witness :
  exists fs, toy_run = Some fs
    /\ is_Some (listen (filter (fun e => Event.Type_ e = PeerDiscovered) (fs_events fs)))
    /\ forall e, e ∈ filter (fun e => Event.Type_ e = PeerDiscovered) (fs_events fs) ->
         daemon_line e = None -> exists msgID key, zlen (bytes_of_string msgID) < 8
         /\ (Event.Data e = GetDeliveredData msgID key \/ exists ttl, Event.Data e = GetReceivedData msgID key ttl).
Proof.
  destruct (run_server_ok no_open Protocol.DefaultConfig _ toy_ops
    (started_ok {[ "k" := [x61] ]} {[ "k" := [x61] ]} (eq_refl : holds_map (BlobStoreLaws := map_BlobStoreLaws) _ _))) as (fs & Hr & _).
  destruct (consumers_never_panic no_open Protocol.DefaultConfig {[ "k" := [x61] ]} {[ "k" := [x61] ]} toy_ops fs
    (filter (fun e => Event.Type_ e = PeerDiscovered) (fs_events fs))) as (_ & _ & Hl & _ & Hd).
  - reflexivity.
  - exact Hr.
  - apply Forall_forall. intros e [_ He]%list_elem_of_filter. exact He.
  - exists fs. split; [exact Hr|]. split; [|exact Hd]. apply Hl.
    apply Forall_forall. intros e [He _]%list_elem_of_filter. exact He.
Defined.
